(** * Document-operation engine (yb/docdb/doc_operation.cc)

    A shallow embedding of the Redis-style command engine and of the QL
    write / read operations of [doc_operation.cc], together with the
    properties of the engine that are checked against it.

    Conventions.
    - A function returning [Status] or [Result<T>] becomes a function into
      [Result]: [Ok] for [Status::OK()] or a value, [Error c] for
      [STATUS(c, ...)], [Fatal] for a process abort ([LOG(FATAL)], a failed
      [CHECK], an out-of-range protobuf access).
    - Member functions that mutate the operation (its response, the write
      batch of [DocOperationApplyData]) run in the state-and-error monad [M]:
      the state survives an error, as it does in the C++ objects.
    - [int64_t] values are [Z] with the wrap-around written out ([wrap64]).
    - Code outside [doc_operation.cc] (the store, the write batch, iterators,
      the expression evaluator) enters as the operations of type classes. *)

From Stdlib Require Import ZArith List String Ascii Bool Lia DecimalString.
Import ListNotations.
Local Open Scope Z_scope.

Set Implicit Arguments.
Set Warnings "-register-all".
Local Open Scope bool_scope.

(* ===================================================================== *)
(** ** Status, Result and the operation monad                             *)
(* ===================================================================== *)

Inductive StatusCode : Set :=
| Corruption | InvalidArgument | IllegalState | InvalidCommand
| NotSupported | QLError | InternalError | IOError | TryAgain | NotFound.

Inductive Result (A : Type) : Type :=
| Ok (a : A)
| Error (c : StatusCode)
| Fatal.

Arguments Ok {A} a.
Arguments Error {A} c.
Arguments Fatal {A}.

Definition is_ok {A} (r : Result A) : bool :=
  match r with Ok _ => true | _ => false end.

(** [M S A]: a computation over the mutable state [S] that yields an [A],
    fails with a status, or aborts; the state is returned in every case. *)
Definition M (S A : Type) : Type := S -> Result A * S.

Definition ret {S A} (a : A) : M S A := fun s => (Ok a, s).

Definition bind {S A B} (m : M S A) (k : A -> M S B) : M S B :=
  fun s =>
    match m s with
    | (Ok a, s') => k a s'
    | (Error c, s') => (Error c, s')
    | (Fatal, s') => (Fatal, s')
    end.

Definition fail {S A} (c : StatusCode) : M S A := fun s => (Error c, s).
Definition abort {S A} : M S A := fun s => (Fatal, s).
Definition get_state {S} : M S S := fun s => (Ok s, s).
Definition modify {S} (f : S -> S) : M S unit := fun s => (Ok tt, f s).

(** [RETURN_NOT_OK(r)] for a result computed without touching the state. *)
Definition lift {S A} (r : Result A) : M S A := fun s => (r, s).

Declare Scope op_scope.
Delimit Scope op_scope with op.
Notation "x <- m ;; k" := (bind m (fun x => k))
  (at level 61, m at next level, right associativity) : op_scope.
Notation "m ;;; k" := (bind m (fun _ => k))
  (at level 61, right associativity) : op_scope.

(** The same, for results that carry no state. *)
Definition rbind {A B} (r : Result A) (k : A -> Result B) : Result B :=
  match r with
  | Ok a => k a
  | Error c => Error c
  | Fatal => Fatal
  end.

(** A computation that leaves a component of the state as it found it. *)
Definition preserves {S A X} (component : S -> X) (m : M S A) : Prop :=
  forall s, component (snd (m s)) = component s.

(** [m] takes every state [s] to a state related to [s] by [R]. *)
Definition respects {S A} (R : S -> S -> Prop) (m : M S A) : Prop :=
  forall s, R s (snd (m s)).

(* ===================================================================== *)
(** ** 64-bit integers and the C++ library calls of [ApplyIncr]           *)
(* ===================================================================== *)

Definition INT64_MIN : Z := - 2 ^ 63.
Definition INT64_MAX : Z := 2 ^ 63 - 1.

Definition in_int64 (z : Z) : bool := (INT64_MIN <=? z) && (z <=? INT64_MAX).

(** Two's-complement wrap-around of an [int64_t] result. *)
Definition wrap64 (z : Z) : Z := (z + 2 ^ 63) mod 2 ^ 64 - 2 ^ 63.

(** [std::stoll(str)] (base 10, "C" locale), as the C++ standard defines it
    through [strtoll]: leading white space is skipped, one optional sign is
    read, then the longest run of decimal digits; what follows the digits is
    ignored.  No digit at all throws [std::invalid_argument]; a value outside
    [long long] throws [std::out_of_range]. *)
Inductive StollResult : Set :=
| StollValue (v : Z)
| invalid_argument
| out_of_range.

Definition isspace (c : ascii) : bool :=
  let n := nat_of_ascii c in
  (Nat.eqb n 32 || (Nat.leb 9 n && Nat.leb n 13))%bool.

Definition digit_value (c : ascii) : option Z :=
  let n := Z.of_nat (nat_of_ascii c) in
  if (48 <=? n) && (n <=? 57) then Some (n - 48) else None.

Fixpoint skip_spaces (s : string) : string :=
  match s with
  | String c r => if isspace c then skip_spaces r else s
  | EmptyString => s
  end.

(** The digits read so far are in [acc]; [seen] tells whether there was one. *)
Fixpoint read_digits (s : string) (acc : Z) (seen : bool) : option Z :=
  match s with
  | String c r =>
      match digit_value c with
      | Some d => read_digits r (10 * acc + d) true
      | None => if seen then Some acc else None
      end
  | EmptyString => if seen then Some acc else None
  end.

Definition stoll (str : string) : StollResult :=
  let s := skip_spaces str in
  let '(negative, digits) :=
    match s with
    | String "-" r => (true, r)
    | String "+" r => (false, r)
    | _ => (false, s)
    end in
  match read_digits digits 0 false with
  | None => invalid_argument
  | Some n =>
      let v := if negative then - n else n in
      if in_int64 v then StollValue v else out_of_range
  end.

(** [std::to_string(long long)]: the decimal form, with ["-"] when negative. *)
Definition to_string (v : Z) : string := NilZero.string_of_int (Z.to_int v).

(** The string is the decimal form of a signed 64-bit integer: an optional
    sign, then digits and nothing else, the number within [int64_t]. *)
Definition is_int64_number (str : string) : bool :=
  let digits :=
    match str with
    | String "-" r => r
    | String "+" r => r
    | _ => str
    end in
  negb (String.eqb digits EmptyString)
  && forallb (fun c => match digit_value c with Some _ => true | None => false end)
       (list_ascii_of_string digits)
  && match stoll str with StollValue _ => true | _ => false end.

Arguments wrap64 : simpl never.
Arguments INT64_MIN : simpl never.
Arguments INT64_MAX : simpl never.
Arguments in_int64 : simpl never.
Arguments stoll : simpl never.
Arguments to_string : simpl never.

(* ===================================================================== *)
(** ** The Redis command engine                                           *)
(* ===================================================================== *)

Module Redis.

Inductive RedisDataType : Set :=
| REDIS_TYPE_NONE | REDIS_TYPE_STRING | REDIS_TYPE_LIST | REDIS_TYPE_SET
| REDIS_TYPE_HASH | REDIS_TYPE_SORTEDSET | REDIS_TYPE_TIMESERIES.

Definition RedisDataType_eqb (a b : RedisDataType) : bool :=
  match a, b with
  | REDIS_TYPE_NONE, REDIS_TYPE_NONE
  | REDIS_TYPE_STRING, REDIS_TYPE_STRING
  | REDIS_TYPE_LIST, REDIS_TYPE_LIST
  | REDIS_TYPE_SET, REDIS_TYPE_SET
  | REDIS_TYPE_HASH, REDIS_TYPE_HASH
  | REDIS_TYPE_SORTEDSET, REDIS_TYPE_SORTEDSET
  | REDIS_TYPE_TIMESERIES, REDIS_TYPE_TIMESERIES => true
  | _, _ => false
  end.

(** [RedisResponsePB_RedisStatusCode_*]. *)
Inductive RedisStatusCode : Set :=
| RedisStatusCode_OK
| RedisStatusCode_NOT_FOUND
| RedisStatusCode_WRONG_TYPE
| RedisStatusCode_INDEX_OUT_OF_BOUNDS.

(** The tags of [docdb::ValueType] that [doc_operation.cc] names. *)
Inductive ValueType : Set :=
| kInvalidValueType | kTombstone | kObject | kArray
| kRedisSet | kRedisTS | kRedisSortedSet
| kNull | kString | kStringDescending
| kInt64 | kInt64Descending | kDouble | kDoubleDescending
| kCounter | kSSForward | kSSReverse.

Definition ValueType_eq_dec (a b : ValueType) : {a = b} + {a <> b}.
Proof. decide equality. Defined.

Definition ValueType_eqb (a b : ValueType) : bool :=
  if ValueType_eq_dec a b then true else false.

(** [SortedSetOptionsPB_UpdateOptions_*] and [RedisWriteMode]. *)
Inductive UpdateOptions : Set :=
| UpdateOptions_NX | UpdateOptions_XX | UpdateOptions_NONE.

Inductive RedisWriteMode : Set :=
| REDIS_WRITEMODE_UPSERT | REDIS_WRITEMODE_INSERT | REDIS_WRITEMODE_UPDATE.

Definition RedisWriteMode_eqb (a b : RedisWriteMode) : bool :=
  match a, b with
  | REDIS_WRITEMODE_UPSERT, REDIS_WRITEMODE_UPSERT
  | REDIS_WRITEMODE_INSERT, REDIS_WRITEMODE_INSERT
  | REDIS_WRITEMODE_UPDATE, REDIS_WRITEMODE_UPDATE => true
  | _, _ => false
  end.

(** [RedisResponsePB]: every field is optional. *)
Record RedisResponsePB : Type := {
  code : option RedisStatusCode;
  int_response : option Z;
  string_response : option string;
  error_message : option string
}.

Definition empty_response : RedisResponsePB :=
  {| code := None; int_response := None; string_response := None;
     error_message := None |}.

Definition set_code (c : RedisStatusCode) (r : RedisResponsePB) :=
  {| code := Some c; int_response := int_response r;
     string_response := string_response r; error_message := error_message r |}.

Definition set_int_response (v : Z) (r : RedisResponsePB) :=
  {| code := code r; int_response := Some v;
     string_response := string_response r; error_message := error_message r |}.

Definition set_string_response (v : string) (r : RedisResponsePB) :=
  {| code := code r; int_response := int_response r;
     string_response := Some v; error_message := error_message r |}.

Definition set_error_message (v : string) (r : RedisResponsePB) :=
  {| code := code r; int_response := int_response r;
     string_response := string_response r; error_message := Some v |}.

(** Set response based on the type match. Return whether the type matches
    what's expected.  [verify_success_if_missing] defaults to [false]. *)
Definition VerifyTypeAndSetCode (expected_type actual_type : RedisDataType)
    (verify_success_if_missing : bool) (response : RedisResponsePB)
  : bool * RedisResponsePB :=
  if RedisDataType_eqb actual_type REDIS_TYPE_NONE then
    if verify_success_if_missing
    then (verify_success_if_missing, set_code RedisStatusCode_OK response)
    else (verify_success_if_missing, set_code RedisStatusCode_NOT_FOUND response)
  else if negb (RedisDataType_eqb actual_type expected_type) then
    (false, set_code RedisStatusCode_WRONG_TYPE response)
  else
    (true, set_code RedisStatusCode_OK response).

Definition SetOptionalInt4 (type : RedisDataType) (value none_value : Z)
    (response : RedisResponsePB) : RedisResponsePB :=
  set_int_response
    (if RedisDataType_eqb type REDIS_TYPE_NONE then none_value else value)
    response.

Definition SetOptionalInt (type : RedisDataType) (value : Z)
    (response : RedisResponsePB) : RedisResponsePB :=
  SetOptionalInt4 type value 0 response.

(** C++ [double]: only its comparison, its sum and the protobuf default
    are used, and only on sorted-set scores.  [double_eq_dec] is identity
    of the value as a key of a container; [double_ne] is [operator!=]. *)
Class DoubleOps : Type := {
  double : Type;
  double_eq_dec : forall x y : double, {x = y} + {x <> y};
  double_ne : double -> double -> bool;
  double_add : double -> double -> double;
  double_zero : double
}.

Section Model.

Context {D : DoubleOps}.

Inductive PrimitiveValue : Type :=
| PVType (t : ValueType)        (* [PrimitiveValue(ValueType)], no payload *)
| PVString (s : string)
| PVInt64 (v : Z)
| PVInt64Descending (v : Z)
| PVDouble (d : double).

Definition PrimitiveValue_eq_dec (a b : PrimitiveValue) : {a = b} + {a <> b}.
Proof.
  decide equality;
    auto using ValueType_eq_dec, string_dec, Z.eq_dec, double_eq_dec.
Defined.

Definition pv_value_type (v : PrimitiveValue) : ValueType :=
  match v with
  | PVType t => t
  | PVString _ => kString
  | PVInt64 _ => kInt64
  | PVInt64Descending _ => kInt64Descending
  | PVDouble _ => kDouble
  end.

(** Modelled from the spec: [SubDocument] (yb/docdb/subdocument.h is not
    among the sources) is "a recursive value: either a primitive
    (string/int/double/null/tombstone) or an ordered container of
    (child-key -> SubDocument) pairs", the container carrying its
    value-type tag.  The spec stores the children "in a canonical sort
    order determined by child-key encoding"; the encoding of the keys is
    not among the sources, so the children are kept here one per key in
    the order they were added, and what is stated about a container is
    stated on lookups by key ([GetChild]) or relative to the order of
    the container that is read. *)
Inductive SubDocument : Type :=
| Primitive (v : PrimitiveValue)
| Container (t : ValueType) (children : list (PrimitiveValue * SubDocument)).

Definition value_type (d : SubDocument) : ValueType :=
  match d with
  | Primitive v => pv_value_type v
  | Container t _ => t
  end.

Definition IsPrimitive (d : SubDocument) : bool :=
  match d with Primitive _ => true | Container _ _ => false end.

Definition object_container (d : SubDocument) :=
  match d with Primitive _ => [] | Container _ kids => kids end.

Definition object_num_keys (d : SubDocument) : nat :=
  List.length (object_container d).

(** [SubDocument()] is an empty [kObject]; [SubDocument(ValueType)] for
    the tags used here ([kTombstone]) is a primitive of that tag. *)
Definition SubDocument_default : SubDocument := Container kObject [].

Definition is_container_type (t : ValueType) : bool :=
  match t with
  | kObject | kArray | kRedisSet | kRedisTS | kRedisSortedSet => true
  | _ => false
  end.

Definition SubDocument_of_type (t : ValueType) : SubDocument :=
  if is_container_type t then Container t [] else Primitive (PVType t).

Fixpoint assoc_get {V} (k : PrimitiveValue) (l : list (PrimitiveValue * V))
  : option V :=
  match l with
  | [] => None
  | (k', v) :: r => if PrimitiveValue_eq_dec k k' then Some v else assoc_get k r
  end.

Fixpoint assoc_set {V} (k : PrimitiveValue) (v : V)
    (l : list (PrimitiveValue * V)) : list (PrimitiveValue * V) :=
  match l with
  | [] => [(k, v)]
  | (k', v') :: r =>
      if PrimitiveValue_eq_dec k k' then (k, v) :: r
      else (k', v') :: assoc_set k v r
  end.

Definition GetChild (k : PrimitiveValue) (d : SubDocument) : option SubDocument :=
  assoc_get k (object_container d).

(** [SetChild]: the child under [k] is replaced, or added. *)
Definition SetChild (k : PrimitiveValue) (child : SubDocument) (d : SubDocument)
  : SubDocument :=
  match d with
  | Container t kids => Container t (assoc_set k child kids)
  | Primitive _ => Container kObject [(k, child)]
  end.

(** [GetOrAddChild(k).first]: the child under [k], a fresh [SubDocument()]
    when there was none. *)
Definition GetOrAddChild (k : PrimitiveValue) (d : SubDocument) : SubDocument :=
  match GetChild k d with
  | Some c => c
  | None => SubDocument_default
  end.

(** [ConvertToRedisTS] / [ConvertToRedisSet] / [ConvertToRedisSortedSet]:
    an object is retagged, anything else is an invalid argument. *)
Definition ConvertToCollection (t : ValueType) (d : SubDocument)
  : Result SubDocument :=
  match d with
  | Container kObject kids => Ok (Container t kids)
  | _ => Error InvalidArgument
  end.

(** [DocKey::FromRedisKey(hash_code, key)], and a [SubDocKey] / [DocPath]
    made of it and of sub-keys. *)
Record DocKey : Type := FromRedisKey { dk_hash_code : Z; dk_key : string }.

Record SubDocKey : Type := {
  doc_key : DocKey;
  subkeys : list PrimitiveValue
}.

Definition DocPath : Type := SubDocKey.

Definition DocPathFromRedisKey (hash_code : Z) (key : string) : DocPath :=
  {| doc_key := FromRedisKey hash_code key; subkeys := [] |}.

(** Protobuf messages of the request. *)
Inductive RedisKeyValueSubKeyPB : Type :=
| kStringSubkey (s : string)
| kTimestampSubkey (t : Z)
| kDoubleSubkey (d : double)
| SUBKEY_NOT_SET.

Definition has_string_subkey (s : RedisKeyValueSubKeyPB) : bool :=
  match s with kStringSubkey _ => true | _ => false end.
Definition has_timestamp_subkey (s : RedisKeyValueSubKeyPB) : bool :=
  match s with kTimestampSubkey _ => true | _ => false end.
Definition has_double_subkey (s : RedisKeyValueSubKeyPB) : bool :=
  match s with kDoubleSubkey _ => true | _ => false end.
Definition string_subkey (s : RedisKeyValueSubKeyPB) : string :=
  match s with kStringSubkey x => x | _ => EmptyString end.
Definition double_subkey (s : RedisKeyValueSubKeyPB) : double :=
  match s with kDoubleSubkey x => x | _ => double_zero end.

Record RedisKeyValuePB : Type := {
  has_key : bool;
  key : string;
  hash_code : Z;
  type : RedisDataType;
  subkey : list RedisKeyValueSubKeyPB;
  value : list string
}.

Definition subkey_size (kv : RedisKeyValuePB) : Z := Z.of_nat (List.length (subkey kv)).
Definition value_size (kv : RedisKeyValuePB) : Z := Z.of_nat (List.length (value kv)).

Record SortedSetOptionsPB : Type := {
  update_options : UpdateOptions;
  ch : bool;
  incr : bool
}.

Record RedisSetRequestPB : Type := {
  set_ttl : option Z;                     (* has_ttl / ttl, milliseconds *)
  mode : RedisWriteMode;
  expect_ok_response : bool;
  sorted_set_options : SortedSetOptionsPB
}.

(** [Value(primitive, ttl)]; [None] is [Value::kMaxTtl]. *)
Record Value : Type := {
  primitive_value : PrimitiveValue;
  value_ttl : option Z
}.

(** The calls made on the [DocWriteBatch].  The batch is the sequence of
    the calls it accepted; the query id of a call is left out. *)
Inductive WriteOp : Type :=
| SetPrimitive (path : DocPath) (v : Value)
| InsertSubDocument (path : DocPath) (d : SubDocument) (ttl : option Z)
| ExtendSubDocument (path : DocPath) (d : SubDocument) (ttl : option Z).

Definition DocWriteBatch : Type := list WriteOp.

(** The store, [rocksdb::DB] read at the operation's read time, is outside
    this file: [GetSubDocument db key return_type_only] is the result of
    the read, [None] when [doc_found] stays false. *)
Class DocStore : Type := {
  DB : Type;
  GetSubDocument : DB -> SubDocKey -> bool -> Result (option SubDocument)
}.

(** What else the engine takes from outside this file:
    - reading a member of the value union that the tag does not select;
    - [batch_status b op], the status of the call [op] on the write batch
      [b], and [LookupCache b key], the cached value type of [key];
    - the flag [emulate_redis_responses]. *)
Class Environment : Type := {
  undef_string : SubDocument -> string;
  undef_int64 : SubDocument -> Z;
  undef_double : SubDocument -> double;
  batch_status : DocWriteBatch -> WriteOp -> Result unit;
  LookupCache : DocWriteBatch -> SubDocKey -> option ValueType;
  FLAGS_emulate_redis_responses : bool
}.

Context {Store : DocStore} {Env : Environment}.

Definition GetString (d : SubDocument) : string :=
  match d with Primitive (PVString s) => s | _ => undef_string d end.

Definition GetInt64 (d : SubDocument) : Z :=
  match d with Primitive (PVInt64 v) => v | _ => undef_int64 d end.

Definition GetDouble (d : SubDocument) : double :=
  match d with Primitive (PVDouble x) => x | _ => undef_double d end.


Definition EmulateRedisResponse (data_type : RedisDataType) : bool :=
  FLAGS_emulate_redis_responses
  && negb (RedisDataType_eqb data_type REDIS_TYPE_TIMESERIES).

Definition PrimitiveValueFromSubKey (subkey_pb : RedisKeyValueSubKeyPB)
  : Result PrimitiveValue :=
  match subkey_pb with
  | kStringSubkey s => Ok (PVString s)
  | kTimestampSubkey t => Ok (PVInt64Descending t)
  | kDoubleSubkey d => Ok (PVDouble d)
  | SUBKEY_NOT_SET => Error IllegalState
  end.

Definition PrimitiveValueFromSubKeyStrict (subkey_pb : RedisKeyValueSubKeyPB)
    (data_type : RedisDataType) : Result PrimitiveValue :=
  rbind
    match data_type with
    | REDIS_TYPE_LIST | REDIS_TYPE_SET | REDIS_TYPE_HASH =>
        if negb (has_string_subkey subkey_pb) then Error InvalidArgument else Ok tt
    | REDIS_TYPE_TIMESERIES =>
        if negb (has_timestamp_subkey subkey_pb) then Error InvalidArgument else Ok tt
    | REDIS_TYPE_SORTEDSET =>
        if negb (has_double_subkey subkey_pb) then Error InvalidArgument else Ok tt
    | _ => Error IllegalState
    end
    (fun _ => PrimitiveValueFromSubKey subkey_pb).

(** [kv.subkey(i)] and [kv.value(i)]: an index out of range is fatal. *)
Definition subkey_at (kv : RedisKeyValuePB) (i : Z) : Result RedisKeyValueSubKeyPB :=
  if i <? 0 then Fatal
  else match nth_error (subkey kv) (Z.to_nat i) with
       | Some s => Ok s
       | None => Fatal
       end.

Definition value_at (kv : RedisKeyValuePB) (i : Z) : Result string :=
  if i <? 0 then Fatal
  else match nth_error (value kv) (Z.to_nat i) with
       | Some s => Ok s
       | None => Fatal
       end.

Definition GetRedisValueType (rocksdb : DB) (key_value_pb : RedisKeyValuePB)
    (doc_write_batch : option DocWriteBatch) (subkey_index : Z)
  : Result RedisDataType :=
  if negb (has_key key_value_pb) then Error Corruption else
  rbind
    (if subkey_index <? 0 then
       Ok {| doc_key := FromRedisKey (hash_code key_value_pb) (key key_value_pb);
             subkeys := [] |}
     else if subkey_index >=? subkey_size key_value_pb then Error InvalidArgument
     else
       rbind (subkey_at key_value_pb subkey_index) (fun sk =>
       rbind (PrimitiveValueFromSubKey sk) (fun subkey_primitive =>
       Ok {| doc_key := FromRedisKey (hash_code key_value_pb) (key key_value_pb);
             subkeys := [subkey_primitive] |})))
    (fun subdoc_key =>
  (* Use the cached entry if possible to determine the value type. *)
  let cached_entry :=
    match doc_write_batch with
    | Some b => LookupCache b subdoc_key
    | None => None
    end in
  rbind
    match cached_entry with
    | Some t => Ok (Some (SubDocument_of_type t))
    | None => GetSubDocument rocksdb subdoc_key true
    end
    (fun found =>
  match found with
  | None => Ok REDIS_TYPE_NONE
  | Some doc =>
      match value_type doc with
      | kInvalidValueType | kTombstone => Ok REDIS_TYPE_NONE
      | kObject => Ok REDIS_TYPE_HASH
      | kRedisSet => Ok REDIS_TYPE_SET
      | kRedisTS => Ok REDIS_TYPE_TIMESERIES
      | kRedisSortedSet => Ok REDIS_TYPE_SORTEDSET
      | kNull | kString => Ok REDIS_TYPE_STRING
      | _ => Error Corruption
      end
  end)).

Record RedisValue : Type := {
  rv_type : RedisDataType;
  rv_value : string
}.

(** [RedisValue{type}] leaves the string empty. *)
Definition RedisValue_of_type (t : RedisDataType) : RedisValue :=
  {| rv_type := t; rv_value := EmptyString |}.

Definition GetRedisValue (rocksdb : DB) (key_value_pb : RedisKeyValuePB)
    (subkey_index : Z) : Result RedisValue :=
  if negb (has_key key_value_pb) then Error Corruption else
  let doc_key0 :=
    {| doc_key := FromRedisKey (hash_code key_value_pb) (key key_value_pb);
       subkeys := [] |} in
  rbind
    match subkey key_value_pb with
    | [] => Ok doc_key0
    | _ :: _ =>
        if negb (subkey_size key_value_pb =? 1) && (subkey_index =? -1)
        then Error Corruption
        else
          rbind (subkey_at key_value_pb
                   (if subkey_index =? -1 then 0 else subkey_index)) (fun sk =>
          rbind (PrimitiveValueFromSubKey sk) (fun subkey_primitive =>
          Ok {| doc_key := doc_key doc_key0;
                subkeys := subkeys doc_key0 ++ [subkey_primitive] |}))
    end
    (fun doc_key =>
  rbind (GetSubDocument rocksdb doc_key false) (fun found =>
  match found with
  | None => Ok (RedisValue_of_type REDIS_TYPE_NONE)
  | Some doc =>
      if negb (IsPrimitive doc) then
        match value_type doc with
        | kObject => Ok (RedisValue_of_type REDIS_TYPE_HASH)
        | kRedisTS => Ok (RedisValue_of_type REDIS_TYPE_TIMESERIES)
        | kRedisSortedSet => Ok (RedisValue_of_type REDIS_TYPE_SORTEDSET)
        | kRedisSet => Ok (RedisValue_of_type REDIS_TYPE_SET)
        | _ => Error IllegalState
        end
      else Ok {| rv_type := REDIS_TYPE_STRING; rv_value := GetString doc |}
  end)).

Definition GetCardinality (rocksdb : DB) (kv : RedisKeyValuePB) : Result Z :=
  let key_card :=
    {| doc_key := FromRedisKey (hash_code kv) (key kv);
       subkeys := [PVType kCounter] |} in
  rbind (GetSubDocument rocksdb key_card false) (fun found =>
  match found with
  | Some subdoc_card => Ok (GetInt64 subdoc_card)
  | None => Ok 0
  end).

(** *** RedisReadOperation *)

(** [RedisReadOperation::ExecuteExists], on the response of the operation. *)
Definition ExecuteExists (db : DB) (key_value : RedisKeyValuePB)
  : M RedisResponsePB unit :=
  (value <- lift (GetRedisValue db key_value (-1)) ;;
   (* We only support exist command with one argument currently. *)
   modify (set_code RedisStatusCode_OK) ;;;
   modify (SetOptionalInt (rv_type value) 1) ;;;
   ret tt)%op.

(** *** RedisWriteOperation *)

(** The state a write operation mutates: its [response_] and the write
    batch of [DocOperationApplyData]. *)
Record OpState : Type := {
  response : RedisResponsePB;
  batch : DocWriteBatch
}.

Definition with_response (f : RedisResponsePB -> RedisResponsePB) : M OpState unit :=
  modify (fun s => {| response := f (response s); batch := batch s |}).

(** A call on [data.doc_write_batch]. *)
Definition write (op : WriteOp) : M OpState unit :=
  fun s =>
    match batch_status (batch s) op with
    | Ok _ => (Ok tt, {| response := response s; batch := batch s ++ [op] |})
    | Error c => (Error c, s)
    | Fatal => (Fatal, s)
    end.

Definition verify_type (expected actual : RedisDataType) (if_missing : bool)
  : M OpState bool :=
  fun s =>
    let '(b, r) := VerifyTypeAndSetCode expected actual if_missing (response s) in
    (Ok b, {| response := r; batch := batch s |}).

Definition GetValueType (db : DB) (kv : RedisKeyValuePB) (subkey_index : Z)
  : M OpState RedisDataType :=
  fun s => (GetRedisValueType db kv (Some (batch s)) subkey_index, s).

Definition GetValue (db : DB) (kv : RedisKeyValuePB) (subkey_index : Z)
  : M OpState RedisValue :=
  lift (GetRedisValue db kv subkey_index).

Definition ApplyIncr (db : DB) (kv : RedisKeyValuePB) (incr : Z) : M OpState unit :=
  (value <- GetValue db kv (-1) ;;
   ok <- verify_type REDIS_TYPE_STRING (rv_type value) false ;;
   if negb ok then
     (* We've already set the error code in the response. *)
     ret tt
   else
     match stoll (rv_value value) with
     | invalid_argument =>
         with_response (set_error_message "Can not parse incr argument as a number")
     | out_of_range =>
         with_response (set_error_message "Can not parse incr argument as a number")
     | StollValue old_value =>
         let new_value := wrap64 (old_value + incr) in
         if ((incr <? 0) && (old_value <? 0) && (incr <? INT64_MIN - old_value))
            || ((incr >? 0) && (old_value >? 0) && (incr >? INT64_MAX - old_value))
         then with_response (set_error_message "Increment would overflow")
         else
           with_response (set_int_response new_value) ;;;
           write (SetPrimitive (DocPathFromRedisKey (hash_code kv) (key kv))
                    {| primitive_value := PVString (to_string new_value);
                       value_ttl := None |})
     end)%op.

(** [for (int i = 0; i < kv.subkey_size(); i++)]: the body is run on
    [0, 1, ...] in turn and stops at the first status that is not OK. *)
Fixpoint for_each {A S} (l : list A) (body : A -> S -> Result S) (s : S)
  : Result S :=
  match l with
  | [] => Ok s
  | i :: r => rbind (body i s) (for_each r body)
  end.

Definition subkey_indices (kv : RedisKeyValuePB) : list Z :=
  map Z.of_nat (seq 0 (List.length (subkey kv))).

(** The body of the HSET / HMSET / TSADD loop of [ApplySet]. *)
Definition hash_entry (kv : RedisKeyValuePB) (i : Z) (kv_entries : SubDocument)
  : Result SubDocument :=
  rbind (subkey_at kv i) (fun subkey_i =>
  rbind (PrimitiveValueFromSubKeyStrict subkey_i (type kv)) (fun subkey_value =>
  rbind (value_at kv i) (fun value_i =>
  Ok (SetChild subkey_value (Primitive (PVString value_i)) kv_entries)))).

(** The locals of the sorted-set branch that the loop over the members
    updates. *)
Record SortedSetEntries : Type := {
  kv_entries_forward : SubDocument;
  kv_entries_reverse : SubDocument;
  new_elements_added : Z;
  return_value : Z
}.

Definition SortedSetEntries_init : SortedSetEntries :=
  {| kv_entries_forward := SubDocument_default;
     kv_entries_reverse := SubDocument_default;
     new_elements_added := 0;
     return_value := 0 |}.

Definition reverse_key (kv : RedisKeyValuePB) (member : string) : SubDocKey :=
  {| doc_key := FromRedisKey (hash_code kv) (key kv);
     subkeys := [PVType kSSReverse; PVString member] |}.

(** The body of the ZADD loop of [ApplySet], for the member of index [i]. *)
Definition sorted_set_entry (db : DB) (kv : RedisKeyValuePB)
    (options : SortedSetOptionsPB) (i : Z) (e : SortedSetEntries)
  : Result SortedSetEntries :=
  rbind (value_at kv i) (fun value_i =>
  (* Check whether the value is already in the document, if so delete it. *)
  rbind (GetSubDocument db (reverse_key kv value_i) false) (fun found =>
  rbind (subkey_at kv i) (fun subkey_i =>
  let subdoc_reverse :=
    match found with Some d => d | None => SubDocument_default end in
  let subdoc_reverse_found :=
    match found with Some _ => true | None => false end in
  let '(should_add_entry, should_remove_existing_entry, added, returned) :=
    if negb subdoc_reverse_found then
      (* The value is not already in the document. *)
      match update_options options with
      | UpdateOptions_NX | UpdateOptions_NONE =>
          (true, false, new_elements_added e + 1, return_value e + 1)
      | UpdateOptions_XX =>
          (false, false, new_elements_added e, return_value e)
      end
    else
      (* The value is already in the document. *)
      match update_options options with
      | UpdateOptions_XX | UpdateOptions_NONE =>
          let score_to_remove := GetDouble subdoc_reverse in
          if double_ne score_to_remove (double_subkey subkey_i) then
            (true, true, new_elements_added e,
             if ch options then return_value e + 1 else return_value e)
          else (true, false, new_elements_added e, return_value e)
      | UpdateOptions_NX =>
          (false, false, new_elements_added e, return_value e)
      end in
  let forward1 :=
    if should_remove_existing_entry then
      let score_to_remove := GetDouble subdoc_reverse in
      let subdoc_forward_tombstone :=
        SetChild (PVString value_i) (SubDocument_of_type kTombstone)
          SubDocument_default in
      SetChild (PVDouble score_to_remove) subdoc_forward_tombstone
        (kv_entries_forward e)
    else kv_entries_forward e in
  if should_add_entry then
    (* If the incr option is specified, we need insert the existing score +
       new score instead of just the new score. *)
    let score_to_add :=
      if incr options
      then double_add (double_subkey subkey_i) (GetDouble subdoc_reverse)
      else double_subkey subkey_i in
    (* Add the forward mapping to the entries. *)
    let forward_entry :=
      SetChild (PVString value_i) (Primitive (PVType kNull))
        (GetOrAddChild (PVDouble score_to_add) forward1) in
    Ok {| kv_entries_forward :=
            SetChild (PVDouble score_to_add) forward_entry forward1;
          (* Add the reverse mapping to the entries. *)
          kv_entries_reverse :=
            SetChild (PVString value_i) (Primitive (PVDouble score_to_add))
              (kv_entries_reverse e);
          new_elements_added := added;
          return_value := returned |}
  else
    Ok {| kv_entries_forward := forward1;
          kv_entries_reverse := kv_entries_reverse e;
          new_elements_added := added;
          return_value := returned |}))).

(** The top-level mapping that the sorted-set branch assembles after the
    loop; [card] is what [GetCardinality] returned (read only when new
    elements were added). *)
Definition sorted_set_document (e : SortedSetEntries) (card : Z) : SubDocument :=
  let kv_entries := SubDocument_default in
  let kv_entries :=
    if new_elements_added e >? 0 then
      (* Insert card + new_elements_added back into the document for the
         updated card. *)
      SetChild (PVType kCounter)
        (Primitive (PVInt64 (wrap64 (card + new_elements_added e)))) kv_entries
    else kv_entries in
  let kv_entries :=
    if (0 <? object_num_keys (kv_entries_forward e))%nat then
      SetChild (PVType kSSForward) (kv_entries_forward e) kv_entries
    else kv_entries in
  if (0 <? object_num_keys (kv_entries_reverse e))%nat then
    SetChild (PVType kSSReverse) (kv_entries_reverse e) kv_entries
  else kv_entries.

Definition ApplySet (db : DB) (kv : RedisKeyValuePB)
    (set_request : RedisSetRequestPB) : M OpState unit :=
  let ttl := set_ttl set_request in
  let doc_path := DocPathFromRedisKey (hash_code kv) (key kv) in
  (if subkey_size kv >? 0 then
     data_type <- GetValueType db kv (-1) ;;
     match type kv with
     | REDIS_TYPE_TIMESERIES | REDIS_TYPE_HASH =>
         if negb (RedisDataType_eqb data_type (type kv))
            && negb (RedisDataType_eqb data_type REDIS_TYPE_NONE)
         then with_response (set_code RedisStatusCode_WRONG_TYPE)
         else
           kv_entries <- lift (for_each (subkey_indices kv) (hash_entry kv)
                                 SubDocument_default) ;;
           kv_entries <-
             (if RedisDataType_eqb (type kv) REDIS_TYPE_TIMESERIES
              then lift (ConvertToCollection kRedisTS kv_entries)
              else ret kv_entries) ;;
           (* For an HSET command (which has only one subkey), we need to
              read the subkey to find out if the key already existed. *)
           (if (subkey_size kv =? 1) && EmulateRedisResponse (type kv)
               && negb (expect_ok_response set_request)
            then
              type <- GetValueType db kv 0 ;;
              with_response (SetOptionalInt4 type 0 1)
            else ret tt) ;;;
           (if RedisDataType_eqb data_type REDIS_TYPE_NONE
               && RedisDataType_eqb (type kv) REDIS_TYPE_TIMESERIES
            then write (InsertSubDocument doc_path kv_entries ttl)
            else write (ExtendSubDocument doc_path kv_entries ttl)) ;;;
           with_response (set_code RedisStatusCode_OK)
     | REDIS_TYPE_SORTEDSET =>
         if negb (RedisDataType_eqb data_type (type kv))
            && negb (RedisDataType_eqb data_type REDIS_TYPE_NONE)
         then with_response (set_code RedisStatusCode_WRONG_TYPE)
         else
           e <- lift (for_each (subkey_indices kv)
                        (sorted_set_entry db kv (sorted_set_options set_request))
                        SortedSetEntries_init) ;;
           card <- (if new_elements_added e >? 0
                    then lift (GetCardinality db kv) else ret 0) ;;
           let kv_entries := sorted_set_document e card in
           (if (0 <? object_num_keys kv_entries)%nat then
              kv_entries <- lift (ConvertToCollection kRedisSortedSet kv_entries) ;;
              if RedisDataType_eqb data_type REDIS_TYPE_NONE
              then write (InsertSubDocument doc_path kv_entries ttl)
              else write (ExtendSubDocument doc_path kv_entries ttl)
            else ret tt) ;;;
           with_response (set_int_response (return_value e)) ;;;
           with_response (set_code RedisStatusCode_OK)
     | REDIS_TYPE_STRING => fail InvalidCommand
     | _ => fail InvalidCommand
     end
   else
     if negb (RedisDataType_eqb (type kv) REDIS_TYPE_STRING) then fail InvalidCommand
     else if negb (value_size kv =? 1) then fail InvalidCommand
     else
       rejected <-
         (if negb (RedisWriteMode_eqb (mode set_request) REDIS_WRITEMODE_UPSERT)
          then
            data_type <- GetValueType db kv (-1) ;;
            ret ((RedisWriteMode_eqb (mode set_request) REDIS_WRITEMODE_INSERT
                  && negb (RedisDataType_eqb data_type REDIS_TYPE_NONE))
                 || (RedisWriteMode_eqb (mode set_request) REDIS_WRITEMODE_UPDATE
                     && RedisDataType_eqb data_type REDIS_TYPE_NONE))
          else ret false) ;;
       if rejected then with_response (set_code RedisStatusCode_NOT_FOUND)
       else
         value0 <- lift (value_at kv 0) ;;
         write (SetPrimitive doc_path
                  {| primitive_value := PVString value0; value_ttl := ttl |}) ;;;
         with_response (set_code RedisStatusCode_OK))%op.

(** *** Vocabulary of the properties *)

(** The key of the request, without sub-keys. *)
Definition key_only (kv : RedisKeyValuePB) : SubDocKey :=
  {| doc_key := FromRedisKey (hash_code kv) (key kv); subkeys := [] |}.

(** INCR of a key with no stored value answers the increment and writes
    its decimal form. *)
Definition incr_of_missing_key_is_written (db : DB) (kv : RedisKeyValuePB)
    (incr : Z) (s : OpState) : Prop :=
  GetSubDocument db (key_only kv) false = Ok None ->
  let '(status, s') := ApplyIncr db kv incr s in
  status = Ok tt
  /\ int_response (response s') = Some (wrap64 (0 + incr))
  /\ batch s' =
     batch s ++
     [SetPrimitive (DocPathFromRedisKey (hash_code kv) (key kv))
        {| primitive_value := PVString (to_string (wrap64 (0 + incr)));
           value_ttl := None |}].

(** C2 as the claim has it, for the stored string [v]: when [v] is not
    the decimal form of a signed 64-bit integer, INCR returns OK, answers
    with an error message and leaves the write batch as it was. *)
Definition incr_rejects_what_is_no_number (db : DB) (kv : RedisKeyValuePB)
    (incr : Z) (s : OpState) (v : string) : Prop :=
  GetSubDocument db (key_only kv) false = Ok (Some (Primitive (PVString v))) ->
  is_int64_number v = false ->
  let '(status, s') := ApplyIncr db kv incr s in
  status = Ok tt
  /\ error_message (response s') <> None
  /\ batch s' = batch s.

(** The stored values that are a string or one of the collections. *)
Definition string_or_collection (doc : SubDocument) : Prop :=
  IsPrimitive doc = true
  \/ value_type doc = kObject \/ value_type doc = kRedisTS
  \/ value_type doc = kRedisSortedSet \/ value_type doc = kRedisSet.

Definition has_child (k : PrimitiveValue) (d : SubDocument) : bool :=
  match GetChild k d with Some _ => true | None => false end.

(** The forward mapping (score -> member) or the reverse mapping
    (member -> score) has an entry for the member [m]. *)
Definition writes_member (m : string) (forward reverse : SubDocument) : bool :=
  existsb (fun kd => has_child (PVString m) (snd kd)) (object_container forward)
  || has_child (PVString m) reverse.

(** The same, for the mappings of a sorted-set document. *)
Definition document_writes_member (m : string) (d : SubDocument) : bool :=
  writes_member m (GetOrAddChild (PVType kSSForward) d)
    (GetOrAddChild (PVType kSSReverse) d).

(** The document that a call on the write batch carries. *)
Definition op_document (op : WriteOp) : SubDocument :=
  match op with
  | SetPrimitive _ v => Primitive (primitive_value v)
  | InsertSubDocument _ d _ => d
  | ExtendSubDocument _ d _ => d
  end.

(** How the reverse lookup of a member and the update option decide
    whether ZADD touches the member. *)
Definition zadd_touches (db : DB) (kv : RedisKeyValuePB)
    (options : SortedSetOptionsPB) (m : string) : Prop :=
  match GetSubDocument db (reverse_key kv m) false with
  | Ok None => update_options options <> UpdateOptions_XX
  | Ok (Some _) => update_options options <> UpdateOptions_NX
  | _ => False
  end.

(** A ZADD request on the key [k]: a sorted-set SET with as many values
    (members) as sub-keys (scores), at least one. *)
Definition zadd_request (k : string) (h : Z) (kv : RedisKeyValuePB) : Prop :=
  has_key kv = true /\ key kv = k /\ hash_code kv = h
  /\ type kv = REDIS_TYPE_SORTEDSET
  /\ subkey kv <> []
  /\ List.length (value kv) = List.length (subkey kv).

(** The document and the call that a ZADD makes on the write batch. *)
Definition zadd_document (e : SortedSetEntries) (card : Z) : SubDocument :=
  Container kRedisSortedSet (object_container (sorted_set_document e card)).

Definition zadd_write (kv : RedisKeyValuePB) (set_request : RedisSetRequestPB)
    (data_type : RedisDataType) (e : SortedSetEntries) (card : Z) : WriteOp :=
  if RedisDataType_eqb data_type REDIS_TYPE_NONE
  then InsertSubDocument (DocPathFromRedisKey (hash_code kv) (key kv))
         (zadd_document e card) (set_ttl set_request)
  else ExtendSubDocument (DocPathFromRedisKey (hash_code kv) (key kv))
         (zadd_document e card) (set_ttl set_request).

(** The members of the request that the reverse lookup does not find. *)
Definition not_found (db : DB) (kv : RedisKeyValuePB) (v : string) : bool :=
  match GetSubDocument db (reverse_key kv v) false with
  | Ok None => true
  | _ => false
  end.

Definition new_members (db : DB) (kv : RedisKeyValuePB) : list string :=
  filter (not_found db kv) (firstn (List.length (subkey kv)) (value kv)).

(** *** The other write commands *)

(** [RedisWriteOperation::GetDocPathsToLock]: the path of the key is added
    to [paths], and the level is snapshot isolation. *)
Inductive IsolationLevel : Set := SNAPSHOT_ISOLATION | SERIALIZABLE_ISOLATION.

Definition GetDocPathsToLock (kv : RedisKeyValuePB) (paths : list DocPath)
  : list DocPath * IsolationLevel :=
  (paths ++ [DocPathFromRedisKey (hash_code kv) (key kv)], SNAPSHOT_ISOLATION).

(** [Value(PrimitiveValue(str))]: the time to live is [Value::kMaxTtl]. *)
Definition string_value (str : string) : Value :=
  {| primitive_value := PVString str; value_ttl := None |}.

Definition ApplyGetSet (db : DB) (kv : RedisKeyValuePB) : M OpState unit :=
  (value <- GetValue db kv (-1) ;;
   if negb (value_size kv =? 1) then fail Corruption
   else
     ok <- verify_type REDIS_TYPE_STRING (rv_type value) false ;;
     if negb ok then
       (* We've already set the error code in the response. *)
       ret tt
     else
       with_response (set_string_response (rv_value value)) ;;;
       value0 <- lift (value_at kv 0) ;;
       write (SetPrimitive (DocPathFromRedisKey (hash_code kv) (key kv))
                (string_value value0)))%op.

Definition ApplyAppend (db : DB) (kv : RedisKeyValuePB) : M OpState unit :=
  (if negb (value_size kv =? 1) then fail Corruption
   else
     value <- GetValue db kv (-1) ;;
     ok <- verify_type REDIS_TYPE_STRING (rv_type value) true ;;
     if negb ok then
       (* We've already set the error code in the response. *)
       ret tt
     else
       value0 <- lift (value_at kv 0) ;;
       let appended := (rv_value value ++ value0)%string in
       with_response (set_int_response (Z.of_nat (String.length appended))) ;;;
       write (SetPrimitive (DocPathFromRedisKey (hash_code kv) (key kv))
                (string_value appended)))%op.

(** [std::string::resize(n, 0)] for [n] above the length: the string is
    padded with NUL characters. *)
Fixpoint nul_string (n : nat) : string :=
  match n with
  | O => EmptyString
  | S n' => String Ascii.zero (nul_string n')
  end.

Definition string_resize (str : string) (n : nat) : string :=
  (str ++ nul_string (n - String.length str))%string.

(** [std::string::replace(pos, len, str)] for [pos] within the string: the
    [len] characters from [pos] on, or those there are, give way to
    [str]. *)
Definition string_replace (s : string) (pos len : nat) (str : string) : string :=
  (substring 0 pos s ++ str
   ++ substring (pos + len) (String.length s - (pos + len)) s)%string.

(** [offset] is the [int32] field of the request.  Compared with the
    length, a [size_t], a negative offset converts to a size above
    [max_size()], for which [resize] throws [std::length_error]; nothing
    catches it. *)
Definition ApplySetRange (db : DB) (kv : RedisKeyValuePB) (offset : Z)
  : M OpState unit :=
  (if negb (value_size kv =? 1) then fail Corruption
   else
     value <- GetValue db kv (-1) ;;
     ok <- verify_type REDIS_TYPE_STRING (rv_type value) true ;;
     if negb ok then
       (* We've already set the error code in the response. *)
       ret tt
     else if offset <? 0 then abort
     else
       let resized :=
         if offset >? Z.of_nat (String.length (rv_value value))
         then string_resize (rv_value value) (Z.to_nat offset)
         else rv_value value in
       value0 <- lift (value_at kv 0) ;;
       let replaced :=
         string_replace resized (Z.to_nat offset) (String.length value0) value0 in
       with_response (set_int_response (Z.of_nat (String.length replaced))) ;;;
       write (SetPrimitive (DocPathFromRedisKey (hash_code kv) (key kv))
                (string_value replaced)))%op.

Definition ApplyPush : M OpState unit := fail NotSupported.
Definition ApplyInsert : M OpState unit := fail NotSupported.
Definition ApplyPop : M OpState unit := fail NotSupported.
Definition ApplyRemove : M OpState unit := fail NotSupported.

(** The body of the loop of [ApplyAdd]: [num_keys_found] and
    [set_entries]; [b] is the write batch, whose cache the type lookup
    consults. *)
Definition add_entry (db : DB) (kv : RedisKeyValuePB) (b : DocWriteBatch) (i : Z)
    (e : Z * SubDocument) : Result (Z * SubDocument) :=
  rbind
    (if FLAGS_emulate_redis_responses then
       rbind (GetRedisValueType db kv (Some b) i) (fun type =>
       Ok (if negb (RedisDataType_eqb type REDIS_TYPE_NONE)
           then fst e + 1 else fst e))
     else Ok (fst e))
    (fun num_keys_found =>
  rbind (subkey_at kv i) (fun subkey_i =>
  Ok (num_keys_found,
      SetChild (PVString (string_subkey subkey_i)) (Primitive (PVType kNull))
        (snd e)))).

Definition ApplyAdd (db : DB) (kv : RedisKeyValuePB) : M OpState unit :=
  let doc_path := DocPathFromRedisKey (hash_code kv) (key kv) in
  (data_type <- GetValueType db kv (-1) ;;
   if negb (RedisDataType_eqb data_type REDIS_TYPE_SET)
      && negb (RedisDataType_eqb data_type REDIS_TYPE_NONE)
   then with_response (set_code RedisStatusCode_WRONG_TYPE)
   else if subkey_size kv =? 0 then fail InvalidCommand
   else
     s <- get_state ;;
     (* We know that each subkey is distinct. *)
     e <- lift (for_each (subkey_indices kv) (add_entry db kv (batch s))
                  (0, SubDocument_default)) ;;
     set_entries <- lift (ConvertToCollection kRedisSet (snd e)) ;;
     (if RedisDataType_eqb data_type REDIS_TYPE_NONE
      then write (InsertSubDocument doc_path set_entries None)
      else write (ExtendSubDocument doc_path set_entries None)) ;;;
     with_response (set_code RedisStatusCode_OK) ;;;
     (* If flag is set, the actual number of new keys added is sent as
        response. *)
     if FLAGS_emulate_redis_responses
     then with_response (set_int_response (subkey_size kv - fst e))
     else ret tt)%op.

(** [SubDocument(ValueType::kTombstone)]. *)
Definition tombstone : SubDocument := SubDocument_of_type kTombstone.

(** The body of the TSREM loop of [ApplyDel]. *)
Definition del_timeseries_entry (kv : RedisKeyValuePB) (data_type : RedisDataType)
    (i : Z) (values : SubDocument) : Result SubDocument :=
  rbind (subkey_at kv i) (fun subkey_i =>
  rbind (PrimitiveValueFromSubKeyStrict subkey_i data_type) (fun primitive_value =>
  Ok (SetChild primitive_value tombstone values))).

(** The locals of the ZREM branch of [ApplyDel] that its loop updates. *)
Record SortedSetRemovals : Type := {
  values_forward : SubDocument;
  values_reverse : SubDocument;
  zrem_num_keys : Z
}.

(** The body of the ZREM loop of [ApplyDel]. *)
Definition del_sorted_set_entry (db : DB) (kv : RedisKeyValuePB) (i : Z)
    (e : SortedSetRemovals) : Result SortedSetRemovals :=
  rbind (subkey_at kv i) (fun subkey_i =>
  let member := string_subkey subkey_i in
  (* Check whether the value is already in the document. *)
  rbind (GetSubDocument db (reverse_key kv member) false) (fun found =>
  match found with
  | Some doc_reverse =>
      if negb (ValueType_eqb (value_type doc_reverse) kTombstone) then
        (* The value is already in the doc, needs to be removed.  For
           sorted sets, the forward mapping also needs to be deleted. *)
        Ok {| values_forward :=
                SetChild (PVDouble (GetDouble doc_reverse))
                  (SetChild (PVString member) tombstone SubDocument_default)
                  (values_forward e);
              values_reverse :=
                SetChild (PVString member) tombstone (values_reverse e);
              zrem_num_keys := zrem_num_keys e |}
      else
        Ok {| values_forward := values_forward e;
              values_reverse := values_reverse e;
              zrem_num_keys := zrem_num_keys e - 1 |}
  | None =>
      (* If the key is absent, it doesn't contribute to the count of keys
         being deleted. *)
      Ok {| values_forward := values_forward e;
            values_reverse := values_reverse e;
            zrem_num_keys := zrem_num_keys e - 1 |}
  end)).

(** The body of the loop of the HDEL / SREM branch of [ApplyDel]:
    [num_keys] and [values]. *)
Definition del_entry (db : DB) (kv : RedisKeyValuePB) (b : DocWriteBatch) (i : Z)
    (e : Z * SubDocument) : Result (Z * SubDocument) :=
  rbind (GetRedisValueType db kv (Some b) i) (fun type =>
  if RedisDataType_eqb type REDIS_TYPE_STRING then
    rbind (subkey_at kv i) (fun subkey_i =>
    Ok (fst e, SetChild (PVString (string_subkey subkey_i)) tombstone (snd e)))
  else
    (* If the key is absent, it doesn't contribute to the count of keys
       being deleted. *)
    Ok (fst e - 1, snd e)).

(** [values] and [num_keys] as the [switch] of [ApplyDel] leaves them;
    [None] when it returned from the function. *)
Definition deleted_values (db : DB) (kv : RedisKeyValuePB)
    (data_type : RedisDataType) (b : DocWriteBatch)
  : Result (option (SubDocument * Z)) :=
  match type kv with
  | REDIS_TYPE_NONE =>
      Ok (Some (tombstone,
                if RedisDataType_eqb data_type REDIS_TYPE_NONE then 0 else 1))
  | REDIS_TYPE_TIMESERIES =>
      if RedisDataType_eqb data_type REDIS_TYPE_NONE then Ok None
      else
        rbind (for_each (subkey_indices kv) (del_timeseries_entry kv data_type)
                 SubDocument_default) (fun values =>
        Ok (Some (values, 0)))
  | REDIS_TYPE_SORTEDSET =>
      rbind (for_each (subkey_indices kv) (del_sorted_set_entry db kv)
               {| values_forward := SubDocument_default;
                  values_reverse := SubDocument_default;
                  zrem_num_keys := subkey_size kv |}) (fun e =>
      rbind (GetCardinality db kv) (fun card =>
      (* The new cardinality is card - num_keys. *)
      let values_card := Primitive (PVInt64 (wrap64 (card - zrem_num_keys e))) in
      Ok (Some (SetChild (PVType kSSReverse) (values_reverse e)
                  (SetChild (PVType kSSForward) (values_forward e)
                     (SetChild (PVType kCounter) values_card SubDocument_default)),
                zrem_num_keys e))))
  | _ =>
      (* We know the subkeys are distinct.  Avoid reads for redis
         timeseries type. *)
      if EmulateRedisResponse (type kv) then
        rbind (for_each (subkey_indices kv) (del_entry db kv b)
                 (subkey_size kv, SubDocument_default)) (fun e =>
        Ok (Some (snd e, fst e)))
      else Ok (Some (SubDocument_default, subkey_size kv))
  end.

Definition ApplyDel (db : DB) (kv : RedisKeyValuePB) : M OpState unit :=
  (data_type <- GetValueType db kv (-1) ;;
   if negb (RedisDataType_eqb data_type REDIS_TYPE_NONE)
      && negb (RedisDataType_eqb data_type (type kv))
      && negb (RedisDataType_eqb (type kv) REDIS_TYPE_NONE)
   then with_response (set_code RedisStatusCode_WRONG_TYPE)
   else
     s <- get_state ;;
     deleted <- lift (deleted_values db kv data_type (batch s)) ;;
     match deleted with
     | None => ret tt
     | Some (values, num_keys) =>
         write (ExtendSubDocument (DocPathFromRedisKey (hash_code kv) (key kv))
                  values None) ;;;
         with_response (set_code RedisStatusCode_OK) ;;;
         (* If the flag is true, we respond with the number of keys
            actually being deleted. *)
         if EmulateRedisResponse (type kv)
         then with_response (set_int_response num_keys)
         else ret tt
     end)%op.

(** [request_.request_case()] of a write request, with the fields of the
    request that the commands read. *)
Inductive RedisWriteRequestCase : Type :=
| kSetRequest (set_request : RedisSetRequestPB)
| kGetsetRequest
| kAppendRequest
| kDelRequest
| kSetRangeRequest (offset : Z)
| kIncrRequest
| kPushRequest
| kInsertRequest
| kPopRequest
| kAddRequest
| REQUEST_NOT_SET.

(** [RedisWriteOperation::Apply].  [ApplyIncr(data)] is called with the
    default of its second parameter, which the header declares:
    [default_incr]. *)
Definition Apply (db : DB) (kv : RedisKeyValuePB) (request : RedisWriteRequestCase)
    (default_incr : Z) : M OpState unit :=
  match request with
  | kSetRequest set_request => ApplySet db kv set_request
  | kGetsetRequest => ApplyGetSet db kv
  | kAppendRequest => ApplyAppend db kv
  | kDelRequest => ApplyDel db kv
  | kSetRangeRequest offset => ApplySetRange db kv offset
  | kIncrRequest => ApplyIncr db kv default_incr
  | kPushRequest => ApplyPush
  | kInsertRequest => ApplyInsert
  | kPopRequest => ApplyPop
  | kAddRequest => ApplyAdd db kv
  | REQUEST_NOT_SET => fail Corruption
  end.

(** *** The other read commands *)

(** The conversion of a result to [int32_t]. *)
Definition to_int32 (z : Z) : Z := (z + 2 ^ 31) mod 2 ^ 32 - 2 ^ 31.

Definition ApplyIndex (index len : Z) : Z :=
  let index := if index <? 0 then to_int32 (index + len) else index in
  if (index <? 0) || (index >=? len) then -1 else index.

(** [VerifyTypeAndSetCode] on the response of a read operation. *)
Definition verify_response_type (expected actual : RedisDataType) (if_missing : bool)
  : M RedisResponsePB bool :=
  fun r =>
    let '(b, r') := VerifyTypeAndSetCode expected actual if_missing r in (Ok b, r').

Definition ExecuteStrLen (db : DB) (key_value : RedisKeyValuePB)
  : M RedisResponsePB unit :=
  (value <- lift (GetRedisValue db key_value (-1)) ;;
   ok <- verify_response_type REDIS_TYPE_STRING (rv_type value) true ;;
   if ok then
     modify (SetOptionalInt (rv_type value)
               (Z.of_nat (String.length (rv_value value))))
   else ret tt)%op.

(** [start] and [end] are the [int32] fields of the request. *)
Definition ExecuteGetRange (db : DB) (key_value : RedisKeyValuePB)
    (range_start range_end : Z) : M RedisResponsePB unit :=
  (value <- lift (GetRedisValue db key_value (-1)) ;;
   ok <- verify_response_type REDIS_TYPE_STRING (rv_type value) false ;;
   if negb ok then
     (* We've already set the error code in the response. *)
     ret tt
   else
     let len := to_int32 (Z.of_nat (String.length (rv_value value))) in
     (* We treat negative indices to refer backwards from the end of the
        string. *)
     let start := ApplyIndex range_start len in
     if start =? -1 then modify (set_code RedisStatusCode_INDEX_OUT_OF_BOUNDS)
     else
       let end_ := ApplyIndex range_end len in
       if (end_ =? -1) || (end_ <? start)
       then modify (set_code RedisStatusCode_INDEX_OUT_OF_BOUNDS)
       else
         modify (set_string_response
                   (substring (Z.to_nat start) (Z.to_nat (end_ - start + 1))
                      (rv_value value))))%op.

(** The response of a read operation with its array: [None] until
    [set_allocated_array_response] gives it one. *)
Record ReadResponse : Type := {
  read_response : RedisResponsePB;
  array_response : option (list string)
}.

Definition on_response {A} (m : M RedisResponsePB A) : M ReadResponse A :=
  fun s =>
    let '(r, response') := m (read_response s) in
    (r, {| read_response := response'; array_response := array_response s |}).

(** [response->set_allocated_array_response(new RedisArrayPB())]. *)
Definition new_array : M ReadResponse unit :=
  modify (fun s => {| read_response := read_response s; array_response := Some [] |}).

(** [response->mutable_array_response()->add_elements(element)]. *)
Definition add_elements (element : string) : M ReadResponse unit :=
  modify (fun s =>
            {| read_response := read_response s;
               array_response :=
                 Some (match array_response s with
                       | Some elements => elements
                       | None => []
                       end ++ [element]) |}).

(** [std::to_string(double)] is outside this file. *)
Class DoubleFormat : Type := {
  double_to_string : double -> string
}.

Context {Format : DoubleFormat}.

(** The tags [kStringDescending] and [kDoubleDescending], which the
    source treats as [kString] and [kDouble], have no value here. *)
Definition AddPrimitiveValueToResponseArray (value : PrimitiveValue)
  : M ReadResponse unit :=
  match value with
  | PVString str => add_elements str
  | PVInt64 v | PVInt64Descending v => add_elements (to_string v)
  | PVDouble d => add_elements (double_to_string d)
  | PVType _ => fail InvalidArgument
  end.

(** A [SubDocument] passed as a [const PrimitiveValue&]. *)
Definition as_primitive (d : SubDocument) : PrimitiveValue :=
  match d with
  | Primitive v => v
  | Container t _ => PVType t
  end.

Definition AddResponseValuesGeneric (first second : PrimitiveValue)
    (add_keys add_values : bool) : M ReadResponse unit :=
  ((if add_keys then AddPrimitiveValueToResponseArray first else ret tt) ;;;
   (if add_values then AddPrimitiveValueToResponseArray second else ret tt))%op.

(** A [for] loop over a container that stops at the first status that is
    not OK. *)
Fixpoint for_each_row {A} (rows : list A) (body : A -> M ReadResponse unit)
  : M ReadResponse unit :=
  match rows with
  | [] => ret tt
  | row :: rest => (body row ;;; for_each_row rest body)%op
  end.

Definition AddResponseValuesSortedSets (first : PrimitiveValue) (second : SubDocument)
    (add_keys add_values : bool) : M ReadResponse unit :=
  for_each_row (object_container second)
    (fun kv => AddResponseValuesGeneric first (fst kv) add_keys add_values).

(** [PopulateResponseFrom], with [PopulateRedisResponseFromInternal] on
    the container in order or in reverse. *)
Definition PopulateResponseFrom
    (key_values : list (PrimitiveValue * SubDocument))
    (add_response_row : PrimitiveValue -> SubDocument -> bool -> bool
                        -> M ReadResponse unit)
    (add_keys add_values reverse : bool) : M ReadResponse unit :=
  (new_array ;;;
   for_each_row (if reverse then rev key_values else key_values)
     (fun kv => add_response_row (fst kv) (snd kv) add_keys add_values))%op.

(** [AddResponseValuesGeneric] as the row function of
    [PopulateResponseFrom]. *)
Definition add_generic_row (first : PrimitiveValue) (second : SubDocument)
    (add_keys add_values : bool) : M ReadResponse unit :=
  AddResponseValuesGeneric first (as_primitive second) add_keys add_values.

(** [VerifyTypeAndSetCode] on value types. *)
Definition VerifyValueTypeAndSetCode (expected_type actual_type : ValueType)
    (response : RedisResponsePB) : bool * RedisResponsePB :=
  if negb (ValueType_eqb actual_type expected_type)
  then (false, set_code RedisStatusCode_WRONG_TYPE response)
  else (true, set_code RedisStatusCode_OK response).

Definition verify_value_type (expected actual : ValueType) : M ReadResponse bool :=
  on_response (fun r =>
                 let '(b, r') := VerifyValueTypeAndSetCode expected actual r in
                 (Ok b, r')).

Definition ExecuteHGetAllLikeCommands (db : DB) (key_value : RedisKeyValuePB)
    (value_type_ : ValueType) (add_keys add_values : bool) : M ReadResponse unit :=
  let doc_key := {| doc_key := FromRedisKey (hash_code key_value) (key key_value);
                    subkeys := [] |} in
  match value_type_ with
  | kRedisSortedSet =>
      if add_keys || add_values then
        (found <- lift (GetSubDocument db doc_key false) ;;
         new_array ;;;
         match found with
         | None => on_response (modify (set_code RedisStatusCode_OK))
         | Some doc =>
             ok <- verify_value_type value_type_ (value_type doc) ;;
             if ok then
               PopulateResponseFrom (object_container doc) add_generic_row
                 add_keys add_values false
             else ret tt
         end)%op
      else
        (card <- lift (GetCardinality db key_value) ;;
         on_response (modify (set_int_response card)))%op
  | _ =>
      (found <- lift (GetSubDocument db doc_key false) ;;
       (if add_keys || add_values then new_array else ret tt) ;;;
       match found with
       | None => on_response (modify (set_code RedisStatusCode_OK))
       | Some doc =>
           ok <- verify_value_type value_type_ (value_type doc) ;;
           if ok then
             if add_keys || add_values then
               PopulateResponseFrom (object_container doc) add_generic_row
                 add_keys add_values false
             else
               on_response
                 (modify (set_int_response (Z.of_nat (object_num_keys doc))))
           else ret tt
       end)%op
  end.

(** [RedisGetRequestPB_GetRequestType_*]. *)
Inductive GetRequestType : Set :=
| GET | TSGET | HGET | HEXISTS | SISMEMBER | HSTRLEN | MGET | HMGET
| HGETALL | HKEYS | HVALS | HLEN | SMEMBERS | SCARD | ZCARD
| UNKNOWN_GET.

(** The body of the loop of HMGET. *)
Definition hmget_element (db : DB) (key_value : RedisKeyValuePB) (i : Z)
  : M ReadResponse unit :=
  (value <- lift (GetRedisValue db key_value i) ;;
   if RedisDataType_eqb (rv_type value) REDIS_TYPE_STRING
   then add_elements (rv_value value)
   else add_elements EmptyString (* Empty is nil response. *))%op.

Definition ExecuteGet (db : DB) (key_value : RedisKeyValuePB)
    (request_type : GetRequestType) : M ReadResponse unit :=
  match request_type with
  | GET | TSGET | HGET =>
      on_response
        (value <- lift (GetRedisValue db key_value (-1)) ;;
         (* If wrong type, we set the error code in the response. *)
         ok <- verify_response_type REDIS_TYPE_STRING (rv_type value) false ;;
         if ok then modify (set_string_response (rv_value value)) else ret tt)%op
  | HEXISTS | SISMEMBER =>
      on_response
        (type <- lift (GetRedisValueType db key_value None (-1)) ;;
         let expected_type :=
           match request_type with
           | HEXISTS => REDIS_TYPE_HASH
           | _ => REDIS_TYPE_SET
           end in
         ok <- verify_response_type expected_type type true ;;
         if ok then
           subtype <- lift (GetRedisValueType db key_value None 0) ;;
           modify (SetOptionalInt subtype 1)
         else ret tt)%op
  | HSTRLEN =>
      on_response
        (type <- lift (GetRedisValueType db key_value None (-1)) ;;
         ok <- verify_response_type REDIS_TYPE_HASH type true ;;
         if ok then
           value <- lift (GetRedisValue db key_value (-1)) ;;
           modify (SetOptionalInt (rv_type value)
                     (Z.of_nat (String.length (rv_value value))))
         else ret tt)%op
  | MGET => fail NotSupported
  | HMGET =>
      (type <- lift (GetRedisValueType db key_value None (-1)) ;;
       ok <- on_response (verify_response_type REDIS_TYPE_HASH type true) ;;
       if negb ok then ret tt
       else
         new_array ;;;
         for_each_row (subkey_indices key_value) (hmget_element db key_value) ;;;
         on_response (modify (set_code RedisStatusCode_OK)))%op
  | HGETALL => ExecuteHGetAllLikeCommands db key_value kObject true true
  | HKEYS => ExecuteHGetAllLikeCommands db key_value kObject true false
  | HVALS => ExecuteHGetAllLikeCommands db key_value kObject false true
  | HLEN => ExecuteHGetAllLikeCommands db key_value kObject false false
  | SMEMBERS => ExecuteHGetAllLikeCommands db key_value kRedisSet true false
  | SCARD => ExecuteHGetAllLikeCommands db key_value kRedisSet false false
  | ZCARD => ExecuteHGetAllLikeCommands db key_value kRedisSortedSet false false
  | UNKNOWN_GET => fail InvalidCommand
  end.

(** [RedisSubKeyBoundPB] and [RedisSubKeyRangePB]: an optional field is an
    [option]; the accessors of the sub-key give the default of the field
    when it is not the one set. *)
Inductive InfinityType : Set := POSITIVE | NEGATIVE.

Record RedisSubKeyBoundPB : Type := {
  infinity_type : option InfinityType;    (* has_infinity_type / infinity_type *)
  subkey_bound : RedisKeyValueSubKeyPB;
  is_exclusive : bool
}.

Record RedisSubKeyRangePB : Type := {
  lower_bound : option RedisSubKeyBoundPB;
  upper_bound : option RedisSubKeyBoundPB
}.

Definition timestamp_subkey (s : RedisKeyValueSubKeyPB) : Z :=
  match s with kTimestampSubkey t => t | _ => 0 end.

Definition is_some_infinity (bound : RedisSubKeyBoundPB) : bool :=
  match infinity_type bound with Some _ => true | None => false end.

Definition is_infinity (bound : RedisSubKeyBoundPB) (which : InfinityType) : bool :=
  match infinity_type bound, which with
  | Some POSITIVE, POSITIVE | Some NEGATIVE, NEGATIVE => true
  | _, _ => false
  end.

(** [SubDocKeyBound(key, is_exclusive, is_lower_bound)]; the bound
    [SubDocKeyBound()] that bounds nothing is [None] below. *)
Record SubDocKeyBound : Type := {
  bound_key : SubDocKey;
  bound_is_exclusive : bool;
  bound_is_lower_bound : bool
}.

(** [GetSubDocument] with [data.low_subkey] and [data.high_subkey] set. *)
Class BoundedReads : Type := {
  GetSubDocumentBetween :
    DB -> SubDocKey -> option SubDocKeyBound -> option SubDocKeyBound
    -> Result (option SubDocument)
}.

Context {Bounded : BoundedReads}.

Definition GetAndPopulateResponseValues (db : DB)
    (add_response_values : PrimitiveValue -> SubDocument -> bool -> bool
                           -> M ReadResponse unit)
    (doc_key : SubDocKey) (expected_type : ValueType)
    (low_subkey high_subkey : option SubDocKeyBound)
    (add_keys add_values reverse : bool) : M ReadResponse unit :=
  (found <- lift (GetSubDocumentBetween db doc_key low_subkey high_subkey) ;;
   (* Validate and populate response. *)
   new_array ;;;
   match found with
   | None => on_response (modify (set_code RedisStatusCode_OK))
   | Some doc =>
       ok <- verify_value_type expected_type (value_type doc) ;;
       if ok then
         PopulateResponseFrom (object_container doc) add_response_values
           add_keys add_values reverse
       else ret tt
   end)%op.

(** [RedisCollectionGetRangeRequestPB_GetRangeRequestType_*]. *)
Inductive GetRangeRequestType : Set :=
| ZRANGEBYSCORE | TSRANGEBYTIME | UNKNOWN_RANGE.

Definition ExecuteCollectionGetRange (db : DB) (has_key_value : bool)
    (key_value : RedisKeyValuePB) (subkey_range : option RedisSubKeyRangePB)
    (request_type : GetRangeRequestType) (with_scores : bool)
  : M ReadResponse unit :=
  match has_key_value && has_key key_value, subkey_range with
  | true, Some {| lower_bound := Some lower; upper_bound := Some upper |} =>
      match request_type with
      | ZRANGEBYSCORE | TSRANGEBYTIME =>
          if is_infinity lower POSITIVE || is_infinity upper NEGATIVE then
            (* Return empty response. *)
            (on_response (modify (set_code RedisStatusCode_OK)) ;;;
             PopulateResponseFrom [] add_generic_row true true false)%op
          else
            let the_doc_key := FromRedisKey (hash_code key_value) (key key_value) in
            match request_type with
            | ZRANGEBYSCORE =>
                let low_double := double_subkey (subkey_bound lower) in
                let high_double := double_subkey (subkey_bound upper) in
                let low_subkey :=
                  if is_some_infinity lower then None
                  else Some {| bound_key :=
                                 {| doc_key := the_doc_key;
                                    subkeys := [PVType kSSForward; PVDouble low_double] |};
                               bound_is_exclusive := is_exclusive lower;
                               bound_is_lower_bound := true |} in
                let high_subkey :=
                  if is_some_infinity upper then None
                  else Some {| bound_key :=
                                 {| doc_key := the_doc_key;
                                    subkeys := [PVType kSSForward; PVDouble high_double] |};
                               bound_is_exclusive := is_exclusive upper;
                               bound_is_lower_bound := false |} in
                GetAndPopulateResponseValues db AddResponseValuesSortedSets
                  {| doc_key := the_doc_key; subkeys := [PVType kSSForward] |}
                  kObject low_subkey high_subkey with_scores true false
            | _ =>
                let low_timestamp := timestamp_subkey (subkey_bound lower) in
                let high_timestamp := timestamp_subkey (subkey_bound upper) in
                (* Need to switch the order since we store the timestamps
                   in descending order. *)
                let low_subkey :=
                  if is_some_infinity upper then None
                  else Some {| bound_key :=
                                 {| doc_key := the_doc_key;
                                    subkeys := [PVInt64Descending high_timestamp] |};
                               bound_is_exclusive := is_exclusive upper;
                               bound_is_lower_bound := true |} in
                let high_subkey :=
                  if is_some_infinity lower then None
                  else Some {| bound_key :=
                                 {| doc_key := the_doc_key;
                                    subkeys := [PVInt64Descending low_timestamp] |};
                               bound_is_exclusive := is_exclusive lower;
                               bound_is_lower_bound := false |} in
                GetAndPopulateResponseValues db add_generic_row
                  {| doc_key := the_doc_key; subkeys := [] |}
                  kRedisTS low_subkey high_subkey true true true
            end
      | UNKNOWN_RANGE => fail InvalidCommand
      end
  | _, _ => fail InvalidArgument
  end.

(** [request_.request_case()] of a read request, with the fields of the
    request that the commands read. *)
Inductive RedisReadRequestCase : Type :=
| kGetRequest (request_type : GetRequestType)
| kStrlenRequest
| kExistsRequest
| kGetRangeRequest (range_start range_end : Z)
| kGetCollectionRangeRequest (request_type : GetRangeRequestType) (with_scores : bool)
| OTHER_READ_REQUEST.

(** [RedisReadOperation::Execute]. *)
Definition Execute (db : DB) (has_key_value : bool) (key_value : RedisKeyValuePB)
    (subkey_range : option RedisSubKeyRangePB) (request : RedisReadRequestCase)
  : M ReadResponse unit :=
  match request with
  | kGetRequest request_type => ExecuteGet db key_value request_type
  | kStrlenRequest => on_response (ExecuteStrLen db key_value)
  | kExistsRequest => on_response (ExecuteExists db key_value)
  | kGetRangeRequest range_start range_end =>
      on_response (ExecuteGetRange db key_value range_start range_end)
  | kGetCollectionRangeRequest request_type with_scores =>
      ExecuteCollectionGetRange db has_key_value key_value subkey_range
        request_type with_scores
  | OTHER_READ_REQUEST => fail Corruption
  end.

(** *** Vocabulary of the statements about the commands *)

(** The command appended nothing, or it appended one call, returned OK and
    answered with the code OK. *)
Definition appended_once (s : OpState) (result : Result unit * OpState) : Prop :=
  batch (snd result) = batch s
  \/ exists op, batch (snd result) = batch s ++ [op]
                /\ fst result = Ok tt
                /\ code (response (snd result)) = Some RedisStatusCode_OK.

(** The stored value of a key read as a string: the empty string of
    [RedisValue] when no value is stored. *)
Definition stored_document (stored : option string) : option SubDocument :=
  option_map (fun str => Primitive (PVString str)) stored.

Definition stored_string (stored : option string) : string :=
  match stored with Some str => str | None => EmptyString end.

(** Whether the write mode of a SET refuses a key whose stored type is
    [data_type]: INSERT refuses a key that holds a value, UPDATE one that
    holds none. *)
Definition mode_refuses (mode : RedisWriteMode) (data_type : RedisDataType) : bool :=
  match mode with
  | REDIS_WRITEMODE_UPSERT => false
  | REDIS_WRITEMODE_INSERT => negb (RedisDataType_eqb data_type REDIS_TYPE_NONE)
  | REDIS_WRITEMODE_UPDATE => RedisDataType_eqb data_type REDIS_TYPE_NONE
  end.

(** The sub-keys of the request whose stored type satisfies [test], by
    index. *)
Definition subkeys_where (db : DB) (kv : RedisKeyValuePB) (b : DocWriteBatch)
    (test : RedisDataType -> bool) : list Z :=
  filter (fun i => match GetRedisValueType db kv (Some b) i with
                   | Ok type => test type
                   | _ => false
                   end) (subkey_indices kv).

Definition is_stored (type : RedisDataType) : bool :=
  negb (RedisDataType_eqb type REDIS_TYPE_NONE).

Definition is_string (type : RedisDataType) : bool :=
  RedisDataType_eqb type REDIS_TYPE_STRING.

(** The document that holds [child] under the string of each of the
    sub-keys. *)
Definition children_of (subkeys : list RedisKeyValueSubKeyPB) (child : SubDocument)
    (d : SubDocument) : SubDocument :=
  fold_left (fun d sk => SetChild (PVString (string_subkey sk)) child d) subkeys d.

(** The sub-keys of the request at the given indices. *)
Definition subkeys_at (kv : RedisKeyValuePB) (indices : list Z)
  : list RedisKeyValueSubKeyPB :=
  flat_map (fun i => match subkey_at kv i with
                     | Ok sk => [sk]
                     | _ => []
                     end) indices.

(** The element that HMGET answers for the field of index [i]. *)
Definition hmget_answer (db : DB) (kv : RedisKeyValuePB) (i : Z) : string :=
  match GetRedisValue db kv i with
  | Ok value =>
      if RedisDataType_eqb (rv_type value) REDIS_TYPE_STRING
      then rv_value value else EmptyString
  | _ => EmptyString
  end.

(** A hash with the given fields and values, and the forward mapping of
    a sorted set with the given members under each score, as stored
    documents. *)
Definition hash_children (fields : list (string * string))
  : list (PrimitiveValue * SubDocument) :=
  map (fun field => (PVString (fst field), Primitive (PVString (snd field)))) fields.

Definition forward_children (scores : list (double * list string))
  : list (PrimitiveValue * SubDocument) :=
  map (fun entry =>
         (PVDouble (fst entry),
          Container kObject
            (map (fun member => (PVString member, Primitive (PVType kNull)))
               (snd entry))))
    scores.

(** The bound that ZRANGEBYSCORE hands to the store for a bound of the
    request: none for an infinite bound, else the score under the forward
    mapping, exclusive or not as the request has it. *)
Definition score_bound (kv : RedisKeyValuePB) (bound : RedisSubKeyBoundPB)
    (is_lower_bound : bool) : option SubDocKeyBound :=
  if is_some_infinity bound then None
  else Some {| bound_key :=
                 {| doc_key := FromRedisKey (hash_code kv) (key kv);
                    subkeys := [PVType kSSForward;
                                PVDouble (double_subkey (subkey_bound bound))] |};
               bound_is_exclusive := is_exclusive bound;
               bound_is_lower_bound := is_lower_bound |}.

End Model.

Section Store.

Context {D : DoubleOps} {Env : Environment}.

(** *** The store

    Modelled from the spec: the store behind [GetSubDocument] and the
    effect of an applied write batch are not in [doc_operation.cc].  The
    spec gives them as: "inserting a document replaces it wholesale;
    extending merges children without removing untouched siblings;
    deleting writes a tombstone", and "a tombstone child marks logical
    deletion of that child".  A store maps a document key to its
    document; a read follows the sub-keys and finds nothing at a
    tombstone ([doc_found] stays false). *)
Definition MemStore : Type := DocKey -> option SubDocument.

Definition DocKey_eq_dec (a b : DocKey) : {a = b} + {a <> b}.
Proof. decide equality; auto using string_dec, Z.eq_dec. Defined.

Definition empty_store : MemStore := fun _ => None.

Fixpoint get_path (path : list PrimitiveValue) (d : SubDocument)
  : option SubDocument :=
  match path with
  | [] => Some d
  | k :: r =>
      match GetChild k d with
      | Some c => get_path r c
      | None => None
      end
  end.

Definition is_tombstone (d : SubDocument) : bool :=
  ValueType_eqb (value_type d) kTombstone.

Definition mem_GetSubDocument (store : MemStore) (k : SubDocKey)
    (return_type_only : bool) : Result (option SubDocument) :=
  match store (doc_key k) with
  | None => Ok None
  | Some d =>
      match get_path (subkeys k) d with
      | None => Ok None
      | Some c =>
          if is_tombstone c then Ok None
          else if return_type_only then Ok (Some (SubDocument_of_type (value_type c)))
          else Ok (Some c)
      end
  end.

(** Extending [old] by [new]: a primitive of [new] replaces what was
    there, a container of [new] is merged child by child into the
    container that was there (or into a new one). *)
Definition merge_children
    (extend : SubDocument -> option SubDocument -> SubDocument)
  : list (PrimitiveValue * SubDocument) -> list (PrimitiveValue * SubDocument)
    -> list (PrimitiveValue * SubDocument) :=
  fix merge ks acc :=
    match ks with
    | [] => acc
    | (k, d) :: r => merge r (assoc_set k (extend d (assoc_get k acc)) acc)
    end.

Fixpoint extend_doc (new : SubDocument) (old : option SubDocument) : SubDocument :=
  match new with
  | Primitive v => Primitive v
  | Container t kids =>
      match old with
      | Some (Container t' old_kids) =>
          Container t' (merge_children extend_doc kids old_kids)
      | _ => Container t (merge_children extend_doc kids [])
      end
  end.

Fixpoint update_path (path : list PrimitiveValue)
    (f : option SubDocument -> SubDocument) (d : option SubDocument) : SubDocument :=
  match path with
  | [] => f d
  | k :: r =>
      let parent :=
        match d with
        | Some (Container t kids) => Container t kids
        | _ => SubDocument_default
        end in
      SetChild k (update_path r f (GetChild k parent)) parent
  end.

Definition store_update (store : MemStore) (p : DocPath)
    (f : option SubDocument -> SubDocument) : MemStore :=
  fun k =>
    if DocKey_eq_dec k (doc_key p)
    then Some (update_path (subkeys p) f (store k))
    else store k.

Definition mem_apply (store : MemStore) (op : WriteOp) : MemStore :=
  match op with
  | SetPrimitive p v => store_update store p (fun _ => Primitive (primitive_value v))
  | InsertSubDocument p d _ => store_update store p (fun _ => d)
  | ExtendSubDocument p d _ => store_update store p (extend_doc d)
  end.

(** The store after the write batch was applied to it. *)
Definition mem_commit (store : MemStore) (b : DocWriteBatch) : MemStore :=
  fold_left mem_apply b store.

Definition MemDocStore : DocStore :=
  {| DB := MemStore; GetSubDocument := mem_GetSubDocument |}.

(** One SET command run as an operation of its own against [store]: the
    write batch starts empty and is applied when the operation returns OK. *)
Definition apply_set (store : MemStore) (kv : RedisKeyValuePB)
    (set_request : RedisSetRequestPB) : MemStore :=
  match ApplySet (Store := MemDocStore) store kv set_request
          {| response := empty_response; batch := [] |} with
  | (Ok _, s') => mem_commit store (batch s')
  | _ => store
  end.

Definition apply_sets (store : MemStore)
    (requests : list (RedisKeyValuePB * RedisSetRequestPB)) : MemStore :=
  fold_left (fun st r => apply_set st (fst r) (snd r)) requests store.

(** The state of the sorted set under the key [(h, k)] once the members
    [added] were added to it: absent when none was, else a sorted-set
    document whose counter is their number, and in whose reverse mapping a
    read finds no other member. *)
Definition reverse_lookup_none (d : SubDocument) (m : string) : Prop :=
  match get_path [PVType kSSReverse; PVString m] d with
  | None => True
  | Some c => is_tombstone c = true
  end.

Definition zset_state (store : MemStore) (h : Z) (k : string)
    (added : list string) : Prop :=
  match store (FromRedisKey h k) with
  | None => added = []
  | Some d =>
      (exists kids, d = Container kRedisSortedSet kids)
      /\ GetChild (PVType kCounter) d
         = Some (Primitive (PVInt64 (Z.of_nat (List.length added))))
      /\ forall m, ~ In m added -> reverse_lookup_none d m
  end.

(** The members of a sequence of requests, in the order of the requests. *)
Definition members_of (requests : list (RedisKeyValuePB * RedisSetRequestPB))
  : list string :=
  List.concat (map (fun r => value (fst r)) requests).

Definition SubDocKey_eq_dec (a b : SubDocKey) : {a = b} + {a <> b}.
Proof.
  decide equality;
    [apply (list_eq_dec PrimitiveValue_eq_dec) | apply DocKey_eq_dec].
Defined.

(** The path of a call on the write batch. *)
Definition op_path (op : WriteOp) : DocPath :=
  match op with
  | SetPrimitive p _ | InsertSubDocument p _ _ | ExtendSubDocument p _ _ => p
  end.

(** Modelled from the spec: the lookup cache of the write batch
    (yb/docdb/doc_write_batch.h is not among the sources) is there "so
    that a value type written earlier in the same batch is visible to a
    later read": the type cached for a key is that of the document of the
    last call of the batch on the key. *)
Definition written_type (b : DocWriteBatch) (k : SubDocKey) : option ValueType :=
  fold_left (fun found op =>
               if SubDocKey_eq_dec (op_path op) k
               then Some (value_type (op_document op))
               else found) b None.

(** The SET commands of [requests] run as operations of one write batch,
    which is applied to the store once the last of them returned OK: each
    of them reads the store as it was before the batch. *)
Definition apply_sets_in_one_batch (store : MemStore)
    (requests : list (RedisKeyValuePB * RedisSetRequestPB)) : MemStore :=
  match for_each requests
          (fun r b =>
             match ApplySet (Store := MemDocStore) store (fst r) (snd r)
                     {| response := empty_response; batch := b |} with
             | (Ok _, s') => Ok (batch s')
             | (Error c, _) => Error c
             | (Fatal, _) => Fatal
             end) [] with
  | Ok b => mem_commit store b
  | _ => store
  end.

(** C3 as the claim has it, for ADDs that share a write batch: once the
    ADDs of [requests], of members that are new and distinct, are applied,
    the stored counter of the key is the number of the members. *)
Definition counter_counts_members (kv : RedisKeyValuePB)
    (requests : list (RedisKeyValuePB * RedisSetRequestPB)) : Prop :=
  NoDup (members_of requests) ->
  GetCardinality (Store := MemDocStore)
    (apply_sets_in_one_batch empty_store requests) kv
  = Ok (Z.of_nat (List.length (members_of requests))).

End Store.

(** *** A concrete instance

    Scores as integers, an environment whose write batch accepts every
    call and caches nothing; the examples and witnesses are run on it. *)
Definition Z_double : DoubleOps :=
  {| double := Z;
     double_eq_dec := Z.eq_dec;
     double_ne := fun a b => negb (Z.eqb a b);
     double_add := Z.add;
     double_zero := 0 |}.

Definition plain_environment : Environment (D := Z_double) :=
  @Build_Environment Z_double
    (fun _ => EmptyString)     (* undef_string *)
    (fun _ => 0)               (* undef_int64 *)
    (fun _ => 0)               (* undef_double *)
    (fun _ _ => Ok tt)         (* batch_status *)
    (fun _ _ => None)          (* LookupCache *)
    true.                      (* FLAGS_emulate_redis_responses *)

Definition fresh_state : OpState (D := Z_double) :=
  {| response := empty_response; batch := [] |}.

(** The request of a command on the key ["k"]. *)
Definition string_request : RedisKeyValuePB (D := Z_double) :=
  {| has_key := true; key := "k"; hash_code := 7; type := REDIS_TYPE_STRING;
     subkey := []; value := [] |}.

(** A store whose key ["k"] holds the string [v]. *)
Definition string_store (v : string) : MemStore (D := Z_double) :=
  fun k =>
    if DocKey_eq_dec k (FromRedisKey 7 "k") then Some (Primitive (PVString v))
    else None.

(** [ZADD k score member ...] with the update option [o]. *)
Definition zadd_kv (members : list (Z * string)) : RedisKeyValuePB (D := Z_double) :=
  {| has_key := true; key := "k"; hash_code := 7; type := REDIS_TYPE_SORTEDSET;
     subkey := map (fun p => kDoubleSubkey (D := Z_double) (fst p)) members;
     value := map snd members |}.

Definition zadd_options (o : UpdateOptions) : RedisSetRequestPB :=
  {| set_ttl := None; mode := REDIS_WRITEMODE_UPSERT; expect_ok_response := false;
     sorted_set_options := {| update_options := o; ch := false; incr := false |} |}.

(** An environment as [plain_environment], whose write batch caches the
    types it wrote. *)
Definition caching_environment : Environment (D := Z_double) :=
  @Build_Environment Z_double
    (fun _ => EmptyString)     (* undef_string *)
    (fun _ => 0)               (* undef_int64 *)
    (fun _ => 0)               (* undef_double *)
    (fun _ _ => Ok tt)         (* batch_status *)
    (written_type (D := Z_double))   (* LookupCache *)
    true.                      (* FLAGS_emulate_redis_responses *)

(** [ZADD k 1 a] and [ZADD k 2 b]. *)
Definition two_adds : list (RedisKeyValuePB (D := Z_double) * RedisSetRequestPB) :=
  [(zadd_kv [(1, "a"%string)], zadd_options UpdateOptions_NONE);
   (zadd_kv [(2, "b"%string)], zadd_options UpdateOptions_NONE)].

(** Scores are printed as the integers they are. *)
Definition Z_format : DoubleFormat (D := Z_double) :=
  @Build_DoubleFormat Z_double to_string.

(** Whether the score [k] is within [bound]. *)
Definition bound_admits (bound : option (SubDocKeyBound (D := Z_double)))
    (k : PrimitiveValue (D := Z_double)) : bool :=
  match bound with
  | None => true
  | Some b =>
      match last (subkeys (bound_key b)) (PVType kNull), k with
      | PVDouble limit, PVDouble score =>
          if bound_is_lower_bound b
          then (if bound_is_exclusive b then Z.ltb limit score else Z.leb limit score)
          else (if bound_is_exclusive b then Z.ltb score limit else Z.leb score limit)
      | _, _ => true
      end
  end.

(** A read of [MemStore] between two bounds: the children of the document
    found whose keys are within both. *)
Definition mem_GetSubDocumentBetween (store : MemStore (D := Z_double))
    (k : SubDocKey) (low high : option SubDocKeyBound)
  : Result (option SubDocument) :=
  match mem_GetSubDocument store k false with
  | Ok (Some (Container t kids)) =>
      Ok (Some (Container t
                  (filter (fun kid => bound_admits low (fst kid)
                                      && bound_admits high (fst kid)) kids)))
  | found => found
  end.

Definition MemBoundedReads : BoundedReads (D := Z_double) (Store := MemDocStore) :=
  @Build_BoundedReads Z_double MemDocStore mem_GetSubDocumentBetween.

(** The request of a command on the key ["k"] with one value. *)
Definition value_request (v : string) : RedisKeyValuePB (D := Z_double) :=
  {| has_key := true; key := "k"; hash_code := 7; type := REDIS_TYPE_STRING;
     subkey := []; value := [v] |}.

(** The request of a command on the fields, or the members, of the
    collection under the key ["k"]. *)
Definition collection_request (type : RedisDataType) (fields values : list string)
  : RedisKeyValuePB (D := Z_double) :=
  {| has_key := true; key := "k"; hash_code := 7; type := type;
     subkey := map (kStringSubkey (D := Z_double)) fields; value := values |}.

(** A store whose key ["k"] holds the document [d]. *)
Definition document_store (d : SubDocument (D := Z_double)) : MemStore (D := Z_double) :=
  fun k => if DocKey_eq_dec k (FromRedisKey 7 "k") then Some d else None.

Definition set_options (mode : RedisWriteMode) : RedisSetRequestPB :=
  {| set_ttl := None; mode := mode; expect_ok_response := false;
     sorted_set_options :=
       {| update_options := UpdateOptions_NONE; ch := false; incr := false |} |}.

Definition fresh_read : ReadResponse :=
  {| read_response := empty_response; array_response := None |}.

(** A bound of ZRANGEBYSCORE at a score. *)
Definition score_at (score : Z) (exclusive : bool) : RedisSubKeyBoundPB (D := Z_double) :=
  {| infinity_type := None; subkey_bound := kDoubleSubkey (D := Z_double) score;
     is_exclusive := exclusive |}.

End Redis.

(* ===================================================================== *)
(** ** The QL write and read operations                                   *)
(* ===================================================================== *)

Module QL.

Definition ColumnId : Set := Z.

Inductive IsolationLevel : Set :=
| SNAPSHOT_ISOLATION
| SERIALIZABLE_ISOLATION.

Inductive QLStmtType : Set :=
| QL_STMT_INSERT | QL_STMT_UPDATE | QL_STMT_DELETE.

(** [bfql::TSOpcode], the write instructions that [Apply] dispatches on;
    [kOtherOpcode] stands for every other opcode. *)
Inductive TSOpcode : Set :=
| kScalarInsert
| kMapExtend | kSetExtend | kMapRemove | kSetRemove
| kListAppend | kListPrepend | kListRemove
| kOtherOpcode.

(** [column.type()->main()]. *)
Inductive DataType : Set := MAP | LIST | OTHER_TYPE.

Inductive ListExtendOrder : Set := APPEND | PREPEND.

Inductive QLStatus : Set := YQL_STATUS_OK | YQL_STATUS_USAGE_ERROR.

Inductive SystemColumnIds : Set := kLivenessColumn.

(** Modelled from the spec: [HybridTime] (yb/common/hybrid_time.h is not
    among the sources) as a restart hint, "every sub-scan may request the
    overall query be retried at an advanced read timestamp": [None] is no
    request ([HybridTime::kInvalid]), and [MakeAtLeast] keeps the later of
    two requests. *)
Definition HybridTime : Set := option Z.

Definition MakeAtLeast (ht rhs : HybridTime) : HybridTime :=
  match rhs with
  | None => ht
  | Some r =>
      match ht with
      | None => Some r
      | Some v => Some (Z.max v r)
      end
  end.

(** Modelled from the spec: [Schema] and [ColumnSchema] (yb/common/schema.h
    is not among the sources): the columns of a table in order, the hash
    key columns first, then the range key columns, then the others, each
    with its id; "static column: a column whose value is shared across all
    rows with the same hash key". *)
Record ColumnSchema : Set := {
  name : string;
  is_static : bool;
  main_type : DataType
}.

Record Schema : Set := {
  columns : list (ColumnId * ColumnSchema);
  num_hash_key_columns : nat;
  num_range_key_columns : nat;
  default_time_to_live : option Z
}.

Definition num_key_columns (schema : Schema) : nat :=
  (num_hash_key_columns schema + num_range_key_columns schema)%nat.

Definition num_columns (schema : Schema) : nat := List.length (columns schema).

(** [schema.column_id(i)] for [i] in [from, from + 1, ..., num_columns). *)
Definition column_ids_from (schema : Schema) (from : nat) : list ColumnId :=
  map fst (skipn from (columns schema)).

(** [schema.column_id(i)] for [i] in [0, ..., num_hash_key_columns). *)
Definition hash_key_column_ids (schema : Schema) : list ColumnId :=
  map fst (firstn (num_hash_key_columns schema) (columns schema)).

Fixpoint find_column (id : ColumnId) (cols : list (ColumnId * ColumnSchema))
    (index : nat) : option (nat * ColumnSchema) :=
  match cols with
  | [] => None
  | (id', c) :: r =>
      if Z.eqb id id' then Some (index, c) else find_column id r (S index)
  end.

Definition column_by_id (schema : Schema) (id : ColumnId) : Result ColumnSchema :=
  match find_column id (columns schema) 0 with
  | Some (_, c) => Ok c
  | None => Error NotFound
  end.

Definition is_key_column (schema : Schema) (id : ColumnId) : bool :=
  match find_column id (columns schema) 0 with
  | Some (i, _) => (i <? num_key_columns schema)%nat
  | None => false
  end.

(** [CreateProjectionByIdsIgnoreMissing]: the columns of the given ids that
    the schema has, none of them a key column of the projection. *)
Definition CreateProjectionByIdsIgnoreMissing (schema : Schema)
    (ids : list ColumnId) : Result Schema :=
  Ok {| columns :=
          flat_map (fun id => match find_column id (columns schema) 0 with
                              | Some (_, c) => [(id, c)]
                              | None => []
                              end) ids;
        num_hash_key_columns := 0;
        num_range_key_columns := 0;
        default_time_to_live := default_time_to_live schema |}.

(** [std::set<ColumnId>::insert], the set kept as its sorted elements. *)
Fixpoint set_insert (id : ColumnId) (ids : list ColumnId) : list ColumnId :=
  match ids with
  | [] => [id]
  | x :: r =>
      if id <? x then id :: ids
      else if id =? x then ids
      else x :: set_insert id r
  end.

(** What the operations take from outside [doc_operation.cc]: the QL
    values, expressions and table rows with the expression evaluator, and
    the conversions into document keys and sub-documents. *)
Class QLTypes : Type := {
  PrimitiveValue : Type;
  SubDocument : Type;
  QLValue : Type;
  QLExpressionPB : Type;
  QLConditionPB : Type;
  QLTableRow : Type;
  (** [Value::kInvalidUserTimestamp] *)
  kInvalidUserTimestamp : Z;
  (** [QLValue] with [set_bool_value(b)], and the null value of a new column *)
  bool_value : bool -> QLValue;
  null_value : QLValue;
  int32_value : QLValue -> Z;
  (** [QLTableRow]: a new row, [Clear], [IsEmpty], [GetValue], [AllocColumn],
      [CopyColumn(id, source)], [MatchColumn(id, source)] *)
  new_row : QLTableRow;
  IsEmpty : QLTableRow -> bool;
  GetValue : QLTableRow -> ColumnId -> Result QLValue;
  AllocColumn : QLTableRow -> ColumnId -> QLTableRow;
  CopyColumn : QLTableRow -> ColumnId -> QLTableRow -> Result QLTableRow;
  MatchColumn : QLTableRow -> ColumnId -> QLTableRow -> bool;
  (** [EvalExpr(expr, row, &result)], [result] holding what it held before;
      [EvalCondition(condition, row, &result)] *)
  EvalExpr : QLExpressionPB -> QLTableRow -> QLValue -> Result QLValue;
  EvalCondition : QLConditionPB -> QLTableRow -> Result bool;
  GetTSWriteInstruction : QLExpressionPB -> TSOpcode;
  (** [has_value()] / [value()] of an expression *)
  expr_value : QLExpressionPB -> option QLValue;
  SubDocument_FromQLValuePB : QLValue -> ColumnSchema -> TSOpcode -> SubDocument;
  PrimitiveValue_FromQLValuePB : QLValue -> PrimitiveValue;
  QLKeyColumnValuesToPrimitiveValues :
    list QLExpressionPB -> Schema -> nat -> nat -> Result (list PrimitiveValue)
}.

Section Model.

Context {T : QLTypes}.

(** [row.Clear()] leaves a row as new. *)
Definition Clear (row : QLTableRow) : QLTableRow := new_row.

(** [DocKey(hash_code, hashed_components, range_components)] and
    [DocKey(range_components)]. *)
Record DocKey : Type := {
  hash_part : option (Z * list PrimitiveValue);
  range_group : list PrimitiveValue
}.

Inductive SubKey : Type :=
| ColumnIdKey (id : ColumnId)                 (* [PrimitiveValue(column_id)] *)
| SystemColumnIdKey (id : SystemColumnIds)    (* [PrimitiveValue::SystemColumnId] *)
| ValueKey (v : PrimitiveValue).

(** [DocPath(encoded_doc_key, subkey...)]; the encoding of the key is
    left out. *)
Record DocPath : Type := {
  encoded_doc_key : DocKey;
  path_subkeys : list SubKey
}.

Definition DocPath_of (k : DocKey) : DocPath :=
  {| encoded_doc_key := k; path_subkeys := [] |}.

Definition AddSubKey (p : DocPath) (k : SubKey) : DocPath :=
  {| encoded_doc_key := encoded_doc_key p; path_subkeys := path_subkeys p ++ [k] |}.

(** The request messages. *)
Record QLReferencedColumnsPB : Set := {
  ids : list ColumnId;
  static_ids : list ColumnId
}.

Record QLColumnValuePB : Type := {
  column_id : option ColumnId;                 (* has_column_id / column_id *)
  subscript_args : list QLExpressionPB;
  expr : QLExpressionPB
}.

Record QLWriteRequestPB : Type := {
  type : QLStmtType;
  query_id : Z;
  hash_code : option Z;                        (* has_hash_code / hash_code *)
  hashed_column_values : list QLExpressionPB;
  range_column_values : list QLExpressionPB;
  column_values : list QLColumnValuePB;
  where_expr : option QLConditionPB;
  if_expr : option QLConditionPB;
  column_refs : option QLReferencedColumnsPB;
  ttl : option Z;
  user_timestamp_usec : option Z
}.

(** [request.hash_code()] is 0 when the field is not set, and
    [request.column_refs()] is the empty message. *)
Definition hash_code_or_default (request : QLWriteRequestPB) : Z :=
  match hash_code request with Some h => h | None => 0 end.

Definition no_column_refs : QLReferencedColumnsPB := {| ids := []; static_ids := [] |}.

Definition column_refs_or_default (refs : option QLReferencedColumnsPB)
  : QLReferencedColumnsPB :=
  match refs with Some r => r | None => no_column_refs end.

Definition is_some {A} (o : option A) : bool :=
  match o with Some _ => true | None => false end.

Definition is_nil {A} (l : list A) : bool :=
  match l with [] => true | _ => false end.

(** [Value(primitive, ttl, user_timestamp)] of the liveness column: the
    primitive is [PrimitiveValue()]. *)
Record Value : Set := {
  value_ttl : option Z;                        (* [None] is [Value::kMaxTtl] *)
  value_user_timestamp : Z
}.

(** The calls made on the [DocWriteBatch]; the query id is left out. *)
Inductive WriteOp : Type :=
| SetPrimitive (path : DocPath) (value : Value)
| InsertSubDocument (path : DocPath) (sub_doc : SubDocument) (ttl : option Z)
    (user_timestamp : Z)
| ExtendSubDocument (path : DocPath) (sub_doc : SubDocument) (ttl : option Z)
| ExtendList (path : DocPath) (sub_doc : SubDocument) (order : ListExtendOrder)
    (ttl : option Z)
| ReplaceInList (path : DocPath) (indexes : list Z) (sub_docs : list SubDocument)
    (table_ttl ttl : option Z)
| DeleteSubDoc (path : DocPath) (user_timestamp : Z).

Definition DocWriteBatch : Type := list WriteOp.

(** A [QLRowBlock]: the columns of its schema and its rows. *)
Record QLRowBlock : Type := {
  block_columns : list string;
  block_rows : list (list QLValue)
}.

Record QLResponsePB : Set := {
  status : option QLStatus;
  error_message : option StatusCode
}.

(** A rowwise iterator ([DocRowwiseIterator], [QLRowwiseIteratorIf]) once
    [Init] returned OK: the rows it has yet to deliver, each with what
    reading it does, and the restart hint it reports.  [next_row projection
    row] is the row that [NextRow(projection, &row)] leaves in [row]. *)
Record IteratorRow : Type := {
  next_is_static : bool;
  next_row : Schema -> QLTableRow -> Result QLTableRow;
  next_row_key : DocKey;
  next_restart_read_ht : HybridTime
}.

Record RowwiseIterator : Type := {
  pending : list IteratorRow;
  row_key : option DocKey;
  restart_read_ht_of : HybridTime;
  paging_state_of : nat -> Result (option Z)
}.

Definition HasNext (it : RowwiseIterator) : bool := negb (is_nil (pending it)).

Definition IsNextStaticColumn (it : RowwiseIterator) : bool :=
  match pending it with
  | r :: _ => next_is_static r
  | [] => false
  end.

Definition RestartReadHt (it : RowwiseIterator) : HybridTime := restart_read_ht_of it.

(** [NextRow]: the row read and the iterator moved past it; calling it
    when [HasNext] is false is fatal. *)
Definition NextRow (it : RowwiseIterator) (projection : Schema) (row : QLTableRow)
  : Result (QLTableRow * RowwiseIterator) :=
  match pending it with
  | [] => Fatal
  | r :: rest =>
      rbind (next_row r projection row) (fun row' =>
      Ok (row',
          {| pending := rest;
             row_key := Some (next_row_key r);
             restart_read_ht_of := next_restart_read_ht r;
             paging_state_of := paging_state_of it |}))
  end.

(** [iter->SetPagingStateIfNecessary(request, &response)]: the token for
    the position of the iterator, if it has one to give. *)
Definition SetPagingStateIfNecessary (it : RowwiseIterator) : Result (option Z) :=
  paging_state_of it (List.length (pending it)).

(** The store and the write batch: [scan db projection key condition] is
    the iterator that was constructed on the store and initialised with
    the scan specification, or the status of [Init]; [batch_status b op] is
    the status of the call [op] on the write batch [b]. *)
Class QLStorage : Type := {
  DB : Type;
  scan_key : DB -> Schema -> DocKey -> Result RowwiseIterator;
  scan_range : DB -> Schema -> Z -> list PrimitiveValue -> option QLConditionPB
               -> Result RowwiseIterator;
  spec_Match : option QLConditionPB -> QLTableRow -> Result bool;
  batch_status : DocWriteBatch -> WriteOp -> Result unit
}.

Context {St : QLStorage}.

(** *** QLWriteOperation *)

Definition RequireReadForExpressions (request : QLWriteRequestPB) : bool :=
  is_some (if_expr request)
  || is_some (column_refs request)
     && (negb (is_nil (ids (column_refs_or_default (column_refs request))))
         || negb (is_nil (static_ids (column_refs_or_default (column_refs request))))).

Definition IsRangeOperation (request : QLWriteRequestPB) (schema : Schema) : bool :=
  (0 <? num_range_key_columns schema)%nat
  && is_nil (range_column_values request)
  && is_nil (column_values request).

Definition RequireRead (request : QLWriteRequestPB) (schema : Schema) : bool :=
  let has_user_timestamp := is_some (user_timestamp_usec request) in
  let is_range_operation := IsRangeOperation request schema in
  RequireReadForExpressions request || has_user_timestamp || is_range_operation.

(** The members of the operation that [Init] and [Apply] change, with the
    write batch and the restart hint of [DocOperationApplyData]. *)
Record WriteState : Type := {
  require_read_ : bool;
  hashed_doc_key_ : option DocKey;
  pk_doc_key_ : option DocKey;
  rowblock_ : option QLRowBlock;
  response_ : QLResponsePB;
  doc_write_batch : DocWriteBatch;
  restart_read_ht : HybridTime
}.

(** [hashed_doc_path_] and [pk_doc_path_] are set with their keys. *)
Definition hashed_doc_path_ (s : WriteState) : option DocPath :=
  option_map DocPath_of (hashed_doc_key_ s).

Definition pk_doc_path_ (s : WriteState) : option DocPath :=
  option_map DocPath_of (pk_doc_key_ s).

Definition new_operation (batch : DocWriteBatch) (restart : HybridTime) : WriteState :=
  {| require_read_ := false;
     hashed_doc_key_ := None;
     pk_doc_key_ := None;
     rowblock_ := None;
     response_ := {| status := None; error_message := None |};
     doc_write_batch := batch;
     restart_read_ht := restart |}.

Definition set_require_read (b : bool) (s : WriteState) : WriteState :=
  {| require_read_ := b;
     hashed_doc_key_ := hashed_doc_key_ s;
     pk_doc_key_ := pk_doc_key_ s;
     rowblock_ := rowblock_ s;
     response_ := response_ s;
     doc_write_batch := doc_write_batch s;
     restart_read_ht := restart_read_ht s |}.

Definition set_hashed_doc_key (k : DocKey) (s : WriteState) : WriteState :=
  {| require_read_ := require_read_ s;
     hashed_doc_key_ := Some k;
     pk_doc_key_ := pk_doc_key_ s;
     rowblock_ := rowblock_ s;
     response_ := response_ s;
     doc_write_batch := doc_write_batch s;
     restart_read_ht := restart_read_ht s |}.

Definition set_pk_doc_key (k : DocKey) (s : WriteState) : WriteState :=
  {| require_read_ := require_read_ s;
     hashed_doc_key_ := hashed_doc_key_ s;
     pk_doc_key_ := Some k;
     rowblock_ := rowblock_ s;
     response_ := response_ s;
     doc_write_batch := doc_write_batch s;
     restart_read_ht := restart_read_ht s |}.

Definition set_rowblock (b : QLRowBlock) (s : WriteState) : WriteState :=
  {| require_read_ := require_read_ s;
     hashed_doc_key_ := hashed_doc_key_ s;
     pk_doc_key_ := pk_doc_key_ s;
     rowblock_ := Some b;
     response_ := response_ s;
     doc_write_batch := doc_write_batch s;
     restart_read_ht := restart_read_ht s |}.

Definition set_response (r : QLResponsePB) (s : WriteState) : WriteState :=
  {| require_read_ := require_read_ s;
     hashed_doc_key_ := hashed_doc_key_ s;
     pk_doc_key_ := pk_doc_key_ s;
     rowblock_ := rowblock_ s;
     response_ := r;
     doc_write_batch := doc_write_batch s;
     restart_read_ht := restart_read_ht s |}.

Definition set_batch (b : DocWriteBatch) (s : WriteState) : WriteState :=
  {| require_read_ := require_read_ s;
     hashed_doc_key_ := hashed_doc_key_ s;
     pk_doc_key_ := pk_doc_key_ s;
     rowblock_ := rowblock_ s;
     response_ := response_ s;
     doc_write_batch := b;
     restart_read_ht := restart_read_ht s |}.

Definition set_restart_read_ht (ht : HybridTime) (s : WriteState) : WriteState :=
  {| require_read_ := require_read_ s;
     hashed_doc_key_ := hashed_doc_key_ s;
     pk_doc_key_ := pk_doc_key_ s;
     rowblock_ := rowblock_ s;
     response_ := response_ s;
     doc_write_batch := doc_write_batch s;
     restart_read_ht := ht |}.

(** A call on [data.doc_write_batch]. *)
Definition write (op : WriteOp) : M WriteState unit :=
  fun s =>
    match batch_status (doc_write_batch s) op with
    | Ok _ => (Ok tt, set_batch (doc_write_batch s ++ [op]) s)
    | Error c => (Error c, s)
    | Fatal => (Fatal, s)
    end.

Definition InitializeKeys (request : QLWriteRequestPB) (schema : Schema)
    (hashed_key primary_key : bool) : M WriteState unit :=
  (hashed_components <-
     lift (QLKeyColumnValuesToPrimitiveValues (hashed_column_values request) schema
             0 (num_hash_key_columns schema)) ;;
   range_components <-
     lift (QLKeyColumnValuesToPrimitiveValues (range_column_values request) schema
             (num_hash_key_columns schema) (num_range_key_columns schema)) ;;
   (* We need the hash key if writing to the static columns. *)
   s <- get_state ;;
   (if hashed_key && negb (is_some (hashed_doc_key_ s)) then
      modify (set_hashed_doc_key
                {| hash_part := Some (hash_code_or_default request, hashed_components);
                   range_group := [] |})
    else ret tt) ;;;
   (* We need the primary key if writing to non-static columns or writing
      the full primary key (i.e. range columns are present). *)
   s <- get_state ;;
   (if primary_key && negb (is_some (pk_doc_key_ s)) then
      if is_some (hash_code request) && negb (is_nil (hashed_column_values request))
      then modify (set_pk_doc_key
                     {| hash_part := Some (hash_code_or_default request,
                                           hashed_components);
                        range_group := range_components |})
      else
        (* In case of syscatalog tables, we don't have any hash components. *)
        modify (set_pk_doc_key {| hash_part := None; range_group := range_components |})
    else ret tt))%op.

(** The loop of [Init] that finds whether static / non-static columns are
    written; it stops as soon as both are. *)
Fixpoint written_columns (schema : Schema) (cols : list QLColumnValuePB)
    (write_static_columns write_non_static_columns : bool) : Result (bool * bool) :=
  match cols with
  | [] => Ok (write_static_columns, write_non_static_columns)
  | column :: rest =>
      rbind (column_by_id schema
               (match column_id column with Some id => id | None => 0 end))
        (fun schema_column =>
           let '(st, nst) :=
             if is_static schema_column
             then (true, write_non_static_columns)
             else (write_static_columns, true) in
           if st && nst then Ok (st, nst)
           else written_columns schema rest st nst)
  end.

Definition Init (request : QLWriteRequestPB) (schema : Schema) : M WriteState unit :=
  (modify (set_require_read (RequireRead request schema)) ;;;
   (* Determine if static / non-static columns are being written. *)
   w <- lift (written_columns schema (column_values request) false false) ;;
   let '(write_static_columns, write_non_static_columns) := w in
   let is_range_operation := IsRangeOperation request schema in
   InitializeKeys request schema
     (write_static_columns || is_range_operation)
     (write_non_static_columns
      || negb (is_nil (range_column_values request))
      || (num_range_key_columns schema =? 0)%nat))%op.

Definition GetDocPathsToLock (s : WriteState) (paths : list DocPath)
  : list DocPath * IsolationLevel :=
  let paths :=
    match hashed_doc_path_ s with Some p => paths ++ [p] | None => paths end in
  let paths :=
    match pk_doc_path_ s with Some p => paths ++ [p] | None => paths end in
  (paths,
   if require_read_ s then SNAPSHOT_ISOLATION else SERIALIZABLE_ISOLATION).

(** [CreateProjections]: the projections of the static and of the
    non-static columns that a WHERE / IF condition refers to, the columns
    to fetch kept in sorted order. *)
Definition CreateProjections (schema : Schema) (column_refs : QLReferencedColumnsPB)
  : Result (Schema * Schema) :=
  let non_static_columns :=
    fold_left (fun acc id => if negb (is_key_column schema id)
                             then set_insert id acc else acc)
      (ids column_refs) [] in
  let static_columns :=
    fold_left (fun acc id => set_insert id acc) (static_ids column_refs) [] in
  rbind (CreateProjectionByIdsIgnoreMissing schema static_columns)
    (fun static_projection =>
  rbind (CreateProjectionByIdsIgnoreMissing schema non_static_columns)
    (fun non_static_projection =>
  Ok (static_projection, non_static_projection))).

Definition MakeAtLeast_restart (ht : HybridTime) : M WriteState unit :=
  modify (fun s => set_restart_read_ht (MakeAtLeast (restart_read_ht s) ht) s).

(** One of the two scans of [ReadColumns]: the row of [key] is read into
    [table_row] when there is one; [clear_if_missing] is the [else] branch
    of the scan by the primary key. *)
Definition read_row (db : DB) (projection : Schema) (key : DocKey)
    (clear_if_missing : bool) (table_row : QLTableRow) : M WriteState QLTableRow :=
  (iterator <- lift (scan_key db projection key) ;;
   read <-
     (if HasNext iterator then
        lift (NextRow iterator projection table_row)
      else if clear_if_missing then
        (* If no non-static column is found, the row does not exist and we
           should clear the static columns in the map to indicate the row
           does not exist. *)
        ret (Clear table_row, iterator)
      else ret (table_row, iterator)) ;;
   MakeAtLeast_restart (RestartReadHt (snd read)) ;;;
   ret (fst read))%op.

(** [ReadColumns]; the projections are returned with the row. *)
Definition ReadColumns (request : QLWriteRequestPB) (schema : Schema) (db : DB)
    (table_row : QLTableRow) : M WriteState (Schema * Schema * QLTableRow) :=
  ((* Create projections to scan docdb. *)
   projections <-
     lift (CreateProjections schema (column_refs_or_default (column_refs request))) ;;
   let '(static_projection, non_static_projection) := projections in
   (* Generate hashed / primary key depending on if static / non-static
      columns are referenced in the if-condition. *)
   InitializeKeys request schema
     (negb (is_nil (columns static_projection)))
     (negb (is_nil (columns non_static_projection))) ;;;
   (* Scan docdb for the static and non-static columns of the row using
      the hashed / primary key. *)
   s <- get_state ;;
   table_row <-
     match hashed_doc_key_ s with
     | Some key => read_row db static_projection key false table_row
     | None => ret table_row
     end ;;
   table_row <-
     match pk_doc_key_ s with
     | Some key => read_row db non_static_projection key true table_row
     | None => ret table_row
     end ;;
   ret (static_projection, non_static_projection, table_row))%op.

(** [row.mutable_column(col_idx)] of a row of the row block. *)
Fixpoint set_column (row : list QLValue) (col_idx : nat) (v : QLValue)
  : list QLValue :=
  match row, col_idx with
  | [], _ => []
  | _ :: r, O => v :: r
  | x :: r, S i => x :: set_column r i v
  end.

(** [PopulateRow]: the columns of the projection, read from the table row
    into the row from [col_idx] on; the row is returned as it is when a
    read fails. *)
Fixpoint PopulateRow (table_row : QLTableRow) (projection_ids : list ColumnId)
    (col_idx : nat) (row : list QLValue) : Result unit * list QLValue :=
  match projection_ids with
  | [] => (Ok tt, row)
  | id :: rest =>
      match GetValue table_row id with
      | Ok v => PopulateRow table_row rest (S col_idx) (set_column row col_idx v)
      | Error c => (Error c, row)
      | Fatal => (Fatal, row)
      end
  end.

Definition projection_ids (projection : Schema) : list ColumnId :=
  map fst (columns projection).

Definition projection_names (projection : Schema) : list string :=
  map (fun c => name (snd c)) (columns projection).

Definition IsConditionSatisfied (request : QLWriteRequestPB) (schema : Schema)
    (db : DB) (condition : QLConditionPB) (table_row : QLTableRow)
  : M WriteState (bool * QLTableRow) :=
  ((* Read column values. *)
   read <- ReadColumns request schema db table_row ;;
   let '(static_projection, non_static_projection, table_row) := read in
   (* See if the if-condition is satisfied. *)
   should_apply <- lift (EvalCondition condition table_row) ;;
   (* Populate the result set to return the "applied" status, and
      optionally the present column values if the condition is not
      satisfied and the row does exist (value_map is not empty). *)
   let with_values := negb should_apply && negb (IsEmpty table_row) in
   let columns :=
     "[applied]"%string ::
     (if with_values
      then projection_names static_projection ++ projection_names non_static_projection
      else []) in
   let row := set_column (map (fun _ => null_value) columns) 0 (bool_value should_apply) in
   if with_values then
     let '(r1, row) :=
       PopulateRow table_row (projection_ids static_projection) 1 row in
     let '(r2, row) :=
       match r1 with
       | Ok _ =>
           PopulateRow table_row (projection_ids non_static_projection)
             (1 + num_columns static_projection) row
       | _ => (r1, row)
       end in
     modify (set_rowblock {| block_columns := columns; block_rows := [row] |}) ;;;
     lift r2 ;;;
     ret (should_apply, table_row)
   else
     modify (set_rowblock {| block_columns := columns; block_rows := [row] |}) ;;;
     ret (should_apply, table_row))%op.

Definition CheckUserTimestampForCollections (user_timestamp : Z) : Result unit :=
  if negb (user_timestamp =? kInvalidUserTimestamp) then Error InvalidArgument
  else Ok tt.

(** [int] arithmetic wraps at 32 bits. *)
Definition wrap32 (z : Z) : Z := (z + 2 ^ 31) mod 2 ^ 32 - 2 ^ 31.

(** [*hashed_doc_path_] / [*pk_doc_path_]: a null pointer is fatal. *)
Definition deref {A} (p : option A) : M WriteState A :=
  match p with
  | Some x => ret x
  | None => abort
  end.

Definition column_doc_key (column : ColumnSchema) : M WriteState DocKey :=
  (s <- get_state ;;
   p <- deref (if is_static column then hashed_doc_path_ s else pk_doc_path_ s) ;;
   ret (encoded_doc_key p))%op.

(** What the body of a loop tells the loop: go on, or the function has
    returned OK. *)
Inductive Flow : Set := Continue | Returned.

(** The body of the loop of [Apply] over the column values of an INSERT or
    UPDATE. *)
Definition apply_column_value (schema : Schema) (table_row : QLTableRow)
    (ttl : option Z) (user_timestamp : Z) (column_value : QLColumnValuePB)
  : M WriteState Flow :=
  (match column_id column_value with
   | None => fail InvalidArgument
   | Some column_id =>
       column <- lift (column_by_id schema column_id) ;;
       key <- column_doc_key column ;;
       let sub_path :=
         {| encoded_doc_key := key; path_subkeys := [ColumnIdKey column_id] |} in
       expr_result <- lift (EvalExpr (expr column_value) table_row null_value) ;;
       let write_instr := GetTSWriteInstruction (expr column_value) in
       let sub_doc := SubDocument_FromQLValuePB expr_result column write_instr in
       (* Typical case, setting a columns value *)
       if is_nil (subscript_args column_value) then
         match write_instr with
         | kScalarInsert =>
             write (InsertSubDocument sub_path sub_doc ttl user_timestamp) ;;;
             ret Continue
         | kMapExtend | kSetExtend | kMapRemove | kSetRemove =>
             lift (CheckUserTimestampForCollections user_timestamp) ;;;
             write (ExtendSubDocument sub_path sub_doc ttl) ;;;
             ret Continue
         | kListAppend =>
             lift (CheckUserTimestampForCollections user_timestamp) ;;;
             write (ExtendList sub_path sub_doc APPEND ttl) ;;;
             ret Continue
         | kListPrepend =>
             lift (CheckUserTimestampForCollections user_timestamp) ;;;
             write (ExtendList sub_path sub_doc PREPEND ttl) ;;;
             ret Continue
         | kListRemove =>
             lift (CheckUserTimestampForCollections user_timestamp) ;;;
             write (InsertSubDocument sub_path sub_doc ttl user_timestamp) ;;;
             ret Continue
         | kOtherOpcode => abort        (* LOG(FATAL) *)
         end
       else
         lift (CheckUserTimestampForCollections user_timestamp) ;;;
         (* Setting the value for a sub-column *)
         let subscript :=
           match subscript_args column_value with
           | arg :: _ =>
               match expr_value arg with Some v => v | None => null_value end
           | [] => null_value
           end in
         match main_type column with
         | MAP =>
             let pv := PrimitiveValue_FromQLValuePB subscript in
             write (InsertSubDocument (AddSubKey sub_path (ValueKey pv)) sub_doc
                      ttl user_timestamp) ;;;
             ret Continue
         | LIST =>
             let table_ttl := default_time_to_live schema in
             (* At YQL layer list indexes start at 0, but internally we
                start at 1. *)
             let index := wrap32 (int32_value subscript + 1) in
             fun s =>
               match write (ReplaceInList sub_path [index] [sub_doc] table_ttl ttl) s with
               | (Error QLError, s') =>
                   (* Don't crash tserver if this is index-out-of-bounds error *)
                   (Ok Returned,
                    set_response {| status := Some YQL_STATUS_USAGE_ERROR;
                                    error_message := Some QLError |} s')
               | (Ok _, s') => (Ok Continue, s')
               | (Error c, s') => (Error c, s')
               | (Fatal, s') => (Fatal, s')
               end
         | OTHER_TYPE => ret Continue       (* LOG(ERROR) *)
         end
   end)%op.

(** A [for] loop whose body may return from the function. *)
Fixpoint for_each_until {A} (l : list A) (body : A -> M WriteState Flow)
  : M WriteState Flow :=
  match l with
  | [] => ret Continue
  | x :: r =>
      (flow <- body x ;;
       match flow with
       | Continue => for_each_until r body
       | Returned => ret Returned
       end)%op
  end.

Definition DeleteRow (schema : Schema) (request : QLWriteRequestPB)
    (row_path : DocPath) : M WriteState unit :=
  match user_timestamp_usec request with
  | Some user_timestamp =>
      (* If user_timestamp is provided, we need to add a tombstone for each
         individual column in the schema since we don't want to analyze
         this on the read path. *)
      (for_each_until (column_ids_from schema (num_key_columns schema))
         (fun id =>
            write (DeleteSubDoc
                     {| encoded_doc_key := encoded_doc_key row_path;
                        path_subkeys := [ColumnIdKey id] |}
                     user_timestamp) ;;;
            ret Continue) ;;;
       (* Delete the liveness column as well. *)
       write (DeleteSubDoc
                {| encoded_doc_key := encoded_doc_key row_path;
                   path_subkeys := [SystemColumnIdKey kLivenessColumn] |}
                user_timestamp))%op
  | None => write (DeleteSubDoc row_path kInvalidUserTimestamp)
  end.

(** [while (iterator.HasNext())]: every turn of the body reads one row, so
    the loop makes at most as many turns as the iterator has rows, which
    is what [turns] counts down from. *)
Fixpoint while_HasNext {S} (turns : nat)
    (body : RowwiseIterator -> M S RowwiseIterator) (it : RowwiseIterator)
  : M S RowwiseIterator :=
  match turns with
  | O => ret it
  | S turns' =>
      if HasNext it then (it' <- body it ;; while_HasNext turns' body it')%op
      else ret it
  end.

(** The body of the loop of the range delete. *)
Definition delete_matching_row (schema : Schema) (request : QLWriteRequestPB)
    (projection : Schema) (iterator : RowwiseIterator)
  : M WriteState RowwiseIterator :=
  (read <- lift (NextRow iterator projection new_row) ;;
   let '(row, iterator) := read in
   (* Match the row with the where condition before deleting it. *)
   matched <- lift (spec_Match (where_expr request) row) ;;
   (if (matched : bool) then
      match row_key iterator with
      | Some row_key => DeleteRow schema request (DocPath_of row_key)
      | None => abort
      end
    else ret tt) ;;;
   ret iterator)%op.

(** [request_.user_timestamp_usec()], or [Value::kInvalidUserTimestamp]
    when the request has none. *)
Definition user_timestamp_of (request : QLWriteRequestPB) : Z :=
  match user_timestamp_usec request with
  | Some t => t
  | None => kInvalidUserTimestamp
  end.

(** The reads that open [Apply]: whether to apply, and the row read. *)
Definition read_current_row (request : QLWriteRequestPB) (schema : Schema) (db : DB)
  : M WriteState (bool * QLTableRow) :=
  match if_expr request with
  | Some condition => IsConditionSatisfied request schema db condition new_row
  | None =>
      if RequireReadForExpressions request then
        (read <- ReadColumns request schema db new_row ;;
         ret (true, snd read))%op
      else ret (true, new_row)
  end.

(** Add the appropriate liveness column only for inserts. *)
Definition write_liveness_column (request : QLWriteRequestPB) : M WriteState unit :=
  (s <- get_state ;;
   match type request, pk_doc_path_ s with
   | QL_STMT_INSERT, Some pk_doc_path =>
       write (SetPrimitive
                {| encoded_doc_key := encoded_doc_key pk_doc_path;
                   path_subkeys := [SystemColumnIdKey kLivenessColumn] |}
                {| value_ttl := ttl request;
                   value_user_timestamp := user_timestamp_of request |})
   | _, _ => ret tt
   end)%op.

(** [case QL_STMT_INSERT: case QL_STMT_UPDATE:] of [Apply]. *)
Definition apply_insert_or_update (request : QLWriteRequestPB) (schema : Schema)
    (table_row : QLTableRow) : M WriteState Flow :=
  (write_liveness_column request ;;;
   for_each_until (column_values request)
     (apply_column_value schema table_row (ttl request) (user_timestamp_of request)))%op.

(** The body of the loop that deletes the referenced columns only. *)
Definition delete_column (schema : Schema) (user_timestamp : Z)
    (column_value : QLColumnValuePB) : M WriteState Flow :=
  match column_id column_value with
  | None => abort           (* CHECK(has_column_id) *)
  | Some column_id =>
      (column <- lift (column_by_id schema column_id) ;;
       key <- column_doc_key column ;;
       write (DeleteSubDoc
                {| encoded_doc_key := key; path_subkeys := [ColumnIdKey column_id] |}
                user_timestamp) ;;;
       ret Continue)%op
  end.

(** [case QL_STMT_DELETE:] of [Apply]. *)
Definition apply_delete (request : QLWriteRequestPB) (schema : Schema) (db : DB)
  : M WriteState Flow :=
  let user_timestamp := user_timestamp_of request in
  if negb (is_nil (column_values request)) then
    (* Delete the referenced columns only. *)
    for_each_until (column_values request) (delete_column schema user_timestamp)
  else if IsRangeOperation request schema then
    (* If the range columns are not specified, we read everything and
       delete all rows for which the where condition matches. *)
    (projections <-
       lift (CreateProjections schema (column_refs_or_default (column_refs request))) ;;
     let projection := snd projections in
     hashed_components <-
       lift (QLKeyColumnValuesToPrimitiveValues (hashed_column_values request)
               schema 0 (num_hash_key_columns schema)) ;;
     iterator <-
       lift (scan_range db projection (hash_code_or_default request)
               hashed_components (where_expr request)) ;;
     (* Iterate through rows and delete those that match the condition. *)
     iterator <-
       while_HasNext (List.length (pending iterator))
         (delete_matching_row schema request projection) iterator ;;
     MakeAtLeast_restart (RestartReadHt iterator) ;;;
     ret Continue)%op
  else
    (* Otherwise, delete the referenced row (all columns). *)
    (s <- get_state ;;
     pk_doc_path <- deref (pk_doc_path_ s) ;;
     DeleteRow schema request pk_doc_path ;;;
     ret Continue)%op.

Definition set_status_OK (s : WriteState) : WriteState :=
  set_response {| status := Some YQL_STATUS_OK;
                  error_message := error_message (response_ s) |} s.

Definition Apply (request : QLWriteRequestPB) (schema : Schema) (db : DB)
  : M WriteState unit :=
  (current <- read_current_row request schema db ;;
   let '(should_apply, table_row) := current in
   flow <-
     (if (should_apply : bool) then
        match type request with
        | QL_STMT_INSERT | QL_STMT_UPDATE =>
            apply_insert_or_update request schema table_row
        | QL_STMT_DELETE => apply_delete request schema db
        end
      else ret Continue) ;;
   match flow with
   | Continue => modify set_status_OK
   | Returned => ret tt
   end)%op.

(** *** QLReadOperation *)

Record QLReadRequestPB : Type := {
  limit : option Z;                            (* has_limit / limit *)
  read_column_refs : QLReferencedColumnsPB;
  distinct : bool;
  is_aggregate : bool;
  selected_exprs : list QLExpressionPB
}.

(** [common::QLStorageIf] and the scan specifications it builds.
    [BuildQLScanSpec] gives the specification of the scan and, when the
    request continues from a paging state, the one of the static row;
    [GetIterator] is the iterator it made, initialised with a
    specification, or the status that stopped it. *)
Class QLStorageIf : Type := {
  QLScanSpec : Type;
  BuildQLScanSpec :
    QLReadRequestPB -> Schema -> bool -> Schema
    -> Result (QLScanSpec * option QLScanSpec);
  GetIterator :
    QLReadRequestPB -> Schema -> Schema -> QLScanSpec -> Result RowwiseIterator;
  Match : QLScanSpec -> QLTableRow -> Result bool
}.

Context {Storage : QLStorageIf}.

(** [std::numeric_limits<std::size_t>::max()]. *)
Definition SIZE_MAX : Z := 2 ^ 64 - 1.

(** What [Execute] writes: the result set, the paging state of the
    response, the restart hint handed back, and [aggr_result_]. *)
Record ReadState : Type := {
  resultset : list (list QLValue);
  paging_state : option Z;
  read_restart_read_ht : HybridTime;
  aggr_result_ : list QLValue
}.

Definition rsrow_count (s : ReadState) : Z := Z.of_nat (List.length (resultset s)).

Definition set_resultset (rows : list (list QLValue)) (s : ReadState) : ReadState :=
  {| resultset := rows;
     paging_state := paging_state s;
     read_restart_read_ht := read_restart_read_ht s;
     aggr_result_ := aggr_result_ s |}.

Definition set_aggr_result (a : list QLValue) (s : ReadState) : ReadState :=
  {| resultset := resultset s;
     paging_state := paging_state s;
     read_restart_read_ht := read_restart_read_ht s;
     aggr_result_ := a |}.

Definition set_read_restart (ht : HybridTime) (s : ReadState) : ReadState :=
  {| resultset := resultset s;
     paging_state := paging_state s;
     read_restart_read_ht := ht;
     aggr_result_ := aggr_result_ s |}.

Definition set_paging_state (token : option Z) (s : ReadState) : ReadState :=
  {| resultset := resultset s;
     paging_state := token;
     read_restart_read_ht := read_restart_read_ht s;
     aggr_result_ := aggr_result_ s |}.

(** Append dummy entries in schema to table_row. *)
Definition AddProjection (schema : Schema) (table_row : QLTableRow) : QLTableRow :=
  fold_left AllocColumn (projection_ids schema) table_row.

(** [CHECK_OK(row->CopyColumn(id, source))] for each of the ids. *)
Fixpoint copy_columns (ids : list ColumnId) (source row : QLTableRow)
  : Result QLTableRow :=
  match ids with
  | [] => Ok row
  | id :: rest =>
      match CopyColumn row id source with
      | Ok row' => copy_columns rest source row'
      | _ => Fatal
      end
  end.

(** Outer join a static row with a non-static row: whether the join is
    successful, and the non-static row with the entries of the static row
    copied into it. *)
Definition JoinStaticRow (schema static_projection : Schema)
    (static_row non_static_row : QLTableRow) : Result (bool * QLTableRow) :=
  (* The join is successful if the static row is empty *)
  if IsEmpty static_row then Ok (true, non_static_row)
  else if negb (forallb (fun id => MatchColumn non_static_row id static_row)
                  (hash_key_column_ids schema))
  then Ok (false, non_static_row)
  else
    (* Join the static columns in the static row into the non-static row. *)
    rbind (copy_columns (projection_ids static_projection) static_row non_static_row)
      (fun row => Ok (true, row)).

(** Join a non-static row with a static row: whether the two rows match,
    and the static row. *)
Definition JoinNonStaticRow (schema static_projection : Schema)
    (non_static_row static_row : QLTableRow) : Result (bool * QLTableRow) :=
  let join_successful :=
    forallb (fun id => MatchColumn static_row id non_static_row)
      (hash_key_column_ids schema) in
  if negb join_successful then
    let static_row :=
      fold_left AllocColumn (projection_ids static_projection) (Clear static_row) in
    rbind (copy_columns (hash_key_column_ids schema) non_static_row static_row)
      (fun row => Ok (join_successful, row))
  else Ok (join_successful, static_row).

(** [EvalExpr] of each selected expression into the columns of [row]; the
    row is returned as it is when an evaluation fails. *)
Fixpoint eval_selected (exprs : list QLExpressionPB) (table_row : QLTableRow)
    (index : nat) (row : list QLValue) : Result unit * list QLValue :=
  match exprs with
  | [] => (Ok tt, row)
  | e :: rest =>
      match EvalExpr e table_row (nth index row null_value) with
      | Ok v => eval_selected rest table_row (S index) (set_column row index v)
      | Error c => (Error c, row)
      | Fatal => (Fatal, row)
      end
  end.

Definition PopulateResultSet (request : QLReadRequestPB) (table_row : QLTableRow)
  : M ReadState unit :=
  fun s =>
    let rsrow := map (fun _ => null_value) (selected_exprs request) in
    let '(r, rsrow) := eval_selected (selected_exprs request) table_row 0 rsrow in
    (r, set_resultset (resultset s ++ [rsrow]) s).

Definition EvalAggregate (request : QLReadRequestPB) (table_row : QLTableRow)
  : M ReadState unit :=
  fun s =>
    let aggr :=
      if is_nil (aggr_result_ s)
      then map (fun _ => null_value) (selected_exprs request)
      else aggr_result_ s in
    let '(r, aggr) := eval_selected (selected_exprs request) table_row 0 aggr in
    (r, set_aggr_result aggr s).

Definition PopulateAggregate (request : QLReadRequestPB) : M ReadState unit :=
  fun s =>
    let column_count := List.length (selected_exprs request) in
    if (List.length (aggr_result_ s) <? column_count)%nat then (Fatal, s)
    else (Ok tt, set_resultset (resultset s ++ [firstn column_count (aggr_result_ s)]) s).

(** [AddRowToResult]; the new [match_count] is returned. *)
Definition AddRowToResult (request : QLReadRequestPB) (spec : QLScanSpec)
    (row : QLTableRow) (row_count_limit : Z) (match_count : Z) : M ReadState Z :=
  (s <- get_state ;;
   if rsrow_count s <? row_count_limit then
     matched <- lift (Match spec row) ;;
     if (matched : bool) then
       (if is_aggregate request then EvalAggregate request row
        else PopulateResultSet request row) ;;;
       ret (match_count + 1)
     else ret match_count
   else ret match_count)%op.

(** The locals of [Execute] that the fetch loop changes, the iterator
    apart. *)
Record Fetch : Type := {
  static_row : QLTableRow;
  non_static_row : QLTableRow;
  match_count : Z;
  static_dealt_with : bool
}.

(** One turn of the fetch loop of [Execute], once the row was read:
    [last_read_static] tells which of the two rows that was, and [it] is
    the iterator after the read. *)
Definition process_row (request : QLReadRequestPB) (schema : Schema)
    (static_projection non_static_projection : Schema) (spec : QLScanSpec)
    (row_count_limit : Z) (last_read_static : bool) (it : RowwiseIterator)
    (f : Fetch) : M ReadState Fetch :=
  let read_static_columns := negb (is_nil (columns static_projection)) in
  let read_distinct_columns := distinct request in
  (if read_distinct_columns then
     joined <-
       (if negb last_read_static
        then lift (JoinNonStaticRow schema static_projection
                     (non_static_row f) (static_row f))
        else ret (false, static_row f)) ;;
     let '(join_successful, the_static_row) := joined in
     (* If the join was not successful, it means that the non-static row we
        read has no corresponding static row, so we have to add it to the
        result *)
     count <-
       (if negb (join_successful : bool)
        then AddRowToResult request spec the_static_row row_count_limit (match_count f)
        else ret (match_count f)) ;;
     ret {| static_row := the_static_row; non_static_row := non_static_row f;
            match_count := count; static_dealt_with := static_dealt_with f |}
   else if last_read_static then
     (* If the next row to be read is not static, deal with it later *)
     if HasNext it && negb (IsNextStaticColumn it) then
       ret {| static_row := static_row f; non_static_row := non_static_row f;
              match_count := match_count f; static_dealt_with := false |}
     else
       let the_static_row := AddProjection non_static_projection (static_row f) in
       count <-
         AddRowToResult request spec the_static_row row_count_limit (match_count f) ;;
       ret {| static_row := the_static_row; non_static_row := non_static_row f;
              match_count := count; static_dealt_with := static_dealt_with f |}
   else
     (* We also have to do the join if we are not reading any static
        columns, as Cassandra reports nulls for static rows with no
        corresponding non-static row *)
     joined <-
       (if read_static_columns || negb (static_dealt_with f) then
          j <- lift (JoinStaticRow schema static_projection
                       (static_row f) (non_static_row f)) ;;
          let '(join_successful, the_non_static_row) := j in
          (* Add the static row is the join was not successful and it is
             the first time we are dealing with this static row *)
          if negb (join_successful : bool) && negb (static_dealt_with f) then
            let the_static_row := AddProjection non_static_projection (static_row f) in
            count <-
              AddRowToResult request spec the_static_row row_count_limit
                (match_count f) ;;
            ret (the_static_row, the_non_static_row, count)
          else ret (static_row f, the_non_static_row, match_count f)
        else ret (static_row f, non_static_row f, match_count f)) ;;
     let '(the_static_row, the_non_static_row, count) := joined in
     count <-
       AddRowToResult request spec the_non_static_row row_count_limit count ;;
     ret {| static_row := the_static_row; non_static_row := the_non_static_row;
            match_count := count; static_dealt_with := true |})%op.

(** One turn of the fetch loop: the next row is read into the static or
    into the non-static row, then dealt with. *)
Definition fetch_row (request : QLReadRequestPB) (schema : Schema)
    (static_projection non_static_projection : Schema) (spec : QLScanSpec)
    (row_count_limit : Z) (state : RowwiseIterator * Fetch)
  : M ReadState (RowwiseIterator * Fetch) :=
  let '(iter, f) := state in
  let last_read_static := IsNextStaticColumn iter in
  (read <-
     lift (if last_read_static
           then NextRow iter static_projection (Clear (static_row f))
           else NextRow iter non_static_projection (Clear (non_static_row f))) ;;
   let '(row, iter) := read in
   let f :=
     if last_read_static
     then {| static_row := row; non_static_row := non_static_row f;
             match_count := match_count f; static_dealt_with := static_dealt_with f |}
     else {| static_row := static_row f; non_static_row := row;
             match_count := match_count f; static_dealt_with := static_dealt_with f |} in
   f <- process_row request schema static_projection non_static_projection spec
          row_count_limit last_read_static iter f ;;
   ret (iter, f))%op.

(** [while (resultset->rsrow_count() < row_count_limit && iter->HasNext())]:
    every turn reads one row of the iterator, so [turns] starts at the
    number of rows the iterator has. *)
Fixpoint fetch_loop (turns : nat) (row_count_limit : Z)
    (body : RowwiseIterator * Fetch -> M ReadState (RowwiseIterator * Fetch))
    (state : RowwiseIterator * Fetch) : M ReadState (RowwiseIterator * Fetch) :=
  match turns with
  | O => ret state
  | S turns' =>
      fun s =>
        if (rsrow_count s <? row_count_limit) && HasNext (fst state)
        then (state' <- body state ;; fetch_loop turns' row_count_limit body state')%op s
        else (Ok state, s)
  end.

(** The extra lookup of the static row when the request continues from a
    paging state. *)
Definition read_static_row (request : QLReadRequestPB) (schema : Schema)
    (static_projection : Schema) (static_row_spec : option QLScanSpec)
    (static_row : QLTableRow) : Result QLTableRow :=
  match static_row_spec with
  | Some spec =>
      rbind (GetIterator request static_projection schema spec)
        (fun static_row_iter =>
           if HasNext static_row_iter then
             rbind (NextRow static_row_iter static_projection static_row)
               (fun read => Ok (fst read))
           else Ok static_row)
  | None => Ok static_row
  end.

Definition row_count_limit_of (request : QLReadRequestPB) : Z :=
  match limit request with Some l => l | None => SIZE_MAX end.

(** [Execute] from the projections to the end of the fetch loop: the
    iterator and the locals that the loop leaves. *)
Definition fetch_rows (request : QLReadRequestPB) (schema query_schema : Schema)
  : M ReadState (RowwiseIterator * Fetch) :=
  let row_count_limit := row_count_limit_of request in
  (projections <- lift (CreateProjections schema (read_column_refs request)) ;;
   let '(static_projection, non_static_projection) := projections in
   let read_static_columns := negb (is_nil (columns static_projection)) in
   specs <-
     lift (BuildQLScanSpec request schema read_static_columns static_projection) ;;
   let '(spec, static_row_spec) := specs in
   iter <- lift (GetIterator request query_schema schema spec) ;;
   (* In case when we are continuing a select with a paging state, the
      static columns for the next row to fetch are not included in the
      first iterator and we need to fetch them with a separate spec and
      iterator before beginning the normal fetch below. *)
   static_row <-
     lift (read_static_row request schema static_projection static_row_spec
             new_row) ;;
   (* Begin the normal fetch. *)
   fetch_loop (List.length (pending iter)) row_count_limit
     (fetch_row request schema static_projection non_static_projection
        spec row_count_limit)
     (iter,
      {| static_row := static_row; non_static_row := new_row;
         match_count := 0; static_dealt_with := true |}))%op.

(** [Execute] after the fetch loop. *)
Definition finish_read (request : QLReadRequestPB) (iter : RowwiseIterator)
    (f : Fetch) : M ReadState unit :=
  let row_count_limit := row_count_limit_of request in
  ((if is_aggregate request && (match_count f >? 0)
    then PopulateAggregate request
    else ret tt) ;;;
   modify (set_read_restart (RestartReadHt iter)) ;;;
   s <- get_state ;;
   if (rsrow_count s >=? row_count_limit) && negb (is_aggregate request) then
     token <- lift (SetPagingStateIfNecessary iter) ;;
     match token with
     | Some t => modify (set_paging_state (Some t))
     | None => ret tt
     end
   else ret tt)%op.

Definition Execute (request : QLReadRequestPB) (schema query_schema : Schema)
  : M ReadState unit :=
  match limit request with
  | Some 0 => ret tt
  | _ =>
      (fetched <- fetch_rows request schema query_schema ;;
       finish_read request (fst fetched) (snd fetched))%op
  end.

(** *** Vocabulary of the properties *)

(** The write needs a read of the current state: it has an IF clause, it
    refers to columns in its expressions, it carries a user timestamp, or
    it is a range operation. *)
Definition requires_read (request : QLWriteRequestPB) (schema : Schema) : Prop :=
  if_expr request <> None
  \/ (exists refs, column_refs request = Some refs
                   /\ (ids refs <> [] \/ static_ids refs <> []))
  \/ user_timestamp_usec request <> None
  \/ ((0 < num_range_key_columns schema)%nat
      /\ range_column_values request = []
      /\ column_values request = []).

Definition path_list (p : option DocPath) : list DocPath :=
  match p with Some x => [x] | None => [] end.

(** [GetValue] of each of the columns, in order. *)
Fixpoint get_values (table_row : QLTableRow) (column_ids : list ColumnId)
  : Result (list QLValue) :=
  match column_ids with
  | [] => Ok []
  | id :: rest =>
      rbind (GetValue table_row id) (fun v =>
      rbind (get_values table_row rest) (fun vs => Ok (v :: vs)))
  end.

(** The write instructions that merge into a collection. *)
Definition is_collection_merge (write_instr : TSOpcode) : bool :=
  match write_instr with
  | kMapExtend | kSetExtend | kMapRemove | kSetRemove
  | kListAppend | kListPrepend | kListRemove => true
  | kScalarInsert | kOtherOpcode => false
  end.

(** The tombstones of a row deleted at a user timestamp: one for each
    column that is not a key column, then the one of the liveness column. *)
Definition row_tombstones (schema : Schema) (row_path : DocPath)
    (user_timestamp : Z) : list WriteOp :=
  map (fun id => DeleteSubDoc
                   {| encoded_doc_key := encoded_doc_key row_path;
                      path_subkeys := [ColumnIdKey id] |} user_timestamp)
    (column_ids_from schema (num_key_columns schema))
  ++ [DeleteSubDoc
        {| encoded_doc_key := encoded_doc_key row_path;
           path_subkeys := [SystemColumnIdKey kLivenessColumn] |} user_timestamp].

(** [static_row_iter] as the extra lookup of the static row leaves it, when
    the lookup is made: the second sub-scan of [Execute]. *)
Definition static_row_iterator (request : QLReadRequestPB) (schema : Schema)
    (static_projection : Schema) (static_row_spec : option QLScanSpec)
    (static_row : QLTableRow) : Result (option RowwiseIterator) :=
  match static_row_spec with
  | Some spec =>
      rbind (GetIterator request static_projection schema spec)
        (fun static_row_iter =>
           if HasNext static_row_iter then
             rbind (NextRow static_row_iter static_projection static_row)
               (fun read => Ok (Some (snd read)))
           else Ok (Some static_row_iter))
  | None => Ok None
  end.

(** The number of rows of the result set reached the limit, and the query
    is not an aggregate. *)
Definition limit_reached (request : QLReadRequestPB) (s : ReadState) : bool :=
  (rsrow_count s >=? row_count_limit_of request) && negb (is_aggregate request).

(** C8 as the claim has it: the response of a read has a paging state if
    and only if the number of rows of the result set reached the row
    count limit and the query is not an aggregate. *)
Definition paging_state_iff_limit_reached (request : QLReadRequestPB)
    (schema query_schema : Schema) (s : ReadState) : Prop :=
  let s' := snd (Execute request schema query_schema s) in
  paging_state s' <> None <-> limit_reached request s' = true.

(** The later of the restart hints of the sub-scans. *)
Definition latest_hint (hints : list HybridTime) : HybridTime :=
  fold_left MakeAtLeast hints None.

(** The hint [b] is not earlier than the hint [a]. *)
Definition hint_le (a b : HybridTime) : Prop :=
  match a, b with
  | None, _ => True
  | Some x, Some y => x <= y
  | Some _, None => False
  end.

(** The one [SetPrimitive] of [Apply]: the liveness column that an INSERT
    writes, with the time to live and the user timestamp of the request. *)
Definition is_liveness_write (request : QLWriteRequestPB) (op : WriteOp) : Prop :=
  match op with
  | SetPrimitive path value =>
      type request = QL_STMT_INSERT
      /\ path_subkeys path = [SystemColumnIdKey kLivenessColumn]
      /\ value = {| value_ttl := ttl request;
                    value_user_timestamp := user_timestamp_of request |}
  | _ => True
  end.

(** What [Apply] keeps, between the state [s] it starts from and a later
    state [s']: the write batch is only appended to, and never with a
    [SetPrimitive] other than the liveness column of an INSERT; the
    restart hint is not lowered; a key that was set stays as it is. *)
Definition Apply_keeps (request : QLWriteRequestPB) (s s' : WriteState) : Prop :=
  (exists ops, doc_write_batch s' = doc_write_batch s ++ ops
               /\ Forall (is_liveness_write request) ops)
  /\ hint_le (restart_read_ht s) (restart_read_ht s')
  /\ (forall k, hashed_doc_key_ s = Some k -> hashed_doc_key_ s' = Some k)
  /\ (forall k, pk_doc_key_ s = Some k -> pk_doc_key_ s' = Some k).

(** What the fetch loop of a read keeps: rows are only added at the end
    of the result set; an aggregate adds none, and any other query adds
    none beyond the row count limit. *)
Definition result_grows (request : QLReadRequestPB) (s s' : ReadState) : Prop :=
  exists added,
    resultset s' = resultset s ++ added
    /\ if is_aggregate request then added = []
       else rsrow_count s' <= Z.max (rsrow_count s) (row_count_limit_of request).

(** The ids are in ascending order, none of them twice. *)
Fixpoint ascending (ids : list ColumnId) : Prop :=
  match ids with
  | [] => True
  | id :: rest => Forall (Z.lt id) rest /\ ascending rest
  end.

(** The schema has a column of the id. *)
Definition has_column (schema : Schema) (id : ColumnId) : bool :=
  match find_column id (columns schema) 0 with
  | Some _ => true
  | None => false
  end.

(** The calls of [DeleteRow] on the row of [row_path]. *)
Definition delete_row_ops (request : QLWriteRequestPB) (schema : Schema)
    (row_path : DocPath) : list WriteOp :=
  match user_timestamp_usec request with
  | Some user_timestamp => row_tombstones schema row_path user_timestamp
  | None => [DeleteSubDoc row_path kInvalidUserTimestamp]
  end.

(** The calls of a range delete over the rows of a scan: those of
    [DeleteRow] on the key of each row that the WHERE condition matches, in
    the order of the scan. *)
Definition range_delete_ops (request : QLWriteRequestPB) (schema projection : Schema)
    (rows : list IteratorRow) : list WriteOp :=
  flat_map (fun r =>
              match next_row r projection new_row with
              | Ok row =>
                  match spec_Match (where_expr request) row with
                  | Ok true => delete_row_ops request schema (DocPath_of (next_row_key r))
                  | _ => []
                  end
              | _ => []
              end) rows.

(** Every row of the scan is read, and matched with the WHERE condition,
    with the status OK. *)
Definition rows_readable (request : QLWriteRequestPB) (projection : Schema)
    (rows : list IteratorRow) : Prop :=
  Forall (fun r => exists row matched,
                     next_row r projection new_row = Ok row
                     /\ spec_Match (where_expr request) row = Ok matched) rows.

(** The restart hint of an iterator once all of its rows were read. *)
Definition hint_after (it : RowwiseIterator) : HybridTime :=
  last (map next_restart_read_ht (pending it)) (restart_read_ht_of it).

(** The liveness column that [Apply] writes for an INSERT on a row with
    a primary key, with the time to live and the user timestamp of the
    request; no other statement writes one. *)
Definition liveness_ops (request : QLWriteRequestPB) (s : WriteState) : list WriteOp :=
  match type request, pk_doc_path_ s with
  | QL_STMT_INSERT, Some pk_doc_path =>
      [SetPrimitive
         {| encoded_doc_key := encoded_doc_key pk_doc_path;
            path_subkeys := [SystemColumnIdKey kLivenessColumn] |}
         {| value_ttl := ttl request;
            value_user_timestamp := user_timestamp_of request |}]
  | _, _ => []
  end.

(** [op] is the call that writes the value of a column of a row: the
    column value names a column of the schema without a subscript, its
    expression is evaluated on a new row and its instruction is a scalar
    insert; the call is an [InsertSubDocument] under the hashed key for a
    static column and under the primary key for any other, with the time to
    live and the user timestamp of the request. *)
Definition scalar_column_write (request : QLWriteRequestPB) (schema : Schema)
    (s : WriteState) (column_value : QLColumnValuePB) (op : WriteOp) : Prop :=
  exists id column path value,
    column_id column_value = Some id
    /\ column_by_id schema id = Ok column
    /\ (if is_static column then hashed_doc_path_ s else pk_doc_path_ s) = Some path
    /\ subscript_args column_value = []
    /\ EvalExpr (expr column_value) new_row null_value = Ok value
    /\ GetTSWriteInstruction (expr column_value) = kScalarInsert
    /\ op = InsertSubDocument
              {| encoded_doc_key := encoded_doc_key path;
                 path_subkeys := [ColumnIdKey id] |}
              (SubDocument_FromQLValuePB value column kScalarInsert)
              (ttl request) (user_timestamp_of request).

End Model.

(** *** A small table

    An instance of the interfaces, for the examples: integer values with a
    null, rows as association lists, conditions [column = value], a store
    that tells the row of each key, and scans that deliver scripted
    iterators. *)

Inductive SimpleExpr : Set :=
| Constant (instr : TSOpcode) (v : Z)
| ColumnRef (id : ColumnId).

Definition SimpleRow : Set := list (ColumnId * option Z).

Definition simple_get (row : SimpleRow) (id : ColumnId) : option (option Z) :=
  option_map snd (find (fun c => fst c =? id) row).

Definition simple_set (row : SimpleRow) (id : ColumnId) (v : option Z) : SimpleRow :=
  filter (fun c => negb (fst c =? id)) row ++ [(id, v)].

Definition simple_value_eqb (a b : option Z) : bool :=
  match a, b with
  | Some x, Some y => x =? y
  | None, None => true
  | _, _ => false
  end.

Definition simple_GetValue (row : SimpleRow) (id : ColumnId) : Result (option Z) :=
  match simple_get row id with
  | Some v => Ok v
  | None => Error InternalError
  end.

Definition simple_constant (e : SimpleExpr) : option Z :=
  match e with
  | Constant _ v => Some v
  | ColumnRef _ => None
  end.

Definition simple_types : QLTypes :=
  @Build_QLTypes
    (option Z) (option Z) (option Z) SimpleExpr (ColumnId * Z)%type SimpleRow
    (- 2 ^ 63)
    (fun b => Some (if b then 1 else 0))
    None
    (fun v => match v with Some z => z | None => 0 end)
    []
    (fun row => match row with [] => true | _ => false end)
    simple_GetValue
    (fun row id => match simple_get row id with
                   | Some _ => row
                   | None => row ++ [(id, None)]
                   end)
    (fun row id source => match simple_get source id with
                          | Some v => Ok (simple_set row id v)
                          | None => Error InternalError
                          end)
    (fun row id source => match simple_get row id, simple_get source id with
                          | Some a, Some b => simple_value_eqb a b
                          | _, _ => false
                          end)
    (fun e row _ => match e with
                    | Constant _ v => Ok (Some v)
                    | ColumnRef id => simple_GetValue row id
                    end)
    (fun condition row => match simple_get row (fst condition) with
                          | Some v => Ok (simple_value_eqb v (Some (snd condition)))
                          | None => Ok false
                          end)
    (fun e => match e with
              | Constant instr _ => instr
              | ColumnRef _ => kScalarInsert
              end)
    (fun e => option_map Some (simple_constant e))
    (fun v _ _ => v)
    (fun v => v)
    (fun exprs _ _ _ => Ok (map simple_constant exprs)).

(** The columns of the projection, copied from the stored row. *)
Definition simple_read (stored : SimpleRow) (projection : Schema) (row : SimpleRow)
  : SimpleRow :=
  fold_left (fun r id => match simple_get stored id with
                         | Some v => simple_set r id v
                         | None => r
                         end)
    (map fst (columns projection)) row.

Definition simple_iterator_row (static : bool) (stored : SimpleRow)
    (hint : HybridTime) : IteratorRow (T := simple_types) :=
  @Build_IteratorRow simple_types
    static
    (fun projection row => Ok (simple_read stored projection row))
    (@Build_DocKey simple_types None [])
    hint.

(** An iterator over the given rows: its restart hint is [hint] until a
    row is read, and it gives its position as the paging state when there
    are rows left. *)
Definition simple_iterator (rows : list (IteratorRow (T := simple_types)))
    (hint : HybridTime) : RowwiseIterator (T := simple_types) :=
  @Build_RowwiseIterator simple_types
    rows
    None
    hint
    (fun left => Ok (match left with
                     | O => None
                     | _ => Some (Z.of_nat left)
                     end)).

(** A store that tells the row of each key; the write batch accepts
    every call. *)
Definition simple_storage : QLStorage (T := simple_types) :=
  @Build_QLStorage simple_types
    (DocKey (T := simple_types) -> option SimpleRow)
    (fun db projection key =>
       Ok (simple_iterator
             (match db key with
              | Some stored => [simple_iterator_row false stored None]
              | None => []
              end) None))
    (fun db projection hash_code hashed_components condition =>
       Ok (simple_iterator [] None))
    (fun condition row =>
       match condition with
       | Some c => EvalCondition (QLTypes := simple_types) c row
       | None => Ok true
       end)
    (fun _ _ => Ok tt).

(** Scans that deliver the iterator [main] and, when the request continues
    from a paging state, the iterator [static_lookup] for the static row;
    the scan specification tells which of the two, and matches every
    row. *)
Definition scripted_scans (main static_lookup : RowwiseIterator (T := simple_types))
    (paged : bool) : QLStorageIf (T := simple_types) :=
  @Build_QLStorageIf simple_types
    bool
    (fun _ _ _ _ => Ok (false, if paged then Some true else None))
    (fun _ _ _ spec => Ok (if (spec : bool) then static_lookup else main))
    (fun _ _ => Ok true).

(** The table: hash key [h], range key [r], static column [s], regular
    column [v]. *)
Definition simple_column (column_name : string) (static : bool) : ColumnSchema :=
  {| name := column_name; is_static := static; main_type := OTHER_TYPE |}.

Definition simple_schema : Schema :=
  {| columns := [(0, simple_column "h" false); (1, simple_column "r" false);
                 (2, simple_column "s" true); (3, simple_column "v" false)];
     num_hash_key_columns := 1;
     num_range_key_columns := 1;
     default_time_to_live := None |}.

(** A write to the row [h = 1, r = 2] of the table. *)
Definition simple_write (statement : QLStmtType)
    (values : list (QLColumnValuePB (T := simple_types)))
    (condition : option (ColumnId * Z)) (refs : option QLReferencedColumnsPB)
    (user_timestamp : option Z) : QLWriteRequestPB (T := simple_types) :=
  @Build_QLWriteRequestPB simple_types
    statement
    0                                   (* query_id *)
    (Some 0)                            (* hash_code *)
    [Constant kScalarInsert 1]          (* hashed_column_values *)
    [Constant kScalarInsert 2]          (* range_column_values *)
    values
    None                                (* where_expr *)
    condition
    refs
    None                                (* ttl *)
    user_timestamp.

(** [column = expr] of the SET clause. *)
Definition simple_column_value (id : ColumnId) (subscripts : list SimpleExpr)
    (e : SimpleExpr) : QLColumnValuePB (T := simple_types) :=
  @Build_QLColumnValuePB simple_types (Some id) subscripts e.

(** [UPDATE ... SET v = 5 WHERE h = 1 AND r = 2 IF v = 1]. *)
Definition conditional_update : QLWriteRequestPB (T := simple_types) :=
  simple_write QL_STMT_UPDATE
    [simple_column_value 3 [] (Constant kScalarInsert 5)]
    (Some (3, 1))
    (Some {| ids := [3]; static_ids := [] |})
    None.

(** A store where every key holds the row with [v = 7]. *)
Definition stored_row : DB (QLStorage := simple_storage) :=
  fun _ => Some [(3, Some 7)].

(** A read of the column [v] and of the static column [s]. *)
Definition simple_read_request (row_limit : option Z) (aggregate : bool)
  : QLReadRequestPB (T := simple_types) :=
  @Build_QLReadRequestPB simple_types
    row_limit
    {| ids := [3]; static_ids := [2] |}
    false                               (* distinct *)
    aggregate
    [ColumnRef 3].

Definition empty_result : ReadState (T := simple_types) :=
  @Build_ReadState simple_types [] None None [].

(** [UPDATE ... USING TIMESTAMP 100 SET v = v + {5}]: a map extend. *)
Definition collection_update : QLWriteRequestPB (T := simple_types) :=
  simple_write QL_STMT_UPDATE
    [simple_column_value 3 [] (Constant kMapExtend 5)] None None (Some 100).

(** [DELETE FROM ... USING TIMESTAMP 100 WHERE h = 1 AND r = 2]. *)
Definition timestamped_delete : QLWriteRequestPB (T := simple_types) :=
  simple_write QL_STMT_DELETE [] None None (Some 100).

(** The operation after [Init]. *)
Definition initialized (request : QLWriteRequestPB (T := simple_types))
  : WriteState (T := simple_types) :=
  snd (Init request simple_schema (new_operation [] None)).

(** The key of the row [h = 1, r = 2]. *)
Definition simple_row_key : DocKey (T := simple_types) :=
  @Build_DocKey simple_types (Some (0, [Some 1])) [Some 2].

(** The main scan of a read: two rows, the hint 5 after each. *)
Definition main_scan : RowwiseIterator (T := simple_types) :=
  simple_iterator
    [simple_iterator_row false [(0, Some 1); (3, Some 7)] (Some 5);
     simple_iterator_row false [(0, Some 1); (3, Some 8)] (Some 5)] None.

(** The lookup of the static row: one row, the hint 10 after it. *)
Definition static_lookup : RowwiseIterator (T := simple_types) :=
  simple_iterator [simple_iterator_row true [(0, Some 1); (2, Some 4)] (Some 10)] None.

(** A read that continues from a paging state. *)
Definition paged_scans : QLStorageIf (T := simple_types) :=
  scripted_scans main_scan static_lookup true.

(** [DELETE v, s FROM ... USING TIMESTAMP 100 WHERE h = 1 AND r = 2]. *)
Definition column_delete : QLWriteRequestPB (T := simple_types) :=
  simple_write QL_STMT_DELETE
    [simple_column_value 3 [] (Constant kScalarInsert 0);
     simple_column_value 2 [] (Constant kScalarInsert 0)]
    None None (Some 100).

(** The key of the static row of [h = 1]. *)
Definition simple_hashed_key : DocKey (T := simple_types) :=
  @Build_DocKey simple_types (Some (0, [Some 1])) [].

(** [INSERT INTO ... (h, r, v, s) VALUES (1, 2, 5, 4)]. *)
Definition scalar_insert : QLWriteRequestPB (T := simple_types) :=
  simple_write QL_STMT_INSERT
    [simple_column_value 3 [] (Constant kScalarInsert 5);
     simple_column_value 2 [] (Constant kScalarInsert 4)]
    None None None.

(** A row of a scan of the hash key [h = 1], with the range key [range];
    the row read has the range column whatever the projection. *)
Definition keyed_row (range : Z) (hint : HybridTime) : IteratorRow (T := simple_types) :=
  @Build_IteratorRow simple_types
    false
    (fun _ _ => Ok [(1, Some range)])
    (@Build_DocKey simple_types (Some (0, [Some 1])) [Some range])
    hint.

(** A store whose range scans deliver the rows [r = 2] and [r = 3]. *)
Definition range_storage : QLStorage (T := simple_types) :=
  @Build_QLStorage simple_types
    unit
    (fun _ _ _ => Ok (simple_iterator [] None))
    (fun _ _ _ _ _ =>
       Ok (simple_iterator [keyed_row 2 (Some 5); keyed_row 3 (Some 6)] None))
    (fun condition row =>
       match condition with
       | Some c => EvalCondition (QLTypes := simple_types) c row
       | None => Ok true
       end)
    (fun _ _ => Ok tt).

(** [DELETE FROM ... WHERE h = 1 AND r = 3], the range column left to the
    WHERE condition. *)
Definition range_delete : QLWriteRequestPB (T := simple_types) :=
  @Build_QLWriteRequestPB simple_types
    QL_STMT_DELETE
    0                                   (* query_id *)
    (Some 0)                            (* hash_code *)
    [Constant kScalarInsert 1]          (* hashed_column_values *)
    []                                  (* range_column_values *)
    []                                  (* column_values *)
    (Some (1, 3))                       (* where_expr *)
    None
    None
    None                                (* ttl *)
    None.

(** The table with a list column [l] besides. *)
Definition list_schema : Schema :=
  {| columns := [(0, simple_column "h" false); (1, simple_column "r" false);
                 (3, simple_column "v" false);
                 (4, {| name := "l"; is_static := false; main_type := LIST |})];
     num_hash_key_columns := 1;
     num_range_key_columns := 1;
     default_time_to_live := None |}.

(** A store whose write batch refuses every [ReplaceInList] with a QL
    error, as it does an index out of bounds. *)
Definition refusing_storage : QLStorage (T := simple_types) :=
  @Build_QLStorage simple_types
    unit
    (fun _ _ _ => Ok (simple_iterator [] None))
    (fun _ _ _ _ _ => Ok (simple_iterator [] None))
    (fun _ _ => Ok true)
    (fun _ op => match op with
                 | ReplaceInList _ _ _ _ _ => Error QLError
                 | _ => Ok tt
                 end).

(** [UPDATE ... SET l[9] = 5, v = 1 WHERE h = 1 AND r = 2]. *)
Definition list_update : QLWriteRequestPB (T := simple_types) :=
  simple_write QL_STMT_UPDATE
    [simple_column_value 4 [Constant kScalarInsert 9] (Constant kScalarInsert 5);
     simple_column_value 3 [] (Constant kScalarInsert 1)]
    None None None.

End QL.

(* ===================================================================== *)
(** ** Properties of the Redis command engine                             *)
(* ===================================================================== *)

Module RedisFacts.

Import Redis.

Unset Implicit Arguments.

Section Facts.

Context {D : DoubleOps} {Store : DocStore} {Env : Environment}.

(** *** INCR and EXISTS *)

Lemma GetRedisValue_key_only (db : DB) (kv : RedisKeyValuePB) :
  has_key kv = true -> subkey kv = [] ->
  GetRedisValue db kv (-1) =
  rbind (GetSubDocument db (key_only kv) false) (fun found =>
    match found with
    | None => Ok (RedisValue_of_type REDIS_TYPE_NONE)
    | Some doc =>
        if negb (IsPrimitive doc) then
          match value_type doc with
          | kObject => Ok (RedisValue_of_type REDIS_TYPE_HASH)
          | kRedisTS => Ok (RedisValue_of_type REDIS_TYPE_TIMESERIES)
          | kRedisSortedSet => Ok (RedisValue_of_type REDIS_TYPE_SORTEDSET)
          | kRedisSet => Ok (RedisValue_of_type REDIS_TYPE_SET)
          | _ => Error IllegalState
          end
        else Ok {| rv_type := REDIS_TYPE_STRING; rv_value := GetString doc |}
    end).
Proof.
  intros Hkey Hsub. unfold GetRedisValue. rewrite Hkey, Hsub. reflexivity.
Qed.

(** The over/underflow test of [ApplyIncr] holds exactly when the sum
    leaves the range of [int64_t]. *)
Lemma incr_overflow_test (old_value incr : Z) :
  in_int64 old_value = true -> INT64_MIN <= incr <= INT64_MAX ->
  ((incr <? 0) && (old_value <? 0) && (incr <? INT64_MIN - old_value))
  || ((incr >? 0) && (old_value >? 0) && (incr >? INT64_MAX - old_value))
  = negb (in_int64 (old_value + incr)).
Proof.
  unfold in_int64, INT64_MIN, INT64_MAX. intros Hold Hincr.
  apply andb_prop in Hold. destruct Hold as [Hlo Hhi].
  apply Z.leb_le in Hlo. apply Z.leb_le in Hhi.
  rewrite !Z.gtb_ltb.
  destruct (incr <? 0) eqn:E1; destruct (old_value <? 0) eqn:E2;
    destruct (0 <? incr) eqn:E3; destruct (0 <? old_value) eqn:E4;
    destruct (incr <? - 2 ^ 63 - old_value) eqn:E5;
    destruct (2 ^ 63 - 1 - old_value <? incr) eqn:E6;
    destruct (- 2 ^ 63 <=? old_value + incr) eqn:E7;
    destruct (old_value + incr <=? 2 ^ 63 - 1) eqn:E8;
    try reflexivity; exfalso;
    rewrite ?Z.ltb_lt, ?Z.ltb_ge, ?Z.leb_le, ?Z.leb_gt in *; lia.
Qed.

Lemma stoll_in_int64 (str : string) (v : Z) :
  stoll str = StollValue v -> in_int64 v = true.
Proof.
  unfold stoll.
  destruct (match skip_spaces str with
            | String "-" r => (true, r)
            | String "+" r => (false, r)
            | _ => (false, skip_spaces str)
            end) as [negative digits].
  destruct (read_digits digits 0 false) as [n|]; [|discriminate].
  destruct (in_int64 (if negative then - n else n)) eqn:E; [|discriminate].
  intros H. injection H as <-. exact E.
Qed.

Lemma wrap64_in_range (z : Z) : in_int64 z = true -> wrap64 z = z.
Proof.
  unfold in_int64, INT64_MIN, INT64_MAX, wrap64. intros H.
  apply andb_prop in H. destruct H as [Hlo Hhi].
  apply Z.leb_le in Hlo. apply Z.leb_le in Hhi.
  rewrite Z.mod_small; lia.
Qed.

(** What [ApplyIncr] does once the stored value was read as a string. *)
Lemma ApplyIncr_on_string (db : DB) (kv : RedisKeyValuePB) (incr : Z)
    (s : OpState) (v : string) :
  has_key kv = true -> subkey kv = [] ->
  GetSubDocument db (key_only kv) false = Ok (Some (Primitive (PVString v))) ->
  ApplyIncr db kv incr s =
  let s1 := {| response := set_code RedisStatusCode_OK (response s);
               batch := batch s |} in
  match stoll v with
  | StollValue old_value =>
      let new_value := wrap64 (old_value + incr) in
      if ((incr <? 0) && (old_value <? 0) && (incr <? INT64_MIN - old_value))
         || ((incr >? 0) && (old_value >? 0) && (incr >? INT64_MAX - old_value))
      then with_response (set_error_message "Increment would overflow") s1
      else
        (with_response (set_int_response new_value) ;;;
         write (SetPrimitive (DocPathFromRedisKey (hash_code kv) (key kv))
                  {| primitive_value := PVString (to_string new_value);
                     value_ttl := None |}))%op s1
  | _ =>
      with_response
        (set_error_message "Can not parse incr argument as a number") s1
  end.
Proof.
  intros Hkey Hsub Hget.
  unfold ApplyIncr, GetValue, bind, lift.
  rewrite (@GetRedisValue_key_only db kv Hkey Hsub), Hget. cbn.
  destruct (stoll v) as [old_value| |]; try reflexivity.
  destruct (((incr <? 0) && (old_value <? 0) && (incr <? INT64_MIN - old_value))
            || ((incr >? 0) && (old_value >? 0) && (incr >? INT64_MAX - old_value)));
    reflexivity.
Qed.

(** INCR of a key whose stored string is a number, the sum being in
    range: the sum is answered and written back in its decimal form. *)
Lemma ApplyIncr_success (db : DB) (kv : RedisKeyValuePB) (incr : Z)
    (s : OpState) (v : string) (old_value : Z) :
  has_key kv = true -> subkey kv = [] ->
  INT64_MIN <= incr <= INT64_MAX ->
  GetSubDocument db (key_only kv) false = Ok (Some (Primitive (PVString v))) ->
  stoll v = StollValue old_value ->
  in_int64 (old_value + incr) = true ->
  let op := SetPrimitive (DocPathFromRedisKey (hash_code kv) (key kv))
              {| primitive_value := PVString (to_string (old_value + incr));
                 value_ttl := None |} in
  batch_status (batch s) op = Ok tt ->
  ApplyIncr db kv incr s =
  (Ok tt,
   {| response := set_int_response (old_value + incr)
                    (set_code RedisStatusCode_OK (response s));
      batch := batch s ++ [op] |}).
Proof.
  intros Hkey Hsub Hincr Hget Hparse Hsum op Hop.
  rewrite (@ApplyIncr_on_string db kv incr s v Hkey Hsub Hget), Hparse.
  cbv zeta.
  rewrite (@incr_overflow_test old_value incr (@stoll_in_int64 v old_value Hparse) Hincr), Hsum.
  rewrite (@wrap64_in_range _ Hsum).
  unfold bind, with_response, modify, write. cbn.
  fold op. rewrite Hop. reflexivity.
Qed.

(** C2.  INCR of a key that holds a string.  When [std::stoll] rejects
    the string (no number to read, or a number outside [int64_t]) the
    operation returns OK, the response carries the message "Can not parse
    incr argument as a number", and the write batch is unchanged.  When
    the string is a number and the sum with the increment is below
    [INT64_MIN] or above [INT64_MAX], the operation returns OK, the
    response carries "Increment would overflow", and the write batch is
    unchanged. *)
Theorem ApplyIncr_domain_errors (db : DB) (kv : RedisKeyValuePB) (incr : Z)
    (s : OpState) (v : string) :
  has_key kv = true -> subkey kv = [] ->
  INT64_MIN <= incr <= INT64_MAX ->
  GetSubDocument db (key_only kv) false = Ok (Some (Primitive (PVString v))) ->
  ((stoll v = invalid_argument \/ stoll v = out_of_range) ->
   ApplyIncr db kv incr s =
   (Ok tt,
    {| response :=
         set_error_message "Can not parse incr argument as a number"
           (set_code RedisStatusCode_OK (response s));
       batch := batch s |}))
  /\
  (forall old_value : Z,
      stoll v = StollValue old_value ->
      old_value + incr < INT64_MIN \/ INT64_MAX < old_value + incr ->
      ApplyIncr db kv incr s =
      (Ok tt,
       {| response :=
            set_error_message "Increment would overflow"
              (set_code RedisStatusCode_OK (response s));
          batch := batch s |})).
Proof.
  intros Hkey Hsub Hincr Hget.
  rewrite (@ApplyIncr_on_string db kv incr s v Hkey Hsub Hget).
  split.
  - intros [H | H]; rewrite H; reflexivity.
  - intros old_value Hparse Hrange. rewrite Hparse. cbv zeta.
    rewrite (@incr_overflow_test old_value incr
               (@stoll_in_int64 v old_value Hparse) Hincr).
    assert (Hout : in_int64 (old_value + incr) = false).
    { unfold in_int64. apply andb_false_iff.
      destruct Hrange as [Hlt | Hgt];
        [left; apply Z.leb_gt; exact Hlt | right; apply Z.leb_gt; exact Hgt]. }
    rewrite Hout. reflexivity.
Qed.

(** C9.  INCR of a key with no stored value: the type check of
    [ApplyIncr] is made with [VerifySuccessIfMissing] left at its default
    (APPEND and SETRANGE pass [kTrue]), so the response code is NOT_FOUND,
    the operation returns OK, no increment is applied and the write batch
    is unchanged. *)
Theorem ApplyIncr_missing_key (db : DB) (kv : RedisKeyValuePB) (incr : Z)
    (s : OpState) :
  has_key kv = true -> subkey kv = [] ->
  GetSubDocument db (key_only kv) false = Ok None ->
  ApplyIncr db kv incr s =
  (Ok tt,
   {| response := set_code RedisStatusCode_NOT_FOUND (response s);
      batch := batch s |}).
Proof.
  intros Hkey Hsub Hget.
  unfold ApplyIncr, GetValue, bind, lift.
  rewrite (@GetRedisValue_key_only db kv Hkey Hsub), Hget. reflexivity.
Qed.

(** EXISTS sets the code to OK or leaves the response as it was. *)
Lemma ExecuteExists_code (db : DB) (kv : RedisKeyValuePB) (r : RedisResponsePB) :
  snd (ExecuteExists db kv r) = r
  \/ code (snd (ExecuteExists db kv r)) = Some RedisStatusCode_OK.
Proof.
  unfold ExecuteExists, bind, lift.
  destruct (GetRedisValue db kv (-1)); cbn; auto.
Qed.

Lemma ExecuteExists_missing (db : DB) (kv : RedisKeyValuePB) (r : RedisResponsePB) :
  has_key kv = true -> subkey kv = [] ->
  GetSubDocument db (key_only kv) false = Ok None ->
  ExecuteExists db kv r =
  (Ok tt, set_int_response 0 (set_code RedisStatusCode_OK r)).
Proof.
  intros Hkey Hsub Hget. unfold ExecuteExists, bind, lift.
  rewrite (@GetRedisValue_key_only db kv Hkey Hsub), Hget. reflexivity.
Qed.

Lemma ExecuteExists_found (db : DB) (kv : RedisKeyValuePB) (r : RedisResponsePB)
    (doc : SubDocument) :
  has_key kv = true -> subkey kv = [] ->
  GetSubDocument db (key_only kv) false = Ok (Some doc) ->
  string_or_collection doc ->
  ExecuteExists db kv r =
  (Ok tt, set_int_response 1 (set_code RedisStatusCode_OK r)).
Proof.
  intros Hkey Hsub Hget Hdoc. unfold ExecuteExists, bind, lift.
  rewrite (@GetRedisValue_key_only db kv Hkey Hsub), Hget. cbn.
  destruct Hdoc as [H | [H | [H | [H | H]]]].
  - rewrite H. reflexivity.
  - destruct (IsPrimitive doc); [reflexivity | rewrite H; reflexivity].
  - destruct (IsPrimitive doc); [reflexivity | rewrite H; reflexivity].
  - destruct (IsPrimitive doc); [reflexivity | rewrite H; reflexivity].
  - destruct (IsPrimitive doc); [reflexivity | rewrite H; reflexivity].
Qed.

(** *** Containers *)

Lemma assoc_get_set {V} (k k' : PrimitiveValue) (v : V)
    (l : list (PrimitiveValue * V)) :
  assoc_get k (assoc_set k' v l) =
  if PrimitiveValue_eq_dec k k' then Some v else assoc_get k l.
Proof.
  induction l as [|[k0 v0] l IH]; cbn.
  - destruct (PrimitiveValue_eq_dec k k'); reflexivity.
  - destruct (PrimitiveValue_eq_dec k' k0) as [->|Hne]; cbn.
    + destruct (PrimitiveValue_eq_dec k k0); reflexivity.
    + destruct (PrimitiveValue_eq_dec k k0) as [->|Hne'].
      * destruct (PrimitiveValue_eq_dec k0 k'); [congruence | reflexivity].
      * exact IH.
Qed.

Lemma assoc_get_In {V} (k : PrimitiveValue) (v : V)
    (l : list (PrimitiveValue * V)) :
  assoc_get k l = Some v -> In (k, v) l.
Proof.
  induction l as [|[k0 v0] l IH]; cbn; [discriminate|].
  destruct (PrimitiveValue_eq_dec k k0) as [->|Hne].
  - intros H. injection H as ->. now left.
  - intros H. right. now apply IH.
Qed.

Lemma existsb_assoc_set {V} (f : PrimitiveValue * V -> bool)
    (k : PrimitiveValue) (v : V) (l : list (PrimitiveValue * V)) :
  existsb f (assoc_set k v l) = true -> f (k, v) = true \/ existsb f l = true.
Proof.
  induction l as [|[k0 v0] l IH]; cbn.
  - rewrite orb_false_r. now left.
  - destruct (PrimitiveValue_eq_dec k k0) as [->|Hne]; cbn.
    + intros H. apply orb_true_iff in H. destruct H as [H|H]; [now left|].
      right. rewrite H. apply orb_true_r.
    + intros H. apply orb_true_iff in H. destruct H as [H|H].
      * right. now rewrite H.
      * destruct (IH H) as [H'|H']; [now left|].
        right. rewrite H'. apply orb_true_r.
Qed.

Lemma object_container_SetChild (k : PrimitiveValue) (c d : SubDocument) :
  object_container (SetChild k c d) = assoc_set k c (object_container d).
Proof. destruct d; reflexivity. Qed.

Lemma GetChild_SetChild (k k' : PrimitiveValue) (c d : SubDocument) :
  GetChild k (SetChild k' c d) =
  if PrimitiveValue_eq_dec k k' then Some c else GetChild k d.
Proof.
  unfold GetChild. rewrite object_container_SetChild. apply assoc_get_set.
Qed.

Lemma has_child_SetChild (k k' : PrimitiveValue) (c d : SubDocument) :
  has_child k (SetChild k' c d) = true -> k = k' \/ has_child k d = true.
Proof.
  unfold has_child. rewrite GetChild_SetChild.
  destruct (PrimitiveValue_eq_dec k k'); auto.
Qed.

Lemma has_child_default (k : PrimitiveValue) :
  has_child k SubDocument_default = false.
Proof. reflexivity. Qed.

(** *** The members that a ZADD writes *)

Lemma writes_member_reverse (m v : string) (forward reverse c : SubDocument) :
  writes_member m forward (SetChild (PVString v) c reverse) = true ->
  m = v \/ writes_member m forward reverse = true.
Proof.
  unfold writes_member. intros H. apply orb_true_iff in H.
  destruct H as [H|H].
  - right. rewrite H. reflexivity.
  - apply has_child_SetChild in H. destruct H as [H|H].
    + left. now injection H.
    + right. rewrite H. apply orb_true_r.
Qed.

Lemma writes_member_forward (m : string) (k : PrimitiveValue)
    (entry forward reverse : SubDocument) :
  writes_member m (SetChild k entry forward) reverse = true ->
  has_child (PVString m) entry = true \/ writes_member m forward reverse = true.
Proof.
  unfold writes_member. intros H. apply orb_true_iff in H.
  destruct H as [H|H].
  - rewrite object_container_SetChild in H.
    apply existsb_assoc_set in H. cbn in H. destruct H as [H|H]; [now left|].
    right. rewrite H. reflexivity.
  - right. rewrite H. apply orb_true_r.
Qed.

Lemma writes_member_entry (m : string) (k : PrimitiveValue)
    (forward reverse : SubDocument) :
  has_child (PVString m) (GetOrAddChild k forward) = true ->
  writes_member m forward reverse = true.
Proof.
  unfold GetOrAddChild, writes_member. intros H.
  destruct (GetChild k forward) as [c|] eqn:Hc; [|discriminate].
  apply orb_true_iff. left. apply existsb_exists.
  exists (k, c). split; [|exact H].
  apply assoc_get_In. exact Hc.
Qed.

(** The mappings after the loop body ran on one more member: what they
    hold was there before, or is an entry for that member, and then the
    body did add or remove an entry for it. *)
Lemma sorted_set_entry_writes (db : DB) (kv : RedisKeyValuePB)
    (options : SortedSetOptionsPB) (i : Z) (e e' : SortedSetEntries) (m : string) :
  sorted_set_entry db kv options i e = Ok e' ->
  writes_member m (kv_entries_forward e') (kv_entries_reverse e') = true ->
  writes_member m (kv_entries_forward e) (kv_entries_reverse e) = true
  \/ (value_at kv i = Ok m
      /\ match GetSubDocument db (reverse_key kv m) false with
         | Ok None => update_options options <> UpdateOptions_XX
         | Ok (Some _) => update_options options <> UpdateOptions_NX
         | _ => False
         end).
Proof.
  unfold sorted_set_entry.
  destruct (value_at kv i) as [v| |] eqn:Hv; cbn [rbind]; try discriminate.
  destruct (GetSubDocument db (reverse_key kv v) false) as [found| |] eqn:Hget;
    cbn [rbind]; try discriminate.
  destruct (subkey_at kv i) as [sk| |]; cbn [rbind]; try discriminate.
  assert (Hentry : forall k f r,
             has_child (PVString m)
               (SetChild (PVString v) (Primitive (PVType kNull)) (GetOrAddChild k f))
             = true ->
             m = v \/ writes_member m f r = true).
  { intros k f r H. apply has_child_SetChild in H. destruct H as [H|H].
    - left. now injection H.
    - right. eapply writes_member_entry. exact H. }
  assert (Htomb : forall f r k,
             writes_member m
               (SetChild k (SetChild (PVString v) (SubDocument_of_type kTombstone)
                              SubDocument_default) f) r = true ->
             m = v \/ writes_member m f r = true).
  { intros f r k H. apply writes_member_forward in H. destruct H as [H|H]; [|now right].
    apply has_child_SetChild in H. destruct H as [H|H].
    - left. now injection H.
    - discriminate. }
  destruct found as [d|]; cbn [negb];
    destruct (update_options options) eqn:Hopt; cbn iota beta;
    try destruct (double_ne (GetDouble d) (double_subkey sk));
    cbn iota beta;
    intros Heq; injection Heq as <-; cbn [kv_entries_forward kv_entries_reverse];
    intros H.
  all: try (apply writes_member_reverse in H; destruct H as [H|H];
            [right; subst; rewrite Hget; split; [reflexivity | congruence]|]).
  all: try (apply writes_member_forward in H; destruct H as [H|H];
            [apply Hentry with (r := kv_entries_reverse e) in H;
             destruct H as [H|H];
             [right; subst; rewrite Hget; split; [reflexivity | congruence]|]|]).
  all: try (apply Htomb in H; destruct H as [H|H];
            [right; subst; rewrite Hget; split; [reflexivity | congruence]|]).
  all: left; exact H.
Qed.

Lemma for_each_invariant {A St} (P : St -> Prop) (l : list A)
    (body : A -> St -> Result St) (s s' : St) :
  (forall i s1 s2, In i l -> body i s1 = Ok s2 -> P s1 -> P s2) ->
  for_each l body s = Ok s' -> P s -> P s'.
Proof.
  revert s. induction l as [|i l IH]; intros s Hbody; cbn.
  - intros H. injection H as <-. auto.
  - destruct (body i s) as [s1| |] eqn:Hs1; cbn; try discriminate.
    intros Hrest Hs. apply (IH s1).
    + intros j a b Hj. apply Hbody. now right.
    + exact Hrest.
    + apply (Hbody i s s1); auto. now left.
Qed.

Lemma value_at_In (kv : RedisKeyValuePB) (i : Z) (v : string) :
  value_at kv i = Ok v -> In v (value kv).
Proof.
  unfold value_at. destruct (i <? 0); [discriminate|].
  destruct (nth_error (value kv) (Z.to_nat i)) eqn:Hnth; [|discriminate].
  intros H. injection H as <-. eapply nth_error_In. exact Hnth.
Qed.

Lemma sorted_set_loop_writes (db : DB) (kv : RedisKeyValuePB)
    (options : SortedSetOptionsPB) (e : SortedSetEntries) (m : string) :
  for_each (subkey_indices kv) (sorted_set_entry db kv options)
    SortedSetEntries_init = Ok e ->
  writes_member m (kv_entries_forward e) (kv_entries_reverse e) = true ->
  In m (value kv) /\ zadd_touches db kv options m.
Proof.
  intros Hloop.
  eapply (for_each_invariant
            (fun e => writes_member m (kv_entries_forward e) (kv_entries_reverse e)
                      = true -> In m (value kv) /\ zadd_touches db kv options m));
    [|exact Hloop|].
  - intros i e1 e2 _ Hstep IH H.
    destruct (sorted_set_entry_writes _ _ _ _ _ _ _ Hstep H) as [Hold | [Hv Hnew]].
    + apply IH. exact Hold.
    + split; [eapply value_at_In; exact Hv | exact Hnew].
  - cbn. discriminate.
Qed.

Lemma sorted_set_document_container (e : SortedSetEntries) (card : Z) :
  exists kids, sorted_set_document e card = Container kObject kids.
Proof.
  unfold sorted_set_document.
  destruct (new_elements_added e >? 0);
    destruct (0 <? object_num_keys (kv_entries_forward e))%nat;
    destruct (0 <? object_num_keys (kv_entries_reverse e))%nat;
    eexists; reflexivity.
Qed.

Lemma no_keys_no_child (k : PrimitiveValue) (d : SubDocument) :
  (0 <? object_num_keys d)%nat = false -> object_container d = [].
Proof.
  unfold object_num_keys. destruct (object_container d); [reflexivity|].
  cbn. discriminate.
Qed.

(** The members written by the document that ZADD assembles are those of
    the forward and reverse mappings of the loop. *)
Lemma sorted_set_document_members (e : SortedSetEntries) (card : Z) (m : string) :
  document_writes_member m
    (Container kRedisSortedSet (object_container (sorted_set_document e card)))
  = writes_member m (kv_entries_forward e) (kv_entries_reverse e).
Proof.
  unfold document_writes_member, sorted_set_document, writes_member, has_child.
  destruct (new_elements_added e >? 0);
    destruct (0 <? object_num_keys (kv_entries_forward e))%nat eqn:Hf;
    destruct (0 <? object_num_keys (kv_entries_reverse e))%nat eqn:Hr;
    cbn;
    try (apply (no_keys_no_child (PVType kCounter)) in Hf);
    try (apply (no_keys_no_child (PVType kCounter)) in Hr);
    unfold GetChild; rewrite ?Hf, ?Hr; reflexivity.
Qed.

Lemma subkey_size_positive (kv : RedisKeyValuePB) :
  subkey kv <> [] -> (subkey_size kv >? 0) = true.
Proof.
  unfold subkey_size. destruct (subkey kv); [congruence|].
  intros _. cbn [List.length]. apply Z.gtb_lt. lia.
Qed.

(** [ApplySet] on a ZADD whose reads succeed. *)
Lemma ApplySet_sorted_set (db : DB) (kv : RedisKeyValuePB)
    (set_request : RedisSetRequestPB) (s : OpState)
    (data_type : RedisDataType) (e : SortedSetEntries) (card : Z) :
  type kv = REDIS_TYPE_SORTEDSET -> subkey kv <> [] ->
  GetRedisValueType db kv (Some (batch s)) (-1) = Ok data_type ->
  data_type = REDIS_TYPE_SORTEDSET \/ data_type = REDIS_TYPE_NONE ->
  for_each (subkey_indices kv)
    (sorted_set_entry db kv (sorted_set_options set_request))
    SortedSetEntries_init = Ok e ->
  (if new_elements_added e >? 0 then GetCardinality db kv = Ok card else card = 0) ->
  ApplySet db kv set_request s =
  let answered r :=
    set_code RedisStatusCode_OK (set_int_response (return_value e) r) in
  if (0 <? object_num_keys (sorted_set_document e card))%nat then
    match batch_status (batch s) (zadd_write kv set_request data_type e card) with
    | Ok _ =>
        (Ok tt,
         {| response := answered (response s);
            batch := batch s ++ [zadd_write kv set_request data_type e card] |})
    | Error c => (Error c, s)
    | Fatal => (Fatal, s)
    end
  else (Ok tt, {| response := answered (response s); batch := batch s |}).
Proof.
  intros Htype Hsub Hdt Hdt' Hloop Hcard.
  unfold ApplySet. rewrite (subkey_size_positive kv Hsub), Htype.
  unfold bind at 1. unfold GetValueType. rewrite Hdt.
  assert (Hgate : negb (RedisDataType_eqb data_type REDIS_TYPE_SORTEDSET)
                  && negb (RedisDataType_eqb data_type REDIS_TYPE_NONE) = false)
    by (destruct Hdt' as [-> | ->]; reflexivity).
  rewrite Hgate.
  unfold bind at 1. unfold lift at 1. rewrite Hloop.
  assert (Hread : (if new_elements_added e >? 0
                   then lift (GetCardinality db kv) else ret 0) s = (Ok card, s)).
  { destruct (new_elements_added e >? 0).
    - unfold lift. rewrite Hcard. reflexivity.
    - unfold ret. rewrite Hcard. reflexivity. }
  unfold bind at 1. rewrite Hread.
  destruct (sorted_set_document_container e card) as [kids Hkids].
  unfold zadd_write, zadd_document.
  destruct (0 <? object_num_keys (sorted_set_document e card))%nat.
  - rewrite Hkids. cbn [ConvertToCollection object_container].
    unfold bind, lift, write, with_response, modify.
    destruct (RedisDataType_eqb data_type REDIS_TYPE_NONE);
      match goal with
      | |- context [batch_status ?b ?op] => destruct (batch_status b op)
      end; reflexivity.
  - reflexivity.
Qed.

(** Whatever happens, a ZADD leaves the write batch as it was or adds the
    one call that carries the document assembled from the loop. *)
Lemma ApplySet_sorted_set_batch (db : DB) (kv : RedisKeyValuePB)
    (set_request : RedisSetRequestPB) (s : OpState) :
  type kv = REDIS_TYPE_SORTEDSET -> subkey kv <> [] ->
  batch (snd (ApplySet db kv set_request s)) = batch s
  \/ exists data_type e card,
       for_each (subkey_indices kv)
         (sorted_set_entry db kv (sorted_set_options set_request))
         SortedSetEntries_init = Ok e
       /\ (if new_elements_added e >? 0
           then GetCardinality db kv = Ok card else card = 0)
       /\ ApplySet db kv set_request s =
          (Ok tt,
           {| response := set_code RedisStatusCode_OK
                            (set_int_response (return_value e) (response s));
              batch := batch s ++ [zadd_write kv set_request data_type e card] |}).
Proof.
  intros Htype Hsub.
  destruct (GetRedisValueType db kv (Some (batch s)) (-1)) as [data_type| |] eqn:Hdt.
  2,3: left; unfold ApplySet;
       rewrite (subkey_size_positive kv Hsub), Htype;
       unfold bind at 1; unfold GetValueType; rewrite Hdt; reflexivity.
  destruct (negb (RedisDataType_eqb data_type REDIS_TYPE_SORTEDSET)
            && negb (RedisDataType_eqb data_type REDIS_TYPE_NONE)) eqn:Hgate.
  { left. unfold ApplySet.
    rewrite (subkey_size_positive kv Hsub), Htype.
    unfold bind at 1. unfold GetValueType. rewrite Hdt, Hgate. reflexivity. }
  assert (Hdt' : data_type = REDIS_TYPE_SORTEDSET \/ data_type = REDIS_TYPE_NONE)
    by (destruct data_type; cbn in Hgate; try discriminate; auto).
  destruct (for_each (subkey_indices kv)
              (sorted_set_entry db kv (sorted_set_options set_request))
              SortedSetEntries_init) as [e| |] eqn:Hloop.
  2,3: left; unfold ApplySet;
       rewrite (subkey_size_positive kv Hsub), Htype;
       unfold bind at 1; unfold GetValueType; rewrite Hdt, Hgate;
       unfold bind at 1; unfold lift at 1; rewrite Hloop; reflexivity.
  assert (Hcard : (exists card,
                      if new_elements_added e >? 0
                      then GetCardinality db kv = Ok card else card = 0)
                  \/ ((new_elements_added e >? 0) = true
                      /\ forall card, GetCardinality db kv <> Ok card)).
  { destruct (new_elements_added e >? 0).
    - destruct (GetCardinality db kv) as [card| |] eqn:Hc.
      + left. exists card. reflexivity.
      + right. split; [reflexivity | discriminate].
      + right. split; [reflexivity | discriminate].
    - left. exists 0. reflexivity. }
  destruct Hcard as [[card Hcard] | [Hnew Hfail]].
  - rewrite (ApplySet_sorted_set db kv set_request s data_type e card
               Htype Hsub Hdt Hdt' Hloop Hcard).
    cbv zeta.
    destruct (0 <? object_num_keys (sorted_set_document e card))%nat.
    + destruct (batch_status (batch s) (zadd_write kv set_request data_type e card))
        as [[]| |] eqn:Hst.
      * right. exists data_type, e, card. auto.
      * left. reflexivity.
      * left. reflexivity.
    + left. reflexivity.
  - left. unfold ApplySet.
    rewrite (subkey_size_positive kv Hsub), Htype.
    unfold bind at 1. unfold GetValueType. rewrite Hdt, Hgate.
    unfold bind at 1. unfold lift at 1. rewrite Hloop.
    unfold bind at 1. rewrite Hnew. unfold lift at 1.
    destruct (GetCardinality db kv) as [card| |] eqn:Hc.
    + exfalso. apply (Hfail card). reflexivity.
    + reflexivity.
    + reflexivity.
Qed.

(** *** The cardinality counter *)

Lemma sorted_set_entry_count (db : DB) (kv : RedisKeyValuePB)
    (options : SortedSetOptionsPB) (i : Z) (e e' : SortedSetEntries) :
  update_options options <> UpdateOptions_XX ->
  sorted_set_entry db kv options i e = Ok e' ->
  exists v, value_at kv i = Ok v
            /\ new_elements_added e' =
               new_elements_added e + (if not_found db kv v then 1 else 0).
Proof.
  intros Hopt. unfold sorted_set_entry, not_found.
  destruct (value_at kv i) as [v| |]; cbn [rbind]; try discriminate.
  destruct (GetSubDocument db (reverse_key kv v) false) as [found| |] eqn:Hget;
    cbn [rbind]; try discriminate.
  destruct (subkey_at kv i) as [sk| |]; cbn [rbind]; try discriminate.
  destruct found as [d|]; cbn [negb];
    destruct (update_options options); try congruence; cbn iota beta;
    try destruct (double_ne (GetDouble d) (double_subkey sk));
    cbn iota beta;
    intros Heq; injection Heq as <-; cbn [new_elements_added];
    exists v; (split; [reflexivity|]); rewrite Hget; lia.
Qed.

Lemma value_at_skipn (kv : RedisKeyValuePB) (a : nat) (v : string) :
  value_at kv (Z.of_nat a) = Ok v ->
  skipn a (value kv) = v :: skipn (S a) (value kv).
Proof.
  unfold value_at.
  destruct (Z.of_nat a <? 0); [discriminate|].
  rewrite Nat2Z.id.
  generalize (value kv). clear. induction a as [|a IH]; intros l.
  - destruct l; cbn; [discriminate|]. intros H. injection H as <-. reflexivity.
  - destruct l; cbn; [discriminate|]. apply IH.
Qed.

Lemma sorted_set_loop_count (db : DB) (kv : RedisKeyValuePB)
    (options : SortedSetOptionsPB) (n a : nat) (e0 e : SortedSetEntries) :
  update_options options <> UpdateOptions_XX ->
  for_each (map Z.of_nat (seq a n)) (sorted_set_entry db kv options) e0 = Ok e ->
  new_elements_added e =
  new_elements_added e0
  + Z.of_nat (List.length (filter (not_found db kv) (firstn n (skipn a (value kv))))).
Proof.
  intros Hopt. revert a e0. induction n as [|n IH]; intros a e0; cbn.
  - intros H. injection H as <-. lia.
  - destruct (sorted_set_entry db kv options (Z.of_nat a) e0) as [e1| |] eqn:Hstep;
      cbn [rbind]; try discriminate.
    intros Hrest.
    destruct (sorted_set_entry_count db kv options _ e0 e1 Hopt Hstep)
      as [v [Hv Hcount]].
    rewrite (IH (S a) e1 Hrest), Hcount.
    rewrite (value_at_skipn kv a v Hv). cbn [firstn filter].
    destruct (not_found db kv v); cbn [List.length]; lia.
Qed.

(** Each ZADD counts the members it did not find. *)
Lemma sorted_set_loop_new_members (db : DB) (kv : RedisKeyValuePB)
    (options : SortedSetOptionsPB) (e : SortedSetEntries) :
  update_options options <> UpdateOptions_XX ->
  for_each (subkey_indices kv) (sorted_set_entry db kv options)
    SortedSetEntries_init = Ok e ->
  new_elements_added e = Z.of_nat (List.length (new_members db kv)).
Proof.
  intros Hopt Hloop. unfold subkey_indices in Hloop.
  rewrite (sorted_set_loop_count db kv options _ 0 _ e Hopt Hloop).
  reflexivity.
Qed.

Lemma sorted_set_document_counter (e : SortedSetEntries) (card : Z) :
  (new_elements_added e >? 0) = true ->
  GetChild (PVType kCounter) (zadd_document e card) =
  Some (Primitive (PVInt64 (wrap64 (card + new_elements_added e)))).
Proof.
  intros Hnew. unfold zadd_document, sorted_set_document. rewrite Hnew.
  destruct (0 <? object_num_keys (kv_entries_forward e))%nat;
    destruct (0 <? object_num_keys (kv_entries_reverse e))%nat;
    reflexivity.
Qed.

(** *** The store after a sequence of ZADDs *)

Lemma merge_get_other (ext : SubDocument -> option SubDocument -> SubDocument)
    (k : PrimitiveValue) (ks acc : list (PrimitiveValue * SubDocument)) :
  assoc_get k ks = None ->
  assoc_get k (merge_children ext ks acc) = assoc_get k acc.
Proof.
  revert acc. induction ks as [|[k0 d0] ks IH]; intros acc; cbn; [reflexivity|].
  destruct (PrimitiveValue_eq_dec k k0) as [->|Hne]; [discriminate|].
  intros H. rewrite (IH _ H), assoc_get_set.
  destruct (PrimitiveValue_eq_dec k k0); [congruence | reflexivity].
Qed.

Lemma assoc_get_not_In {V} (k : PrimitiveValue) (l : list (PrimitiveValue * V)) :
  ~ In k (map fst l) -> assoc_get k l = None.
Proof.
  induction l as [|[k0 v0] l IH]; cbn; [reflexivity|].
  intros H. destruct (PrimitiveValue_eq_dec k k0) as [->|Hne].
  - exfalso. apply H. now left.
  - apply IH. intros Hin. apply H. now right.
Qed.

Lemma merge_get_here (ext : SubDocument -> option SubDocument -> SubDocument)
    (k : PrimitiveValue) (d : SubDocument)
    (ks acc : list (PrimitiveValue * SubDocument)) :
  NoDup (map fst ks) ->
  assoc_get k ks = Some d ->
  assoc_get k (merge_children ext ks acc) = Some (ext d (assoc_get k acc)).
Proof.
  revert acc. induction ks as [|[k0 d0] ks IH]; intros acc Hnd; cbn; [discriminate|].
  inversion Hnd as [|x l Hnotin Hnd']; subst.
  destruct (PrimitiveValue_eq_dec k k0) as [->|Hne].
  - intros H. injection H as ->.
    rewrite merge_get_other by (apply assoc_get_not_In; exact Hnotin).
    rewrite assoc_get_set.
    destruct (PrimitiveValue_eq_dec k0 k0); [reflexivity | congruence].
  - intros H. rewrite (IH _ Hnd' H), assoc_get_set.
    destruct (PrimitiveValue_eq_dec k k0); [congruence | reflexivity].
Qed.

Lemma filter_all {A} (f : A -> bool) (l : list A) :
  (forall x, In x l -> f x = true) -> filter f l = l.
Proof.
  induction l as [|x l IH]; cbn; [reflexivity|].
  intros H. rewrite (H x) by now left.
  f_equal. apply IH. intros y Hy. apply H. now right.
Qed.

Lemma sorted_set_entry_total (db : DB) (kv : RedisKeyValuePB)
    (options : SortedSetOptionsPB) (i : Z) (e : SortedSetEntries)
    (v : string) (sk : RedisKeyValueSubKeyPB) (found : option SubDocument) :
  value_at kv i = Ok v -> subkey_at kv i = Ok sk ->
  GetSubDocument db (reverse_key kv v) false = Ok found ->
  exists e', sorted_set_entry db kv options i e = Ok e'.
Proof.
  intros Hv Hsk Hget. unfold sorted_set_entry.
  rewrite Hv. cbn [rbind]. rewrite Hget. cbn [rbind]. rewrite Hsk. cbn [rbind].
  destruct found as [d|]; cbn [negb];
    destruct (update_options options); cbn iota beta;
    try destruct (double_ne (GetDouble d) (double_subkey sk));
    cbn iota beta; eexists; reflexivity.
Qed.

Lemma nth_error_at {A} (l : list A) (a : nat) :
  (a < List.length l)%nat -> exists x, nth_error l a = Some x.
Proof.
  intros H. destruct (nth_error l a) eqn:E; [eauto|].
  apply nth_error_None in E. lia.
Qed.

Lemma sorted_set_loop_total (db : DB) (kv : RedisKeyValuePB)
    (options : SortedSetOptionsPB) (n a : nat) (e0 : SortedSetEntries) :
  (forall v, In v (value kv) ->
             exists found, GetSubDocument db (reverse_key kv v) false = Ok found) ->
  (a + n <= List.length (subkey kv))%nat ->
  (a + n <= List.length (value kv))%nat ->
  exists e,
    for_each (map Z.of_nat (seq a n)) (sorted_set_entry db kv options) e0 = Ok e.
Proof.
  intros Hget. revert a e0. induction n as [|n IH]; intros a e0 Hs Hv; cbn.
  - eexists; reflexivity.
  - destruct (nth_error_at (value kv) a) as [v Hnv]; [lia|].
    destruct (nth_error_at (subkey kv) a) as [sk Hnsk]; [lia|].
    assert (Hva : value_at kv (Z.of_nat a) = Ok v).
    { unfold value_at. destruct (Z.of_nat a <? 0) eqn:E; [apply Z.ltb_lt in E; lia|].
      rewrite Nat2Z.id, Hnv. reflexivity. }
    assert (Hska : subkey_at kv (Z.of_nat a) = Ok sk).
    { unfold subkey_at. destruct (Z.of_nat a <? 0) eqn:E; [apply Z.ltb_lt in E; lia|].
      rewrite Nat2Z.id, Hnsk. reflexivity. }
    destruct (Hget v (value_at_In kv _ v Hva)) as [found Hfound].
    destruct (sorted_set_entry_total db kv options _ e0 v sk found Hva Hska Hfound)
      as [e1 He1].
    rewrite He1. cbn [rbind]. apply IH; lia.
Qed.

Lemma zadd_document_keys (e : SortedSetEntries) (card : Z) :
  NoDup (map fst (object_container (sorted_set_document e card))).
Proof.
  unfold sorted_set_document.
  destruct (new_elements_added e >? 0);
    destruct (0 <? object_num_keys (kv_entries_forward e))%nat;
    destruct (0 <? object_num_keys (kv_entries_reverse e))%nat;
    cbn; repeat constructor; cbn; intuition discriminate.
Qed.

Lemma zadd_document_reverse (e : SortedSetEntries) (card : Z) :
  GetChild (PVType kSSReverse) (zadd_document e card) = None
  \/ GetChild (PVType kSSReverse) (zadd_document e card)
     = Some (kv_entries_reverse e).
Proof.
  unfold zadd_document, sorted_set_document.
  destruct (new_elements_added e >? 0);
    destruct (0 <? object_num_keys (kv_entries_forward e))%nat;
    destruct (0 <? object_num_keys (kv_entries_reverse e))%nat;
    cbn; auto.
Qed.

(** The reverse mapping that a ZADD writes has no entry for a string that
    is not a member of the request. *)
Lemma zadd_reverse_other (db : DB) (kv : RedisKeyValuePB)
    (options : SortedSetOptionsPB) (e : SortedSetEntries) (m : string) :
  for_each (subkey_indices kv) (sorted_set_entry db kv options)
    SortedSetEntries_init = Ok e ->
  ~ In m (value kv) ->
  GetChild (PVString m) (kv_entries_reverse e) = None.
Proof.
  intros Hloop Hm.
  destruct (GetChild (PVString m) (kv_entries_reverse e)) as [c|] eqn:Hc;
    [|reflexivity].
  exfalso. apply Hm.
  apply (sorted_set_loop_writes db kv options e m Hloop).
  unfold writes_member, has_child. rewrite Hc. apply orb_true_r.
Qed.

(** A member that the update option tells ZADD to leave alone is in no
    document that the ZADD adds to the write batch. *)
Lemma ApplySet_zadd_untouched (db : DB) (kv : RedisKeyValuePB)
    (set_request : RedisSetRequestPB) (s : OpState) (m : string) :
  type kv = REDIS_TYPE_SORTEDSET -> subkey kv <> [] ->
  ~ zadd_touches db kv (sorted_set_options set_request) m ->
  forall op, In op (batch (snd (ApplySet db kv set_request s))) ->
             In op (batch s) \/ document_writes_member m (op_document op) = false.
Proof.
  intros Htype Hsub Hm op Hop.
  destruct (ApplySet_sorted_set_batch db kv set_request s Htype Hsub)
    as [Hsame | [data_type [e [card [Hloop [_ Hrun]]]]]].
  - left. rewrite <- Hsame. exact Hop.
  - rewrite Hrun in Hop. cbn [snd batch] in Hop.
    apply in_app_or in Hop. destruct Hop as [Hop | [<- | []]]; [now left|].
    right.
    assert (Hdoc : op_document (zadd_write kv set_request data_type e card)
                   = zadd_document e card)
      by (unfold zadd_write; destruct (RedisDataType_eqb data_type REDIS_TYPE_NONE);
          reflexivity).
    rewrite Hdoc. unfold zadd_document. rewrite sorted_set_document_members.
    destruct (writes_member m (kv_entries_forward e) (kv_entries_reverse e)) eqn:Hw;
      [|reflexivity].
    exfalso. apply Hm.
    apply (sorted_set_loop_writes db kv _ e m Hloop Hw).
Qed.

Lemma sorted_set_document_no_counter (e : SortedSetEntries) (card : Z) :
  (new_elements_added e >? 0) = false ->
  GetChild (PVType kCounter) (zadd_document e card) = None.
Proof.
  intros Hnew. unfold zadd_document, sorted_set_document. rewrite Hnew.
  destruct (0 <? object_num_keys (kv_entries_forward e))%nat;
    destruct (0 <? object_num_keys (kv_entries_reverse e))%nat;
    reflexivity.
Qed.

(** The counter that a ZADD writes: the stored counter plus the number of
    members it did not find, and no counter when it found them all. *)
Lemma ApplySet_zadd_counter (db : DB) (kv : RedisKeyValuePB)
    (set_request : RedisSetRequestPB) (s : OpState) :
  type kv = REDIS_TYPE_SORTEDSET -> subkey kv <> [] ->
  update_options (sorted_set_options set_request) <> UpdateOptions_XX ->
  batch (snd (ApplySet db kv set_request s)) <> batch s ->
  exists op card,
    batch (snd (ApplySet db kv set_request s)) = batch s ++ [op]
    /\ let n := Z.of_nat (List.length (new_members db kv)) in
       if n >? 0 then
         GetCardinality db kv = Ok card
         /\ GetChild (PVType kCounter) (op_document op)
            = Some (Primitive (PVInt64 (wrap64 (card + n))))
       else GetChild (PVType kCounter) (op_document op) = None.
Proof.
  intros Htype Hsub Hopt Hwrote.
  destruct (ApplySet_sorted_set_batch db kv set_request s Htype Hsub)
    as [Hsame | [data_type [e [card [Hloop [Hcard Hrun]]]]]]; [congruence|].
  exists (zadd_write kv set_request data_type e card), card.
  split; [rewrite Hrun; reflexivity|].
  assert (Hdoc : op_document (zadd_write kv set_request data_type e card)
                 = zadd_document e card)
    by (unfold zadd_write; destruct (RedisDataType_eqb data_type REDIS_TYPE_NONE);
        reflexivity).
  rewrite Hdoc. cbv zeta.
  rewrite <- (sorted_set_loop_new_members db kv _ e Hopt Hloop).
  destruct (new_elements_added e >? 0) eqn:Hnew.
  - split; [exact Hcard|]. apply sorted_set_document_counter. exact Hnew.
  - apply sorted_set_document_no_counter. exact Hnew.
Qed.

End Facts.

Section StoreFacts.

Context {D : DoubleOps} {Env : Environment}.

Lemma zset_state_not_found (store : MemStore) (kv : RedisKeyValuePB)
    (added : list string) (m : string) :
  zset_state store (hash_code kv) (key kv) added -> ~ In m added ->
  GetSubDocument (DocStore := MemDocStore) store (reverse_key kv m) false = Ok None.
Proof.
  unfold zset_state. cbn. unfold mem_GetSubDocument. cbn [doc_key reverse_key subkeys].
  destruct (store (FromRedisKey (hash_code kv) (key kv))) as [d|]; [|reflexivity].
  intros [_ [_ Hrev]] Hm. specialize (Hrev m Hm). unfold reverse_lookup_none in Hrev.
  destruct (get_path [PVType kSSReverse; PVString m] d) as [c|]; [|reflexivity].
  rewrite Hrev. reflexivity.
Qed.

Lemma zset_state_cardinality (store : MemStore) (kv : RedisKeyValuePB)
    (added : list string) :
  zset_state store (hash_code kv) (key kv) added ->
  GetCardinality (Store := MemDocStore) store kv
  = Ok (Z.of_nat (List.length added)).
Proof.
  unfold zset_state, GetCardinality. cbn. unfold mem_GetSubDocument.
  cbn [doc_key subkeys get_path].
  destruct (store (FromRedisKey (hash_code kv) (key kv))) as [d|].
  - intros [_ [Hcard _]]. rewrite Hcard. reflexivity.
  - intros ->. reflexivity.
Qed.

Lemma zset_state_type (store : MemStore) (kv : RedisKeyValuePB)
    (added : list string) :
  has_key kv = true ->
  (forall key, LookupCache [] key = None) ->
  zset_state store (hash_code kv) (key kv) added ->
  GetRedisValueType (Store := MemDocStore) store kv (Some []) (-1)
  = Ok (match store (FromRedisKey (hash_code kv) (key kv)) with
        | None => REDIS_TYPE_NONE
        | Some _ => REDIS_TYPE_SORTEDSET
        end).
Proof.
  intros Hkey Hcache. unfold zset_state, GetRedisValueType.
  rewrite Hkey. cbn [negb Z.ltb Z.compare rbind]. rewrite Hcache.
  cbn. unfold mem_GetSubDocument. cbn [doc_key subkeys get_path].
  destruct (store (FromRedisKey (hash_code kv) (key kv))) as [d|]; [|reflexivity].
  intros [[kids ->] _]. reflexivity.
Qed.

Lemma mem_GetSubDocument_total (store : MemStore) (k : SubDocKey) (b : bool) :
  exists found, mem_GetSubDocument store k b = Ok found.
Proof.
  unfold mem_GetSubDocument.
  destruct (store (doc_key k)) as [d|]; [|eauto].
  destruct (get_path (subkeys k) d) as [c|]; [|eauto].
  destruct (is_tombstone c); [eauto|]. destruct b; eauto.
Qed.

Lemma has_child_num_keys (k : PrimitiveValue) (d c : SubDocument) :
  GetChild k d = Some c -> (0 <? object_num_keys d)%nat = true.
Proof.
  unfold GetChild, object_num_keys.
  destruct (object_container d); cbn; [discriminate | reflexivity].
Qed.

Lemma store_update_here (store : MemStore) (p : DocPath)
    (f : option SubDocument -> SubDocument) :
  subkeys p = [] ->
  store_update store p f (doc_key p) = Some (f (store (doc_key p))).
Proof.
  intros Hp. unfold store_update. rewrite Hp.
  destruct (DocKey_eq_dec (doc_key p) (doc_key p)); [reflexivity | congruence].
Qed.

Lemma apply_set_zadd (store : MemStore) (kv : RedisKeyValuePB)
    (set_request : RedisSetRequestPB) (added : list string) :
  (forall b op, batch_status b op = Ok tt) ->
  (forall key, LookupCache [] key = None) ->
  zadd_request (key kv) (hash_code kv) kv ->
  update_options (sorted_set_options set_request) <> UpdateOptions_XX ->
  (forall m, In m (value kv) -> ~ In m added) ->
  Z.of_nat (List.length added + List.length (value kv)) <= INT64_MAX ->
  zset_state store (hash_code kv) (key kv) added ->
  zset_state (apply_set store kv set_request) (hash_code kv) (key kv)
    (added ++ value kv).
Proof.
  intros Hacc Hcache [Hkey [_ [_ [Htype [Hsub Hlen]]]]] Hopt Hfresh Hbound Hst.
  assert (Hnf : forall v, In v (value kv) ->
                  not_found (Store := MemDocStore) store kv v = true).
  { intros v Hv. unfold not_found.
    rewrite (zset_state_not_found store kv added v Hst (Hfresh v Hv)). reflexivity. }
  destruct (sorted_set_loop_total (Store := MemDocStore) store kv
              (sorted_set_options set_request) (List.length (subkey kv)) 0
              SortedSetEntries_init) as [e Hloop].
  { intros v _. apply mem_GetSubDocument_total. }
  { lia. }
  { lia. }
  fold (subkey_indices kv) in Hloop.
  assert (Hnew : new_elements_added e = Z.of_nat (List.length (value kv))).
  { rewrite (sorted_set_loop_new_members (Store := MemDocStore) store kv
               (sorted_set_options set_request) e Hopt Hloop).
    unfold new_members. rewrite <- Hlen, firstn_all, filter_all; auto. }
  assert (Hpos : (new_elements_added e >? 0) = true).
  { rewrite Hnew. apply Z.gtb_lt. destruct (subkey kv); [congruence|].
    rewrite Hlen. cbn [List.length]. lia. }
  pose proof (zset_state_type store kv added Hkey Hcache Hst) as Hdt.
  pose proof (zset_state_cardinality store kv added Hst) as Hcard.
  assert (Hsum : wrap64 (Z.of_nat (List.length added) + new_elements_added e)
                 = Z.of_nat (List.length (added ++ value kv))).
  { rewrite Hnew, length_app, Nat2Z.inj_add. apply wrap64_in_range.
    unfold in_int64. apply andb_true_iff. split; apply Z.leb_le.
    - unfold INT64_MIN. lia.
    - lia. }
  unfold apply_set.
  rewrite (ApplySet_sorted_set (Store := MemDocStore) store kv set_request
             {| response := empty_response; batch := [] |}
             _ e (Z.of_nat (List.length added)) Htype Hsub Hdt).
  2: { destruct (store (FromRedisKey (hash_code kv) (key kv))); auto. }
  2: { exact Hloop. }
  2: { rewrite Hpos. exact Hcard. }
  cbv zeta.
  pose proof (sorted_set_document_counter e (Z.of_nat (List.length added)) Hpos)
    as Hcounter.
  assert (Hkeys : (0 <? object_num_keys
                          (sorted_set_document e (Z.of_nat (List.length added))))%nat
                  = true)
    by exact (has_child_num_keys (PVType kCounter) _ _ Hcounter).
  rewrite Hkeys.
  rewrite Hacc. cbn [batch app]. unfold mem_commit. cbn [fold_left].
  unfold zset_state in *.
  pose proof (zadd_reverse_other (Store := MemDocStore) store kv
                (sorted_set_options set_request) e) as Hother.
  specialize (Hother : forall m, _ -> _ -> _).
  unfold mem_apply, zadd_write.
  destruct (store (FromRedisKey (hash_code kv) (key kv))) as [d|] eqn:Hd;
    cbn [RedisDataType_eqb].
  - (* The key holds a sorted set: the document is merged into it. *)
    destruct Hst as [[kids ->] [_ Hrev]].
    rewrite (store_update_here store
               (DocPathFromRedisKey (hash_code kv) (key kv)) _ eq_refl).
    cbn [doc_key DocPathFromRedisKey]. rewrite Hd.
    unfold zadd_document in *. cbn [extend_doc]. unfold GetChild.
    cbn [object_container]. unfold GetChild in Hcounter.
    cbn [object_container] in Hcounter.
    split; [eexists; reflexivity|]. split.
    + rewrite (merge_get_here extend_doc _ _ _ kids
                 (zadd_document_keys e _) Hcounter).
      cbn [extend_doc]. rewrite Hsum. reflexivity.
    + intros m Hm.
      assert (Hm1 : ~ In m added) by (intros H; apply Hm, in_or_app; now left).
      assert (Hm2 : ~ In m (value kv)) by (intros H; apply Hm, in_or_app; now right).
      specialize (Hrev m Hm1). specialize (Hother m Hloop Hm2).
      unfold reverse_lookup_none in *. cbn [get_path] in *.
      unfold GetChild in *. cbn [object_container] in *.
      destruct (zadd_document_reverse e (Z.of_nat (List.length added)))
        as [Hnone | Hsome];
        [ unfold zadd_document, GetChild in Hnone; cbn [object_container] in Hnone
        | unfold zadd_document, GetChild in Hsome; cbn [object_container] in Hsome ].
      * rewrite (merge_get_other extend_doc _ _ kids Hnone). exact Hrev.
      * rewrite (merge_get_here extend_doc _ _ _ kids
                   (zadd_document_keys e _) Hsome).
        destruct (kv_entries_reverse e) as [v|t rk]; [exact I|].
        cbn [object_container] in Hother.
        destruct (assoc_get (PVType kSSReverse) kids) as [[v'|t' ork]|];
          cbn [extend_doc object_container].
        -- rewrite (merge_get_other extend_doc _ rk [] Hother). exact I.
        -- rewrite (merge_get_other extend_doc _ rk ork Hother). exact Hrev.
        -- rewrite (merge_get_other extend_doc _ rk [] Hother). exact I.
  - (* The key is absent: the document is inserted. *)
    rewrite (store_update_here store
               (DocPathFromRedisKey (hash_code kv) (key kv)) _ eq_refl).
    split; [eexists; reflexivity|]. split.
    + rewrite Hcounter, Hsum. reflexivity.
    + intros m Hm.
      assert (Hm2 : ~ In m (value kv)) by (intros H; apply Hm, in_or_app; now right).
      specialize (Hother m Hloop Hm2).
      unfold reverse_lookup_none. cbn [get_path].
      destruct (zadd_document_reverse e (Z.of_nat (List.length added)))
        as [Hnone | Hsome].
      * rewrite Hnone. exact I.
      * rewrite Hsome, Hother. exact I.
Qed.

Lemma NoDup_app_disjoint {A} (l1 l2 : list A) (x : A) :
  NoDup (l1 ++ l2) -> In x l1 -> ~ In x l2.
Proof.
  induction l1 as [|a l1 IH]; cbn; [tauto|].
  intros Hnd [-> | Hin] Hx; inversion Hnd as [|y l Hnotin Hnd']; subst.
  - apply Hnotin, in_or_app. now right.
  - exact (IH Hnd' Hin Hx).
Qed.

(** A sequence of ZADDs of members that are all distinct and new. *)
Lemma apply_sets_zadd (requests : list (RedisKeyValuePB * RedisSetRequestPB))
    (store : MemStore) (h : Z) (k : string) (added : list string) :
  (forall b op, batch_status b op = Ok tt) ->
  (forall key, LookupCache [] key = None) ->
  Forall (fun r => zadd_request k h (fst r)
                   /\ update_options (sorted_set_options (snd r))
                      <> UpdateOptions_XX) requests ->
  NoDup (added ++ members_of requests) ->
  Z.of_nat (List.length (added ++ members_of requests)) <= INT64_MAX ->
  zset_state store h k added ->
  zset_state (apply_sets store requests) h k (added ++ members_of requests).
Proof.
  intros Hacc Hcache. revert store added.
  induction requests as [|[kv req] requests IH]; intros store added Hreqs Hnd Hbound Hst.
  - cbn. rewrite app_nil_r. exact Hst.
  - inversion Hreqs as [|r l [Hkv Hopt] Hrest]; subst. cbn [fst snd] in *.
    change (members_of ((kv, req) :: requests))
      with (value kv ++ members_of requests) in *.
    rewrite app_assoc in *.
    change (apply_sets store ((kv, req) :: requests))
      with (apply_sets (apply_set store kv req) requests).
    apply IH; auto.
    assert (Hk : key kv = k) by apply Hkv.
    assert (Hh : hash_code kv = h) by apply Hkv.
    subst k h.
    apply apply_set_zadd; auto.
    + intros m Hm Hin.
      apply NoDup_app_remove_r in Hnd.
      exact (NoDup_app_disjoint _ _ m Hnd Hin Hm).
    + rewrite !length_app in Hbound. rewrite Nat2Z.inj_add in *. lia.
Qed.

(** C3.  Sorted-set ADD.
    - With the NX option, a member that the reverse mapping holds is in no
      document that the ADD puts into the write batch: neither its forward
      nor its reverse entry is written, so its score stays.
    - With the XX option, a member that the reverse mapping does not hold
      is in no document that the ADD puts into the write batch.
    - When an ADD (not XX) writes, the counter it writes is the stored
      counter plus the number of members it added, and there is no counter
      in what it writes when it added none.
    - Hence, on a key that holds nothing, after ADDs (each an operation of
      its own, applied to the store before the next) of N members, all
      distinct, the stored counter is N. *)
Theorem zadd_update_options_and_counter :
  (forall (Store : DocStore) (db : DB) (kv : RedisKeyValuePB)
          (set_request : RedisSetRequestPB) (s : OpState) (m : string)
          (d : SubDocument),
      type kv = REDIS_TYPE_SORTEDSET -> subkey kv <> [] ->
      update_options (sorted_set_options set_request) = UpdateOptions_NX ->
      GetSubDocument db (reverse_key kv m) false = Ok (Some d) ->
      forall op, In op (batch (snd (ApplySet db kv set_request s))) ->
                 In op (batch s)
                 \/ document_writes_member m (op_document op) = false)
  /\
  (forall (Store : DocStore) (db : DB) (kv : RedisKeyValuePB)
          (set_request : RedisSetRequestPB) (s : OpState) (m : string),
      type kv = REDIS_TYPE_SORTEDSET -> subkey kv <> [] ->
      update_options (sorted_set_options set_request) = UpdateOptions_XX ->
      GetSubDocument db (reverse_key kv m) false = Ok None ->
      forall op, In op (batch (snd (ApplySet db kv set_request s))) ->
                 In op (batch s)
                 \/ document_writes_member m (op_document op) = false)
  /\
  (forall (Store : DocStore) (db : DB) (kv : RedisKeyValuePB)
          (set_request : RedisSetRequestPB) (s : OpState),
      type kv = REDIS_TYPE_SORTEDSET -> subkey kv <> [] ->
      update_options (sorted_set_options set_request) <> UpdateOptions_XX ->
      batch (snd (ApplySet db kv set_request s)) <> batch s ->
      exists op card,
        batch (snd (ApplySet db kv set_request s)) = batch s ++ [op]
        /\ let n := Z.of_nat (List.length (new_members db kv)) in
           if n >? 0 then
             GetCardinality db kv = Ok card
             /\ GetChild (PVType kCounter) (op_document op)
                = Some (Primitive (PVInt64 (wrap64 (card + n))))
           else GetChild (PVType kCounter) (op_document op) = None)
  /\
  (forall (requests : list (RedisKeyValuePB * RedisSetRequestPB))
          (store : MemStore) (kv : RedisKeyValuePB),
      (forall b op, batch_status b op = Ok tt) ->
      (forall key, LookupCache [] key = None) ->
      Forall (fun r => zadd_request (key kv) (hash_code kv) (fst r)
                       /\ update_options (sorted_set_options (snd r))
                          <> UpdateOptions_XX) requests ->
      NoDup (members_of requests) ->
      Z.of_nat (List.length (members_of requests)) <= INT64_MAX ->
      store (FromRedisKey (hash_code kv) (key kv)) = None ->
      GetCardinality (Store := MemDocStore) (apply_sets store requests) kv
      = Ok (Z.of_nat (List.length (members_of requests)))).
Proof.
  split; [|split; [|split]].
  - intros Store db kv set_request s m d Htype Hsub Hopt Hget.
    apply ApplySet_zadd_untouched; auto.
    unfold zadd_touches. rewrite Hget. congruence.
  - intros Store db kv set_request s m Htype Hsub Hopt Hget.
    apply ApplySet_zadd_untouched; auto.
    unfold zadd_touches. rewrite Hget. congruence.
  - intros Store db kv set_request s. apply ApplySet_zadd_counter.
  - intros requests store kv Hacc Hcache Hreqs Hnd Hbound Hnone.
    apply (zset_state_cardinality (apply_sets store requests) kv
             (members_of requests)).
    apply (apply_sets_zadd requests store (hash_code kv) (key kv) []
             Hacc Hcache Hreqs Hnd Hbound).
    unfold zset_state. rewrite Hnone. reflexivity.
Qed.

(** C10.  EXISTS answers with the code OK and the integer 1 when the key
    holds a string or a collection (hash, set, sorted set, time series),
    with the code OK and the integer 0 when the read of the key finds
    nothing, which is what the store reports for an absent and for a
    tombstoned key; and it never sets the code WRONG_TYPE. *)
Theorem ExecuteExists_response :
  (forall (Store : DocStore) (db : DB) (kv : RedisKeyValuePB)
          (r : RedisResponsePB),
      has_key kv = true -> subkey kv = [] ->
      GetSubDocument db (key_only kv) false = Ok None ->
      ExecuteExists db kv r =
      (Ok tt, set_int_response 0 (set_code RedisStatusCode_OK r)))
  /\
  (forall (Store : DocStore) (db : DB) (kv : RedisKeyValuePB)
          (r : RedisResponsePB) (doc : SubDocument),
      has_key kv = true -> subkey kv = [] ->
      GetSubDocument db (key_only kv) false = Ok (Some doc) ->
      string_or_collection doc ->
      ExecuteExists db kv r =
      (Ok tt, set_int_response 1 (set_code RedisStatusCode_OK r)))
  /\
  (forall (store : MemStore) (kv : RedisKeyValuePB) (r : RedisResponsePB),
      has_key kv = true -> subkey kv = [] ->
      (store (FromRedisKey (hash_code kv) (key kv)) = None
       \/ exists d, store (FromRedisKey (hash_code kv) (key kv)) = Some d
                    /\ is_tombstone d = true) ->
      ExecuteExists (Store := MemDocStore) store kv r =
      (Ok tt, set_int_response 0 (set_code RedisStatusCode_OK r)))
  /\
  (forall (Store : DocStore) (db : DB) (kv : RedisKeyValuePB)
          (r : RedisResponsePB),
      code (snd (ExecuteExists db kv r)) = Some RedisStatusCode_WRONG_TYPE ->
      code r = Some RedisStatusCode_WRONG_TYPE).
Proof.
  split; [|split; [|split]].
  - intros Store db kv r. apply ExecuteExists_missing.
  - intros Store db kv r doc. apply ExecuteExists_found.
  - intros store kv r Hkey Hsub Hstore.
    apply (ExecuteExists_missing (Store := MemDocStore)); auto.
    cbn. unfold mem_GetSubDocument. cbn [doc_key key_only subkeys].
    destruct Hstore as [-> | [d [-> Hd]]]; [reflexivity|].
    cbn [get_path]. rewrite Hd. reflexivity.
  - intros Store db kv r H.
    destruct (ExecuteExists_code db kv r) as [Hsame | Hok].
    + rewrite Hsame in H. exact H.
    + rewrite Hok in H. discriminate.
Qed.

End StoreFacts.

(** *** Runs on the concrete instance *)

Local Open Scope string_scope.

#[local] Existing Instance Z_double.
#[local] Existing Instance plain_environment.
#[local] Existing Instance MemDocStore.

(** [std::stoll] reads the number at the start of a string and ignores
    what follows it. *)
Example stoll_reads_a_prefix :
  stoll "12abc" = StollValue 12 /\ stoll "  -42" = StollValue (-42)
  /\ stoll "" = invalid_argument /\ stoll "abc" = invalid_argument
  /\ stoll "9223372036854775808" = out_of_range.
Proof. vm_compute. repeat split; reflexivity. Qed.

Example incr_of_a_number :
  ApplyIncr (string_store "41") string_request 1 fresh_state =
  (Ok tt,
   {| response := set_int_response 42 (set_code RedisStatusCode_OK empty_response);
      batch := [SetPrimitive (DocPathFromRedisKey 7 "k")
                  {| primitive_value := PVString "42"; value_ttl := None |}] |}).
Proof. vm_compute. reflexivity. Qed.

Lemma ApplyIncr_domain_errors_witness :
  ApplyIncr (string_store "abc") string_request 1 fresh_state =
  (Ok tt,
   {| response :=
        set_error_message "Can not parse incr argument as a number"
          (set_code RedisStatusCode_OK empty_response);
      batch := [] |})
  /\
  ApplyIncr (string_store "9223372036854775807") string_request 1 fresh_state =
  (Ok tt,
   {| response :=
        set_error_message "Increment would overflow"
          (set_code RedisStatusCode_OK empty_response);
      batch := [] |}).
Proof.
  split.
  - apply (proj1 (ApplyIncr_domain_errors (Store := MemDocStore) (string_store "abc") string_request 1
                    fresh_state "abc" eq_refl eq_refl
                    ltac:(vm_compute; split; discriminate)
                    eq_refl)).
    left. vm_compute. reflexivity.
  - apply (proj2 (ApplyIncr_domain_errors (Store := MemDocStore) (string_store "9223372036854775807")
                    string_request 1 fresh_state "9223372036854775807"
                    eq_refl eq_refl
                    ltac:(vm_compute; split; discriminate)
                    eq_refl) 9223372036854775807).
    + vm_compute. reflexivity.
    + right. vm_compute. reflexivity.
Defined.

(** The strings that are numbers. *)
Example numbers_and_other_strings :
  is_int64_number "12" = true /\ is_int64_number "-7" = true
  /\ is_int64_number "12abc" = false /\ is_int64_number "1.5" = false
  /\ is_int64_number "" = false
  /\ is_int64_number "9223372036854775808" = false.
Proof. vm_compute. repeat split; reflexivity. Qed.

(** C2, as the claim has it, fails: the stored string ["12abc"] is not a
    number, and INCR answers no error and writes. *)
Lemma incr_of_numeric_prefix_is_written :
  ~ incr_rejects_what_is_no_number (string_store "12abc") string_request 1
      fresh_state "12abc".
Proof.
  unfold incr_rejects_what_is_no_number. intros H.
  specialize (H eq_refl eq_refl). vm_compute in H.
  destruct H as [_ [H _]]. apply H. reflexivity.
Qed.

(** [std::stoll] reads the number a string starts with: INCR answers
    the sum and writes it over the stored string. *)
Example incr_of_numeric_prefix :
  ApplyIncr (string_store "12abc") string_request 1 fresh_state
  = (Ok tt,
     {| response := set_int_response 13 (set_code RedisStatusCode_OK empty_response);
        batch := [SetPrimitive (DocPathFromRedisKey 7 "k")
                    {| primitive_value := PVString "13"; value_ttl := None |}] |})
  /\ ApplyIncr (string_store "1.5") string_request 1 fresh_state
     = (Ok tt,
        {| response := set_int_response 2 (set_code RedisStatusCode_OK empty_response);
           batch := [SetPrimitive (DocPathFromRedisKey 7 "k")
                       {| primitive_value := PVString "2"; value_ttl := None |}] |}).
Proof. vm_compute. split; reflexivity. Qed.

(** C9, as the claim has it, fails: INCR of the absent key ["k"] answers
    no integer and writes nothing. *)
Lemma incr_of_missing_key_not_written :
  ~ incr_of_missing_key_is_written empty_store string_request 1 fresh_state.
Proof.
  unfold incr_of_missing_key_is_written. intros H.
  specialize (H eq_refl). vm_compute in H.
  destruct H as [_ [H _]]. discriminate H.
Qed.

Lemma ApplyIncr_missing_key_witness :
  ApplyIncr empty_store string_request 1 fresh_state =
  (Ok tt,
   {| response := set_code RedisStatusCode_NOT_FOUND empty_response;
      batch := [] |}).
Proof.
  apply (ApplyIncr_missing_key (Store := MemDocStore) empty_store string_request 1 fresh_state
           eq_refl eq_refl eq_refl).
Defined.

Lemma ExecuteExists_response_witness :
  ExecuteExists empty_store string_request empty_response =
  (Ok tt, set_int_response 0 (set_code RedisStatusCode_OK empty_response))
  /\
  ExecuteExists (string_store "v") string_request empty_response =
  (Ok tt, set_int_response 1 (set_code RedisStatusCode_OK empty_response)).
Proof.
  split.
  - apply (proj1 (proj2 (proj2 ExecuteExists_response))
             empty_store string_request empty_response eq_refl eq_refl).
    left. reflexivity.
  - apply (proj1 (proj2 ExecuteExists_response) MemDocStore
             (string_store "v") string_request empty_response
             (Primitive (PVString "v")) eq_refl eq_refl eq_refl).
    left. reflexivity.
Defined.

(** The sorted set under ["k"] after [ZADD k 1 a 2 b]. *)
Example zadd_two_members :
  apply_sets empty_store [(zadd_kv [(1, "a"); (2, "b")], zadd_options UpdateOptions_NONE)]
    (FromRedisKey 7 "k") =
  Some (Container kRedisSortedSet
          [(PVType kCounter, Primitive (PVInt64 2));
           (PVType kSSForward,
            Container kObject
              [(PVDouble 1, Container kObject [(PVString "a", Primitive (PVType kNull))]);
               (PVDouble 2, Container kObject [(PVString "b", Primitive (PVType kNull))])]);
           (PVType kSSReverse,
            Container kObject
              [(PVString "a", Primitive (PVDouble 1));
               (PVString "b", Primitive (PVDouble 2))])]).
Proof. vm_compute. reflexivity. Qed.

(** Two ADDs of a new member each, in one write batch: the second does
    not see the member of the first, and the counter stored is 1. *)
Example zadds_in_one_batch :
  apply_sets_in_one_batch (Env := caching_environment) empty_store two_adds
    (FromRedisKey 7 "k") =
  Some (Container kRedisSortedSet
          [(PVType kCounter, Primitive (PVInt64 1));
           (PVType kSSForward,
            Container kObject
              [(PVDouble 1, Container kObject [(PVString "a", Primitive (PVType kNull))]);
               (PVDouble 2, Container kObject [(PVString "b", Primitive (PVType kNull))])]);
           (PVType kSSReverse,
            Container kObject
              [(PVString "a", Primitive (PVDouble 1));
               (PVString "b", Primitive (PVDouble 2))])]).
Proof. vm_compute. reflexivity. Qed.

(** C3, as the claim has it, fails for ADDs that share a write batch,
    whether the write batch caches the types it wrote or not: the
    counter stored after the two ADDs is not 2. *)
Lemma zadds_in_one_batch_lose_count :
  ~ counter_counts_members (Env := caching_environment) (zadd_kv []) two_adds
  /\ ~ counter_counts_members (Env := plain_environment) (zadd_kv []) two_adds.
Proof.
  split; unfold counter_counts_members; intros H;
    assert (Hnd : NoDup (members_of two_adds))
      by (vm_compute; repeat constructor; cbn; intuition discriminate);
    specialize (H Hnd); vm_compute in H; discriminate H.
Qed.

Lemma zadd_update_options_and_counter_witness :
  let store1 :=
    apply_sets empty_store
      [(zadd_kv [(1, "a"); (2, "b")], zadd_options UpdateOptions_NONE)] in
  (forall op,
      In op (batch (snd (ApplySet store1 (zadd_kv [(5, "a"); (3, "c")])
                           (zadd_options UpdateOptions_NX) fresh_state))) ->
      In op [] \/ document_writes_member "a" (op_document op) = false)
  /\
  (forall op,
      In op (batch (snd (ApplySet store1 (zadd_kv [(3, "c")])
                           (zadd_options UpdateOptions_XX) fresh_state))) ->
      In op [] \/ document_writes_member "c" (op_document op) = false)
  /\
  (exists op card,
      batch (snd (ApplySet store1 (zadd_kv [(5, "a"); (3, "c")])
                    (zadd_options UpdateOptions_NONE) fresh_state)) = ([] ++ [op])%list
      /\ let n := Z.of_nat (List.length
                              (new_members store1 (zadd_kv [(5, "a"); (3, "c")]))) in
         if n >? 0 then
           GetCardinality store1 (zadd_kv [(5, "a"); (3, "c")]) = Ok card
           /\ GetChild (PVType kCounter) (op_document op)
              = Some (Primitive (PVInt64 (wrap64 (card + n))))
         else GetChild (PVType kCounter) (op_document op) = None)
  /\
  GetCardinality
    (apply_sets empty_store
       [(zadd_kv [(1, "a"); (2, "b")], zadd_options UpdateOptions_NONE);
        (zadd_kv [(3, "c")], zadd_options UpdateOptions_NX)])
    (zadd_kv [])
  = Ok 3.
Proof.
  intros store1.
  destruct (zadd_update_options_and_counter
              (D := Z_double) (Env := plain_environment))
    as [Hnx [Hxx [Hcounter Hseq]]].
  split; [|split; [|split]].
  - apply (Hnx MemDocStore store1 (zadd_kv [(5, "a"); (3, "c")])
             (zadd_options UpdateOptions_NX) fresh_state "a"
             (Primitive (PVDouble (D := Z_double) 1%Z))).
    + reflexivity.
    + discriminate.
    + reflexivity.
    + vm_compute. reflexivity.
  - apply (Hxx MemDocStore store1 (zadd_kv [(3, "c")])
             (zadd_options UpdateOptions_XX) fresh_state "c").
    + reflexivity.
    + discriminate.
    + reflexivity.
    + vm_compute. reflexivity.
  - apply (Hcounter MemDocStore store1 (zadd_kv [(5, "a"); (3, "c")])
             (zadd_options UpdateOptions_NONE) fresh_state).
    + reflexivity.
    + discriminate.
    + discriminate.
    + vm_compute. discriminate.
  - apply (Hseq
             [(zadd_kv [(1, "a"); (2, "b")], zadd_options UpdateOptions_NONE);
              (zadd_kv [(3, "c")], zadd_options UpdateOptions_NX)]
             empty_store (zadd_kv [])).
    + intros b op. reflexivity.
    + intros key. reflexivity.
    + repeat constructor; cbn; discriminate.
    + vm_compute. repeat constructor; cbn; intuition discriminate.
    + vm_compute. discriminate.
    + reflexivity.
Defined.

End RedisFacts.

(* ===================================================================== *)
(** ** Properties of the QL write and read operations                     *)
(* ===================================================================== *)

Module QLFacts.

Import QL.

Unset Implicit Arguments.

Section Facts.

Context {T : QLTypes} {St : QLStorage} {Storage : QLStorageIf}.

(** *** Locks and isolation level *)

Lemma is_nil_true {A} (l : list A) : is_nil l = true <-> l = [].
Proof. destruct l; cbn; split; congruence. Qed.

Lemma is_nil_false {A} (l : list A) : is_nil l = false <-> l <> [].
Proof. destruct l; cbn; split; congruence. Qed.

Lemma is_some_true {A} (o : option A) : is_some o = true <-> o <> None.
Proof. destruct o; cbn; split; congruence. Qed.

Lemma RequireRead_requires_read (request : QLWriteRequestPB) (schema : Schema) :
  RequireRead request schema = true <-> requires_read request schema.
Proof.
  unfold RequireRead, RequireReadForExpressions, IsRangeOperation, requires_read.
  rewrite !orb_true_iff, !andb_true_iff, !orb_true_iff, !negb_true_iff.
  rewrite !is_some_true, !is_nil_false, !is_nil_true, Nat.ltb_lt.
  split.
  - intros [[[H | [H1 H2]] | H] | [[H1 H2] H3]].
    + left. exact H.
    + right. left. destruct (column_refs request) as [refs|]; [|congruence].
      exists refs. split; [reflexivity | exact H2].
    + right. right. left. exact H.
    + right. right. right. auto.
  - intros [H | [[refs [H1 H2]] | [H | [H1 [H2 H3]]]]].
    + left. left. left. exact H.
    + left. left. right. rewrite H1. split; [congruence | exact H2].
    + left. right. exact H.
    + right. auto.
Qed.

Lemma InitializeKeys_state (request : QLWriteRequestPB) (schema : Schema)
    (hashed_key primary_key : bool) (s : WriteState) :
  let '(r, s') := InitializeKeys request schema hashed_key primary_key s in
  require_read_ s' = require_read_ s
  /\ doc_write_batch s' = doc_write_batch s
  /\ rowblock_ s' = rowblock_ s
  /\ response_ s' = response_ s
  /\ restart_read_ht s' = restart_read_ht s
  /\ (r = Ok tt ->
      is_some (hashed_doc_key_ s')
      = hashed_key && negb (is_some (hashed_doc_key_ s)) || is_some (hashed_doc_key_ s)
      /\ is_some (pk_doc_key_ s')
         = primary_key && negb (is_some (pk_doc_key_ s)) || is_some (pk_doc_key_ s))
  /\ (r <> Ok tt -> s' = s).
Proof.
  unfold InitializeKeys, bind, lift, get_state, modify, ret.
  destruct (QLKeyColumnValuesToPrimitiveValues (hashed_column_values request)
              schema 0 (num_hash_key_columns schema)) as [hc| |];
    try (repeat split; congruence).
  destruct (QLKeyColumnValuesToPrimitiveValues (range_column_values request)
              schema (num_hash_key_columns schema) (num_range_key_columns schema))
    as [rc| |]; try (repeat split; congruence).
  destruct s as [rr hk pk rb resp b ht]. cbn.
  destruct hashed_key, primary_key, hk, pk; cbn;
    try destruct (is_some (hash_code request)
                  && negb (is_nil (hashed_column_values request)));
    cbn; repeat split; congruence.
Qed.

Lemma written_columns_monotone (schema : Schema) (cols : list QLColumnValuePB)
    (a b ws wns : bool) :
  written_columns schema cols a b = Ok (ws, wns) ->
  (a = true -> ws = true) /\ (b = true -> wns = true).
Proof.
  revert a b. induction cols as [|c cols IH]; intros a b; cbn.
  - intros H. injection H as <- <-. auto.
  - destruct (column_by_id schema
                match column_id c with Some id => id | None => 0 end)
      as [sc| |]; cbn; try discriminate.
    destruct (is_static sc).
    + destruct b; cbn.
      * intros H. injection H as <- <-. auto.
      * intros H. apply IH in H. destruct H as [H1 H2]. split; auto.
    + destruct a; cbn.
      * intros H. injection H as <- <-. auto.
      * intros H. apply IH in H. destruct H as [H1 H2]. split; auto.
Qed.

(** When there is a column to write, it is static or it is not. *)
Lemma written_columns_some (schema : Schema) (cols : list QLColumnValuePB)
    (ws wns : bool) :
  cols <> [] ->
  written_columns schema cols false false = Ok (ws, wns) ->
  ws || wns = true.
Proof.
  destruct cols as [|c cols]; [congruence|]. intros _. cbn.
  destruct (column_by_id schema
              match column_id c with Some id => id | None => 0 end)
    as [sc| |]; cbn; try discriminate.
  destruct (is_static sc); cbn; intros H;
    apply written_columns_monotone in H; destruct H as [H1 H2].
  - rewrite H1; reflexivity.
  - rewrite H2 by reflexivity. apply orb_true_r.
Qed.

(** C4.  After [Init], [GetDocPathsToLock] declares snapshot isolation
    exactly when the write needs a read of the current state (an IF
    clause, columns referred to in expressions, a user timestamp, or a
    range operation) and serializable isolation otherwise; the paths it
    declares are the hashed-key path and the primary-key path that were
    initialised, in this order, at least one of them when [Init] returned
    OK: the hashed-key path when a static column is written or the write
    is a range operation, the primary-key path when a non-static column is
    written, range column values are given, or the table has no range
    column. *)
Theorem GetDocPathsToLock_after_Init (request : QLWriteRequestPB)
    (schema : Schema) (batch : DocWriteBatch) (restart : HybridTime)
    (paths : list DocPath) :
  let '(r, s) := Init request schema (new_operation batch restart) in
  let '(declared, level) := GetDocPathsToLock s paths in
  (level = SNAPSHOT_ISOLATION <-> requires_read request schema)
  /\ (level = SERIALIZABLE_ISOLATION <-> ~ requires_read request schema)
  /\ declared = paths ++ path_list (hashed_doc_path_ s) ++ path_list (pk_doc_path_ s)
  /\ (r = Ok tt ->
      declared <> paths
      /\ exists write_static_columns write_non_static_columns,
           written_columns schema (column_values request) false false
           = Ok (write_static_columns, write_non_static_columns)
           /\ is_some (hashed_doc_path_ s)
              = write_static_columns || IsRangeOperation request schema
           /\ is_some (pk_doc_path_ s)
              = write_non_static_columns
                || negb (is_nil (range_column_values request))
                || (num_range_key_columns schema =? 0)%nat).
Proof.
  unfold Init, bind, modify, lift.
  set (s0 := set_require_read (RequireRead request schema)
               (new_operation batch restart)).
  assert (Hlevel : forall s : WriteState,
             require_read_ s = RequireRead request schema ->
             ((if require_read_ s then SNAPSHOT_ISOLATION else SERIALIZABLE_ISOLATION)
              = SNAPSHOT_ISOLATION <-> requires_read request schema)
             /\ ((if require_read_ s then SNAPSHOT_ISOLATION else SERIALIZABLE_ISOLATION)
                 = SERIALIZABLE_ISOLATION <-> ~ requires_read request schema)).
  { intros s ->. rewrite <- RequireRead_requires_read.
    destruct (RequireRead request schema); split; split;
      congruence. }
  assert (Hpaths : forall s : WriteState,
             fst (GetDocPathsToLock s paths)
             = paths ++ path_list (hashed_doc_path_ s) ++ path_list (pk_doc_path_ s)).
  { intros s. unfold GetDocPathsToLock. cbn [fst].
    destruct (hashed_doc_path_ s), (pk_doc_path_ s); cbn [path_list];
      rewrite <- ?app_assoc, ?app_nil_r; reflexivity. }
  destruct (written_columns schema (column_values request) false false)
    as [[ws wns]| |] eqn:Hw.
  - pose proof (InitializeKeys_state request schema
                  (ws || IsRangeOperation request schema)
                  (wns || negb (is_nil (range_column_values request))
                   || (num_range_key_columns schema =? 0)%nat) s0) as Hkeys.
    destruct (InitializeKeys request schema
                (ws || IsRangeOperation request schema)
                (wns || negb (is_nil (range_column_values request))
                 || (num_range_key_columns schema =? 0)%nat) s0) as [r s].
    destruct Hkeys as [Hrr [_ [_ [_ [_ [Hok _]]]]]].
    specialize (Hpaths s). unfold GetDocPathsToLock in *. cbn [fst] in Hpaths.
    destruct (Hlevel s Hrr) as [H1 H2].
    split; [exact H1|]. split; [exact H2|]. split; [exact Hpaths|].
    intros Hr. destruct (Hok Hr) as [Hh Hp]. cbn in Hh, Hp.
    rewrite !andb_true_r, !orb_false_r in Hh, Hp.
    assert (Hh' : is_some (hashed_doc_path_ s)
                  = ws || IsRangeOperation request schema)
      by (unfold hashed_doc_path_; destruct (hashed_doc_key_ s); exact Hh).
    assert (Hp' : is_some (pk_doc_path_ s)
                  = wns || negb (is_nil (range_column_values request))
                    || (num_range_key_columns schema =? 0)%nat)
      by (unfold pk_doc_path_; destruct (pk_doc_key_ s); exact Hp).
    split.
    + rewrite Hpaths. intros Heq.
      assert (Hnil : path_list (hashed_doc_path_ s) ++ path_list (pk_doc_path_ s) = []).
      { apply (app_inv_head paths). rewrite app_nil_r. exact Heq. }
      destruct (hashed_doc_path_ s) as [hp|]; [discriminate|].
      destruct (pk_doc_path_ s) as [pp|]; [discriminate|].
      cbn in Hh', Hp'. symmetry in Hh', Hp'.
      apply orb_false_iff in Hh'. destruct Hh' as [Hws Hrange].
      apply orb_false_iff in Hp'. destruct Hp' as [Hp' Hnum].
      apply orb_false_iff in Hp'. destruct Hp' as [Hwns Hrv].
      apply negb_false_iff, is_nil_true in Hrv.
      unfold IsRangeOperation in Hrange. rewrite Hrv in Hrange.
      apply Nat.eqb_neq in Hnum.
      assert (Hpos : (0 <? num_range_key_columns schema)%nat = true)
        by (apply Nat.ltb_lt; lia).
      rewrite Hpos in Hrange. cbn [is_nil andb] in Hrange.
      apply is_nil_false in Hrange.
      pose proof (written_columns_some schema _ ws wns Hrange Hw) as Hsome.
      rewrite Hws, Hwns in Hsome. discriminate.
    + exists ws, wns. auto.
  - specialize (Hpaths s0). unfold GetDocPathsToLock in *. cbn [fst] in Hpaths.
    destruct (Hlevel s0 eq_refl) as [H1 H2].
    split; [exact H1|]. split; [exact H2|]. split; [exact Hpaths|]. discriminate.
  - specialize (Hpaths s0). unfold GetDocPathsToLock in *. cbn [fst] in Hpaths.
    destruct (Hlevel s0 eq_refl) as [H1 H2].
    split; [exact H1|]. split; [exact H2|]. split; [exact Hpaths|]. discriminate.
Qed.

(** *** Deleting a row *)

Lemma set_batch_same (s : WriteState) :
  set_batch (doc_write_batch s ++ []) s = s.
Proof. destruct s. unfold set_batch. cbn. rewrite app_nil_r. reflexivity. Qed.

Lemma set_batch_twice (s : WriteState) (b1 b2 : DocWriteBatch) :
  set_batch b2 (set_batch b1 s) = set_batch b2 s.
Proof. reflexivity. Qed.

Lemma write_accepted (op : WriteOp) (s : WriteState) :
  batch_status (doc_write_batch s) op = Ok tt ->
  write op s = (Ok tt, set_batch (doc_write_batch s ++ [op]) s).
Proof. intros H. unfold write. rewrite H. reflexivity. Qed.

(** A loop of accepted calls appends them in order. *)
Lemma for_each_until_writes {A} (l : list A) (op : A -> WriteOp) (s : WriteState) :
  (forall b o, batch_status b o = Ok tt) ->
  for_each_until l (fun x => (write (op x) ;;; ret Continue)%op) s
  = (Ok Continue, set_batch (doc_write_batch s ++ map op l) s).
Proof.
  intros Hacc. revert s. induction l as [|x l IH]; intros s; cbn.
  - unfold ret. rewrite set_batch_same. reflexivity.
  - unfold bind at 1. unfold bind at 1. rewrite (write_accepted _ _ (Hacc _ _)).
    unfold ret at 1. rewrite IH. cbn [doc_write_batch set_batch].
    rewrite <- app_assoc. reflexivity.
Qed.

Lemma DeleteRow_accepted (schema : Schema) (request : QLWriteRequestPB)
    (row_path : DocPath) (s : WriteState) :
  (forall b o, batch_status b o = Ok tt) ->
  DeleteRow schema request row_path s =
  (Ok tt,
   set_batch
     (doc_write_batch s ++
      match user_timestamp_usec request with
      | Some user_timestamp => row_tombstones schema row_path user_timestamp
      | None => [DeleteSubDoc row_path kInvalidUserTimestamp]
      end) s).
Proof.
  intros Hacc. unfold DeleteRow.
  destruct (user_timestamp_usec request) as [u|].
  - unfold bind at 1.
    rewrite (for_each_until_writes _
               (fun id => DeleteSubDoc
                            {| encoded_doc_key := encoded_doc_key row_path;
                               path_subkeys := [ColumnIdKey id] |} u) s Hacc).
    rewrite (write_accepted _ _ (Hacc _ _)).
    cbn [doc_write_batch set_batch]. unfold row_tombstones.
    rewrite <- app_assoc. reflexivity.
  - apply write_accepted. apply Hacc.
Qed.

(** C7.  A DELETE of the whole addressed row (no column named, not a
    range operation, no IF clause and no column reference): when the
    request carries a user timestamp, the calls that [Apply] makes on the
    write batch are one [DeleteSubDoc] for each column of the schema that
    is not a key column, then one for the liveness column, all of them at
    that timestamp; when it carries none, the one call is a [DeleteSubDoc]
    of the row path.  [DeleteRow] does the same on any row path. *)
Theorem delete_row_tombstones (request : QLWriteRequestPB) (schema : Schema)
    (db : DB) (s : WriteState) (row_path : DocPath) :
  (forall b o, batch_status b o = Ok tt) ->
  let deletes :=
    match user_timestamp_usec request with
    | Some user_timestamp => row_tombstones schema row_path user_timestamp
    | None => [DeleteSubDoc row_path kInvalidUserTimestamp]
    end in
  DeleteRow schema request row_path s
  = (Ok tt, set_batch (doc_write_batch s ++ deletes) s)
  /\
  (type request = QL_STMT_DELETE ->
   if_expr request = None ->
   RequireReadForExpressions request = false ->
   column_values request = [] ->
   IsRangeOperation request schema = false ->
   pk_doc_path_ s = Some row_path ->
   Apply request schema db s
   = (Ok tt, set_status_OK (set_batch (doc_write_batch s ++ deletes) s))).
Proof.
  intros Hacc deletes. split.
  - apply DeleteRow_accepted. exact Hacc.
  - intros Htype Hif Hread Hcols Hrange Hpk.
    unfold Apply, read_current_row. rewrite Hif, Hread.
    unfold bind at 1. unfold ret at 1. rewrite Htype.
    unfold apply_delete. rewrite Hcols, Hrange. cbn [is_nil negb].
    unfold bind at 1. unfold bind at 1. unfold get_state at 1.
    rewrite Hpk. unfold bind at 1. unfold deref, ret at 1.
    unfold bind at 1.
    rewrite (DeleteRow_accepted schema request row_path s Hacc).
    reflexivity.
Qed.

(** *** User timestamps and collections *)

Lemma for_each_until_cons {A} (x : A) (l : list A)
    (body : A -> M WriteState Flow) (s : WriteState) :
  for_each_until (x :: l) body s
  = match body x s with
    | (Ok Continue, s') => for_each_until l body s'
    | (Ok Returned, s') => (Ok Returned, s')
    | (Error c, s') => (Error c, s')
    | (Fatal, s') => (Fatal, s')
    end.
Proof.
  cbn [for_each_until]. unfold bind.
  destruct (body x s) as [[[]| |] s']; reflexivity.
Qed.

Lemma for_each_until_app {A} (pre post : list A) (x : A)
    (body : A -> M WriteState Flow) (s s1 : WriteState) :
  for_each_until pre body s = (Ok Continue, s1) ->
  for_each_until (pre ++ x :: post) body s
  = for_each_until (x :: post) body s1.
Proof.
  revert s. induction pre as [|y pre IH]; intros s.
  - cbn [for_each_until app]. unfold ret. intros H. injection H as <-. reflexivity.
  - cbn [app]. rewrite (for_each_until_cons y pre), (for_each_until_cons y (pre ++ _)).
    destruct (body y s) as [[[]| |] s2]; try discriminate.
    apply IH.
Qed.

Lemma apply_column_value_rejected (schema : Schema) (table_row : QLTableRow)
    (ttl : option Z) (user_timestamp : Z) (column_value : QLColumnValuePB)
    (s : WriteState) (id : ColumnId) (column : ColumnSchema) (path : DocPath)
    (expr_result : QLValue) :
  column_id column_value = Some id ->
  column_by_id schema id = Ok column ->
  (if is_static column then hashed_doc_path_ s else pk_doc_path_ s) = Some path ->
  EvalExpr (expr column_value) table_row null_value = Ok expr_result ->
  user_timestamp <> kInvalidUserTimestamp ->
  subscript_args column_value <> []
  \/ is_collection_merge (GetTSWriteInstruction (expr column_value)) = true ->
  apply_column_value schema table_row ttl user_timestamp column_value s
  = (Error InvalidArgument, s).
Proof.
  intros Hid Hcol Hpath Heval Hts Hmerge.
  unfold apply_column_value. rewrite Hid.
  unfold bind at 1. unfold lift at 1. rewrite Hcol.
  unfold bind at 1. unfold column_doc_key.
  unfold bind at 1. unfold get_state at 1. rewrite Hpath.
  unfold bind at 1. unfold deref, ret at 1. unfold ret at 1.
  unfold bind at 1. unfold lift at 1. rewrite Heval.
  assert (Hcheck : CheckUserTimestampForCollections user_timestamp
                   = Error InvalidArgument).
  { unfold CheckUserTimestampForCollections.
    destruct (user_timestamp =? kInvalidUserTimestamp) eqn:E; [|reflexivity].
    apply Z.eqb_eq in E. congruence. }
  destruct (subscript_args column_value) as [|arg args] eqn:Hargs; cbn [is_nil].
  - destruct Hmerge as [Hmerge | Hmerge]; [congruence|].
    destruct (GetTSWriteInstruction (expr column_value)); try discriminate;
      unfold bind at 1; unfold lift at 1; rewrite Hcheck; reflexivity.
  - unfold bind at 1. unfold lift at 1. rewrite Hcheck. reflexivity.
Qed.

Lemma apply_column_value_scalar (schema : Schema) (table_row : QLTableRow)
    (ttl : option Z) (user_timestamp : Z) (column_value : QLColumnValuePB)
    (s : WriteState) (id : ColumnId) (column : ColumnSchema) (path : DocPath)
    (expr_result : QLValue) :
  column_id column_value = Some id ->
  column_by_id schema id = Ok column ->
  (if is_static column then hashed_doc_path_ s else pk_doc_path_ s) = Some path ->
  EvalExpr (expr column_value) table_row null_value = Ok expr_result ->
  subscript_args column_value = [] ->
  GetTSWriteInstruction (expr column_value) = kScalarInsert ->
  (forall b o, batch_status b o = Ok tt) ->
  apply_column_value schema table_row ttl user_timestamp column_value s
  = (Ok Continue,
     set_batch
       (doc_write_batch s ++
        [InsertSubDocument
           {| encoded_doc_key := encoded_doc_key path;
              path_subkeys := [ColumnIdKey id] |}
           (SubDocument_FromQLValuePB expr_result column kScalarInsert)
           ttl user_timestamp]) s).
Proof.
  intros Hid Hcol Hpath Heval Hargs Hinstr Hacc.
  unfold apply_column_value. rewrite Hid.
  unfold bind at 1. unfold lift at 1. rewrite Hcol.
  unfold bind at 1. unfold column_doc_key.
  unfold bind at 1. unfold get_state at 1. rewrite Hpath.
  unfold bind at 1. unfold deref, ret at 1. unfold ret at 1.
  unfold bind at 1. unfold lift at 1. rewrite Heval.
  rewrite Hargs, Hinstr. cbn [is_nil].
  unfold bind at 1. rewrite (write_accepted _ _ (Hacc _ _)). reflexivity.
Qed.

(** C6.  A column value of an INSERT or UPDATE whose write instruction
    merges into a collection (map or set extend or remove, list append,
    prepend or remove) or that addresses a sub-column: when the user
    timestamp is a valid one, the write of the column fails with
    InvalidArgument and nothing is appended to the write batch; so does
    [Apply], with the state that the columns before it left.  A scalar
    replacement of the whole value is written at the user timestamp. *)
Theorem user_timestamp_rejected_for_collections (schema : Schema)
    (table_row : QLTableRow) (ttl : option Z) (user_timestamp : Z)
    (column_value : QLColumnValuePB) (s : WriteState) (id : ColumnId)
    (column : ColumnSchema) (path : DocPath) (expr_result : QLValue) :
  column_id column_value = Some id ->
  column_by_id schema id = Ok column ->
  (if is_static column then hashed_doc_path_ s else pk_doc_path_ s) = Some path ->
  EvalExpr (expr column_value) table_row null_value = Ok expr_result ->
  (user_timestamp <> kInvalidUserTimestamp ->
   subscript_args column_value <> []
   \/ is_collection_merge (GetTSWriteInstruction (expr column_value)) = true ->
   apply_column_value schema table_row ttl user_timestamp column_value s
   = (Error InvalidArgument, s)
   /\
   forall (request : QLWriteRequestPB) (db : DB) (s0 : WriteState)
          (pre post : list QLColumnValuePB),
     type request <> QL_STMT_DELETE ->
     if_expr request = None ->
     RequireReadForExpressions request = false ->
     table_row = new_row ->
     ttl = QL.ttl request ->
     user_timestamp_usec request = Some user_timestamp ->
     column_values request = pre ++ column_value :: post ->
     (write_liveness_column request ;;;
      for_each_until pre
        (apply_column_value schema new_row (QL.ttl request) user_timestamp))%op s0
     = (Ok Continue, s) ->
     Apply request schema db s0 = (Error InvalidArgument, s))
  /\
  (subscript_args column_value = [] ->
   GetTSWriteInstruction (expr column_value) = kScalarInsert ->
   (forall b o, batch_status b o = Ok tt) ->
   apply_column_value schema table_row ttl user_timestamp column_value s
   = (Ok Continue,
      set_batch
        (doc_write_batch s ++
         [InsertSubDocument
            {| encoded_doc_key := encoded_doc_key path;
               path_subkeys := [ColumnIdKey id] |}
            (SubDocument_FromQLValuePB expr_result column kScalarInsert)
            ttl user_timestamp]) s)).
Proof.
  intros Hid Hcol Hpath Heval. split.
  - intros Hts Hmerge.
    pose proof (apply_column_value_rejected schema table_row ttl user_timestamp
                  column_value s id column path expr_result
                  Hid Hcol Hpath Heval Hts Hmerge) as Hrej.
    split; [exact Hrej|].
    intros request db s0 pre post Htype Hif Hread -> -> Huser Hcols Hpre.
    unfold Apply, read_current_row. rewrite Hif, Hread.
    unfold bind at 1. unfold ret at 1.
    assert (Hbranch : apply_insert_or_update request schema new_row s0
                      = (Error InvalidArgument, s)).
    { unfold apply_insert_or_update, user_timestamp_of. rewrite Huser, Hcols.
      unfold bind at 1. unfold bind at 1 in Hpre.
      destruct (write_liveness_column request s0) as [[[]| |] s1]; try discriminate.
      rewrite (for_each_until_app pre post column_value _ s1 s Hpre).
      rewrite for_each_until_cons, Hrej. reflexivity. }
    unfold bind at 1.
    destruct (type request); try congruence; rewrite Hbranch; reflexivity.
  - apply apply_column_value_scalar; assumption.
Qed.

(** *** Conditional writes *)

Lemma read_row_batch (db : DB) (projection : Schema) (key : DocKey)
    (clear_if_missing : bool) (table_row : QLTableRow) (s : WriteState) :
  doc_write_batch (snd (read_row db projection key clear_if_missing table_row s))
  = doc_write_batch s.
Proof.
  unfold read_row, bind, lift, MakeAtLeast_restart, modify, ret.
  destruct (scan_key db projection key) as [it| |]; try reflexivity.
  destruct (HasNext it).
  - destruct (NextRow it projection table_row) as [[row it']| |]; reflexivity.
  - destruct clear_if_missing; reflexivity.
Qed.

(** [ReadColumns] makes no call on the write batch. *)
Lemma ReadColumns_batch (request : QLWriteRequestPB) (schema : Schema) (db : DB)
    (table_row : QLTableRow) (s : WriteState) :
  doc_write_batch (snd (ReadColumns request schema db table_row s))
  = doc_write_batch s.
Proof.
  unfold ReadColumns. unfold bind at 1. unfold lift at 1.
  destruct (CreateProjections schema (column_refs_or_default (column_refs request)))
    as [[sp nsp]| |]; try reflexivity.
  unfold bind at 1.
  pose proof (InitializeKeys_state request schema
                (negb (is_nil (columns sp))) (negb (is_nil (columns nsp))) s) as Hk.
  destruct (InitializeKeys request schema
              (negb (is_nil (columns sp))) (negb (is_nil (columns nsp))) s)
    as [[[]| |] s1]; destruct Hk as [_ [Hb _]]; try exact Hb.
  unfold bind at 1. unfold get_state at 1.
  unfold bind at 1.
  assert (H1 : forall (m : M WriteState QLTableRow),
             (forall s, doc_write_batch (snd (m s)) = doc_write_batch s) ->
             forall k : QLTableRow -> M WriteState (Schema * Schema * QLTableRow),
             (forall row s, doc_write_batch (snd (k row s)) = doc_write_batch s) ->
             forall s, doc_write_batch (snd (bind m k s)) = doc_write_batch s).
  { intros m Hm k Hk' s0. unfold bind. specialize (Hm s0).
    destruct (m s0) as [[row| |] s']; cbn [snd] in *; try exact Hm.
    rewrite Hk'. exact Hm. }
  rewrite <- Hb.
  change (doc_write_batch
            (snd (bind
                    match hashed_doc_key_ s1 with
                    | Some key => read_row db sp key false table_row
                    | None => ret table_row
                    end
                    (fun table_row0 =>
                       bind
                         match pk_doc_key_ s1 with
                         | Some key => read_row db nsp key true table_row0
                         | None => ret table_row0
                         end
                         (fun table_row1 => ret (sp, nsp, table_row1))) s1))
          = doc_write_batch s1).
  apply H1.
  - intros s0. destruct (hashed_doc_key_ s1); [apply read_row_batch | reflexivity].
  - intros row s0. apply H1.
    + intros s2. destruct (pk_doc_key_ s1); [apply read_row_batch | reflexivity].
    + reflexivity.
Qed.

Lemma set_column_tail (x v : QLValue) (row : list QLValue) (i : nat) :
  set_column (x :: row) (S i) v = x :: set_column row i v.
Proof. reflexivity. Qed.

(** [PopulateRow] from the column 1 on leaves the column 0 as it is. *)
Lemma PopulateRow_head (table_row : QLTableRow) (column_ids : list ColumnId)
    (i : nat) (x : QLValue) (row : list QLValue) :
  exists row', snd (PopulateRow table_row column_ids (S i) (x :: row)) = x :: row'.
Proof.
  revert i row. induction column_ids as [|id column_ids IH]; intros i row; cbn.
  - eauto.
  - destruct (GetValue table_row id) as [v| |]; cbn; eauto.
Qed.

Lemma set_column_app (pre post : list QLValue) (x v : QLValue) :
  set_column (pre ++ x :: post) (List.length pre) v = pre ++ v :: post.
Proof.
  induction pre as [|y pre IH]; cbn; [reflexivity|]. rewrite IH. reflexivity.
Qed.

(** [PopulateRow] when every read succeeds: the values fill the columns
    from [col_idx] on. *)
Lemma PopulateRow_values (table_row : QLTableRow) (column_ids : list ColumnId)
    (values pre old post : list QLValue) :
  get_values table_row column_ids = Ok values ->
  List.length old = List.length column_ids ->
  PopulateRow table_row column_ids (List.length pre) (pre ++ old ++ post)
  = (Ok tt, pre ++ values ++ post).
Proof.
  revert values pre old. induction column_ids as [|id column_ids IH];
    intros values pre old; cbn.
  - intros H. injection H as <-. destruct old; [reflexivity | discriminate].
  - destruct (GetValue table_row id) as [v| |]; cbn; try discriminate.
    destruct (get_values table_row column_ids) as [vs| |]; cbn; try discriminate.
    intros H. injection H as <-.
    destruct old as [|o old]; [discriminate|]. cbn. intros Hlen. injection Hlen as Hlen.
    rewrite set_column_app.
    change (pre ++ v :: old ++ post) with (pre ++ [v] ++ old ++ post).
    rewrite app_assoc.
    replace (S (List.length pre)) with (List.length (pre ++ [v]))
      by (rewrite length_app; cbn; lia).
    rewrite (IH vs (pre ++ [v]) old eq_refl Hlen).
    rewrite <- app_assoc. reflexivity.
Qed.

Lemma get_values_app (table_row : QLTableRow) (ids1 ids2 : list ColumnId)
    (values : list QLValue) :
  get_values table_row (ids1 ++ ids2) = Ok values ->
  exists v1 v2, get_values table_row ids1 = Ok v1
                /\ get_values table_row ids2 = Ok v2
                /\ values = v1 ++ v2.
Proof.
  revert values. induction ids1 as [|id ids1 IH]; intros values; cbn.
  - intros H. exists [], values. auto.
  - destruct (GetValue table_row id) as [v| |]; cbn; try discriminate.
    destruct (get_values table_row (ids1 ++ ids2)) as [vs| |] eqn:Hvs; cbn;
      try discriminate.
    intros H. injection H as <-.
    destruct (IH vs eq_refl) as [v1 [v2 [H1 [H2 ->]]]].
    rewrite H1. cbn. exists (v :: v1), v2. auto.
Qed.

Lemma get_values_length (table_row : QLTableRow) (column_ids : list ColumnId)
    (values : list QLValue) :
  get_values table_row column_ids = Ok values ->
  List.length values = List.length column_ids.
Proof.
  revert values. induction column_ids as [|id column_ids IH]; intros values; cbn.
  - intros H. injection H as <-. reflexivity.
  - destruct (GetValue table_row id) as [v| |]; cbn; try discriminate.
    destruct (get_values table_row column_ids) as [vs| |]; cbn; try discriminate.
    intros H. injection H as <-. cbn. f_equal. apply IH. reflexivity.
Qed.

(** The row block of a condition that is not satisfied on a row that
    exists: the values of the referred columns follow the column
    "[applied]". *)
Lemma PopulateRow_both (table_row : QLTableRow) (sp nsp : Schema)
    (values : list QLValue) :
  get_values table_row (projection_ids sp ++ projection_ids nsp) = Ok values ->
  let row :=
    set_column
      (map (fun _ => null_value)
         ("[applied]"%string :: projection_names sp ++ projection_names nsp))
      0 (bool_value false) in
  PopulateRow table_row (projection_ids sp) 1 row
  = (Ok tt,
     bool_value false :: firstn (num_columns sp) values
     ++ map (fun _ => null_value) (projection_names nsp))
  /\ PopulateRow table_row (projection_ids nsp) (1 + num_columns sp)
       (bool_value false :: firstn (num_columns sp) values
        ++ map (fun _ => null_value) (projection_names nsp))
     = (Ok tt, bool_value false :: values).
Proof.
  intros Hvalues row.
  destruct (get_values_app _ _ _ _ Hvalues) as [v1 [v2 [H1 [H2 ->]]]].
  pose proof (get_values_length _ _ _ H1) as Hl1.
  pose proof (get_values_length _ _ _ H2) as Hl2.
  unfold projection_ids in Hl1, Hl2. rewrite length_map in Hl1, Hl2.
  assert (Hfirst : firstn (num_columns sp) (v1 ++ v2) = v1).
  { unfold num_columns. rewrite <- Hl1, firstn_app, Nat.sub_diag, firstn_all.
    cbn. apply app_nil_r. }
  rewrite Hfirst. subst row. cbn [map set_column]. rewrite map_app.
  split.
  - apply (PopulateRow_values table_row (projection_ids sp) v1 [bool_value false]
             (map (fun _ => null_value) (projection_names sp))
             (map (fun _ => null_value) (projection_names nsp)) H1).
    unfold projection_names, projection_ids. rewrite !length_map. reflexivity.
  - replace (1 + num_columns sp)%nat with (List.length (bool_value false :: v1))
      by (cbn; unfold num_columns; lia).
    pose proof (PopulateRow_values table_row (projection_ids nsp) v2
                  (bool_value false :: v1)
                  (map (fun _ => null_value) (projection_names nsp)) [] H2) as H.
    rewrite !app_nil_r in H. apply H.
    unfold projection_names, projection_ids. rewrite !length_map. reflexivity.
Qed.

(** C1.  A write with an IF condition that evaluates to false on the row
    read: [Apply] makes no call on the write batch; the first column
    "[applied]" of the row of the row block is false; when the row read is
    empty that is the whole row block, and when it is not, the values of
    the static and of the non-static columns that the condition refers to
    follow, in this order. *)
Theorem conditional_write_not_applied (request : QLWriteRequestPB)
    (schema : Schema) (db : DB) (s s1 : WriteState) (condition : QLConditionPB)
    (static_projection non_static_projection : Schema) (table_row : QLTableRow) :
  if_expr request = Some condition ->
  ReadColumns request schema db new_row s
  = (Ok (static_projection, non_static_projection, table_row), s1) ->
  EvalCondition condition table_row = Ok false ->
  let '(r, s') := Apply request schema db s in
  doc_write_batch s' = doc_write_batch s
  /\ (exists names rest,
         rowblock_ s'
         = Some {| block_columns := "[applied]"%string :: names;
                   block_rows := [bool_value false :: rest] |})
  /\ (IsEmpty table_row = true ->
      r = Ok tt
      /\ rowblock_ s'
         = Some {| block_columns := ["[applied]"%string];
                   block_rows := [[bool_value false]] |}
      /\ status (response_ s') = Some YQL_STATUS_OK)
  /\ (IsEmpty table_row = false ->
      forall values,
        get_values table_row
          (projection_ids static_projection ++ projection_ids non_static_projection)
        = Ok values ->
        r = Ok tt
        /\ rowblock_ s'
           = Some {| block_columns :=
                       "[applied]"%string
                       :: projection_names static_projection
                       ++ projection_names non_static_projection;
                     block_rows := [bool_value false :: values] |}
        /\ status (response_ s') = Some YQL_STATUS_OK).
Proof.
  intros Hif Hread Heval.
  pose proof (ReadColumns_batch request schema db new_row s) as Hbatch.
  rewrite Hread in Hbatch. cbn [snd] in Hbatch.
  unfold Apply, read_current_row. rewrite Hif.
  unfold bind at 1. unfold IsConditionSatisfied.
  unfold bind at 1. rewrite Hread.
  unfold bind at 1. unfold lift at 1. rewrite Heval.
  cbn [negb andb].
  destruct (IsEmpty table_row) eqn:Hempty; cbn [negb].
  - (* The row does not exist. *)
    cbn. repeat split; try assumption; try discriminate.
    exists [], []. reflexivity.
  - (* The row exists. *)
    set (row0 := set_column
                   (map (fun _ => null_value)
                      ("[applied]"%string
                       :: projection_names static_projection
                       ++ projection_names non_static_projection))
                   0 (bool_value false)).
    assert (Hrow0 : exists rest, row0 = bool_value false :: rest)
      by (eexists; reflexivity).
    destruct Hrow0 as [rest0 Hrow0].
    destruct (PopulateRow table_row (projection_ids static_projection) 1 row0)
      as [r1 row1] eqn:Hp1.
    assert (Hrow1 : exists rest, row1 = bool_value false :: rest).
    { destruct (PopulateRow_head table_row (projection_ids static_projection)
                  0 (bool_value false) rest0) as [rest Hrest].
      rewrite <- Hrow0, Hp1 in Hrest. eauto. }
    destruct Hrow1 as [rest1 Hrow1].
    destruct (match r1 with
              | Ok _ =>
                  PopulateRow table_row (projection_ids non_static_projection)
                    (1 + num_columns static_projection) row1
              | _ => (r1, row1)
              end) as [r2 row2] eqn:Hp2.
    assert (Hrow2 : exists rest, row2 = bool_value false :: rest).
    { destruct r1 as [[]| |];
        try (injection Hp2 as <- <-; eauto).
      destruct (PopulateRow_head table_row (projection_ids non_static_projection)
                  (num_columns static_projection) (bool_value false) rest1)
        as [rest Hrest].
      rewrite <- Hrow1 in Hrest. cbn [Nat.add] in Hp2. rewrite Hp2 in Hrest. eauto. }
    destruct Hrow2 as [rest2 Hrow2].
    unfold bind, modify, lift, ret.
    assert (Hvalues : forall values,
               get_values table_row
                 (projection_ids static_projection
                  ++ projection_ids non_static_projection) = Ok values ->
               r2 = Ok tt /\ row2 = bool_value false :: values).
    { intros values Hvalues.
      destruct (PopulateRow_both table_row static_projection non_static_projection
                  values Hvalues) as [H1 H2].
      fold row0 in H1. rewrite H1 in Hp1. injection Hp1 as <- <-.
      rewrite H2 in Hp2. injection Hp2 as <- <-. split; reflexivity. }
    destruct r2 as [[]| |]; cbn.
    all: split; [exact Hbatch|].
    all: split;
      [exists (projection_names static_projection
               ++ projection_names non_static_projection), rest2;
       rewrite <- Hrow2; reflexivity|].
    all: split; [discriminate|].
    all: intros _ values Hv; destruct (Hvalues values Hv) as [Hr ->].
    all: try discriminate Hr.
    auto.
Qed.

(** *** Reads *)

Lemma preserves_ret {S A X} (component : S -> X) (a : A) :
  preserves component (ret a).
Proof. intro s. reflexivity. Qed.

Lemma preserves_lift {S A X} (component : S -> X) (r : Result A) :
  preserves component (lift r).
Proof. intro s. reflexivity. Qed.

Lemma preserves_get_state {S X} (component : S -> X) :
  preserves component get_state.
Proof. intro s. reflexivity. Qed.

Lemma preserves_bind {S A B X} (component : S -> X) (m : M S A) (k : A -> M S B) :
  preserves component m ->
  (forall a, preserves component (k a)) ->
  preserves component (bind m k).
Proof.
  intros Hm Hk s. unfold bind. specialize (Hm s).
  destruct (m s) as [[a|c|] s']; cbn [snd] in *; try exact Hm.
  rewrite Hk. exact Hm.
Qed.

Ltac preserved_by known :=
  repeat first
    [ known
    | apply preserves_ret
    | apply preserves_lift
    | apply preserves_get_state
    | assumption
    | apply preserves_bind; [|intros]
    | match goal with
      | |- preserves _ (if ?c then _ else _) => destruct c
      | |- preserves _ (let '(_, _) := ?x in _) => destruct x
      | |- preserves _ (match ?x with _ => _ end) => destruct x
      end ].

Ltac preserved := preserved_by fail.

Lemma EvalAggregate_paging_state (request : QLReadRequestPB) (row : QLTableRow) :
  preserves paging_state (EvalAggregate request row).
Proof.
  intro s. unfold EvalAggregate.
  destruct (eval_selected _ _ _ _). reflexivity.
Qed.

Lemma PopulateResultSet_paging_state (request : QLReadRequestPB) (row : QLTableRow) :
  preserves paging_state (PopulateResultSet request row).
Proof.
  intro s. unfold PopulateResultSet.
  destruct (eval_selected _ _ _ _). reflexivity.
Qed.

Lemma PopulateAggregate_paging_state (request : QLReadRequestPB) :
  preserves paging_state (PopulateAggregate request).
Proof.
  intro s. unfold PopulateAggregate.
  destruct (_ <? _)%nat; reflexivity.
Qed.

Lemma AddRowToResult_paging_state (request : QLReadRequestPB) (spec : QLScanSpec)
    (row : QLTableRow) (row_count_limit match_count : Z) :
  preserves paging_state (AddRowToResult request spec row row_count_limit match_count).
Proof.
  pose proof (EvalAggregate_paging_state request row).
  pose proof (PopulateResultSet_paging_state request row).
  unfold AddRowToResult. preserved.
Qed.

Lemma process_row_paging_state (request : QLReadRequestPB) (schema : Schema)
    (static_projection non_static_projection : Schema) (spec : QLScanSpec)
    (row_count_limit : Z) (last_read_static : bool) (it : RowwiseIterator)
    (f : Fetch) :
  preserves paging_state
    (process_row request schema static_projection non_static_projection spec
       row_count_limit last_read_static it f).
Proof.
  unfold process_row.
  preserved_by ltac:(apply AddRowToResult_paging_state).
Qed.

Lemma fetch_row_paging_state (request : QLReadRequestPB) (schema : Schema)
    (static_projection non_static_projection : Schema) (spec : QLScanSpec)
    (row_count_limit : Z) (state : RowwiseIterator * Fetch) :
  preserves paging_state
    (fetch_row request schema static_projection non_static_projection spec
       row_count_limit state).
Proof.
  unfold fetch_row. destruct state as [iter f].
  preserved_by ltac:(apply process_row_paging_state).
Qed.

Lemma fetch_loop_paging_state (turns : nat) (row_count_limit : Z)
    (body : RowwiseIterator * Fetch -> M ReadState (RowwiseIterator * Fetch)) :
  (forall state, preserves paging_state (body state)) ->
  forall state, preserves paging_state (fetch_loop turns row_count_limit body state).
Proof.
  intros Hbody. induction turns as [|turns IH]; intros state s; cbn [fetch_loop].
  - reflexivity.
  - destruct (_ && _); [|reflexivity].
    apply (preserves_bind paging_state (body state) _ (Hbody state) IH).
Qed.

Lemma fetch_rows_paging_state (request : QLReadRequestPB)
    (schema query_schema : Schema) :
  preserves paging_state (fetch_rows request schema query_schema).
Proof.
  unfold fetch_rows.
  preserved_by
    ltac:(apply fetch_loop_paging_state; intro; apply fetch_row_paging_state).
Qed.

(** [Execute] of a request whose limit is not 0. *)
Lemma Execute_fetches (request : QLReadRequestPB) (schema query_schema : Schema) :
  limit request <> Some 0 ->
  Execute request schema query_schema
  = bind (fetch_rows request schema query_schema)
      (fun fetched => finish_read request (fst fetched) (snd fetched)).
Proof.
  intro Hlimit. unfold Execute.
  destruct (limit request) as [[|l|l]|]; try reflexivity.
  contradiction Hlimit. reflexivity.
Qed.

(** The paging state that the end of [Execute] leaves. *)
Lemma finish_read_paging_state (request : QLReadRequestPB) (iter : RowwiseIterator)
    (f : Fetch) (s : ReadState) :
  let s' := snd (finish_read request iter f s) in
  paging_state s'
  = if limit_reached request s'
    then match SetPagingStateIfNecessary iter with
         | Ok (Some token) => Some token
         | _ => paging_state s
         end
    else paging_state s.
Proof.
  unfold finish_read, limit_reached. cbv zeta.
  unfold bind, modify, get_state, lift, ret.
  destruct ((if is_aggregate request && (match_count f >? 0)
             then PopulateAggregate request
             else fun s0 : ReadState => (Ok tt, s0)) s)
    as [r s1] eqn:Haggr.
  assert (Hpaging : paging_state s1 = paging_state s).
  { pose proof (PopulateAggregate_paging_state request s) as H.
    destruct (is_aggregate request && (match_count f >? 0)).
    - rewrite Haggr in H. exact H.
    - injection Haggr as <- <-. reflexivity. }
  destruct r as [[]| |]; cbn [snd].
  - change (rsrow_count (set_read_restart (RestartReadHt iter) s1))
      with (rsrow_count s1).
    destruct ((rsrow_count s1 >=? row_count_limit_of request)
              && negb (is_aggregate request)) eqn:Hreached.
    + destruct (SetPagingStateIfNecessary iter) as [[token|]| |]; cbn [snd].
      all: match goal with
           | |- context [rsrow_count ?x] =>
               change (rsrow_count x) with (rsrow_count s1)
           end.
      all: rewrite Hreached; try exact Hpaging; reflexivity.
    + cbn [snd].
      change (rsrow_count (set_read_restart (RestartReadHt iter) s1))
        with (rsrow_count s1).
      rewrite Hreached. exact Hpaging.
  - (* [PopulateAggregate] is only called for an aggregate. *)
    destruct (is_aggregate request) eqn:Hagg.
    + rewrite andb_false_r. exact Hpaging.
    + cbn in Haggr. discriminate Haggr.
  - destruct (is_aggregate request) eqn:Hagg.
    + rewrite andb_false_r. exact Hpaging.
    + cbn in Haggr. discriminate Haggr.
Qed.

(** The restart hint that the end of [Execute] leaves. *)
Lemma finish_read_restart_read_ht (request : QLReadRequestPB)
    (iter : RowwiseIterator) (f : Fetch) (s : ReadState) :
  fst (finish_read request iter f s) = Ok tt ->
  read_restart_read_ht (snd (finish_read request iter f s)) = RestartReadHt iter.
Proof.
  unfold finish_read.
  unfold bind, modify, get_state, lift, ret.
  destruct ((if is_aggregate request && (match_count f >? 0)
             then PopulateAggregate request
             else fun s0 : ReadState => (Ok tt, s0)) s)
    as [r s1].
  destruct r as [[]| |]; cbn [fst]; try discriminate.
  intros _.
  destruct ((rsrow_count (set_read_restart (RestartReadHt iter) s1)
             >=? row_count_limit_of request)
            && negb (is_aggregate request)); [|reflexivity].
  destruct (SetPagingStateIfNecessary iter) as [[token|]| |]; reflexivity.
Qed.

(** C8 (amended).  A read with limit 0 returns OK at once and leaves the
    result set (and the rest of the response) as it found it.  Any other
    read, once the rows are fetched, asks the iterator for a paging state
    exactly when the number of rows of the result set reached the row
    count limit and the query is not an aggregate, and leaves the paging
    state of the response alone otherwise: a response that had no paging
    state gets the token [token] if and only if the limit was reached,
    the query is not an aggregate and [token] is what the iterator gives
    for its position; it gets none when the iterator has none to give. *)
Theorem Execute_limit_and_paging_state (request : QLReadRequestPB)
    (schema query_schema : Schema) (s : ReadState) :
  (limit request = Some 0 ->
   Execute request schema query_schema s = (Ok tt, s))
  /\
  (limit request <> Some 0 ->
   forall (iter : RowwiseIterator) (f : Fetch) (s1 : ReadState),
     fetch_rows request schema query_schema s = (Ok (iter, f), s1) ->
     let s' := snd (Execute request schema query_schema s) in
     paging_state s'
     = (if limit_reached request s'
        then match SetPagingStateIfNecessary iter with
             | Ok (Some token) => Some token
             | _ => paging_state s
             end
        else paging_state s)
     /\ (paging_state s = None ->
         paging_state s' <> None -> limit_reached request s' = true)
     /\ (paging_state s = None ->
         forall token,
           paging_state s' = Some token
           <-> limit_reached request s' = true
               /\ SetPagingStateIfNecessary iter = Ok (Some token))).
Proof.
  split.
  - intro Hlimit. unfold Execute. rewrite Hlimit. reflexivity.
  - intros Hlimit iter f s1 Hfetch s'.
    assert (Hformula :
              paging_state s'
              = (if limit_reached request s'
                 then match SetPagingStateIfNecessary iter with
                      | Ok (Some token) => Some token
                      | _ => paging_state s
                      end
                 else paging_state s)).
    { subst s'. rewrite (Execute_fetches request schema query_schema Hlimit).
      unfold bind. rewrite Hfetch. cbn [fst snd].
      pose proof (fetch_rows_paging_state request schema query_schema s) as Hkeep.
      rewrite Hfetch in Hkeep. cbn [snd] in Hkeep. rewrite <- Hkeep.
      apply finish_read_paging_state. }
    split; [exact Hformula|]. split.
    + intros Hnone Hsome. rewrite Hformula in Hsome.
      destruct (limit_reached request s'); [reflexivity|].
      contradiction.
    + intros Hnone token. rewrite Hformula, Hnone.
      destruct (limit_reached request s').
      * destruct (SetPagingStateIfNecessary iter) as [[token'|]| |]; split;
          try (intros H; split; [reflexivity | congruence]);
          try (intros [_ H]; congruence);
          try discriminate.
      * split; [discriminate | intros [H _]; discriminate H].
Qed.

(** C5.  The restart hint that a read hands back when it returns OK is the
    one that the iterator of the main scan reports after the fetch loop:
    the iterator of the extra lookup of the static row is not asked for
    its hint. *)
Theorem Execute_restart_read_ht (request : QLReadRequestPB)
    (schema query_schema : Schema) (s s1 : ReadState)
    (iter : RowwiseIterator) (f : Fetch) :
  limit request <> Some 0 ->
  fetch_rows request schema query_schema s = (Ok (iter, f), s1) ->
  fst (Execute request schema query_schema s) = Ok tt ->
  read_restart_read_ht (snd (Execute request schema query_schema s))
  = RestartReadHt iter.
Proof.
  intros Hlimit Hfetch.
  rewrite (Execute_fetches request schema query_schema Hlimit).
  unfold bind. rewrite Hfetch. cbn [fst snd].
  apply finish_read_restart_read_ht.
Qed.

End Facts.

(** *** The properties on the small table *)

Local Open Scope string_scope.

#[local] Existing Instance simple_types.
#[local] Existing Instance simple_storage.
#[local] Existing Instance paged_scans.


(** The conditional update of a row whose [v] is 7, not 1. *)
Lemma conditional_write_not_applied_witness :
  Apply conditional_update simple_schema stored_row (new_operation [] None)
  = (Ok tt,
     set_status_OK
       (set_rowblock
          {| block_columns := ["[applied]"; "v"];
             block_rows := [[Some 0; Some 7]] |}
          (snd (ReadColumns conditional_update simple_schema stored_row new_row
                  (new_operation [] None))))).
Proof.
  pose proof (conditional_write_not_applied (T := simple_types) (St := simple_storage)
                conditional_update simple_schema stored_row (new_operation [] None)
                (snd (ReadColumns conditional_update simple_schema stored_row new_row
                        (new_operation [] None)))
                (3, 1)
                {| columns := []; num_hash_key_columns := 0;
                   num_range_key_columns := 0; default_time_to_live := None |}
                {| columns := [(3, simple_column "v" false)]; num_hash_key_columns := 0;
                   num_range_key_columns := 0; default_time_to_live := None |}
                [(3, Some 7)] eq_refl eq_refl eq_refl) as H.
  destruct (Apply conditional_update simple_schema stored_row (new_operation [] None))
    as [r s'] eqn:HApply.
  destruct H as [_ [_ [_ Hvalues]]].
  destruct (Hvalues eq_refl [Some 7] eq_refl) as [-> _].
  vm_compute in HApply. injection HApply as <-.
  vm_compute. reflexivity.
Defined.

Lemma GetDocPathsToLock_after_Init_witness :
  GetDocPathsToLock (initialized conditional_update) []
  = ([DocPath_of simple_row_key], SNAPSHOT_ISOLATION)
  /\ GetDocPathsToLock
       (initialized (simple_write QL_STMT_INSERT
                       [simple_column_value 3 [] (Constant kScalarInsert 5)]
                       None None None)) []
     = ([DocPath_of simple_row_key], SERIALIZABLE_ISOLATION).
Proof.
  split.
  - pose proof (GetDocPathsToLock_after_Init (T := simple_types)
                  conditional_update simple_schema [] None []) as H.
    unfold initialized.
    destruct (Init conditional_update simple_schema (new_operation [] None))
      as [r s] eqn:HInit.
    cbn [snd].
    destruct (GetDocPathsToLock s []) as [declared level].
    destruct H as [[_ Hlevel] [_ [Hdeclared _]]].
    rewrite Hlevel by (left; discriminate).
    rewrite Hdeclared. vm_compute in HInit. injection HInit as <- <-.
    reflexivity.
  - set (request := simple_write QL_STMT_INSERT
                      [simple_column_value 3 [] (Constant kScalarInsert 5)]
                      None None None).
    pose proof (GetDocPathsToLock_after_Init (T := simple_types)
                  request simple_schema [] None []) as H.
    unfold initialized.
    destruct (Init request simple_schema (new_operation [] None))
      as [r s] eqn:HInit.
    cbn [snd].
    destruct (GetDocPathsToLock s []) as [declared level].
    destruct H as [_ [[_ Hlevel] [Hdeclared _]]].
    rewrite Hlevel, Hdeclared.
    + vm_compute in HInit. injection HInit as <- <-. reflexivity.
    + intros [Hif | [[refs [Hrefs _]] | [Huser | [_ [Hrange _]]]]].
      * apply Hif. reflexivity.
      * discriminate Hrefs.
      * apply Huser. reflexivity.
      * discriminate Hrange.
Defined.

(** A map extend at a user timestamp is refused. *)
Lemma user_timestamp_rejected_for_collections_witness :
  apply_column_value simple_schema new_row None 100
    (simple_column_value 3 [] (Constant kMapExtend 5))
    (initialized collection_update)
  = (Error InvalidArgument, initialized collection_update)
  /\ Apply collection_update simple_schema stored_row (initialized collection_update)
     = (Error InvalidArgument, initialized collection_update).
Proof.
  destruct (user_timestamp_rejected_for_collections
              (T := simple_types) (St := simple_storage)
              simple_schema new_row None 100
              (simple_column_value 3 [] (Constant kMapExtend 5))
              (initialized collection_update) 3 (simple_column "v" false)
              (DocPath_of simple_row_key) (Some 5)
              eq_refl eq_refl eq_refl eq_refl) as [Hrejected _].
  destruct Hrejected as [Hcolumn HApply].
  - vm_compute. discriminate.
  - right. reflexivity.
  - split; [exact Hcolumn|].
    apply (HApply collection_update stored_row (initialized collection_update) [] []);
      try reflexivity.
    discriminate.
Defined.

(** The delete of a row at a user timestamp. *)
Lemma delete_row_tombstones_witness :
  Apply timestamped_delete simple_schema stored_row (initialized timestamped_delete)
  = (Ok tt,
     set_status_OK
       (set_batch
          [DeleteSubDoc {| encoded_doc_key := simple_row_key;
                           path_subkeys := [ColumnIdKey 2] |} 100;
           DeleteSubDoc {| encoded_doc_key := simple_row_key;
                           path_subkeys := [ColumnIdKey 3] |} 100;
           DeleteSubDoc {| encoded_doc_key := simple_row_key;
                           path_subkeys := [SystemColumnIdKey kLivenessColumn] |} 100]
          (initialized timestamped_delete))).
Proof.
  destruct (delete_row_tombstones (T := simple_types) (St := simple_storage)
              timestamped_delete simple_schema stored_row
              (initialized timestamped_delete) (DocPath_of simple_row_key)
              (fun _ _ => eq_refl)) as [_ HApply].
  apply HApply; reflexivity.
Defined.

(** A read with limit 0, and a read of two rows with limit 1: the second
    gets the position of the iterator as its paging state. *)
Lemma Execute_limit_and_paging_state_witness :
  Execute (simple_read_request (Some 0) false) simple_schema simple_schema empty_result
  = (Ok tt, empty_result)
  /\ paging_state
       (snd (Execute (simple_read_request (Some 1) false) simple_schema simple_schema
               empty_result))
     = Some 1
  /\ paging_state
       (snd (Execute (simple_read_request (Some 1) true) simple_schema simple_schema
               empty_result))
     = None.
Proof.
  split; [|split].
  - apply (proj1 (Execute_limit_and_paging_state
                    (T := simple_types) (Storage := paged_scans)
                    (simple_read_request (Some 0) false) simple_schema simple_schema
                    empty_result)).
    reflexivity.
  - pose proof (proj2 (Execute_limit_and_paging_state
                         (T := simple_types) (Storage := paged_scans)
                         (simple_read_request (Some 1) false) simple_schema
                         simple_schema empty_result)) as H.
    destruct (fetch_rows (simple_read_request (Some 1) false) simple_schema
                simple_schema empty_result) as [[[iter f]| |] s1] eqn:Hfetch;
      try (vm_compute in Hfetch; discriminate Hfetch).
    specialize (H ltac:(discriminate) iter f s1 eq_refl).
    destruct H as [_ [_ Htoken]].
    apply (Htoken eq_refl 1). split.
    + reflexivity.
    + vm_compute in Hfetch. injection Hfetch as <- _ _. reflexivity.
  - pose proof (proj2 (Execute_limit_and_paging_state
                         (T := simple_types) (Storage := paged_scans)
                         (simple_read_request (Some 1) true) simple_schema
                         simple_schema empty_result)) as H.
    destruct (fetch_rows (simple_read_request (Some 1) true) simple_schema
                simple_schema empty_result) as [[[iter f]| |] s1] eqn:Hfetch;
      try (vm_compute in Hfetch; discriminate Hfetch).
    specialize (H ltac:(discriminate) iter f s1 eq_refl).
    destruct H as [Hstate _].
    rewrite Hstate. reflexivity.
Defined.

(** C8, as the claim has it, fails: a read of two rows with limit 2
    reaches the limit and is not an aggregate, and its response has no
    paging state, the iterator having no row left to continue from. *)
Lemma limit_reached_without_paging_state :
  ~ paging_state_iff_limit_reached (simple_read_request (Some 2) false)
      simple_schema simple_schema empty_result.
Proof.
  unfold paging_state_iff_limit_reached. cbv zeta. intros [_ H].
  apply H; vm_compute; reflexivity.
Qed.

(** A read that continues from a paging state: the hint handed back is
    the one of the main scan. *)
Lemma Execute_restart_read_ht_witness :
  read_restart_read_ht
    (snd (Execute (simple_read_request None false) simple_schema simple_schema
            empty_result))
  = Some 5.
Proof.
  destruct (fetch_rows (simple_read_request None false) simple_schema
              simple_schema empty_result) as [[[iter f]| |] s1] eqn:Hfetch;
    try (vm_compute in Hfetch; discriminate Hfetch).
  rewrite (Execute_restart_read_ht (T := simple_types) (Storage := paged_scans)
             (simple_read_request None false) simple_schema simple_schema
             empty_result s1 iter f ltac:(discriminate) Hfetch eq_refl).
  vm_compute in Hfetch. injection Hfetch as <- _ _. reflexivity.
Defined.

(** C5, as the claim has it, fails on a read that continues from a paging
    state: the iterator of the lookup of the static row reports the hint
    10 and the one of the main scan the hint 5; the later of the two is
    10, and the read hands back 5. *)
Example static_lookup_hint_dropped :
  let request := simple_read_request None false in
  let static_projection :=
    {| columns := [(2, simple_column "s" true)]; num_hash_key_columns := 0;
       num_range_key_columns := 0; default_time_to_live := None |} in
  CreateProjections simple_schema (read_column_refs request)
  = Ok (static_projection,
        {| columns := [(3, simple_column "v" false)]; num_hash_key_columns := 0;
           num_range_key_columns := 0; default_time_to_live := None |})
  /\ BuildQLScanSpec request simple_schema true static_projection
     = Ok (false, Some true)
  /\ match static_row_iterator request simple_schema static_projection (Some true)
             new_row,
           fst (fetch_rows request simple_schema simple_schema empty_result)
     with
     | Ok (Some static_row_iter), Ok (iter, _) =>
         RestartReadHt static_row_iter = Some 10
         /\ RestartReadHt iter = Some 5
         /\ latest_hint [RestartReadHt static_row_iter; RestartReadHt iter] = Some 10
     | _, _ => False
     end
  /\ fst (Execute request simple_schema simple_schema empty_result) = Ok tt
  /\ read_restart_read_ht
       (snd (Execute request simple_schema simple_schema empty_result))
     = Some 5.
Proof.
  cbv zeta. split; [reflexivity|]. split; [reflexivity|]. split.
  - vm_compute. repeat split.
  - split; reflexivity.
Qed.

End QLFacts.

(* ===================================================================== *)
(** ** Facts about the other Redis commands                               *)
(* ===================================================================== *)

Module RedisCommandFacts.

Import Redis.

Unset Implicit Arguments.

Section Facts.

Context {D : DoubleOps} {Store : DocStore} {Env : Environment}.

(** *** What the write commands append to the write batch *)

Lemma VerifyTypeAndSetCode_true (expected actual : RedisDataType) (if_missing : bool)
    (r r' : RedisResponsePB) :
  VerifyTypeAndSetCode expected actual if_missing r = (true, r') ->
  code r' = Some RedisStatusCode_OK.
Proof.
  unfold VerifyTypeAndSetCode.
  destruct (RedisDataType_eqb actual REDIS_TYPE_NONE).
  - destruct if_missing; intros H; inversion H; reflexivity.
  - destruct (negb (RedisDataType_eqb actual expected)); intros H; inversion H;
      reflexivity.
Qed.

(** A call on the write batch, made once the code OK is set and followed
    by nothing. *)
Lemma write_last (op : WriteOp) (s0 s : OpState) :
  batch s = batch s0 ->
  code (response s) = Some RedisStatusCode_OK ->
  appended_once s0 (write op s).
Proof.
  intros Hbatch Hcode. unfold write, appended_once.
  destruct (batch_status (batch s) op) as [[]| |]; cbn [fst snd batch response].
  - right. exists op. rewrite Hbatch. auto.
  - left. exact Hbatch.
  - left. exact Hbatch.
Qed.

Lemma ApplyGetSet_appended_once (db : DB) (kv : RedisKeyValuePB) (s : OpState) :
  appended_once s (ApplyGetSet db kv s).
Proof.
  unfold ApplyGetSet, GetValue, bind, lift, verify_type, with_response, modify, fail, ret.
  destruct (GetRedisValue db kv (-1)) as [value| |]; try (left; reflexivity).
  destruct (negb (value_size kv =? 1)); [left; reflexivity|].
  destruct (VerifyTypeAndSetCode REDIS_TYPE_STRING (rv_type value) false (response s))
    as [ok r'] eqn:Hverify.
  destruct ok; cbn [negb]; [|left; reflexivity].
  destruct (value_at kv 0) as [value0| |]; try (left; reflexivity).
  apply write_last; [reflexivity|].
  cbn. exact (VerifyTypeAndSetCode_true _ _ _ _ _ Hverify).
Qed.

Lemma ApplyAppend_appended_once (db : DB) (kv : RedisKeyValuePB) (s : OpState) :
  appended_once s (ApplyAppend db kv s).
Proof.
  unfold ApplyAppend, GetValue, bind, lift, verify_type, with_response, modify, fail, ret.
  destruct (negb (value_size kv =? 1)); [left; reflexivity|].
  destruct (GetRedisValue db kv (-1)) as [value| |]; try (left; reflexivity).
  destruct (VerifyTypeAndSetCode REDIS_TYPE_STRING (rv_type value) true (response s))
    as [ok r'] eqn:Hverify.
  destruct ok; cbn [negb]; [|left; reflexivity].
  destruct (value_at kv 0) as [value0| |]; try (left; reflexivity).
  apply write_last; [reflexivity|].
  cbn. exact (VerifyTypeAndSetCode_true _ _ _ _ _ Hverify).
Qed.

Lemma ApplySetRange_appended_once (db : DB) (kv : RedisKeyValuePB) (offset : Z)
    (s : OpState) :
  appended_once s (ApplySetRange db kv offset s).
Proof.
  unfold ApplySetRange, GetValue, bind, lift, verify_type, with_response, modify,
    fail, abort, ret.
  destruct (negb (value_size kv =? 1)); [left; reflexivity|].
  destruct (GetRedisValue db kv (-1)) as [value| |]; try (left; reflexivity).
  destruct (VerifyTypeAndSetCode REDIS_TYPE_STRING (rv_type value) true (response s))
    as [ok r'] eqn:Hverify.
  destruct ok; cbn [negb]; [|left; reflexivity].
  destruct (offset <? 0); [left; reflexivity|].
  destruct (value_at kv 0) as [value0| |]; try (left; reflexivity).
  apply write_last; [reflexivity|].
  cbn. exact (VerifyTypeAndSetCode_true _ _ _ _ _ Hverify).
Qed.

Lemma ApplyIncr_appended_once (db : DB) (kv : RedisKeyValuePB) (incr : Z)
    (s : OpState) :
  appended_once s (ApplyIncr db kv incr s).
Proof.
  unfold ApplyIncr, GetValue, bind, lift, verify_type, with_response, modify, ret.
  destruct (GetRedisValue db kv (-1)) as [value| |]; try (left; reflexivity).
  destruct (VerifyTypeAndSetCode REDIS_TYPE_STRING (rv_type value) false (response s))
    as [ok r'] eqn:Hverify.
  destruct ok; cbn [negb]; [|left; reflexivity].
  destruct (stoll (rv_value value)) as [old_value| |]; try (left; reflexivity).
  destruct (_ || _); [left; reflexivity|].
  apply write_last; [reflexivity|].
  cbn. exact (VerifyTypeAndSetCode_true _ _ _ _ _ Hverify).
Qed.

(** A call on the write batch, followed by steps that set the code OK and
    leave the write batch alone. *)
Lemma write_then_ok (op : WriteOp) (tail : M OpState unit) (s0 s : OpState) :
  batch s = batch s0 ->
  (forall s1, fst (tail s1) = Ok tt
              /\ batch (snd (tail s1)) = batch s1
              /\ code (response (snd (tail s1))) = Some RedisStatusCode_OK) ->
  appended_once s0 ((write op ;;; tail)%op s).
Proof.
  intros Hbatch Htail. unfold bind, write, appended_once.
  destruct (batch_status (batch s) op) as [[]| |]; cbn [fst snd batch response].
  - right. exists op.
    destruct (Htail {| response := response s; batch := batch s ++ [op] |})
      as [Hr [Hb Hc]].
    rewrite Hb. cbn [batch]. rewrite Hbatch in *. auto.
  - left. exact Hbatch.
  - left. exact Hbatch.
Qed.

Lemma ApplyAdd_appended_once (db : DB) (kv : RedisKeyValuePB) (s : OpState) :
  appended_once s (ApplyAdd db kv s).
Proof.
  unfold ApplyAdd. unfold bind at 1. unfold GetValueType at 1.
  destruct (GetRedisValueType db kv (Some (batch s)) (-1)) as [data_type| |];
    try (left; reflexivity).
  destruct (_ && _); [left; reflexivity|].
  destruct (subkey_size kv =? 0); [left; reflexivity|].
  unfold bind at 1. unfold get_state at 1.
  unfold bind at 1. unfold lift at 1.
  destruct (for_each _ _ _) as [e| |]; try (left; reflexivity).
  unfold bind at 1. unfold lift at 1.
  destruct (ConvertToCollection kRedisSet (snd e)) as [set_entries| |];
    try (left; reflexivity).
  assert (Htail : forall s1 : OpState,
             let tail :=
               (with_response (set_code RedisStatusCode_OK) ;;;
                (if FLAGS_emulate_redis_responses
                 then with_response (set_int_response (subkey_size kv - fst e))
                 else ret tt))%op in
             fst (tail s1) = Ok tt
             /\ batch (snd (tail s1)) = batch s1
             /\ code (response (snd (tail s1))) = Some RedisStatusCode_OK).
  { intros s1. unfold bind, with_response, modify, ret.
    destruct FLAGS_emulate_redis_responses; cbn; auto. }
  destruct (RedisDataType_eqb data_type REDIS_TYPE_NONE);
    apply write_then_ok; auto.
Qed.

Lemma ApplyDel_appended_once (db : DB) (kv : RedisKeyValuePB) (s : OpState) :
  appended_once s (ApplyDel db kv s).
Proof.
  unfold ApplyDel. unfold bind at 1. unfold GetValueType at 1.
  destruct (GetRedisValueType db kv (Some (batch s)) (-1)) as [data_type| |];
    try (left; reflexivity).
  destruct (_ && _); [left; reflexivity|].
  unfold bind at 1. unfold get_state at 1.
  unfold bind at 1. unfold lift at 1.
  destruct (deleted_values db kv data_type (batch s)) as [[[values num_keys]|]| |];
    try (left; reflexivity).
  apply write_then_ok; [reflexivity|].
  intros s1. unfold bind, with_response, modify, ret.
  destruct (EmulateRedisResponse (type kv)); cbn; auto.
Qed.

Lemma ApplySet_appended_once (db : DB) (kv : RedisKeyValuePB)
    (set_request : RedisSetRequestPB) (s : OpState) :
  appended_once s (ApplySet db kv set_request s).
Proof.
  assert (Hok : forall s1 : OpState,
             fst (with_response (set_code RedisStatusCode_OK) s1) = Ok tt
             /\ batch (snd (with_response (set_code RedisStatusCode_OK) s1)) = batch s1
             /\ code (response (snd (with_response (set_code RedisStatusCode_OK) s1)))
                = Some RedisStatusCode_OK)
    by (intros s1; cbn; auto).
  unfold ApplySet.
  destruct (subkey_size kv >? 0).
  - unfold bind at 1. unfold GetValueType at 1.
    destruct (GetRedisValueType db kv (Some (batch s)) (-1)) as [data_type| |];
      try (left; reflexivity).
    destruct (type kv) eqn:Htype; try (left; reflexivity).
    + (* HSET, HMSET *)
      destruct (_ && _); [left; reflexivity|].
      unfold bind at 1. unfold lift at 1.
      destruct (for_each _ _ _) as [kv_entries| |]; try (left; reflexivity).
      unfold bind at 1. cbn [RedisDataType_eqb]. unfold ret at 1.
      unfold bind at 1.
      assert (Hread : exists r s1,
                 (if (subkey_size kv =? 1) && EmulateRedisResponse REDIS_TYPE_HASH
                     && negb (expect_ok_response set_request)
                  then (type <- GetValueType db kv 0 ;;
                        with_response (SetOptionalInt4 type 0 1))%op
                  else ret tt) s = (r, s1) /\ batch s1 = batch s).
      { destruct (_ && _).
        - unfold bind, GetValueType, with_response, modify.
          destruct (GetRedisValueType db kv (Some (batch s)) 0);
            eexists; eexists; split; reflexivity.
        - eexists; eexists; split; reflexivity. }
      destruct Hread as [r [s1 [-> Hbatch]]].
      destruct r as [[]| |]; try (left; exact Hbatch).
      rewrite andb_false_r. apply write_then_ok; auto.
    + (* ZADD *)
      destruct (_ && _); [left; reflexivity|].
      unfold bind at 1. unfold lift at 1.
      destruct (for_each _ _ _) as [e| |]; try (left; reflexivity).
      unfold bind at 1.
      assert (Hcard : exists r,
                 (if new_elements_added e >? 0
                  then lift (GetCardinality db kv) else ret 0) s = (r, s))
        by (destruct (_ >? 0); eexists; reflexivity).
      destruct Hcard as [r ->].
      destruct r as [card| |]; try (left; reflexivity).
      assert (Htail : forall s1 : OpState,
                 let tail :=
                   (with_response (set_int_response (return_value e)) ;;;
                    with_response (set_code RedisStatusCode_OK))%op in
                 fst (tail s1) = Ok tt
                 /\ batch (snd (tail s1)) = batch s1
                 /\ code (response (snd (tail s1))) = Some RedisStatusCode_OK)
        by (intros s1; cbn; auto).
      destruct (0 <? object_num_keys (sorted_set_document e card))%nat.
      * unfold bind at 1. unfold bind at 1. unfold lift at 1.
        destruct (ConvertToCollection _ _) as [kv_entries| |];
          try (left; reflexivity).
        pose proof (write_then_ok
                      (if RedisDataType_eqb data_type REDIS_TYPE_NONE
                       then InsertSubDocument
                              (DocPathFromRedisKey (hash_code kv) (key kv))
                              kv_entries (set_ttl set_request)
                       else ExtendSubDocument
                              (DocPathFromRedisKey (hash_code kv) (key kv))
                              kv_entries (set_ttl set_request))
                      _ s s eq_refl Htail) as H.
        unfold bind at 1 in H.
        destruct (RedisDataType_eqb data_type REDIS_TYPE_NONE); exact H.
      * left. unfold bind, ret. destruct (Htail s) as [_ [Hb _]]. exact Hb.
    + (* TSADD *)
      destruct (_ && _); [left; reflexivity|].
      unfold bind at 1. unfold lift at 1.
      destruct (for_each _ _ _) as [kv_entries| |]; try (left; reflexivity).
      unfold bind at 1. cbn [RedisDataType_eqb]. unfold lift at 1.
      destruct (ConvertToCollection kRedisTS kv_entries) as [ts_entries| |];
        try (left; reflexivity).
      unfold bind at 1.
      assert (Hread : exists r s1,
                 (if (subkey_size kv =? 1) && EmulateRedisResponse REDIS_TYPE_TIMESERIES
                     && negb (expect_ok_response set_request)
                  then (type <- GetValueType db kv 0 ;;
                        with_response (SetOptionalInt4 type 0 1))%op
                  else ret tt) s = (r, s1) /\ batch s1 = batch s).
      { destruct (_ && _).
        - unfold bind, GetValueType, with_response, modify.
          destruct (GetRedisValueType db kv (Some (batch s)) 0);
            eexists; eexists; split; reflexivity.
        - eexists; eexists; split; reflexivity. }
      destruct Hread as [r [s1 [-> Hbatch]]].
      destruct r as [[]| |]; try (left; exact Hbatch).
      destruct (_ && _); apply write_then_ok; auto.
  - destruct (negb (RedisDataType_eqb (type kv) REDIS_TYPE_STRING));
      [left; reflexivity|].
    destruct (negb (value_size kv =? 1)); [left; reflexivity|].
    unfold bind at 1.
    assert (Hmode : exists r,
               (if negb (RedisWriteMode_eqb (mode set_request) REDIS_WRITEMODE_UPSERT)
                then
                  (data_type <- GetValueType db kv (-1) ;;
                   ret ((RedisWriteMode_eqb (mode set_request) REDIS_WRITEMODE_INSERT
                         && negb (RedisDataType_eqb data_type REDIS_TYPE_NONE))
                        || (RedisWriteMode_eqb (mode set_request) REDIS_WRITEMODE_UPDATE
                            && RedisDataType_eqb data_type REDIS_TYPE_NONE)))%op
                else ret false) s = (r, s)).
    { destruct (negb _).
      - unfold bind, GetValueType, ret.
        destruct (GetRedisValueType db kv (Some (batch s)) (-1));
          eexists; reflexivity.
      - eexists; reflexivity. }
    destruct Hmode as [r ->].
    destruct r as [rejected| |]; try (left; reflexivity).
    destruct rejected; [left; reflexivity|].
    unfold bind at 1. unfold lift at 1.
    destruct (value_at kv 0) as [value0| |]; try (left; reflexivity).
    apply write_then_ok; auto.
Qed.

(** X1.  Whatever the command, [Apply] appends at most one call to the write
    batch, and when it appends one it returns OK with the code OK: a
    command that fails, or that answers WRONG_TYPE or NOT_FOUND, leaves
    the write batch as it was. *)
Theorem Apply_appends_once (db : DB) (kv : RedisKeyValuePB)
    (request : RedisWriteRequestCase) (default_incr : Z) (s : OpState) :
  appended_once s (Apply db kv request default_incr s).
Proof.
  destruct request; cbn [Apply].
  - apply ApplySet_appended_once.
  - apply ApplyGetSet_appended_once.
  - apply ApplyAppend_appended_once.
  - apply ApplyDel_appended_once.
  - apply ApplySetRange_appended_once.
  - apply ApplyIncr_appended_once.
  - left. reflexivity.
  - left. reflexivity.
  - left. reflexivity.
  - apply ApplyAdd_appended_once.
  - left. reflexivity.
Qed.

(** *** GETSET, APPEND and SETRANGE *)

Lemma GetRedisValue_stored (db : DB) (kv : RedisKeyValuePB) (stored : option string) :
  has_key kv = true -> subkey kv = [] ->
  GetSubDocument db (key_only kv) false = Ok (stored_document stored) ->
  GetRedisValue db kv (-1)
  = Ok {| rv_type := match stored with
                     | Some _ => REDIS_TYPE_STRING
                     | None => REDIS_TYPE_NONE
                     end;
          rv_value := stored_string stored |}.
Proof.
  intros Hkey Hsub Hget.
  rewrite (RedisFacts.GetRedisValue_key_only db kv Hkey Hsub), Hget.
  destruct stored; reflexivity.
Qed.

Lemma value_at_single (kv : RedisKeyValuePB) (v : string) :
  value kv = [v] -> (value_size kv =? 1) = true /\ value_at kv 0 = Ok v.
Proof.
  intros H. unfold value_size, value_at. rewrite H. split; reflexivity.
Qed.

(** X2.  GETSET answers the stored string and writes the new value in its
    place; on a key with no stored value it answers NOT_FOUND and writes
    nothing. *)
Theorem ApplyGetSet_stored (db : DB) (kv : RedisKeyValuePB) (s : OpState)
    (v : string) (stored : option string) :
  has_key kv = true -> subkey kv = [] -> value kv = [v] ->
  GetSubDocument db (key_only kv) false = Ok (stored_document stored) ->
  batch_status (batch s)
    (SetPrimitive (DocPathFromRedisKey (hash_code kv) (key kv)) (string_value v))
  = Ok tt ->
  ApplyGetSet db kv s
  = (Ok tt,
     match stored with
     | Some old =>
         {| response :=
              set_string_response old (set_code RedisStatusCode_OK (response s));
            batch :=
              batch s ++ [SetPrimitive (DocPathFromRedisKey (hash_code kv) (key kv))
                            (string_value v)] |}
     | None =>
         {| response := set_code RedisStatusCode_NOT_FOUND (response s);
            batch := batch s |}
     end).
Proof.
  intros Hkey Hsub Hvalue Hget Hwrite.
  destruct (value_at_single kv v Hvalue) as [Hsize Hat].
  unfold ApplyGetSet, GetValue, bind, lift.
  rewrite (GetRedisValue_stored db kv stored Hkey Hsub Hget), Hsize.
  cbn [negb rv_type rv_value].
  destruct stored as [old|].
  - change (verify_type REDIS_TYPE_STRING REDIS_TYPE_STRING false s)
      with (Ok true, {| response := set_code RedisStatusCode_OK (response s);
                        batch := batch s |}).
    cbn [negb]. rewrite Hat.
    unfold with_response, modify, write. cbn [batch response stored_string].
    rewrite Hwrite. reflexivity.
  - reflexivity.
Qed.

Lemma length_append (a b : string) :
  String.length (a ++ b) = (String.length a + String.length b)%nat.
Proof. induction a as [|c a IH]; cbn; [reflexivity | now rewrite IH]. Qed.

(** X3.  APPEND writes the stored string followed by the value and answers
    the sum of their lengths; a key with no stored value counts as the
    empty string. *)
Theorem ApplyAppend_stored (db : DB) (kv : RedisKeyValuePB) (s : OpState)
    (v : string) (stored : option string) :
  has_key kv = true -> subkey kv = [] -> value kv = [v] ->
  GetSubDocument db (key_only kv) false = Ok (stored_document stored) ->
  batch_status (batch s)
    (SetPrimitive (DocPathFromRedisKey (hash_code kv) (key kv))
       (string_value (stored_string stored ++ v)))
  = Ok tt ->
  ApplyAppend db kv s
  = (Ok tt,
     {| response :=
          set_int_response
            (Z.of_nat (String.length (stored_string stored) + String.length v))
            (set_code RedisStatusCode_OK (response s));
        batch :=
          batch s ++ [SetPrimitive (DocPathFromRedisKey (hash_code kv) (key kv))
                        (string_value (stored_string stored ++ v))] |}).
Proof.
  intros Hkey Hsub Hvalue Hget Hwrite.
  destruct (value_at_single kv v Hvalue) as [Hsize Hat].
  unfold ApplyAppend, GetValue, bind, lift.
  rewrite Hsize. cbn [negb].
  rewrite (GetRedisValue_stored db kv stored Hkey Hsub Hget).
  cbn [rv_type rv_value].
  assert (Hverify : verify_type REDIS_TYPE_STRING
                      match stored with
                      | Some _ => REDIS_TYPE_STRING
                      | None => REDIS_TYPE_NONE
                      end true s
                    = (Ok true, {| response := set_code RedisStatusCode_OK (response s);
                                   batch := batch s |}))
    by (destruct stored; reflexivity).
  rewrite Hverify. cbn [negb]. rewrite Hat.
  unfold with_response, modify, write. cbn [batch response].
  rewrite Hwrite, length_append. reflexivity.
Qed.

Lemma length_nul_string (n : nat) : String.length (nul_string n) = n.
Proof. induction n as [|n IH]; cbn; [reflexivity | now rewrite IH]. Qed.

Lemma length_substring (n m : nat) (str : string) :
  String.length (substring n m str) = Nat.min m (String.length str - n).
Proof.
  revert n m. induction str as [|c str IH]; intros n m.
  - destruct n, m; reflexivity.
  - destruct n as [|n].
    + destruct m as [|m]; [reflexivity|]. cbn. rewrite IH. cbn.
      now rewrite Nat.sub_0_r.
    + cbn. apply IH.
Qed.

Lemma substring_prefix (k : nat) (a b : string) :
  (k <= String.length a)%nat -> substring 0 k (a ++ b) = substring 0 k a.
Proof.
  revert k. induction a as [|c a IH]; intros k Hk; cbn in Hk.
  - assert (k = O) by lia. subst k. destruct b; reflexivity.
  - destruct k as [|k]; [reflexivity|]. cbn. rewrite IH; [reflexivity | lia].
Qed.

Lemma substring_all (a b : string) :
  substring 0 (String.length a) (a ++ b) = a.
Proof.
  induction a as [|c a IH]; cbn.
  - destruct b; reflexivity.
  - now rewrite IH.
Qed.

Lemma substring_skip (a b : string) (m : nat) :
  substring (String.length a) m (a ++ b) = substring 0 m b.
Proof. induction a as [|c a IH]; cbn; [reflexivity | exact IH]. Qed.

Lemma substring_of_prefix (k p : nat) (str : string) :
  (k <= p)%nat -> substring 0 k (substring 0 p str) = substring 0 k str.
Proof.
  revert k p. induction str as [|c str IH]; intros k p Hk.
  - destruct p; reflexivity.
  - destruct p as [|p].
    + assert (k = O) by lia. subst k. reflexivity.
    + destruct k as [|k]; [reflexivity|]. cbn. rewrite IH; [reflexivity | lia].
Qed.

(** [string_replace] at a position within the string. *)
Lemma string_replace_spec (str : string) (pos : nat) (v : string) :
  (pos <= String.length str)%nat ->
  let written := string_replace str pos (String.length v) v in
  String.length written = Nat.max (String.length str) (pos + String.length v)
  /\ substring pos (String.length v) written = v
  /\ substring 0 pos written = substring 0 pos str.
Proof.
  intros Hpos written. subst written. unfold string_replace.
  assert (Hhead : String.length (substring 0 pos str) = pos)
    by (rewrite length_substring; lia).
  split; [|split].
  - rewrite !length_append, !length_substring. lia.
  - rewrite <- Hhead at 1. rewrite substring_skip. apply substring_all.
  - rewrite substring_prefix by lia.
    apply substring_of_prefix. lia.
Qed.

(** X4.  SETRANGE at an offset that is not negative: the string written has
    the value at the offset and the stored bytes before it, it is as long
    as the longer of the stored string and the end of the value, and its
    length is answered.  A key with no stored value counts as the empty
    string. *)
Theorem ApplySetRange_stored (db : DB) (kv : RedisKeyValuePB) (offset : Z)
    (s : OpState) (v : string) (stored : option string) :
  has_key kv = true -> subkey kv = [] -> value kv = [v] ->
  GetSubDocument db (key_only kv) false = Ok (stored_document stored) ->
  0 <= offset ->
  (forall op, batch_status (batch s) op = Ok tt) ->
  let old := stored_string stored in
  let kept := Nat.min (Z.to_nat offset) (String.length old) in
  exists written,
    ApplySetRange db kv offset s
    = (Ok tt,
       {| response :=
            set_int_response (Z.of_nat (String.length written))
              (set_code RedisStatusCode_OK (response s));
          batch :=
            batch s ++ [SetPrimitive (DocPathFromRedisKey (hash_code kv) (key kv))
                          (string_value written)] |})
    /\ String.length written
       = Nat.max (String.length old) (Z.to_nat offset + String.length v)
    /\ substring (Z.to_nat offset) (String.length v) written = v
    /\ substring 0 kept written = substring 0 kept old.
Proof.
  intros Hkey Hsub Hvalue Hget Hoffset Hwrite old kept.
  destruct (value_at_single kv v Hvalue) as [Hsize Hat].
  set (resized := if offset >? Z.of_nat (String.length old)
                  then string_resize old (Z.to_nat offset) else old).
  exists (string_replace resized (Z.to_nat offset) (String.length v) v).
  assert (Hresized : (Z.to_nat offset <= String.length resized)%nat
                     /\ String.length resized
                        = Nat.max (String.length old) (Z.to_nat offset)
                     /\ substring 0 kept resized = substring 0 kept old).
  { subst resized. destruct (offset >? Z.of_nat (String.length old)) eqn:Hgt.
    - apply Z.gtb_lt in Hgt. unfold string_resize.
      rewrite length_append, length_nul_string.
      split; [lia|]. split; [lia|].
      apply substring_prefix. subst kept. lia.
    - rewrite Z.gtb_ltb in Hgt. apply Z.ltb_ge in Hgt.
      split; [lia|]. split; [lia|]. reflexivity. }
  destruct Hresized as [Hpos [Hlen Hkept]].
  destruct (string_replace_spec resized (Z.to_nat offset) v Hpos)
    as [Hlength [Hat_offset Hprefix]].
  split; [|split; [|split]].
  - unfold ApplySetRange, GetValue, bind, lift.
    rewrite Hsize. cbn [negb].
    rewrite (GetRedisValue_stored db kv stored Hkey Hsub Hget).
    cbn [rv_type rv_value].
    assert (Hverify : verify_type REDIS_TYPE_STRING
                        match stored with
                        | Some _ => REDIS_TYPE_STRING
                        | None => REDIS_TYPE_NONE
                        end true s
                      = (Ok true,
                         {| response := set_code RedisStatusCode_OK (response s);
                            batch := batch s |}))
      by (destruct stored; reflexivity).
    rewrite Hverify. cbn [negb].
    assert (Hneg : (offset <? 0) = false) by (apply Z.ltb_ge; lia).
    rewrite Hneg, Hat.
    unfold with_response, modify, write. cbn [batch response].
    rewrite Hwrite. reflexivity.
  - rewrite Hlength, Hlen. lia.
  - exact Hat_offset.
  - rewrite <- Hkept.
    rewrite <- (substring_of_prefix kept (Z.to_nat offset) resized) by (subst kept; lia).
    rewrite <- Hprefix.
    symmetry. apply substring_of_prefix. subst kept. lia.
Qed.

(** *** SET of a string and HSET *)

(** X5.  SET of a string: the value is written with the time to live of the
    request, unless the write mode refuses the key, which is answered
    NOT_FOUND with nothing written.  An UPSERT looks up nothing. *)
Theorem ApplySet_string_modes (db : DB) (kv : RedisKeyValuePB)
    (set_request : RedisSetRequestPB) (s : OpState) (v : string)
    (data_type : RedisDataType) :
  subkey kv = [] -> type kv = REDIS_TYPE_STRING -> value kv = [v] ->
  (mode set_request <> REDIS_WRITEMODE_UPSERT ->
   GetRedisValueType db kv (Some (batch s)) (-1) = Ok data_type) ->
  batch_status (batch s)
    (SetPrimitive (DocPathFromRedisKey (hash_code kv) (key kv))
       {| primitive_value := PVString v; value_ttl := set_ttl set_request |})
  = Ok tt ->
  ApplySet db kv set_request s
  = (Ok tt,
     if mode_refuses (mode set_request) data_type
     then {| response := set_code RedisStatusCode_NOT_FOUND (response s);
             batch := batch s |}
     else {| response := set_code RedisStatusCode_OK (response s);
             batch :=
               batch s ++ [SetPrimitive (DocPathFromRedisKey (hash_code kv) (key kv))
                             {| primitive_value := PVString v;
                                value_ttl := set_ttl set_request |}] |}).
Proof.
  intros Hsub Htype Hvalue Hlookup Hwrite.
  destruct (value_at_single kv v Hvalue) as [Hsize Hat].
  unfold ApplySet, subkey_size. rewrite Hsub, Htype, Hsize. cbn [List.length negb].
  change (Z.of_nat 0 >? 0) with false. cbn [RedisDataType_eqb negb].
  unfold bind at 1.
  assert (Hwritten :
            (value0 <- lift (value_at kv 0) ;;
             write (SetPrimitive (DocPathFromRedisKey (hash_code kv) (key kv))
                      {| primitive_value := PVString value0;
                         value_ttl := set_ttl set_request |}) ;;;
             with_response (set_code RedisStatusCode_OK))%op s
            = (Ok tt,
               {| response := set_code RedisStatusCode_OK (response s);
                  batch :=
                    batch s ++ [SetPrimitive (DocPathFromRedisKey (hash_code kv) (key kv))
                                  {| primitive_value := PVString v;
                                     value_ttl := set_ttl set_request |}] |})).
  { unfold bind, lift, write. rewrite Hat, Hwrite. reflexivity. }
  destruct (mode set_request) eqn:Hmode; cbn [RedisWriteMode_eqb negb mode_refuses].
  - unfold ret at 1. exact Hwritten.
  - unfold bind at 1. unfold GetValueType at 1.
    rewrite Hlookup by discriminate. unfold ret at 1.
    cbn [andb orb]. rewrite orb_false_r.
    destruct (negb (RedisDataType_eqb data_type REDIS_TYPE_NONE));
      [reflexivity | exact Hwritten].
  - unfold bind at 1. unfold GetValueType at 1.
    rewrite Hlookup by discriminate. unfold ret at 1.
    cbn [andb orb].
    destruct (RedisDataType_eqb data_type REDIS_TYPE_NONE);
      [reflexivity | exact Hwritten].
Qed.

(** X6.  HSET of one field, answered as Redis does: 1 when the field is new
    and 0 when it held a value; the field is written by extending the
    hash.  A key that holds another type is answered WRONG_TYPE with
    nothing written. *)
Theorem ApplySet_hset_response (db : DB) (kv : RedisKeyValuePB)
    (set_request : RedisSetRequestPB) (s : OpState) (field v : string)
    (data_type field_type : RedisDataType) :
  type kv = REDIS_TYPE_HASH ->
  subkey kv = [kStringSubkey field] -> value kv = [v] ->
  FLAGS_emulate_redis_responses = true ->
  expect_ok_response set_request = false ->
  GetRedisValueType db kv (Some (batch s)) (-1) = Ok data_type ->
  GetRedisValueType db kv (Some (batch s)) 0 = Ok field_type ->
  (forall op, batch_status (batch s) op = Ok tt) ->
  ApplySet db kv set_request s
  = (Ok tt,
     if RedisDataType_eqb data_type REDIS_TYPE_HASH
        || RedisDataType_eqb data_type REDIS_TYPE_NONE
     then {| response :=
               set_code RedisStatusCode_OK
                 (set_int_response
                    (if RedisDataType_eqb field_type REDIS_TYPE_NONE then 1 else 0)
                    (response s));
             batch :=
               batch s
               ++ [ExtendSubDocument (DocPathFromRedisKey (hash_code kv) (key kv))
                     (Container kObject [(PVString field, Primitive (PVString v))])
                     (set_ttl set_request)] |}
     else {| response := set_code RedisStatusCode_WRONG_TYPE (response s);
             batch := batch s |}).
Proof.
  intros Htype Hsub Hvalue Hflag Hexpect Hdata Hfield Hwrite.
  unfold ApplySet, subkey_size, subkey_indices, EmulateRedisResponse.
  rewrite Hsub, Htype, Hflag, Hexpect. cbn [List.length seq map].
  change (Z.of_nat 1 >? 0) with true. change (Z.of_nat 1 =? 1) with true.
  cbn [RedisDataType_eqb negb andb].
  unfold bind at 1. unfold GetValueType at 1. rewrite Hdata.
  destruct data_type; cbn [RedisDataType_eqb negb andb orb]; try reflexivity.
  all: unfold bind at 1; unfold lift at 1.
  all: unfold for_each, hash_entry, subkey_at, value_at; rewrite Hsub, Hvalue, Htype.
  all: cbn [Z.of_nat Z.ltb Z.compare Z.to_nat nth_error rbind
            PrimitiveValueFromSubKeyStrict PrimitiveValueFromSubKey
            has_string_subkey negb SetChild SubDocument_default assoc_set].
  all: unfold bind, ret, GetValueType, with_response, modify, write;
    cbn [batch response]; rewrite Hfield, Hwrite; reflexivity.
Qed.

(** *** SADD and DEL *)

Lemma subkey_at_nth (kv : RedisKeyValuePB) (a : nat) (sk : RedisKeyValueSubKeyPB)
    (rest : list RedisKeyValueSubKeyPB) :
  skipn a (subkey kv) = sk :: rest ->
  subkey_at kv (Z.of_nat a) = Ok sk /\ skipn (S a) (subkey kv) = rest.
Proof.
  unfold subkey_at.
  assert (Hneg : (Z.of_nat a <? 0) = false) by (apply Z.ltb_ge; lia).
  rewrite Hneg, Nat2Z.id.
  generalize (subkey kv). clear. induction a as [|a IH]; intros l H.
  - destruct l; cbn in *; [discriminate|]. injection H as -> ->. auto.
  - destruct l; cbn in *; [discriminate|]. apply IH. exact H.
Qed.

Lemma skipn_all_nil {A} (l : list A) (a : nat) :
  (List.length l <= a)%nat -> skipn a l = [].
Proof. intros H. apply skipn_all2. exact H. Qed.

(** The loop of [ApplyAdd] from the sub-key of index [a] on. *)
Lemma add_loop (db : DB) (kv : RedisKeyValuePB) (b : DocWriteBatch)
    (n a : nat) (found : Z) (d : SubDocument) :
  (a + n = List.length (subkey kv))%nat ->
  (FLAGS_emulate_redis_responses = true ->
   forall i, In i (subkey_indices kv) ->
             exists t, GetRedisValueType db kv (Some b) i = Ok t) ->
  for_each (map Z.of_nat (seq a n)) (add_entry db kv b) (found, d)
  = Ok ((if FLAGS_emulate_redis_responses
         then found
              + Z.of_nat (List.length
                            (filter (fun i =>
                                       match GetRedisValueType db kv (Some b) i with
                                       | Ok type => is_stored type
                                       | _ => false
                                       end) (map Z.of_nat (seq a n))))
         else found),
        children_of (skipn a (subkey kv)) (Primitive (PVType kNull)) d).
Proof.
  intros Hlen Hreads. revert a found d Hlen.
  induction n as [|n IH]; intros a found d Hlen.
  - cbn [seq map for_each filter List.length].
    rewrite skipn_all_nil by lia. cbn.
    destruct FLAGS_emulate_redis_responses; [rewrite Z.add_0_r|]; reflexivity.
  - cbn [seq map for_each filter].
    destruct (skipn a (subkey kv)) as [|sk rest] eqn:Hskip.
    { exfalso. assert (H : List.length (skipn a (subkey kv)) = O)
        by (rewrite Hskip; reflexivity).
      rewrite length_skipn in H. lia. }
    destruct (subkey_at_nth kv a sk rest Hskip) as [Hat Hrest].
    unfold add_entry at 1. cbn [fst snd].
    destruct FLAGS_emulate_redis_responses eqn:Hflag.
    + destruct (Hreads eq_refl (Z.of_nat a)) as [t Ht].
      { unfold subkey_indices. apply in_map, in_seq. lia. }
      rewrite Ht. cbn [rbind]. rewrite Hat. cbn [rbind].
      rewrite (IH (S a)) by lia. rewrite Hrest. cbn [children_of fold_left].
      unfold is_stored at 2.
      destruct (negb (RedisDataType_eqb t REDIS_TYPE_NONE)); cbn [List.length];
        f_equal; f_equal; lia.
    + cbn [rbind]. rewrite Hat. cbn [rbind].
      rewrite (IH (S a)) by lia. rewrite Hrest. reflexivity.
Qed.

Lemma children_of_container (subkeys : list RedisKeyValueSubKeyPB)
    (child : SubDocument) (kids : list (PrimitiveValue * SubDocument)) :
  exists kids', children_of subkeys child (Container kObject kids)
                = Container kObject kids'.
Proof.
  unfold children_of.
  revert kids. induction subkeys as [|sk subkeys IH]; intros kids; cbn [fold_left].
  - eauto.
  - apply IH.
Qed.

(** The children of [children_of]: one under the string of each of the
    sub-keys, besides those that were there. *)
Lemma children_of_child (subkeys : list RedisKeyValueSubKeyPB)
    (child d : SubDocument) (k : PrimitiveValue) :
  GetChild k (children_of subkeys child d)
  = if existsb (fun sk => if PrimitiveValue_eq_dec k (PVString (string_subkey sk))
                          then true else false) subkeys
    then Some child
    else GetChild k d.
Proof.
  unfold children_of.
  revert d. induction subkeys as [|sk subkeys IH]; intros d; cbn [fold_left existsb].
  - reflexivity.
  - rewrite IH, RedisFacts.GetChild_SetChild.
    destruct (existsb _ subkeys); [now rewrite orb_true_r|].
    rewrite orb_false_r.
    destruct (PrimitiveValue_eq_dec k (PVString (string_subkey sk))); reflexivity.
Qed.

(** X7.  SADD on a key that holds a set, or nothing: the set written has the
    members of the request and nothing else, it is inserted when the key
    held nothing and merged otherwise, and the number answered is that
    of the members that were not stored yet. *)
Theorem ApplyAdd_members (db : DB) (kv : RedisKeyValuePB) (s : OpState)
    (data_type : RedisDataType) :
  GetRedisValueType db kv (Some (batch s)) (-1) = Ok data_type ->
  data_type = REDIS_TYPE_SET \/ data_type = REDIS_TYPE_NONE ->
  subkey kv <> [] ->
  (FLAGS_emulate_redis_responses = true ->
   forall i, In i (subkey_indices kv) ->
             exists t, GetRedisValueType db kv (Some (batch s)) i = Ok t) ->
  (forall op, batch_status (batch s) op = Ok tt) ->
  exists members,
    ApplyAdd db kv s
    = (Ok tt,
       {| response :=
            (if FLAGS_emulate_redis_responses
             then set_int_response
                    (subkey_size kv
                     - Z.of_nat (List.length
                                   (subkeys_where db kv (batch s) is_stored)))
             else fun r => r)
              (set_code RedisStatusCode_OK (response s));
          batch :=
            batch s
            ++ [(if RedisDataType_eqb data_type REDIS_TYPE_NONE
                 then InsertSubDocument else ExtendSubDocument)
                  (DocPathFromRedisKey (hash_code kv) (key kv))
                  (Container kRedisSet members) None] |})
    /\ forall k,
         assoc_get k members
         = if existsb (fun sk => if PrimitiveValue_eq_dec k (PVString (string_subkey sk))
                                 then true else false) (subkey kv)
           then Some (Primitive (PVType kNull))
           else None.
Proof.
  intros Hdata Htype Hsub Hreads Hwrite.
  destruct (children_of_container (subkey kv) (Primitive (PVType kNull)) [])
    as [members Hmembers].
  exists members. split.
  - unfold ApplyAdd. unfold bind at 1. unfold GetValueType at 1. rewrite Hdata.
    assert (Hpass : negb (RedisDataType_eqb data_type REDIS_TYPE_SET)
                    && negb (RedisDataType_eqb data_type REDIS_TYPE_NONE) = false)
      by (destruct Htype as [-> | ->]; reflexivity).
    rewrite Hpass.
    assert (Hsize : (subkey_size kv =? 0) = false).
    { unfold subkey_size. destruct (subkey kv); [congruence|]. reflexivity. }
    rewrite Hsize.
    unfold bind at 1. unfold get_state at 1.
    unfold bind at 1. unfold lift at 1.
    unfold subkey_indices at 1.
    rewrite (add_loop db kv (batch s) (List.length (subkey kv)) 0 0
               SubDocument_default eq_refl Hreads).
    cbn [skipn snd fst]. unfold SubDocument_default. rewrite Hmembers.
    unfold bind at 1. unfold lift at 1. cbn [ConvertToCollection].
    unfold subkeys_where, subkey_indices.
    destruct Htype as [-> | ->]; cbn [RedisDataType_eqb].
    all: unfold bind, write, with_response, modify, ret; cbn [batch response].
    all: rewrite Hwrite; cbn [batch response].
    all: destruct FLAGS_emulate_redis_responses; reflexivity.
  - intros k.
    pose proof (children_of_child (subkey kv) (Primitive (PVType kNull))
                  (Container kObject []) k) as H.
    rewrite Hmembers in H. exact H.
Qed.

(** X8.  DEL of a key (a request without type): whatever the key holds, a
    tombstone is written over it and the code is OK; the number answered
    is 1 when the key held a value and 0 when it held none. *)
Theorem ApplyDel_key (db : DB) (kv : RedisKeyValuePB) (s : OpState)
    (data_type : RedisDataType) :
  type kv = REDIS_TYPE_NONE ->
  GetRedisValueType db kv (Some (batch s)) (-1) = Ok data_type ->
  batch_status (batch s)
    (ExtendSubDocument (DocPathFromRedisKey (hash_code kv) (key kv)) tombstone None)
  = Ok tt ->
  ApplyDel db kv s
  = (Ok tt,
     {| response :=
          (if FLAGS_emulate_redis_responses
           then set_int_response
                  (if RedisDataType_eqb data_type REDIS_TYPE_NONE then 0 else 1)
           else fun r => r)
            (set_code RedisStatusCode_OK (response s));
        batch :=
          batch s
          ++ [ExtendSubDocument (DocPathFromRedisKey (hash_code kv) (key kv))
                tombstone None] |}).
Proof.
  intros Htype Hdata Hwrite.
  unfold ApplyDel. unfold bind at 1. unfold GetValueType at 1.
  rewrite Hdata, Htype. cbn [RedisDataType_eqb negb]. rewrite andb_false_r.
  unfold bind at 1. unfold get_state at 1.
  unfold bind at 1. unfold lift at 1.
  unfold deleted_values. rewrite Htype.
  unfold bind, write, with_response, modify, ret, EmulateRedisResponse.
  cbn [batch response RedisDataType_eqb negb]. rewrite Hwrite, andb_true_r.
  destruct FLAGS_emulate_redis_responses; reflexivity.
Qed.

Lemma children_of_app (l1 l2 : list RedisKeyValueSubKeyPB) (child d : SubDocument) :
  children_of (l1 ++ l2) child d = children_of l2 child (children_of l1 child d).
Proof. unfold children_of. apply fold_left_app. Qed.

(** The loop of the HDEL / SREM branch of [ApplyDel] from the sub-key of
    index [a] on. *)
Lemma del_loop (db : DB) (kv : RedisKeyValuePB) (b : DocWriteBatch)
    (n a : nat) (num_keys : Z) (d : SubDocument) :
  (a + n = List.length (subkey kv))%nat ->
  (forall i, In i (subkey_indices kv) ->
             exists t, GetRedisValueType db kv (Some b) i = Ok t) ->
  let stored_as_string i :=
    match GetRedisValueType db kv (Some b) i with
    | Ok type => is_string type
    | _ => false
    end in
  for_each (map Z.of_nat (seq a n)) (del_entry db kv b) (num_keys, d)
  = Ok (num_keys - Z.of_nat n
        + Z.of_nat (List.length (filter stored_as_string (map Z.of_nat (seq a n)))),
        children_of (subkeys_at kv (filter stored_as_string (map Z.of_nat (seq a n))))
          tombstone d).
Proof.
  intros Hlen Hreads stored_as_string. revert a num_keys d Hlen.
  induction n as [|n IH]; intros a num_keys d Hlen.
  - cbn. f_equal. f_equal. lia.
  - cbn [seq map for_each filter].
    destruct (skipn a (subkey kv)) as [|sk rest] eqn:Hskip.
    { exfalso. assert (H : List.length (skipn a (subkey kv)) = O)
        by (rewrite Hskip; reflexivity).
      rewrite length_skipn in H. lia. }
    destruct (subkey_at_nth kv a sk rest Hskip) as [Hat _].
    destruct (Hreads (Z.of_nat a)) as [t Ht].
    { unfold subkey_indices. apply in_map, in_seq. lia. }
    unfold del_entry at 1. subst stored_as_string. cbn beta.
    rewrite Ht. cbn [rbind fst snd].
    change (RedisDataType_eqb t REDIS_TYPE_STRING) with (is_string t).
    destruct (is_string t).
    + rewrite Hat. cbn [rbind].
      rewrite (IH (S a)) by lia.
      change (subkeys_at kv (Z.of_nat a :: ?l))
        with (match subkey_at kv (Z.of_nat a) with
              | Ok sk => [sk]
              | _ => []
              end ++ subkeys_at kv l).
      rewrite Hat. cbn [List.length app children_of fold_left].
      f_equal. f_equal. lia.
    + cbn [rbind]. rewrite (IH (S a)) by lia. f_equal. f_equal. lia.
Qed.

(** X9.  HDEL and SREM on a key that holds the type of the request, or
    nothing: with [emulate_redis_responses], the fields that are stored
    as strings get a tombstone each, and their number is answered;
    without it, the document written has no child, whatever is stored,
    and no number is answered. *)
Theorem ApplyDel_fields (db : DB) (kv : RedisKeyValuePB) (s : OpState)
    (data_type : RedisDataType) :
  type kv = REDIS_TYPE_HASH \/ type kv = REDIS_TYPE_SET ->
  GetRedisValueType db kv (Some (batch s)) (-1) = Ok data_type ->
  data_type = REDIS_TYPE_NONE \/ data_type = type kv ->
  (forall i, In i (subkey_indices kv) ->
             exists t, GetRedisValueType db kv (Some (batch s)) i = Ok t) ->
  (forall op, batch_status (batch s) op = Ok tt) ->
  let deleted := subkeys_where db kv (batch s) is_string in
  ApplyDel db kv s
  = (Ok tt,
     if FLAGS_emulate_redis_responses
     then {| response :=
               set_int_response (Z.of_nat (List.length deleted))
                 (set_code RedisStatusCode_OK (response s));
             batch :=
               batch s
               ++ [ExtendSubDocument (DocPathFromRedisKey (hash_code kv) (key kv))
                     (children_of (subkeys_at kv deleted) tombstone SubDocument_default)
                     None] |}
     else {| response := set_code RedisStatusCode_OK (response s);
             batch :=
               batch s
               ++ [ExtendSubDocument (DocPathFromRedisKey (hash_code kv) (key kv))
                     SubDocument_default None] |}).
Proof.
  intros Htype Hdata Hstored Hreads Hwrite deleted.
  unfold ApplyDel. unfold bind at 1. unfold GetValueType at 1. rewrite Hdata.
  assert (Hpass : negb (RedisDataType_eqb data_type REDIS_TYPE_NONE)
                  && negb (RedisDataType_eqb data_type (type kv))
                  && negb (RedisDataType_eqb (type kv) REDIS_TYPE_NONE) = false).
  { destruct Hstored as [-> | ->]; [reflexivity|].
    destruct (type kv); reflexivity. }
  rewrite Hpass.
  unfold bind at 1. unfold get_state at 1.
  unfold bind at 1. unfold lift at 1.
  assert (Hemulate : EmulateRedisResponse (type kv) = FLAGS_emulate_redis_responses).
  { unfold EmulateRedisResponse.
    destruct Htype as [-> | ->]; cbn; apply andb_true_r. }
  assert (Hvalues :
            deleted_values db kv data_type (batch s)
            = Ok (Some (if FLAGS_emulate_redis_responses
                        then (children_of (subkeys_at kv deleted) tombstone
                                SubDocument_default,
                              Z.of_nat (List.length deleted))
                        else (SubDocument_default, subkey_size kv)))).
  { unfold deleted_values. rewrite Hemulate.
    destruct FLAGS_emulate_redis_responses.
    - pose proof (del_loop db kv (batch s) (List.length (subkey kv)) 0
                    (subkey_size kv) SubDocument_default eq_refl Hreads) as Hloop.
      cbv zeta in Hloop.
      destruct Htype as [Ht | Ht]; rewrite Ht; cbv iota;
        unfold subkey_indices; rewrite Hloop; cbn [rbind fst snd];
        unfold deleted, subkeys_where, subkey_indices, subkey_size;
        repeat f_equal; lia.
    - destruct Htype as [Ht | Ht]; rewrite Ht; reflexivity. }
  rewrite Hvalues, Hemulate.
  destruct FLAGS_emulate_redis_responses.
  all: unfold bind, write, with_response, modify, ret; cbn [batch response].
  all: rewrite Hwrite; reflexivity.
Qed.

(** *** GETRANGE and STRLEN *)

Lemma to_int32_small (z : Z) : - 2 ^ 31 <= z < 2 ^ 31 -> to_int32 z = z.
Proof. intros H. unfold to_int32. rewrite Z.mod_small; lia. Qed.

Lemma ApplyIndex_cases (index len : Z) :
  0 <= len < 2 ^ 31 -> - 2 ^ 31 <= index < 2 ^ 31 ->
  (- len <= index < len -> ApplyIndex index len = index mod len)
  /\ (index < - len \/ len <= index -> ApplyIndex index len = -1).
Proof.
  intros Hlen Hindex. unfold ApplyIndex.
  destruct (index <? 0) eqn:Hneg.
  - apply Z.ltb_lt in Hneg. rewrite to_int32_small by lia.
    destruct ((index + len <? 0) || (index + len >=? len)) eqn:Hout.
    + split; [|reflexivity].
      intros Hin. exfalso. apply orb_true_iff in Hout.
      rewrite Z.ltb_lt, Z.geb_le in Hout. lia.
    + apply orb_false_iff in Hout. rewrite Z.ltb_ge, Z.geb_leb, Z.leb_gt in Hout.
      split; [|lia].
      intros Hin. apply (Z.mod_unique index len (-1)); lia.
  - apply Z.ltb_ge in Hneg.
    destruct ((index <? 0) || (index >=? len)) eqn:Hout.
    + split; [|reflexivity].
      intros Hin. exfalso. apply orb_true_iff in Hout.
      rewrite Z.ltb_lt, Z.geb_le in Hout. lia.
    + apply orb_false_iff in Hout. rewrite Z.ltb_ge, Z.geb_leb, Z.leb_gt in Hout.
      split; [|lia].
      intros Hin. symmetry. apply Z.mod_small. lia.
Qed.

(** X10.  [ApplyIndex] on a length and an index that are [int32] values: an
    index from [-len] to [len - 1] is counted from the end when it is
    negative, and any other index gives -1; the result is -1 or an index
    of the string. *)
Theorem ApplyIndex_range (index len : Z) :
  0 <= len < 2 ^ 31 -> - 2 ^ 31 <= index < 2 ^ 31 ->
  (- len <= index < len -> ApplyIndex index len = index mod len)
  /\ (index < - len \/ len <= index -> ApplyIndex index len = -1)
  /\ (ApplyIndex index len = -1 \/ 0 <= ApplyIndex index len < len).
Proof.
  intros Hlen Hindex.
  destruct (ApplyIndex_cases index len Hlen Hindex) as [Hinside Houtside].
  split; [exact Hinside|]. split; [exact Houtside|].
  assert (Hcases : index < - len \/ len <= index \/ - len <= index < len) by lia.
  destruct Hcases as [Hlow | [Hhigh | Hin]].
  - left. apply Houtside. left. exact Hlow.
  - left. apply Houtside. right. exact Hhigh.
  - right. rewrite (Hinside Hin). apply Z.mod_pos_bound. lia.
Qed.

Lemma set_code_twice (c c' : RedisStatusCode) (r : RedisResponsePB) :
  set_code c (set_code c' r) = set_code c r.
Proof. reflexivity. Qed.

(** X11.  GETRANGE on a stored string, the two indices counted from the end
    when negative: when both are indices of the string and the first is
    not after the second, the bytes from the first to the second are
    answered, as many as there are positions between them; in every
    other case, and so always on the empty string, the answer is
    INDEX_OUT_OF_BOUNDS and no string is returned. *)
Theorem ExecuteGetRange_substring (db : DB) (kv : RedisKeyValuePB)
    (range_start range_end : Z) (r : RedisResponsePB) (str : string) :
  has_key kv = true -> subkey kv = [] ->
  GetSubDocument db (key_only kv) false = Ok (Some (Primitive (PVString str))) ->
  Z.of_nat (String.length str) < 2 ^ 31 ->
  - 2 ^ 31 <= range_start < 2 ^ 31 -> - 2 ^ 31 <= range_end < 2 ^ 31 ->
  let len := Z.of_nat (String.length str) in
  let first := range_start mod len in
  let last := range_end mod len in
  let answered := substring (Z.to_nat first) (Z.to_nat (last - first + 1)) str in
  (- len <= range_start < len -> - len <= range_end < len -> first <= last ->
   ExecuteGetRange db kv range_start range_end r
   = (Ok tt, set_string_response answered (set_code RedisStatusCode_OK r))
   /\ Z.of_nat (String.length answered) = last - first + 1)
  /\ (~ (- len <= range_start < len /\ - len <= range_end < len /\ first <= last) ->
      ExecuteGetRange db kv range_start range_end r
      = (Ok tt, set_code RedisStatusCode_INDEX_OUT_OF_BOUNDS r)).
Proof.
  intros Hkey Hsub Hget Hlen Hstart Hend len first last answered.
  assert (Hlen' : 0 <= len < 2 ^ 31) by (subst len; lia).
  destruct (ApplyIndex_cases range_start len Hlen' Hstart) as [Hs_in Hs_out].
  destruct (ApplyIndex_cases range_end len Hlen' Hend) as [He_in He_out].
  assert (Hrun :
            ExecuteGetRange db kv range_start range_end r
            = let start := ApplyIndex range_start len in
              let end_ := ApplyIndex range_end len in
              if start =? -1
              then (Ok tt, set_code RedisStatusCode_INDEX_OUT_OF_BOUNDS r)
              else if (end_ =? -1) || (end_ <? start)
                   then (Ok tt, set_code RedisStatusCode_INDEX_OUT_OF_BOUNDS r)
                   else (Ok tt,
                         set_string_response
                           (substring (Z.to_nat start) (Z.to_nat (end_ - start + 1)) str)
                           (set_code RedisStatusCode_OK r))).
  { unfold ExecuteGetRange, bind, lift.
    rewrite (RedisFacts.GetRedisValue_key_only db kv Hkey Hsub), Hget.
    cbn [rbind IsPrimitive negb GetString rv_type rv_value].
    change (verify_response_type REDIS_TYPE_STRING REDIS_TYPE_STRING false r)
      with (Ok true, set_code RedisStatusCode_OK r).
    cbn [negb]. rewrite to_int32_small by lia. fold len. cbv zeta.
    destruct (ApplyIndex range_start len =? -1); [reflexivity|].
    destruct ((ApplyIndex range_end len =? -1)
              || (ApplyIndex range_end len <? ApplyIndex range_start len));
      reflexivity. }
  rewrite Hrun. cbv zeta. split.
  - intros Hs_range He_range Horder.
    rewrite (Hs_in Hs_range), (He_in He_range). fold first last.
    assert (Hfirst : 0 <= first < len) by (subst first; apply Z.mod_pos_bound; lia).
    assert (Hlast : 0 <= last < len) by (subst last; apply Z.mod_pos_bound; lia).
    assert (H1 : (first =? -1) = false) by (apply Z.eqb_neq; lia).
    assert (H2 : (last =? -1) || (last <? first) = false).
    { apply orb_false_iff. split; [apply Z.eqb_neq | apply Z.ltb_ge]; lia. }
    rewrite H1, H2. split; [reflexivity|].
    subst answered. rewrite length_substring. subst len. lia.
  - intros Hnot.
    destruct (ApplyIndex range_start len =? -1) eqn:H1; [reflexivity|].
    destruct ((ApplyIndex range_end len =? -1)
              || (ApplyIndex range_end len <? ApplyIndex range_start len)) eqn:H2;
      [reflexivity|].
    exfalso. apply Hnot.
    apply Z.eqb_neq in H1. apply orb_false_iff in H2.
    rewrite Z.eqb_neq, Z.ltb_ge in H2.
    assert (Hs_range : - len <= range_start < len) by lia.
    assert (He_range : - len <= range_end < len) by lia.
    rewrite (Hs_in Hs_range), (He_in He_range) in H2.
    subst first last. repeat split; lia.
Qed.

(** X12.  STRLEN of a key: the length of the stored string with the code OK, 0
    with the code OK when nothing is stored, and WRONG_TYPE without a
    number when a collection is stored. *)
Theorem ExecuteStrLen_response (db : DB) (kv : RedisKeyValuePB)
    (r : RedisResponsePB) (found : option SubDocument) :
  has_key kv = true -> subkey kv = [] ->
  GetSubDocument db (key_only kv) false = Ok found ->
  match found with
  | None =>
      ExecuteStrLen db kv r
      = (Ok tt, set_int_response 0 (set_code RedisStatusCode_OK r))
  | Some (Primitive (PVString str)) =>
      ExecuteStrLen db kv r
      = (Ok tt, set_int_response (Z.of_nat (String.length str))
                  (set_code RedisStatusCode_OK r))
  | Some (Container t _) =>
      In t [kObject; kRedisTS; kRedisSortedSet; kRedisSet] ->
      ExecuteStrLen db kv r = (Ok tt, set_code RedisStatusCode_WRONG_TYPE r)
  | Some (Primitive _) => True
  end.
Proof.
  intros Hkey Hsub Hget. unfold ExecuteStrLen, bind, lift.
  rewrite (RedisFacts.GetRedisValue_key_only db kv Hkey Hsub), Hget.
  destruct found as [[[]|t kids]|]; try exact I; try reflexivity.
  cbn [In]. intros [<- | [<- | [<- | [<- | []]]]]; reflexivity.
Qed.

(** *** The commands on a string, on a key that holds a collection *)

Lemma GetRedisValue_collection (db : DB) (kv : RedisKeyValuePB) (t : ValueType)
    (kids : list (PrimitiveValue * SubDocument)) :
  has_key kv = true -> subkey kv = [] ->
  GetSubDocument db (key_only kv) false = Ok (Some (Container t kids)) ->
  In t [kObject; kRedisTS; kRedisSortedSet; kRedisSet] ->
  exists type,
    GetRedisValue db kv (-1) = Ok (RedisValue_of_type type)
    /\ RedisDataType_eqb type REDIS_TYPE_NONE = false
    /\ RedisDataType_eqb type REDIS_TYPE_STRING = false.
Proof.
  intros Hkey Hsub Hget Ht.
  rewrite (RedisFacts.GetRedisValue_key_only db kv Hkey Hsub), Hget.
  cbn [In] in Ht. destruct Ht as [<- | [<- | [<- | [<- | []]]]];
    eexists; repeat split; reflexivity.
Qed.

(** X13.  The commands on a string, on a key that holds a collection: GETSET,
    APPEND, SETRANGE and INCR answer WRONG_TYPE, return OK and write
    nothing. *)
Theorem string_commands_wrong_type (db : DB) (kv : RedisKeyValuePB) (s : OpState)
    (t : ValueType) (kids : list (PrimitiveValue * SubDocument)) (v : string)
    (offset incr : Z) :
  has_key kv = true -> subkey kv = [] -> value kv = [v] ->
  GetSubDocument db (key_only kv) false = Ok (Some (Container t kids)) ->
  In t [kObject; kRedisTS; kRedisSortedSet; kRedisSet] ->
  let refused :=
    (Ok tt, {| response := set_code RedisStatusCode_WRONG_TYPE (response s);
               batch := batch s |}) in
  ApplyGetSet db kv s = refused
  /\ ApplyAppend db kv s = refused
  /\ ApplySetRange db kv offset s = refused
  /\ ApplyIncr db kv incr s = refused.
Proof.
  intros Hkey Hsub Hvalue Hget Ht refused.
  destruct (GetRedisValue_collection db kv t kids Hkey Hsub Hget Ht)
    as [type [Hvalue' [Hnone Hstring]]].
  assert (Hsize : (value_size kv =? 1) = true)
    by (unfold value_size; rewrite Hvalue; reflexivity).
  assert (Hverify : forall if_missing,
             verify_type REDIS_TYPE_STRING type if_missing s
             = (Ok false, {| response := set_code RedisStatusCode_WRONG_TYPE (response s);
                             batch := batch s |})).
  { intros if_missing. unfold verify_type, VerifyTypeAndSetCode.
    rewrite Hnone, Hstring. reflexivity. }
  repeat split.
  - unfold ApplyGetSet, bind. unfold GetValue, lift at 1. rewrite Hvalue', Hsize.
    cbv beta iota. cbn [negb rv_type RedisValue_of_type].
    rewrite Hverify. reflexivity.
  - unfold ApplyAppend, bind. rewrite Hsize. cbn [negb].
    unfold GetValue, lift at 1. rewrite Hvalue'.
    cbv beta iota. cbn [rv_type RedisValue_of_type]. rewrite Hverify. reflexivity.
  - unfold ApplySetRange, bind. rewrite Hsize. cbn [negb].
    unfold GetValue, lift at 1. rewrite Hvalue'.
    cbv beta iota. cbn [rv_type RedisValue_of_type]. rewrite Hverify. reflexivity.
  - unfold ApplyIncr, bind. unfold GetValue, lift at 1. rewrite Hvalue'.
    cbv beta iota. cbn [rv_type RedisValue_of_type]. rewrite Hverify. reflexivity.
Qed.

End Facts.

Section ReadFacts.

Context {D : DoubleOps} {Store : DocStore} {Env : Environment}
        {Format : DoubleFormat} {Bounded : BoundedReads}.

(** *** The commands that answer an array *)

Lemma for_each_row_elements {A} (rows : list A) (element : A -> string)
    (body : A -> M ReadResponse unit) (s : ReadResponse) :
  (forall row s1, body row s1 = add_elements (element row) s1) ->
  for_each_row rows body s
  = (Ok tt,
     match rows with
     | [] => s
     | _ => {| read_response := read_response s;
               array_response :=
                 Some (match array_response s with
                       | Some elements => elements
                       | None => []
                       end ++ map element rows) |}
     end).
Proof.
  intros Hbody. revert s. induction rows as [|row rows IH]; intros s.
  - reflexivity.
  - cbn [for_each_row]. unfold bind. rewrite Hbody.
    unfold add_elements at 1, modify. rewrite IH.
    destruct rows as [|row' rows]; cbn [read_response array_response map].
    + reflexivity.
    + rewrite <- app_assoc. reflexivity.
Qed.

(** X14.  HMGET on a key that holds a hash, or nothing: the array answered has
    one element for each field of the request, in the order of the
    request, the empty string for a field that holds no string. *)
Theorem ExecuteGet_hmget (db : DB) (kv : RedisKeyValuePB) (s : ReadResponse)
    (type : RedisDataType) :
  GetRedisValueType db kv None (-1) = Ok type ->
  type = REDIS_TYPE_HASH \/ type = REDIS_TYPE_NONE ->
  (forall i, In i (subkey_indices kv) -> exists value, GetRedisValue db kv i = Ok value) ->
  let answered := map (hmget_answer db kv) (subkey_indices kv) in
  ExecuteGet db kv HMGET s
  = (Ok tt,
     {| read_response := set_code RedisStatusCode_OK (read_response s);
        array_response := Some answered |})
  /\ List.length answered = List.length (subkey kv).
Proof.
  intros Htype Hhash Hreads answered. split.
  - unfold ExecuteGet. unfold bind at 1. unfold lift at 1. rewrite Htype.
    unfold bind at 1.
    assert (Hverify : on_response (verify_response_type REDIS_TYPE_HASH type true) s
                      = (Ok true,
                         {| read_response := set_code RedisStatusCode_OK (read_response s);
                            array_response := array_response s |}))
      by (destruct Hhash as [-> | ->]; reflexivity).
    rewrite Hverify. cbn [negb].
    unfold bind at 1. unfold new_array at 1, modify at 1.
    cbn [read_response array_response].
    unfold bind at 1.
    assert (Hloop : forall s1,
               for_each_row (subkey_indices kv) (hmget_element db kv) s1
               = for_each_row (subkey_indices kv)
                   (fun i => add_elements (hmget_answer db kv i)) s1).
    { generalize (subkey_indices kv) Hreads. clear.
      intros l. induction l as [|i l IH]; intros Hreads s1; [reflexivity|].
      cbn [for_each_row]. unfold bind.
      assert (Hi : hmget_element db kv i s1 = add_elements (hmget_answer db kv i) s1).
      { unfold hmget_element, hmget_answer, bind, lift.
        destruct (Hreads i (or_introl eq_refl)) as [value ->].
        destruct (RedisDataType_eqb (rv_type value) REDIS_TYPE_STRING); reflexivity. }
      rewrite Hi. unfold add_elements at 1 3, modify.
      apply IH. intros j Hj. apply Hreads. now right. }
    rewrite Hloop.
    rewrite (for_each_row_elements (subkey_indices kv) (hmget_answer db kv)
               (fun i => add_elements (hmget_answer db kv i)))
      by reflexivity.
    fold answered.
    destruct (subkey_indices kv) eqn:Hindices; subst answered;
      cbn [map app read_response array_response]; reflexivity.
  - subst answered. unfold subkey_indices. now rewrite !length_map, length_seq.
Qed.

(** A loop whose body appends to the array of the response. *)
Lemma for_each_row_append {A} (rows : list A) (elements : A -> list string)
    (body : A -> M ReadResponse unit) :
  (forall row response acc,
      body row {| read_response := response; array_response := Some acc |}
      = (Ok tt, {| read_response := response;
                   array_response := Some (acc ++ elements row) |})) ->
  forall response acc,
    for_each_row rows body {| read_response := response; array_response := Some acc |}
    = (Ok tt, {| read_response := response;
                 array_response := Some (acc ++ flat_map elements rows) |}).
Proof.
  intros Hbody. induction rows as [|row rows IH]; intros response acc.
  - cbn. now rewrite app_nil_r.
  - cbn [for_each_row flat_map]. unfold bind. rewrite Hbody, IH.
    now rewrite app_assoc.
Qed.

Lemma add_generic_row_strings (k v : string) (add_keys add_values : bool)
    (response : RedisResponsePB) (acc : list string) :
  add_generic_row (PVString k) (Primitive (PVString v)) add_keys add_values
    {| read_response := response; array_response := Some acc |}
  = (Ok tt,
     {| read_response := response;
        array_response :=
          Some (acc ++ (if add_keys then [k] else [])
                    ++ (if add_values then [v] else [])) |}).
Proof.
  unfold add_generic_row, AddResponseValuesGeneric, bind.
  destruct add_keys, add_values;
    cbn [as_primitive AddPrimitiveValueToResponseArray];
    unfold add_elements, modify, ret; cbn [read_response array_response];
    rewrite ?app_nil_r, <- ?app_assoc; reflexivity.
Qed.

Lemma for_each_row_map {A B} (f : A -> B) (rows : list A)
    (body : B -> M ReadResponse unit) (s : ReadResponse) :
  for_each_row (map f rows) body s = for_each_row rows (fun row => body (f row)) s.
Proof.
  revert s. induction rows as [|row rows IH]; intros s; [reflexivity|].
  cbn [map for_each_row]. unfold bind.
  destruct (body (f row) s) as [[[]| |] s1]; try reflexivity. apply IH.
Qed.

(** X15.  The commands that read a whole hash, on a key that holds one:
    HGETALL answers every field followed by its value, HKEYS the fields,
    HVALS the values, in the order of the container that the store
    returns, and HLEN their number, so that HGETALL answers twice as
    many elements as HLEN counts. *)
Theorem ExecuteGet_hash (db : DB) (kv : RedisKeyValuePB) (s : ReadResponse)
    (fields : list (string * string)) :
  GetSubDocument db (key_only kv) false
  = Ok (Some (Container kObject (hash_children fields))) ->
  let answer elements :=
    (Ok tt, {| read_response := set_code RedisStatusCode_OK (read_response s);
               array_response := Some elements |}) in
  ExecuteGet db kv HGETALL s
  = answer (flat_map (fun field => [fst field; snd field]) fields)
  /\ ExecuteGet db kv HKEYS s = answer (map fst fields)
  /\ ExecuteGet db kv HVALS s = answer (map snd fields)
  /\ ExecuteGet db kv HLEN s
     = (Ok tt,
        {| read_response :=
             set_int_response (Z.of_nat (List.length fields))
               (set_code RedisStatusCode_OK (read_response s));
           array_response := array_response s |})
  /\ List.length (flat_map (fun field => [fst field; snd field]) fields)
     = (2 * List.length fields)%nat.
Proof.
  intros Hget answer.
  assert (Hrun : forall add_keys add_values,
             add_keys || add_values = true ->
             ExecuteHGetAllLikeCommands db kv kObject add_keys add_values s
             = answer (flat_map (fun field =>
                                   (if add_keys then [fst field] else [])
                                   ++ (if add_values then [snd field] else []))
                         fields)).
  { intros add_keys add_values Hany.
    unfold ExecuteHGetAllLikeCommands. fold (key_only kv).
    unfold bind at 1. unfold lift at 1. rewrite Hget, Hany.
    unfold bind at 1. unfold new_array at 1, modify at 1.
    cbn [value_type read_response array_response].
    unfold bind at 1.
    change (verify_value_type kObject kObject
              {| read_response := read_response s; array_response := Some [] |})
      with (Ok true,
            {| read_response := set_code RedisStatusCode_OK (read_response s);
               array_response := Some [] |}).
    cbv iota. unfold PopulateResponseFrom, bind. cbn [object_container].
    unfold new_array at 1, modify at 1. cbn [read_response array_response].
    unfold hash_children. rewrite for_each_row_map.
    rewrite (for_each_row_append fields
               (fun field =>
                  (if add_keys then [fst field] else [])
                  ++ (if add_values then [snd field] else []))).
    - reflexivity.
    - intros field response acc. cbn [fst snd].
      rewrite add_generic_row_strings, app_assoc. reflexivity. }
  assert (Hone : forall {A} (f : A -> string) (l : list A),
             flat_map (fun x => [f x] ++ []) l = map f l
             /\ flat_map (fun x => [] ++ [f x]) l = map f l).
  { intros A f l. induction l as [|x l [IH1 IH2]]; [split; reflexivity|].
    cbn [flat_map map]. rewrite IH1, IH2. split; reflexivity. }
  unfold ExecuteGet.
  split; [|split; [|split; [|split]]].
  - rewrite (Hrun true true eq_refl). reflexivity.
  - rewrite (Hrun true false eq_refl). cbv iota.
    now rewrite (proj1 (Hone _ fst fields)).
  - rewrite (Hrun false true eq_refl). cbv iota.
    now rewrite (proj2 (Hone _ snd fields)).
  - unfold ExecuteHGetAllLikeCommands. fold (key_only kv).
    unfold bind at 1. unfold lift at 1. rewrite Hget.
    cbn [orb]. unfold bind at 1. unfold ret at 1.
    unfold bind at 1.
    change (verify_value_type kObject
              (value_type (Container kObject (hash_children fields))) s)
      with (Ok true,
            {| read_response := set_code RedisStatusCode_OK (read_response s);
               array_response := array_response s |}).
    cbv iota. unfold on_response, modify, object_num_keys, hash_children.
    cbn [read_response array_response object_container].
    now rewrite length_map.
  - clear. induction fields as [|field fields IH]; [reflexivity|].
    cbn [flat_map app List.length]. rewrite IH. lia.
Qed.

(** X16.  ZRANGEBYSCORE between two bounds of which the lower is not plus
    infinity and the upper not minus infinity: the forward mapping is
    read between the bounds of the request, and the members are answered
    score by score in the order of the mapping, each one after its score
    when the request asks for the scores. *)
Theorem ExecuteCollectionGetRange_by_score (db : DB) (kv : RedisKeyValuePB)
    (s : ReadResponse) (lower upper : RedisSubKeyBoundPB) (with_scores : bool)
    (scores : list (double * list string)) :
  has_key kv = true ->
  is_infinity lower POSITIVE = false ->
  is_infinity upper NEGATIVE = false ->
  GetSubDocumentBetween db
    {| doc_key := FromRedisKey (hash_code kv) (key kv);
       subkeys := [PVType kSSForward] |}
    (score_bound kv lower true) (score_bound kv upper false)
  = Ok (Some (Container kObject (forward_children scores))) ->
  ExecuteCollectionGetRange db true kv
    (Some {| lower_bound := Some lower; upper_bound := Some upper |})
    ZRANGEBYSCORE with_scores s
  = (Ok tt,
     {| read_response := set_code RedisStatusCode_OK (read_response s);
        array_response :=
          Some (flat_map
                  (fun entry =>
                     flat_map
                       (fun member =>
                          (if with_scores then [double_to_string (fst entry)] else [])
                          ++ [member])
                       (snd entry))
                  scores) |}).
Proof.
  intros Hkey Hlower Hupper Hget.
  unfold ExecuteCollectionGetRange. rewrite Hkey, Hlower, Hupper.
  cbn [andb orb].
  fold (score_bound kv lower true). fold (score_bound kv upper false).
  unfold GetAndPopulateResponseValues.
  unfold bind at 1. unfold lift at 1. rewrite Hget.
  unfold bind at 1. unfold new_array at 1, modify at 1.
  cbn [value_type read_response array_response].
  unfold bind at 1.
  change (verify_value_type kObject kObject
            {| read_response := read_response s; array_response := Some [] |})
    with (Ok true,
          {| read_response := set_code RedisStatusCode_OK (read_response s);
             array_response := Some [] |}).
  cbv iota. unfold PopulateResponseFrom, bind. cbn [object_container].
  unfold new_array at 1, modify at 1. cbn [read_response array_response].
  unfold forward_children. rewrite for_each_row_map.
  rewrite (for_each_row_append scores
             (fun entry =>
                flat_map
                  (fun member =>
                     (if with_scores then [double_to_string (fst entry)] else [])
                     ++ [member])
                  (snd entry))).
  - reflexivity.
  - intros entry response acc. cbn [fst snd].
    unfold AddResponseValuesSortedSets. cbn [object_container].
    rewrite for_each_row_map.
    apply (for_each_row_append (snd entry)
             (fun member =>
                (if with_scores then [double_to_string (fst entry)] else [])
                ++ [member])).
    intros member response' acc'. cbn [fst].
    unfold AddResponseValuesGeneric, bind.
    destruct with_scores;
      cbn [AddPrimitiveValueToResponseArray];
      unfold add_elements, modify, ret; cbn [read_response array_response];
      rewrite <- ?app_assoc; reflexivity.
Qed.

(** *** GET and the membership commands *)

(** X17.  GET, TSGET and HGET: the value looked up is the one under the key,
    or under the one sub-key of the request.  A string is answered with
    the code OK; when nothing is stored the code is NOT_FOUND and no
    string is answered; a collection is answered WRONG_TYPE.  A request
    with more than one sub-key fails with Corruption. *)
Theorem ExecuteGet_value (db : DB) (kv : RedisKeyValuePB)
    (request_type : GetRequestType) (s : ReadResponse) :
  In request_type [GET; TSGET; HGET] ->
  has_key kv = true ->
  ((List.length (subkey kv) <= 1)%nat ->
   forall primitives found,
     Forall2 (fun sk p => PrimitiveValueFromSubKey sk = Ok p) (subkey kv) primitives ->
     GetSubDocument db
       {| doc_key := FromRedisKey (hash_code kv) (key kv); subkeys := primitives |}
       false = Ok found ->
     let answer response :=
       (Ok tt, {| read_response := response; array_response := array_response s |}) in
     match found with
     | None =>
         ExecuteGet db kv request_type s
         = answer (set_code RedisStatusCode_NOT_FOUND (read_response s))
     | Some (Primitive (PVString str)) =>
         ExecuteGet db kv request_type s
         = answer (set_string_response str
                     (set_code RedisStatusCode_OK (read_response s)))
     | Some (Container t _) =>
         In t [kObject; kRedisTS; kRedisSortedSet; kRedisSet] ->
         ExecuteGet db kv request_type s
         = answer (set_code RedisStatusCode_WRONG_TYPE (read_response s))
     | Some (Primitive _) => True
     end)
  /\ ((1 < List.length (subkey kv))%nat ->
      ExecuteGet db kv request_type s = (Error Corruption, s)).
Proof.
  intros Htype Hkey.
  assert (Hexec : ExecuteGet db kv request_type
                  = on_response
                      (bind (lift (GetRedisValue db kv (-1))) (fun value =>
                       bind (verify_response_type REDIS_TYPE_STRING (rv_type value) false)
                         (fun ok =>
                       if ok then modify (set_string_response (rv_value value))
                       else ret tt)))).
  { cbn [In] in Htype. destruct Htype as [<- | [<- | [<- | []]]]; reflexivity. }
  rewrite Hexec. clear Hexec Htype.
  unfold on_response, bind, lift, GetRedisValue. rewrite Hkey. cbn [negb].
  destruct (subkey kv) as [|sk [|sk' rest]] eqn:Hsub; (split; [intros Hlen | intros Hlen]);
    cbn [List.length] in Hlen; try lia.
  - intros primitives found Hpath Hget. inversion Hpath; subst.
    cbn [rbind]. rewrite Hget. cbn [rbind].
    destruct found as [[[]|t kids]|]; try exact I; try reflexivity.
    cbn [In]. intros [<- | [<- | [<- | [<- | []]]]]; reflexivity.
  - intros primitives found Hpath Hget.
    inversion Hpath as [|? p ? ps Hp Hrest]; subst. inversion Hrest; subst.
    unfold subkey_size, subkey_at. rewrite Hsub.
    change (Z.of_nat (List.length [sk]) =? 1) with true. cbn [negb andb].
    change (-1 =? -1) with true. cbv iota.
    change (0 <? 0) with false. cbn [orb Z.to_nat nth_error].
    cbn [rbind]. rewrite Hp. cbn [rbind doc_key subkeys app]. rewrite Hget. cbn [rbind].
    destruct found as [[[]|t kids]|]; try exact I; try reflexivity.
    cbn [In]. intros [<- | [<- | [<- | [<- | []]]]]; reflexivity.
  - unfold subkey_size. rewrite Hsub.
    replace (Z.of_nat (List.length (sk :: sk' :: rest)) =? 1) with false.
    + destruct s; reflexivity.
    + symmetry. apply Z.eqb_neq. cbn [List.length]. lia.
Qed.

(** X18.  HEXISTS and SISMEMBER on a key that holds the type of the command,
    or nothing: 1 is answered when the field, or the member, is stored
    and 0 when it is not.  A key that holds another type is answered
    WRONG_TYPE, without a number. *)
Theorem ExecuteGet_membership (db : DB) (kv : RedisKeyValuePB)
    (request_type : GetRequestType) (expected type subtype : RedisDataType)
    (s : ReadResponse) :
  (request_type = HEXISTS /\ expected = REDIS_TYPE_HASH)
  \/ (request_type = SISMEMBER /\ expected = REDIS_TYPE_SET) ->
  GetRedisValueType db kv None (-1) = Ok type ->
  GetRedisValueType db kv None 0 = Ok subtype ->
  ExecuteGet db kv request_type s
  = (Ok tt,
     {| read_response :=
          if RedisDataType_eqb type REDIS_TYPE_NONE || RedisDataType_eqb type expected
          then set_int_response
                 (if RedisDataType_eqb subtype REDIS_TYPE_NONE then 0 else 1)
                 (set_code RedisStatusCode_OK (read_response s))
          else set_code RedisStatusCode_WRONG_TYPE (read_response s);
        array_response := array_response s |}).
Proof.
  intros Hrequest Htype Hsubtype.
  assert (Hexec : ExecuteGet db kv request_type
                  = on_response
                      (bind (lift (GetRedisValueType db kv None (-1))) (fun type =>
                       bind (verify_response_type expected type true) (fun ok =>
                       if ok then
                         bind (lift (GetRedisValueType db kv None 0)) (fun subtype =>
                         modify (SetOptionalInt subtype 1))
                       else ret tt)))).
  { destruct Hrequest as [[-> ->] | [-> ->]]; reflexivity. }
  rewrite Hexec. unfold on_response, bind, lift. rewrite Htype.
  unfold verify_response_type, VerifyTypeAndSetCode.
  destruct (RedisDataType_eqb type REDIS_TYPE_NONE) eqn:Hnone; cbn [orb].
  - rewrite Hsubtype. reflexivity.
  - destruct (RedisDataType_eqb type expected); cbn [negb].
    + rewrite Hsubtype. reflexivity.
    + reflexivity.
Qed.

End ReadFacts.

(** *** Runs on the concrete instance *)

Local Open Scope string_scope.

#[local] Existing Instance Z_double.
#[local] Existing Instance plain_environment.
#[local] Existing Instance MemDocStore.
#[local] Existing Instance Z_format.
#[local] Existing Instance MemBoundedReads.

Lemma ApplyGetSet_stored_witness :
  ApplyGetSet (string_store "old") (value_request "new") fresh_state
  = (Ok tt,
     {| response := set_string_response "old"
                      (set_code RedisStatusCode_OK empty_response);
        batch := [SetPrimitive (DocPathFromRedisKey 7 "k") (string_value "new")] |})
  /\ ApplyGetSet empty_store (value_request "new") fresh_state
     = (Ok tt,
        {| response := set_code RedisStatusCode_NOT_FOUND empty_response;
           batch := [] |}).
Proof.
  split.
  - exact (ApplyGetSet_stored (Store := MemDocStore) (string_store "old")
             (value_request "new") fresh_state "new" (Some "old")
             eq_refl eq_refl eq_refl eq_refl eq_refl).
  - exact (ApplyGetSet_stored (Store := MemDocStore) empty_store
             (value_request "new") fresh_state "new" None
             eq_refl eq_refl eq_refl eq_refl eq_refl).
Defined.

Lemma ApplyAppend_stored_witness :
  ApplyAppend (string_store "ab") (value_request "cd") fresh_state
  = (Ok tt,
     {| response := set_int_response 4 (set_code RedisStatusCode_OK empty_response);
        batch := [SetPrimitive (DocPathFromRedisKey 7 "k") (string_value "abcd")] |}).
Proof.
  exact (ApplyAppend_stored (Store := MemDocStore) (string_store "ab")
           (value_request "cd") fresh_state "cd" (Some "ab")
           eq_refl eq_refl eq_refl eq_refl eq_refl).
Defined.

Lemma ApplySetRange_stored_witness :
  exists written,
    ApplySetRange (string_store "ab") (value_request "xy") 3 fresh_state
    = (Ok tt,
       {| response := set_int_response (Z.of_nat (String.length written))
                        (set_code RedisStatusCode_OK empty_response);
          batch := [SetPrimitive (DocPathFromRedisKey 7 "k") (string_value written)] |})
    /\ String.length written = 5%nat
    /\ substring 3 2 written = "xy"
    /\ substring 0 2 written = "ab".
Proof.
  exact (ApplySetRange_stored (Store := MemDocStore) (string_store "ab")
           (value_request "xy") 3 fresh_state "xy" (Some "ab")
           eq_refl eq_refl eq_refl eq_refl ltac:(lia) (fun _ => eq_refl)).
Defined.

Lemma ApplySet_string_modes_witness :
  ApplySet (string_store "old") (value_request "new")
    (set_options REDIS_WRITEMODE_INSERT) fresh_state
  = (Ok tt,
     {| response := set_code RedisStatusCode_NOT_FOUND empty_response;
        batch := [] |})
  /\ ApplySet (string_store "old") (value_request "new")
       (set_options REDIS_WRITEMODE_UPDATE) fresh_state
     = (Ok tt,
        {| response := set_code RedisStatusCode_OK empty_response;
           batch := [SetPrimitive (DocPathFromRedisKey 7 "k")
                       {| primitive_value := PVString "new"; value_ttl := None |}] |}).
Proof.
  split.
  - exact (ApplySet_string_modes (Store := MemDocStore) (string_store "old")
             (value_request "new") (set_options REDIS_WRITEMODE_INSERT) fresh_state
             "new" REDIS_TYPE_STRING eq_refl eq_refl eq_refl (fun _ => eq_refl) eq_refl).
  - exact (ApplySet_string_modes (Store := MemDocStore) (string_store "old")
             (value_request "new") (set_options REDIS_WRITEMODE_UPDATE) fresh_state
             "new" REDIS_TYPE_STRING eq_refl eq_refl eq_refl (fun _ => eq_refl) eq_refl).
Defined.

Lemma ApplySet_hset_response_witness :
  let db := document_store (Container kObject (hash_children [("f", "1")])) in
  ApplySet db (collection_request REDIS_TYPE_HASH ["f"] ["2"])
    (set_options REDIS_WRITEMODE_UPSERT) fresh_state
  = (Ok tt,
     {| response := set_code RedisStatusCode_OK (set_int_response 0 empty_response);
        batch := [ExtendSubDocument (DocPathFromRedisKey 7 "k")
                    (Container kObject [(PVString "f", Primitive (PVString "2"))])
                    None] |})
  /\ ApplySet db (collection_request REDIS_TYPE_HASH ["g"] ["2"])
       (set_options REDIS_WRITEMODE_UPSERT) fresh_state
     = (Ok tt,
        {| response := set_code RedisStatusCode_OK (set_int_response 1 empty_response);
           batch := [ExtendSubDocument (DocPathFromRedisKey 7 "k")
                       (Container kObject [(PVString "g", Primitive (PVString "2"))])
                       None] |})
  /\ ApplySet (string_store "v") (collection_request REDIS_TYPE_HASH ["g"] ["2"])
       (set_options REDIS_WRITEMODE_UPSERT) fresh_state
     = (Ok tt,
        {| response := set_code RedisStatusCode_WRONG_TYPE empty_response;
           batch := [] |}).
Proof.
  intros db. split; [|split].
  - exact (ApplySet_hset_response (Store := MemDocStore) db
             (collection_request REDIS_TYPE_HASH ["f"] ["2"])
             (set_options REDIS_WRITEMODE_UPSERT) fresh_state "f" "2"
             REDIS_TYPE_HASH REDIS_TYPE_STRING
             eq_refl eq_refl eq_refl eq_refl eq_refl eq_refl eq_refl
             (fun _ => eq_refl)).
  - exact (ApplySet_hset_response (Store := MemDocStore) db
             (collection_request REDIS_TYPE_HASH ["g"] ["2"])
             (set_options REDIS_WRITEMODE_UPSERT) fresh_state "g" "2"
             REDIS_TYPE_HASH REDIS_TYPE_NONE
             eq_refl eq_refl eq_refl eq_refl eq_refl eq_refl eq_refl
             (fun _ => eq_refl)).
  - exact (ApplySet_hset_response (Store := MemDocStore) (string_store "v")
             (collection_request REDIS_TYPE_HASH ["g"] ["2"])
             (set_options REDIS_WRITEMODE_UPSERT) fresh_state "g" "2"
             REDIS_TYPE_STRING REDIS_TYPE_NONE
             eq_refl eq_refl eq_refl eq_refl eq_refl eq_refl eq_refl
             (fun _ => eq_refl)).
Defined.

Lemma ApplyAdd_members_witness :
  let db := document_store
              (Container kRedisSet [(PVString "a", Primitive (PVType kNull))]) in
  let kv := collection_request REDIS_TYPE_SET ["a"; "b"] [] in
  exists members,
    ApplyAdd db kv fresh_state
    = (Ok tt,
       {| response := set_int_response 1 (set_code RedisStatusCode_OK empty_response);
          batch := [ExtendSubDocument (DocPathFromRedisKey 7 "k")
                      (Container kRedisSet members) None] |})
    /\ forall k,
         assoc_get k members
         = if existsb (fun sk => if PrimitiveValue_eq_dec k (PVString (string_subkey sk))
                                 then true else false) (subkey kv)
           then Some (Primitive (PVType kNull))
           else None.
Proof.
  intros db kv.
  refine (ApplyAdd_members (Store := MemDocStore) db kv fresh_state REDIS_TYPE_SET
            eq_refl (or_introl eq_refl) _ _ (fun _ => eq_refl)).
  - discriminate.
  - intros _ i Hi. vm_compute in Hi.
    destruct Hi as [<-|[<-|[]]]; eexists; vm_compute; reflexivity.
Defined.

Lemma ApplyDel_key_witness :
  ApplyDel (string_store "v") (collection_request REDIS_TYPE_NONE [] []) fresh_state
  = (Ok tt,
     {| response := set_int_response 1 (set_code RedisStatusCode_OK empty_response);
        batch := [ExtendSubDocument (DocPathFromRedisKey 7 "k") tombstone None] |})
  /\ ApplyDel empty_store (collection_request REDIS_TYPE_NONE [] []) fresh_state
     = (Ok tt,
        {| response := set_int_response 0 (set_code RedisStatusCode_OK empty_response);
           batch := [ExtendSubDocument (DocPathFromRedisKey 7 "k") tombstone None] |}).
Proof.
  split.
  - exact (ApplyDel_key (Store := MemDocStore) (string_store "v")
             (collection_request REDIS_TYPE_NONE [] []) fresh_state REDIS_TYPE_STRING
             eq_refl eq_refl eq_refl).
  - exact (ApplyDel_key (Store := MemDocStore) empty_store
             (collection_request REDIS_TYPE_NONE [] []) fresh_state REDIS_TYPE_NONE
             eq_refl eq_refl eq_refl).
Defined.

Lemma ApplyDel_fields_witness :
  let db := document_store (Container kObject (hash_children [("f", "1")])) in
  let kv := collection_request REDIS_TYPE_HASH ["g"; "f"] [] in
  ApplyDel db kv fresh_state
  = (Ok tt,
     {| response := set_int_response 1 (set_code RedisStatusCode_OK empty_response);
        batch := [ExtendSubDocument (DocPathFromRedisKey 7 "k")
                    (Container kObject [(PVString "f", tombstone)]) None] |}).
Proof.
  intros db kv.
  refine (ApplyDel_fields (Store := MemDocStore) db kv fresh_state REDIS_TYPE_HASH
            (or_introl eq_refl) eq_refl (or_intror eq_refl) _ (fun _ => eq_refl)).
  intros i Hi. vm_compute in Hi.
  destruct Hi as [<-|[<-|[]]]; eexists; vm_compute; reflexivity.
Defined.

Lemma ApplyIndex_range_witness :
  ApplyIndex (-1) 5 = 4 /\ ApplyIndex (-5) 5 = 0 /\ ApplyIndex 5 5 = -1
  /\ ApplyIndex (-6) 5 = -1 /\ ApplyIndex 0 0 = -1.
Proof.
  split; [|split; [|split; [|split]]].
  - apply (proj1 (ApplyIndex_range (-1) 5 ltac:(lia) ltac:(lia))). lia.
  - apply (proj1 (ApplyIndex_range (-5) 5 ltac:(lia) ltac:(lia))). lia.
  - apply (proj1 (proj2 (ApplyIndex_range 5 5 ltac:(lia) ltac:(lia)))). lia.
  - apply (proj1 (proj2 (ApplyIndex_range (-6) 5 ltac:(lia) ltac:(lia)))). lia.
  - apply (proj1 (proj2 (ApplyIndex_range 0 0 ltac:(lia) ltac:(lia)))). lia.
Defined.

Lemma ExecuteGetRange_substring_witness :
  ExecuteGetRange (string_store "hello") string_request 1 (-2) empty_response
  = (Ok tt, set_string_response "ell" (set_code RedisStatusCode_OK empty_response))
  /\ ExecuteGetRange (string_store "hello") string_request 3 1 empty_response
     = (Ok tt, set_code RedisStatusCode_INDEX_OUT_OF_BOUNDS empty_response)
  /\ ExecuteGetRange (string_store "") string_request 0 (-1) empty_response
     = (Ok tt, set_code RedisStatusCode_INDEX_OUT_OF_BOUNDS empty_response).
Proof.
  split; [|split].
  - apply (proj1 (ExecuteGetRange_substring (Store := MemDocStore)
                    (string_store "hello") string_request 1 (-2) empty_response
                    "hello" eq_refl eq_refl eq_refl
                    ltac:(vm_compute; reflexivity) ltac:(lia) ltac:(lia)));
      vm_compute; repeat split; discriminate.
  - apply (proj2 (ExecuteGetRange_substring (Store := MemDocStore)
                    (string_store "hello") string_request 3 1 empty_response
                    "hello" eq_refl eq_refl eq_refl
                    ltac:(vm_compute; reflexivity) ltac:(lia) ltac:(lia))).
    vm_compute. intros [_ [_ H]]. apply H. reflexivity.
  - apply (proj2 (ExecuteGetRange_substring (Store := MemDocStore)
                    (string_store "") string_request 0 (-1) empty_response
                    "" eq_refl eq_refl eq_refl
                    ltac:(vm_compute; reflexivity) ltac:(lia) ltac:(lia))).
    vm_compute. intros [[_ H] _]. discriminate H.
Defined.

Lemma ExecuteStrLen_response_witness :
  ExecuteStrLen (string_store "hello") string_request empty_response
  = (Ok tt, set_int_response 5 (set_code RedisStatusCode_OK empty_response))
  /\ ExecuteStrLen empty_store string_request empty_response
     = (Ok tt, set_int_response 0 (set_code RedisStatusCode_OK empty_response))
  /\ ExecuteStrLen (document_store (Container kObject [])) string_request
       empty_response
     = (Ok tt, set_code RedisStatusCode_WRONG_TYPE empty_response).
Proof.
  split; [|split].
  - exact (ExecuteStrLen_response (Store := MemDocStore) (string_store "hello")
             string_request empty_response (Some (Primitive (PVString "hello")))
             eq_refl eq_refl eq_refl).
  - exact (ExecuteStrLen_response (Store := MemDocStore) empty_store
             string_request empty_response None eq_refl eq_refl eq_refl).
  - apply (ExecuteStrLen_response (Store := MemDocStore)
             (document_store (Container kObject [])) string_request empty_response
             (Some (Container kObject [])) eq_refl eq_refl eq_refl).
    left. reflexivity.
Defined.

Lemma ExecuteGet_hmget_witness :
  let db := document_store (Container kObject (hash_children [("f", "1"); ("g", "2")])) in
  ExecuteGet db (collection_request REDIS_TYPE_HASH ["g"; "x"; "f"] []) HMGET fresh_read
  = (Ok tt,
     {| read_response := set_code RedisStatusCode_OK empty_response;
        array_response := Some ["2"; ""; "1"] |})
  /\ List.length ["2"; ""; "1"] = 3%nat.
Proof.
  intros db.
  refine (ExecuteGet_hmget (Store := MemDocStore) db
            (collection_request REDIS_TYPE_HASH ["g"; "x"; "f"] []) fresh_read
            REDIS_TYPE_HASH eq_refl (or_introl eq_refl) _).
  intros i Hi. vm_compute in Hi.
  destruct Hi as [<-|[<-|[<-|[]]]]; eexists; vm_compute; reflexivity.
Defined.

Lemma ExecuteGet_hash_witness :
  let db := document_store (Container kObject (hash_children [("f", "1"); ("g", "2")])) in
  let kv := collection_request REDIS_TYPE_HASH [] [] in
  let answer elements :=
    (Ok tt, {| read_response := set_code RedisStatusCode_OK empty_response;
               array_response := Some elements |}) in
  ExecuteGet db kv HGETALL fresh_read = answer ["f"; "1"; "g"; "2"]
  /\ ExecuteGet db kv HKEYS fresh_read = answer ["f"; "g"]
  /\ ExecuteGet db kv HVALS fresh_read = answer ["1"; "2"]
  /\ ExecuteGet db kv HLEN fresh_read
     = (Ok tt,
        {| read_response :=
             set_int_response 2 (set_code RedisStatusCode_OK empty_response);
           array_response := None |})
  /\ List.length ["f"; "1"; "g"; "2"] = 4%nat.
Proof.
  intros db kv answer.
  exact (ExecuteGet_hash (Store := MemDocStore) db kv fresh_read
           [("f", "1"); ("g", "2")] eq_refl).
Defined.

Lemma ExecuteCollectionGetRange_by_score_witness :
  let db := apply_sets empty_store
              [(zadd_kv [(1, "a"); (2, "b"); (3, "c")],
                zadd_options UpdateOptions_NONE)] in
  ExecuteCollectionGetRange db true (zadd_kv [])
    (Some {| lower_bound := Some (score_at 2 false);
             upper_bound := Some (score_at 3 false) |})
    ZRANGEBYSCORE true fresh_read
  = (Ok tt,
     {| read_response := set_code RedisStatusCode_OK empty_response;
        array_response := Some ["2"; "b"; "3"; "c"] |}).
Proof.
  intros db.
  exact (ExecuteCollectionGetRange_by_score (Store := MemDocStore) db (zadd_kv [])
           fresh_read (score_at 2 false) (score_at 3 false) true
           [(2, ["b"]); (3, ["c"])] eq_refl eq_refl eq_refl eq_refl).
Defined.

Lemma string_commands_wrong_type_witness :
  let db := document_store (Container kObject (hash_children [("f", "1")])) in
  let refused :=
    (Ok tt, {| response := set_code RedisStatusCode_WRONG_TYPE empty_response;
               batch := [] |}) in
  ApplyGetSet db (value_request "v") fresh_state = refused
  /\ ApplyAppend db (value_request "v") fresh_state = refused
  /\ ApplySetRange db (value_request "v") 2 fresh_state = refused
  /\ ApplyIncr db (value_request "v") 1 fresh_state = refused.
Proof.
  intros db refused.
  exact (string_commands_wrong_type (Store := MemDocStore) db (value_request "v")
           fresh_state kObject (hash_children [("f", "1")]) "v" 2 1
           eq_refl eq_refl eq_refl eq_refl (or_introl eq_refl)).
Defined.

Lemma ExecuteGet_value_witness :
  let db := document_store (Container kObject (hash_children [("f", "1")])) in
  ExecuteGet db (collection_request REDIS_TYPE_HASH ["f"] []) HGET fresh_read
  = (Ok tt, {| read_response := set_string_response "1"
                                  (set_code RedisStatusCode_OK empty_response);
               array_response := None |})
  /\ ExecuteGet db (collection_request REDIS_TYPE_HASH ["g"] []) HGET fresh_read
     = (Ok tt, {| read_response := set_code RedisStatusCode_NOT_FOUND empty_response;
                  array_response := None |})
  /\ ExecuteGet db string_request GET fresh_read
     = (Ok tt, {| read_response := set_code RedisStatusCode_WRONG_TYPE empty_response;
                  array_response := None |})
  /\ ExecuteGet db (collection_request REDIS_TYPE_HASH ["f"; "g"] []) HGET fresh_read
     = (Error Corruption, fresh_read).
Proof.
  intros db. split; [|split; [|split]].
  - refine (proj1 (ExecuteGet_value (Store := MemDocStore) db
                     (collection_request REDIS_TYPE_HASH ["f"] []) HGET fresh_read
                     _ eq_refl)
              _ [PVString "f"] (Some (Primitive (PVString "1"))) _ eq_refl).
    + right. right. left. reflexivity.
    + cbn. lia.
    + repeat constructor.
  - refine (proj1 (ExecuteGet_value (Store := MemDocStore) db
                     (collection_request REDIS_TYPE_HASH ["g"] []) HGET fresh_read
                     _ eq_refl)
              _ [PVString "g"] None _ eq_refl).
    + right. right. left. reflexivity.
    + cbn. lia.
    + repeat constructor.
  - refine (proj1 (ExecuteGet_value (Store := MemDocStore) db string_request GET
                     fresh_read _ eq_refl)
              _ [] (Some (Container kObject (hash_children [("f", "1")]))) _ eq_refl _).
    + left. reflexivity.
    + cbn. lia.
    + constructor.
    + left. reflexivity.
  - refine (proj2 (ExecuteGet_value (Store := MemDocStore) db
                     (collection_request REDIS_TYPE_HASH ["f"; "g"] []) HGET fresh_read
                     _ eq_refl) _).
    + right. right. left. reflexivity.
    + cbn. lia.
Defined.

Lemma ExecuteGet_membership_witness :
  let db := document_store (Container kObject (hash_children [("f", "1")])) in
  ExecuteGet db (collection_request REDIS_TYPE_HASH ["f"] []) HEXISTS fresh_read
  = (Ok tt, {| read_response := set_int_response 1
                                  (set_code RedisStatusCode_OK empty_response);
               array_response := None |})
  /\ ExecuteGet db (collection_request REDIS_TYPE_HASH ["g"] []) HEXISTS fresh_read
     = (Ok tt, {| read_response := set_int_response 0
                                     (set_code RedisStatusCode_OK empty_response);
                  array_response := None |})
  /\ ExecuteGet db (collection_request REDIS_TYPE_SET ["f"] []) SISMEMBER fresh_read
     = (Ok tt, {| read_response := set_code RedisStatusCode_WRONG_TYPE empty_response;
                  array_response := None |}).
Proof.
  intros db. split; [|split].
  - exact (ExecuteGet_membership (Store := MemDocStore) db
             (collection_request REDIS_TYPE_HASH ["f"] []) HEXISTS
             REDIS_TYPE_HASH REDIS_TYPE_HASH REDIS_TYPE_STRING fresh_read
             (or_introl (conj eq_refl eq_refl)) eq_refl eq_refl).
  - exact (ExecuteGet_membership (Store := MemDocStore) db
             (collection_request REDIS_TYPE_HASH ["g"] []) HEXISTS
             REDIS_TYPE_HASH REDIS_TYPE_HASH REDIS_TYPE_NONE fresh_read
             (or_introl (conj eq_refl eq_refl)) eq_refl eq_refl).
  - exact (ExecuteGet_membership (Store := MemDocStore) db
             (collection_request REDIS_TYPE_SET ["f"] []) SISMEMBER
             REDIS_TYPE_SET REDIS_TYPE_HASH REDIS_TYPE_STRING fresh_read
             (or_intror (conj eq_refl eq_refl)) eq_refl eq_refl).
Defined.

End RedisCommandFacts.

(* ===================================================================== *)
(** ** Facts about the QL operations as a whole                           *)
(* ===================================================================== *)

Module QLOperationFacts.

Import QL.

Unset Implicit Arguments.

Section Invariants.

Context {T : QLTypes} {St : QLStorage}.

(** *** Relations that the steps of an operation respect *)

Lemma respects_ret {S A} (R : S -> S -> Prop) (a : A) :
  (forall s, R s s) -> respects R (ret a).
Proof. intros Hrefl s. apply Hrefl. Qed.

Lemma respects_lift {S A} (R : S -> S -> Prop) (r : Result A) :
  (forall s, R s s) -> respects R (lift r).
Proof. intros Hrefl s. apply Hrefl. Qed.

Lemma respects_fail {S A} (R : S -> S -> Prop) (c : StatusCode) :
  (forall s, R s s) -> respects R (@fail S A c).
Proof. intros Hrefl s. apply Hrefl. Qed.

Lemma respects_abort {S A} (R : S -> S -> Prop) :
  (forall s, R s s) -> respects R (@abort S A).
Proof. intros Hrefl s. apply Hrefl. Qed.

Lemma respects_get_state {S} (R : S -> S -> Prop) :
  (forall s, R s s) -> respects R get_state.
Proof. intros Hrefl s. apply Hrefl. Qed.

Lemma respects_bind {S A B} (R : S -> S -> Prop) (m : M S A) (k : A -> M S B) :
  (forall s, R s s) ->
  (forall s1 s2 s3, R s1 s2 -> R s2 s3 -> R s1 s3) ->
  respects R m -> (forall a, respects R (k a)) -> respects R (bind m k).
Proof.
  intros Hrefl Htrans Hm Hk s. unfold bind. specialize (Hm s).
  destruct (m s) as [[a|c|] s']; cbn [snd] in *; try exact Hm.
  apply (Htrans s s'); [exact Hm | apply Hk].
Qed.

Lemma hint_le_refl (a : HybridTime) : hint_le a a.
Proof. destruct a; cbn; [lia | exact I]. Qed.

Lemma hint_le_trans (a b c : HybridTime) : hint_le a b -> hint_le b c -> hint_le a c.
Proof. destruct a, b, c; cbn; try tauto; lia. Qed.

Lemma hint_le_MakeAtLeast (a b : HybridTime) : hint_le a (MakeAtLeast a b).
Proof. destruct a, b; cbn; try exact I; lia. Qed.

Variable request : QLWriteRequestPB.

Lemma Apply_keeps_refl (s : WriteState) : Apply_keeps request s s.
Proof.
  split; [|split; [|split]]; auto using hint_le_refl.
  exists []. split; [now rewrite app_nil_r | constructor].
Qed.

Lemma Apply_keeps_trans (s1 s2 s3 : WriteState) :
  Apply_keeps request s1 s2 -> Apply_keeps request s2 s3 -> Apply_keeps request s1 s3.
Proof.
  intros [[ops [Hb HF]] [Hh [Hk Hp]]] [[ops' [Hb' HF']] [Hh' [Hk' Hp']]].
  split; [|split; [|split]]; eauto using hint_le_trans.
  exists (ops ++ ops'). split.
  - rewrite Hb', Hb, app_assoc. reflexivity.
  - apply Forall_app. auto.
Qed.

(** A step that leaves the write batch and the restart hint as they are,
    and the keys that are set. *)
Lemma Apply_keeps_keys (s s' : WriteState) :
  doc_write_batch s' = doc_write_batch s ->
  restart_read_ht s' = restart_read_ht s ->
  (forall k, hashed_doc_key_ s = Some k -> hashed_doc_key_ s' = Some k) ->
  (forall k, pk_doc_key_ s = Some k -> pk_doc_key_ s' = Some k) ->
  Apply_keeps request s s'.
Proof.
  intros Hb Hh Hk Hp. split; [|split; [|split]]; auto.
  - exists []. rewrite Hb, app_nil_r. split; [reflexivity | apply Forall_nil].
  - rewrite Hh. apply hint_le_refl.
Qed.

Lemma Apply_keeps_same (s s' : WriteState) :
  doc_write_batch s' = doc_write_batch s ->
  restart_read_ht s' = restart_read_ht s ->
  hashed_doc_key_ s' = hashed_doc_key_ s ->
  pk_doc_key_ s' = pk_doc_key_ s ->
  Apply_keeps request s s'.
Proof.
  intros Hb Hh Hk Hp. apply Apply_keeps_keys; auto.
  - intros k. now rewrite Hk.
  - intros k. now rewrite Hp.
Qed.

Lemma write_keeps (op : WriteOp) :
  is_liveness_write request op -> respects (Apply_keeps request) (write op).
Proof.
  intros Hop s. unfold write.
  destruct (batch_status (doc_write_batch s) op) as [[]| |]; cbn [snd];
    try apply Apply_keeps_refl.
  split; [|split; [|split]]; cbn; auto using hint_le_refl.
  exists [op]. split; [reflexivity|]. constructor; [exact Hop | constructor].
Qed.

Lemma MakeAtLeast_restart_keeps (ht : HybridTime) :
  respects (Apply_keeps request) (MakeAtLeast_restart ht).
Proof.
  intros s. unfold MakeAtLeast_restart, modify. cbn [snd].
  split; [|split; [|split]]; cbn; auto using hint_le_MakeAtLeast.
  exists []. split; [now rewrite app_nil_r | constructor].
Qed.

Ltac kept_by known :=
  repeat first
    [ known
    | apply respects_ret; apply Apply_keeps_refl
    | apply respects_lift; apply Apply_keeps_refl
    | apply respects_fail; apply Apply_keeps_refl
    | apply respects_abort; apply Apply_keeps_refl
    | apply respects_get_state; apply Apply_keeps_refl
    | apply MakeAtLeast_restart_keeps
    | apply write_keeps; exact I
    | assumption
    | apply respects_bind;
        [apply Apply_keeps_refl | apply Apply_keeps_trans | | intros]
    | match goal with
      | |- respects _ (if ?c then _ else _) => destruct c
      | |- respects _ (let '(_, _) := ?x in _) => destruct x
      | |- respects _ (match ?x with _ => _ end) => destruct x
      end ].

Lemma modify_keeps (f : WriteState -> WriteState) :
  (forall s, doc_write_batch (f s) = doc_write_batch s) ->
  (forall s, restart_read_ht (f s) = restart_read_ht s) ->
  (forall s, hashed_doc_key_ (f s) = hashed_doc_key_ s) ->
  (forall s, pk_doc_key_ (f s) = pk_doc_key_ s) ->
  respects (Apply_keeps request) (modify f).
Proof.
  intros Hb Hh Hk Hp s. unfold modify. cbn [snd]. apply Apply_keeps_same; auto.
Qed.

Lemma InitializeKeys_keeps (rq : QLWriteRequestPB) (schema : Schema)
    (hashed_key primary_key : bool) :
  respects (Apply_keeps request) (InitializeKeys rq schema hashed_key primary_key).
Proof.
  intros s. unfold InitializeKeys, bind, lift, get_state, modify, ret.
  destruct (QLKeyColumnValuesToPrimitiveValues (hashed_column_values rq) schema 0
              (num_hash_key_columns schema)) as [hashed| |];
    try apply Apply_keeps_refl.
  destruct (QLKeyColumnValuesToPrimitiveValues (range_column_values rq) schema
              (num_hash_key_columns schema) (num_range_key_columns schema))
    as [range| |]; try apply Apply_keeps_refl.
  destruct s as [rr [hk|] [pk|] rb resp b ht];
    destruct hashed_key, primary_key; cbn [andb negb is_some snd hashed_doc_key_ pk_doc_key_ set_hashed_doc_key set_pk_doc_key];
    try destruct (is_some (hash_code rq) && negb (is_nil (hashed_column_values rq)));
    cbn [snd];
    apply Apply_keeps_keys; cbn; try reflexivity; intros; congruence.
Qed.

Lemma read_row_keeps (db : DB) (projection : Schema) (key : DocKey)
    (clear_if_missing : bool) (table_row : QLTableRow) :
  respects (Apply_keeps request)
    (read_row db projection key clear_if_missing table_row).
Proof. unfold read_row. kept_by ltac:(fail). Qed.

Lemma ReadColumns_keeps (rq : QLWriteRequestPB) (schema : Schema) (db : DB)
    (table_row : QLTableRow) :
  respects (Apply_keeps request) (ReadColumns rq schema db table_row).
Proof.
  unfold ReadColumns.
  kept_by ltac:(first [apply InitializeKeys_keeps | apply read_row_keeps]).
Qed.

Lemma set_rowblock_keeps (b : QLRowBlock) :
  respects (Apply_keeps request) (modify (set_rowblock b)).
Proof. apply modify_keeps; reflexivity. Qed.

Lemma IsConditionSatisfied_keeps (rq : QLWriteRequestPB) (schema : Schema) (db : DB)
    (condition : QLConditionPB) (table_row : QLTableRow) :
  respects (Apply_keeps request)
    (IsConditionSatisfied rq schema db condition table_row).
Proof.
  unfold IsConditionSatisfied.
  kept_by ltac:(first [apply ReadColumns_keeps | apply set_rowblock_keeps]).
Qed.

Lemma read_current_row_keeps (rq : QLWriteRequestPB) (schema : Schema) (db : DB) :
  respects (Apply_keeps request) (read_current_row rq schema db).
Proof.
  unfold read_current_row.
  kept_by ltac:(first [apply ReadColumns_keeps | apply IsConditionSatisfied_keeps]).
Qed.

Lemma write_liveness_column_keeps :
  respects (Apply_keeps request) (write_liveness_column request).
Proof.
  unfold write_liveness_column.
  apply respects_bind;
    [apply Apply_keeps_refl | apply Apply_keeps_trans
    | apply respects_get_state; apply Apply_keeps_refl |].
  intros s. destruct (type request) eqn:Htype;
    try (apply respects_ret; apply Apply_keeps_refl).
  destruct (pk_doc_path_ s); [|apply respects_ret; apply Apply_keeps_refl].
  apply write_keeps. cbn. auto.
Qed.

Lemma column_doc_key_keeps (column : ColumnSchema) :
  respects (Apply_keeps request) (column_doc_key column).
Proof. unfold column_doc_key, deref. kept_by ltac:(fail). Qed.

Lemma apply_column_value_keeps (schema : Schema) (table_row : QLTableRow)
    (ttl : option Z) (user_timestamp : Z) (column_value : QLColumnValuePB) :
  respects (Apply_keeps request)
    (apply_column_value schema table_row ttl user_timestamp column_value).
Proof.
  assert (Hreplace : forall op, is_liveness_write request op ->
             respects (Apply_keeps request)
               (fun s =>
                  match write op s with
                  | (Error QLError, s') =>
                      (Ok Returned,
                       set_response {| status := Some YQL_STATUS_USAGE_ERROR;
                                       error_message := Some QLError |} s')
                  | (Ok _, s') => (Ok Continue, s')
                  | (Error c, s') => (Error c, s')
                  | (Fatal, s') => (Fatal, s')
                  end)).
  { intros op Hop s. pose proof (write_keeps op Hop s) as H.
    destruct (write op s) as [[[]|c|] s']; cbn [snd] in *; try exact H.
    destruct c; cbn [snd]; exact H. }
  unfold apply_column_value.
  kept_by ltac:(first [apply column_doc_key_keeps | apply Hreplace; exact I]).
Qed.

Lemma for_each_until_keeps {A} (l : list A) (body : A -> M WriteState Flow) :
  (forall x, respects (Apply_keeps request) (body x)) ->
  respects (Apply_keeps request) (for_each_until l body).
Proof.
  intros Hbody. induction l as [|x l IH]; cbn [for_each_until].
  - apply respects_ret. apply Apply_keeps_refl.
  - kept_by ltac:(fail). apply Hbody.
Qed.

Lemma DeleteRow_keeps (schema : Schema) (rq : QLWriteRequestPB) (row_path : DocPath) :
  respects (Apply_keeps request) (DeleteRow schema rq row_path).
Proof.
  unfold DeleteRow.
  kept_by ltac:(apply for_each_until_keeps; intros).
Qed.

Lemma while_HasNext_keeps (turns : nat)
    (body : RowwiseIterator -> M WriteState RowwiseIterator) (it : RowwiseIterator) :
  (forall it', respects (Apply_keeps request) (body it')) ->
  respects (Apply_keeps request) (while_HasNext turns body it).
Proof.
  intros Hbody. revert it. induction turns as [|turns IH]; intros it;
    cbn [while_HasNext].
  - apply respects_ret. apply Apply_keeps_refl.
  - kept_by ltac:(first [apply Hbody | apply IH]).
Qed.

Lemma delete_matching_row_keeps (schema : Schema) (rq : QLWriteRequestPB)
    (projection : Schema) (iterator : RowwiseIterator) :
  respects (Apply_keeps request) (delete_matching_row schema rq projection iterator).
Proof.
  unfold delete_matching_row.
  kept_by ltac:(apply DeleteRow_keeps).
Qed.

Lemma delete_column_keeps (schema : Schema) (user_timestamp : Z)
    (column_value : QLColumnValuePB) :
  respects (Apply_keeps request) (delete_column schema user_timestamp column_value).
Proof.
  unfold delete_column.
  kept_by ltac:(apply column_doc_key_keeps).
Qed.

Lemma apply_delete_keeps (rq : QLWriteRequestPB) (schema : Schema) (db : DB) :
  respects (Apply_keeps request) (apply_delete rq schema db).
Proof.
  unfold apply_delete, deref.
  kept_by ltac:(first
                  [ apply DeleteRow_keeps
                  | apply for_each_until_keeps; intros; apply delete_column_keeps
                  | apply while_HasNext_keeps; intros;
                    apply delete_matching_row_keeps ]).
Qed.

Lemma Apply_respects (schema : Schema) (db : DB) :
  respects (Apply_keeps request) (Apply request schema db).
Proof.
  unfold Apply, apply_insert_or_update.
  kept_by ltac:(first
                  [ apply read_current_row_keeps
                  | apply write_liveness_column_keeps
                  | apply apply_delete_keeps
                  | apply for_each_until_keeps; intros;
                    apply apply_column_value_keeps
                  | apply modify_keeps; reflexivity ]).
Qed.

(** X19.  [Apply] only appends to the write batch, and the only [SetPrimitive]
    it appends is the liveness column of an INSERT, with the time to live
    and the user timestamp of the request. *)
Theorem Apply_appends (schema : Schema) (db : DB) (s : WriteState) :
  exists ops,
    doc_write_batch (snd (Apply request schema db s)) = doc_write_batch s ++ ops
    /\ Forall (is_liveness_write request) ops.
Proof. exact (proj1 (Apply_respects schema db s)). Qed.

(** X20.  [Apply] never lowers the restart hint of the operation: the hints of
    its scans are taken with [MakeAtLeast]. *)
Theorem Apply_restart_read_ht (schema : Schema) (db : DB) (s : WriteState) :
  hint_le (restart_read_ht s) (restart_read_ht (snd (Apply request schema db s))).
Proof. exact (proj1 (proj2 (Apply_respects schema db s))). Qed.

(** X21.  A key that is set when [Apply] starts, as [Init] leaves it for
    [GetDocPathsToLock], is the key that [Apply] works on: [Apply] may
    set a key that was not, and changes none. *)
Theorem Apply_keys (schema : Schema) (db : DB) (s : WriteState) :
  let s' := snd (Apply request schema db s) in
  (forall k, hashed_doc_key_ s = Some k -> hashed_doc_key_ s' = Some k)
  /\ (forall k, pk_doc_key_ s = Some k -> pk_doc_key_ s' = Some k).
Proof. exact (proj2 (proj2 (Apply_respects schema db s))). Qed.

End Invariants.

Section ReadInvariants.

Context {T : QLTypes} {St : QLStorage} {Storage : QLStorageIf}.

Variable request : QLReadRequestPB.

Lemma result_grows_refl (s : ReadState) : result_grows request s s.
Proof.
  exists []. rewrite app_nil_r. split; [reflexivity|].
  destruct (is_aggregate request); [reflexivity | lia].
Qed.

Lemma result_grows_trans (s1 s2 s3 : ReadState) :
  result_grows request s1 s2 -> result_grows request s2 s3 -> result_grows request s1 s3.
Proof.
  intros [a [Ha Hla]] [b [Hb Hlb]]. exists (a ++ b). split.
  - rewrite Hb, Ha, app_assoc. reflexivity.
  - destruct (is_aggregate request); [subst; reflexivity | lia].
Qed.

Ltac grows_by known :=
  repeat first
    [ known
    | apply respects_ret; apply result_grows_refl
    | apply respects_lift; apply result_grows_refl
    | apply respects_fail; apply result_grows_refl
    | apply respects_abort; apply result_grows_refl
    | apply respects_get_state; apply result_grows_refl
    | assumption
    | apply respects_bind;
        [apply result_grows_refl | apply result_grows_trans | | intros]
    | match goal with
      | |- respects _ (if ?c then _ else _) => destruct c
      | |- respects _ (let '(_, _) := ?x in _) => destruct x
      | |- respects _ (match ?x with _ => _ end) => destruct x
      end ].

Lemma AddRowToResult_grows (spec : QLScanSpec) (row : QLTableRow) (match_count : Z) :
  respects (result_grows request)
    (AddRowToResult request spec row (row_count_limit_of request) match_count).
Proof.
  intros s. unfold AddRowToResult, bind, get_state, lift, ret.
  destruct (rsrow_count s <? row_count_limit_of request) eqn:Hlimit;
    [|apply result_grows_refl].
  apply Z.ltb_lt in Hlimit.
  destruct (Match spec row) as [[|]| |]; cbn [snd]; try apply result_grows_refl.
  unfold result_grows.
  destruct (is_aggregate request).
  - unfold EvalAggregate.
    destruct (eval_selected _ _ _ _) as [[[]| |] aggr]; cbn [snd resultset set_aggr_result];
      exists []; rewrite app_nil_r; auto.
  - unfold PopulateResultSet.
    destruct (eval_selected _ _ _ _) as [[[]| |] rsrow];
      cbn [snd]; exists [rsrow]; unfold rsrow_count in *; unfold set_resultset;
      cbn [resultset]; (split; [reflexivity|]);
      rewrite length_app; cbn [List.length]; lia.
Qed.

Lemma process_row_grows (schema static_projection non_static_projection : Schema)
    (spec : QLScanSpec) (last_read_static : bool) (it : RowwiseIterator) (f : Fetch) :
  respects (result_grows request)
    (process_row request schema static_projection non_static_projection spec
       (row_count_limit_of request) last_read_static it f).
Proof.
  unfold process_row. grows_by ltac:(apply AddRowToResult_grows).
Qed.

Lemma fetch_row_grows (schema static_projection non_static_projection : Schema)
    (spec : QLScanSpec) (state : RowwiseIterator * Fetch) :
  respects (result_grows request)
    (fetch_row request schema static_projection non_static_projection spec
       (row_count_limit_of request) state).
Proof.
  unfold fetch_row. destruct state as [iter f].
  grows_by ltac:(apply process_row_grows).
Qed.

Lemma fetch_loop_grows (turns : nat) (row_count_limit : Z)
    (body : RowwiseIterator * Fetch -> M ReadState (RowwiseIterator * Fetch)) :
  (forall state, respects (result_grows request) (body state)) ->
  forall state, respects (result_grows request) (fetch_loop turns row_count_limit body state).
Proof.
  intros Hbody. induction turns as [|turns IH]; intros state s; cbn [fetch_loop].
  - apply result_grows_refl.
  - destruct (_ && _); [|apply result_grows_refl].
    apply (respects_bind (result_grows request) (body state) _ result_grows_refl
             result_grows_trans (Hbody state) IH).
Qed.

Lemma fetch_rows_grows (schema query_schema : Schema) :
  respects (result_grows request) (fetch_rows request schema query_schema).
Proof.
  unfold fetch_rows.
  grows_by ltac:(apply fetch_loop_grows; intro; apply fetch_row_grows).
Qed.

(** X22.  A read only adds rows at the end of the result set.  A query that is
    not an aggregate adds none beyond the row count limit; an aggregate
    adds one row at most, whatever the limit. *)
Theorem Execute_row_limit (schema query_schema : Schema) (s : ReadState) :
  let s' := snd (Execute request schema query_schema s) in
  exists added,
    resultset s' = resultset s ++ added
    /\ if is_aggregate request then (List.length added <= 1)%nat
       else rsrow_count s' <= Z.max (rsrow_count s) (row_count_limit_of request).
Proof.
  cbv zeta. unfold Execute.
  assert (Hsame : exists added,
             resultset s = resultset s ++ added
             /\ (if is_aggregate request then (List.length added <= 1)%nat
                 else rsrow_count s
                      <= Z.max (rsrow_count s) (row_count_limit_of request))).
  { exists []. rewrite app_nil_r. split; [reflexivity|].
    destruct (is_aggregate request); cbn; lia. }
  assert (Hfetch :
            let s' := snd ((fetched <- fetch_rows request schema query_schema ;;
                            finish_read request (fst fetched) (snd fetched))%op s) in
            exists added,
              resultset s' = resultset s ++ added
              /\ (if is_aggregate request then (List.length added <= 1)%nat
                  else rsrow_count s'
                       <= Z.max (rsrow_count s) (row_count_limit_of request))).
  { cbv zeta.
    change ((fetched <- fetch_rows request schema query_schema ;;
             finish_read request (fst fetched) (snd fetched))%op s)
      with (match fetch_rows request schema query_schema s with
            | (Ok fetched, s1) => finish_read request (fst fetched) (snd fetched) s1
            | (Error c, s1) => (Error c, s1)
            | (Fatal, s1) => (Fatal, s1)
            end).
    pose proof (fetch_rows_grows schema query_schema s) as Hgrows.
    destruct (fetch_rows request schema query_schema s) as [[[iter f]| |] s1];
      cbn [snd fst] in *.
    2, 3: destruct Hgrows as [added [Hadded Hlimit]]; exists added;
      split; [exact Hadded|]; destruct (is_aggregate request);
      [subst added; cbn; lia | exact Hlimit].
    destruct Hgrows as [added [Hadded Hlimit]].
    unfold finish_read, bind, modify, get_state, lift, ret.
    unfold PopulateAggregate.
    destruct (is_aggregate request) eqn:Hagg; cbn [andb negb].
    - subst added. rewrite app_nil_r in Hadded.
      destruct (match_count f >? 0).
      + destruct (_ <? _)%nat.
        * exists []. rewrite app_nil_r. split; [exact Hadded | cbn; lia].
        * rewrite andb_false_r.
          cbn [snd resultset set_resultset set_read_restart].
          rewrite Hadded. eexists. split; [reflexivity | cbn; lia].
      + rewrite andb_false_r. cbn [snd resultset set_read_restart]. exists [].
        rewrite app_nil_r. split; [exact Hadded | cbn; lia].
    - exists added.
      destruct (_ && _).
      + destruct (SetPagingStateIfNecessary iter) as [[token|]| |];
          cbn [snd resultset set_read_restart set_paging_state];
          (split; [exact Hadded | exact Hlimit]).
      + cbn [snd resultset set_read_restart]. split; [exact Hadded | exact Hlimit]. }
  destruct (limit request) as [[|l|l]|]; try exact Hfetch. exact Hsame.
Qed.

End ReadInvariants.

Section WriteFacts.

Context {T : QLTypes} {St : QLStorage}.

(** *** The row block of a conditional write *)

Lemma length_set_column (row : list QLValue) (i : nat) (v : QLValue) :
  List.length (set_column row i v) = List.length row.
Proof.
  revert i. induction row as [|x row IH]; intros i; [reflexivity|].
  destruct i; cbn; [reflexivity | now rewrite IH].
Qed.

Lemma length_PopulateRow (table_row : QLTableRow) (column_ids : list ColumnId)
    (i : nat) (row : list QLValue) :
  List.length (snd (PopulateRow table_row column_ids i row)) = List.length row.
Proof.
  revert i row. induction column_ids as [|id column_ids IH]; intros i row; cbn.
  - reflexivity.
  - destruct (GetValue table_row id) as [v| |]; cbn; try reflexivity.
    rewrite IH. apply length_set_column.
Qed.

Lemma ReadColumns_rowblock (request : QLWriteRequestPB) (schema : Schema) (db : DB)
    (table_row : QLTableRow) (s : WriteState) :
  rowblock_ (snd (ReadColumns request schema db table_row s)) = rowblock_ s.
Proof.
  unfold ReadColumns. unfold bind at 1. unfold lift at 1.
  destruct (CreateProjections schema (column_refs_or_default (column_refs request)))
    as [[sp nsp]| |]; try reflexivity.
  unfold bind at 1.
  pose proof (QLFacts.InitializeKeys_state request schema
                (negb (is_nil (columns sp))) (negb (is_nil (columns nsp))) s) as Hk.
  destruct (InitializeKeys request schema
              (negb (is_nil (columns sp))) (negb (is_nil (columns nsp))) s)
    as [[[]| |] s1]; destruct Hk as [_ [_ [Hrb _]]]; try exact Hrb.
  rewrite <- Hrb.
  assert (Hread : forall projection key clear row s2,
             rowblock_ (snd (read_row db projection key clear row s2)) = rowblock_ s2).
  { intros projection key clear row s2.
    unfold read_row, bind, lift, MakeAtLeast_restart, modify, ret.
    destruct (scan_key db projection key) as [it| |]; try reflexivity.
    destruct (HasNext it).
    - destruct (NextRow it projection row) as [[row' it']| |]; reflexivity.
    - destruct clear; reflexivity. }
  unfold bind at 1. unfold get_state at 1.
  unfold bind at 1.
  assert (H1 : exists r s2,
             match hashed_doc_key_ s1 with
             | Some key => read_row db sp key false table_row
             | None => ret table_row
             end s1 = (r, s2) /\ rowblock_ s2 = rowblock_ s1).
  { destruct (hashed_doc_key_ s1) as [key|].
    - pose proof (Hread sp key false table_row s1) as H.
      destruct (read_row db sp key false table_row s1) as [r s2]. eauto.
    - eexists; eexists; split; reflexivity. }
  destruct H1 as [r [s2 [-> Hs2]]].
  destruct r as [row1| |]; try exact Hs2.
  unfold bind at 1.
  assert (H2 : exists r s3,
             match pk_doc_key_ s1 with
             | Some key => read_row db nsp key true row1
             | None => ret row1
             end s2 = (r, s3) /\ rowblock_ s3 = rowblock_ s2).
  { destruct (pk_doc_key_ s1) as [key|].
    - pose proof (Hread nsp key true row1 s2) as H.
      destruct (read_row db nsp key true row1 s2) as [r s3]. eauto.
    - eexists; eexists; split; reflexivity. }
  destruct H2 as [r [s3 [-> Hs3]]].
  destruct r as [row2| |]; unfold ret; cbn [snd]; congruence.
Qed.

(** [PopulateRow] from a column after the first leaves the first value of
    the row as it is. *)
Lemma PopulateRow_cons (table_row : QLTableRow) (column_ids : list ColumnId)
    (i : nat) (x : QLValue) (row : list QLValue) :
  PopulateRow table_row column_ids (S i) (x :: row)
  = (fst (PopulateRow table_row column_ids i row),
     x :: snd (PopulateRow table_row column_ids i row)).
Proof.
  revert i row. induction column_ids as [|id column_ids IH]; intros i row;
    cbn [PopulateRow].
  - reflexivity.
  - destruct (GetValue table_row id) as [v| |]; try reflexivity.
    cbn [set_column]. apply IH.
Qed.

(** X23.  The row block that the check of an IF condition leaves.  When
    the read of the row and the evaluation of the condition return OK,
    the row block is set: its first column is "[applied]", followed by
    the columns of the two projections when the condition does not hold
    and the row read is not empty, and by nothing otherwise; its one row
    starts with the value of the condition and has a value for each
    column, also when a column of the row read could not be copied.
    When the read or the evaluation fails, the failure is returned and
    the row block is left as it was. *)
Theorem IsConditionSatisfied_rowblock (request : QLWriteRequestPB) (schema : Schema)
    (db : DB) (condition : QLConditionPB) (table_row : QLTableRow) (s : WriteState) :
  let result := IsConditionSatisfied request schema db condition table_row s in
  match ReadColumns request schema db table_row s with
  | (Ok (static_projection, non_static_projection, row), _) =>
      match EvalCondition condition row with
      | Ok should_apply =>
          exists names values,
            rowblock_ (snd result)
            = Some {| block_columns := "[applied]"%string :: names;
                      block_rows := [bool_value should_apply :: values] |}
            /\ List.length values = List.length names
            /\ names = (if negb should_apply && negb (IsEmpty row)
                        then projection_names static_projection
                             ++ projection_names non_static_projection
                        else [])
      | Error c => fst result = Error c /\ rowblock_ (snd result) = rowblock_ s
      | Fatal => fst result = Fatal /\ rowblock_ (snd result) = rowblock_ s
      end
  | (Error c, _) => fst result = Error c /\ rowblock_ (snd result) = rowblock_ s
  | (Fatal, _) => fst result = Fatal /\ rowblock_ (snd result) = rowblock_ s
  end.
Proof.
  cbv zeta. unfold IsConditionSatisfied, bind, lift, modify, ret.
  pose proof (ReadColumns_rowblock request schema db table_row s)
    as Hread.
  destruct (ReadColumns request schema db table_row s) as [[[[sp nsp] row]| |] s1];
    cbn [snd fst] in *; try (split; [reflexivity | exact Hread]).
  destruct (EvalCondition condition row) as [should_apply| |];
    cbn [snd fst]; try (split; [reflexivity | exact Hread]).
  destruct (negb should_apply && negb (IsEmpty row)).
  - cbn [map set_column].
    rewrite (PopulateRow_cons row (projection_ids sp) 0).
    set (first := PopulateRow row (projection_ids sp) 0
                    (map (fun _ => null_value)
                       (projection_names sp ++ projection_names nsp))).
    assert (Hlen1 : List.length (snd first)
                    = List.length (projection_names sp ++ projection_names nsp)).
    { subst first. rewrite length_PopulateRow. apply length_map. }
    destruct first as [r1 row1]. cbn [fst snd] in *.
    destruct r1 as [[]| |].
    + change (1 + num_columns sp)%nat with (S (num_columns sp)).
      rewrite (PopulateRow_cons row (projection_ids nsp) (num_columns sp)).
      pose proof (length_PopulateRow row (projection_ids nsp)
                    (num_columns sp) row1) as Hlen2.
      destruct (PopulateRow row (projection_ids nsp) (num_columns sp) row1)
        as [r2 row2]. cbn [fst snd] in *.
      exists (projection_names sp ++ projection_names nsp), row2.
      split; [destruct r2 as [[]| |]; reflexivity|].
      split; [congruence | reflexivity].
    + exists (projection_names sp ++ projection_names nsp), row1.
      split; [reflexivity|]. split; [exact Hlen1 | reflexivity].
    + exists (projection_names sp ++ projection_names nsp), row1.
      split; [reflexivity|]. split; [exact Hlen1 | reflexivity].
  - exists [], []. split; [reflexivity|]. split; reflexivity.
Qed.

(** *** DELETE *)

(** X24.  A DELETE that names columns: one [DeleteSubDoc] for each of them, in
    the order of the request, at the user timestamp of the request, on
    the hashed key for a static column and on the primary key for any
    other; the row and its liveness column get no tombstone. *)
Theorem delete_named_columns (request : QLWriteRequestPB) (schema : Schema) (db : DB)
    (s : WriteState) (ops : list WriteOp) :
  type request = QL_STMT_DELETE ->
  if_expr request = None ->
  RequireReadForExpressions request = false ->
  column_values request <> [] ->
  Forall2
    (fun column_value op =>
       exists id column path,
         column_id column_value = Some id
         /\ column_by_id schema id = Ok column
         /\ (if is_static column then hashed_doc_path_ s else pk_doc_path_ s)
            = Some path
         /\ op = DeleteSubDoc {| encoded_doc_key := encoded_doc_key path;
                                 path_subkeys := [ColumnIdKey id] |}
                   (user_timestamp_of request))
    (column_values request) ops ->
  (forall b o, batch_status b o = Ok tt) ->
  Apply request schema db s
  = (Ok tt, set_status_OK (set_batch (doc_write_batch s ++ ops) s)).
Proof.
  intros Htype Hif Hread Hcols Hops Hacc.
  unfold Apply, read_current_row. rewrite Hif, Hread.
  unfold bind at 1. unfold ret at 1. rewrite Htype.
  unfold apply_delete.
  destruct (column_values request) as [|cv cvs] eqn:Hvalues; [congruence|].
  cbn [is_nil negb]. clear Hcols Hvalues.
  assert (Hloop : forall b,
             for_each_until (cv :: cvs)
               (delete_column schema (user_timestamp_of request)) (set_batch b s)
             = (Ok Continue, set_batch (b ++ ops) s)).
  { induction Hops as [|column_value op l ops' Hop Hrest IH]; intros b.
    - cbn. now rewrite app_nil_r.
    - destruct Hop as [id [column [path [Hid [Hcol [Hpath ->]]]]]].
      cbn [for_each_until]. unfold bind at 1.
      unfold delete_column at 1. rewrite Hid.
      unfold bind at 1. unfold lift at 1. rewrite Hcol.
      unfold bind at 1. unfold column_doc_key.
      unfold bind at 1. unfold get_state at 1.
      change (hashed_doc_path_ (set_batch b s)) with (hashed_doc_path_ s).
      change (pk_doc_path_ (set_batch b s)) with (pk_doc_path_ s).
      rewrite Hpath. unfold bind at 1. unfold deref, ret at 1. unfold ret at 1.
      unfold bind at 1. rewrite (QLFacts.write_accepted _ _ (Hacc _ _)).
      unfold ret at 1. cbn [doc_write_batch set_batch].
      rewrite QLFacts.set_batch_twice, IH, <- app_assoc. reflexivity. }
  pose proof (Hloop (doc_write_batch s)) as Hrun.
  replace (set_batch (doc_write_batch s) s) with s in Hrun by (destruct s; reflexivity).
  unfold bind at 1. rewrite Hrun. reflexivity.
Qed.

(** *** The projections *)

Lemma set_insert_In (id x : ColumnId) (ids : list ColumnId) :
  In x (set_insert id ids) <-> x = id \/ In x ids.
Proof.
  induction ids as [|y ids IH]; cbn [set_insert In].
  - intuition.
  - destruct (id <? y) eqn:Hlt; [cbn [In]; intuition|].
    destruct (id =? y) eqn:Heq.
    + apply Z.eqb_eq in Heq. subst. cbn [In]. intuition.
    + cbn [In]. rewrite IH. intuition.
Qed.

Lemma set_insert_ascending (id : ColumnId) (ids : list ColumnId) :
  ascending ids -> ascending (set_insert id ids).
Proof.
  induction ids as [|y ids IH]; cbn [set_insert ascending].
  - intros _. split; [constructor | exact I].
  - intros [Hy Hids].
    destruct (id <? y) eqn:Hlt.
    + apply Z.ltb_lt in Hlt. cbn [ascending]. split; [|split; assumption].
      constructor; [exact Hlt|].
      eapply Forall_impl; [|exact Hy]. intros a Ha. cbv beta in *. lia.
    + destruct (id =? y) eqn:Heq.
      * cbn [ascending]. split; assumption.
      * apply Z.ltb_ge in Hlt. apply Z.eqb_neq in Heq.
        cbn [ascending]. split; [|apply IH; exact Hids].
        apply Forall_forall. intros x Hx. apply set_insert_In in Hx.
        destruct Hx as [-> | Hx]; [lia|].
        rewrite Forall_forall in Hy. apply Hy. exact Hx.
Qed.

Lemma ascending_filter (keep : ColumnId -> bool) (ids : list ColumnId) :
  ascending ids -> ascending (filter keep ids).
Proof.
  induction ids as [|y ids IH]; cbn [filter ascending]; [auto|].
  intros [Hy Hids]. destruct (keep y); [|auto].
  cbn [ascending]. split; [|auto].
  apply Forall_forall. intros x Hx. apply filter_In in Hx.
  rewrite Forall_forall in Hy. apply Hy. tauto.
Qed.

Lemma insert_all (keep : ColumnId -> bool) (ids acc : list ColumnId) :
  let inserted :=
    fold_left (fun acc id => if keep id then set_insert id acc else acc) ids acc in
  (ascending acc -> ascending inserted)
  /\ forall x, In x inserted <-> In x acc \/ (In x ids /\ keep x = true).
Proof.
  revert acc. induction ids as [|id ids IH]; intros acc; cbn [fold_left In].
  - split; [auto | intuition].
  - specialize (IH (if keep id then set_insert id acc else acc)).
    cbv zeta in IH. destruct IH as [Hasc Hin]. split.
    + intros H. apply Hasc. destruct (keep id); [apply set_insert_ascending|]; exact H.
    + intros x. rewrite Hin. destruct (keep id) eqn:Hkeep.
      * rewrite set_insert_In. intuition. subst. auto.
      * intuition. subst. congruence.
Qed.

Lemma projection_ids_by_ids (schema : Schema) (ids : list ColumnId)
    (projection : Schema) :
  CreateProjectionByIdsIgnoreMissing schema ids = Ok projection ->
  projection_ids projection = filter (has_column schema) ids.
Proof.
  unfold CreateProjectionByIdsIgnoreMissing. intros H. injection H as <-.
  unfold projection_ids. cbn [columns].
  induction ids as [|id ids IH]; [reflexivity|].
  cbn [flat_map filter]. rewrite map_app, IH. unfold has_column.
  destruct (find_column id (columns schema) 0) as [[i c]|]; reflexivity.
Qed.

(** X25.  [CreateProjections] returns OK.  The static projection holds the
    static columns referred to, and the other projection the columns
    referred to that are not key columns, as far as the schema has them;
    each projection holds them once, in ascending order of the ids. *)
Theorem CreateProjections_columns (schema : Schema)
    (column_refs : QLReferencedColumnsPB) :
  exists static_projection non_static_projection,
    CreateProjections schema column_refs
    = Ok (static_projection, non_static_projection)
    /\ ascending (projection_ids static_projection)
    /\ ascending (projection_ids non_static_projection)
    /\ (forall id, In id (projection_ids static_projection)
                   <-> In id (static_ids column_refs) /\ has_column schema id = true)
    /\ (forall id, In id (projection_ids non_static_projection)
                   <-> In id (ids column_refs)
                       /\ is_key_column schema id = false
                       /\ has_column schema id = true).
Proof.
  unfold CreateProjections.
  pose proof (insert_all (fun id => negb (is_key_column schema id))
                (ids column_refs) []) as Hnon.
  pose proof (insert_all (fun _ => true) (static_ids column_refs) []) as Hstatic.
  cbv zeta in Hnon, Hstatic.
  set (non_static_columns :=
         fold_left (fun acc id => if negb (is_key_column schema id)
                                  then set_insert id acc else acc)
           (ids column_refs) []) in *.
  set (static_columns :=
         fold_left (fun acc id => if true then set_insert id acc else acc)
           (static_ids column_refs) []) in *.
  change (fold_left (fun acc id => set_insert id acc) (static_ids column_refs) [])
    with static_columns.
  destruct Hnon as [Hnon_asc Hnon_in]. destruct Hstatic as [Hst_asc Hst_in].
  destruct (CreateProjectionByIdsIgnoreMissing schema static_columns)
    as [sp| |] eqn:Hsp; try discriminate Hsp.
  destruct (CreateProjectionByIdsIgnoreMissing schema non_static_columns)
    as [nsp| |] eqn:Hnsp; try discriminate Hnsp.
  exists sp, nsp. cbn [rbind].
  rewrite (projection_ids_by_ids _ _ _ Hsp), (projection_ids_by_ids _ _ _ Hnsp).
  split; [reflexivity|].
  split; [apply ascending_filter, Hst_asc; exact I|].
  split; [apply ascending_filter, Hnon_asc; exact I|].
  split; intros id; rewrite filter_In.
  - rewrite Hst_in. cbn [In]. intuition.
  - rewrite Hnon_in. cbn [In]. rewrite negb_true_iff. intuition.
Qed.

(** *** The range delete, INSERT and UPDATE *)

Lemma last_default {A} (l : list A) (x d d' : A) :
  last (x :: l) d = last (x :: l) d'.
Proof.
  revert x. induction l as [|y l IH]; intros x; [reflexivity|].
  change (last (y :: l) d = last (y :: l) d'). apply IH.
Qed.

Lemma range_delete_loop (request : QLWriteRequestPB) (schema projection : Schema)
    (s : WriteState) :
  (forall b o, batch_status b o = Ok tt) ->
  forall (rows : list IteratorRow) (it : RowwiseIterator) (b : DocWriteBatch),
    pending it = rows ->
    rows_readable request projection rows ->
    exists it',
      while_HasNext (List.length rows) (delete_matching_row schema request projection)
        it (set_batch b s)
      = (Ok it', set_batch (b ++ range_delete_ops request schema projection rows) s)
      /\ RestartReadHt it' = hint_after it.
Proof.
  intros Hacc rows. induction rows as [|r rows IH]; intros it b Hpending Hrows.
  - exists it. cbn [List.length while_HasNext range_delete_ops flat_map].
    rewrite app_nil_r. split; [reflexivity|].
    unfold hint_after. rewrite Hpending. reflexivity.
  - cbn [List.length while_HasNext]. unfold HasNext. rewrite Hpending.
    cbn [is_nil negb].
    inversion Hrows as [|? ? [row [matched [Hrow Hmatch]]] Hrest]; subst.
    unfold bind at 1. unfold delete_matching_row at 1.
    unfold bind at 1. unfold lift at 1. unfold NextRow. rewrite Hpending, Hrow.
    cbn [rbind]. unfold bind at 1. unfold lift at 1. rewrite Hmatch.
    set (it1 := {| pending := rows; row_key := Some (next_row_key r);
                   restart_read_ht_of := next_restart_read_ht r;
                   paging_state_of := paging_state_of it |}).
    assert (Hhint : hint_after it1 = hint_after it).
    { unfold hint_after. rewrite Hpending. cbn [pending it1 restart_read_ht_of map].
      destruct rows as [|r' rows']; [reflexivity|].
      cbn [map].
      change (last (next_restart_read_ht r :: next_restart_read_ht r'
                    :: map next_restart_read_ht rows') (restart_read_ht_of it))
        with (last (next_restart_read_ht r' :: map next_restart_read_ht rows')
                (restart_read_ht_of it)).
      apply last_default. }
    cbn [range_delete_ops flat_map]. rewrite Hrow, Hmatch.
    fold (range_delete_ops request schema projection rows).
    destruct matched.
    + unfold bind at 1. cbn [row_key it1].
      rewrite (QLFacts.DeleteRow_accepted schema request _ _ Hacc).
      fold (delete_row_ops request schema (DocPath_of (next_row_key r))).
      unfold ret at 1. cbn [doc_write_batch set_batch].
      rewrite QLFacts.set_batch_twice.
      destruct (IH it1 (b ++ delete_row_ops request schema (DocPath_of (next_row_key r)))
                  eq_refl Hrest) as [it' [Hloop Hit']].
      exists it'. rewrite Hloop, <- app_assoc, Hit', Hhint. split; reflexivity.
    + unfold bind at 1. unfold ret at 1. unfold ret at 1.
      destruct (IH it1 b eq_refl Hrest) as [it' [Hloop Hit']].
      exists it'. rewrite Hloop, Hit', Hhint. split; reflexivity.
Qed.

(** X26.  A range delete (a DELETE that names no column, on a table with range
    columns of which the request gives none) that needs no read for an IF
    clause or a column reference: the rows of the hash key are scanned,
    each row that the WHERE condition matches is deleted as [DeleteRow]
    does, in the order of the scan, and the restart hint is raised to
    the one of the iterator after its last row. *)
Theorem range_delete_matching_rows (request : QLWriteRequestPB) (schema : Schema)
    (db : DB) (s : WriteState) (projections : Schema * Schema)
    (hashed_components : list PrimitiveValue) (iterator : RowwiseIterator) :
  type request = QL_STMT_DELETE ->
  if_expr request = None ->
  RequireReadForExpressions request = false ->
  column_values request = [] ->
  IsRangeOperation request schema = true ->
  CreateProjections schema (column_refs_or_default (column_refs request))
  = Ok projections ->
  QLKeyColumnValuesToPrimitiveValues (hashed_column_values request) schema 0
    (num_hash_key_columns schema) = Ok hashed_components ->
  scan_range db (snd projections) (hash_code_or_default request) hashed_components
    (where_expr request) = Ok iterator ->
  rows_readable request (snd projections) (pending iterator) ->
  (forall b o, batch_status b o = Ok tt) ->
  Apply request schema db s
  = (Ok tt,
     set_status_OK
       (set_restart_read_ht
          (MakeAtLeast (restart_read_ht s) (hint_after iterator))
          (set_batch
             (doc_write_batch s
              ++ range_delete_ops request schema (snd projections) (pending iterator))
             s))).
Proof.
  intros Htype Hif Hread Hcols Hrange Hproj Hhashed Hscan Hrows Hacc.
  unfold Apply, read_current_row. rewrite Hif, Hread.
  unfold bind at 1. unfold ret at 1. rewrite Htype.
  unfold apply_delete. rewrite Hcols, Hrange. cbn [is_nil negb].
  unfold bind at 1. unfold bind at 1. unfold lift at 1. rewrite Hproj.
  unfold bind at 1. unfold lift at 1. rewrite Hhashed.
  unfold bind at 1. unfold lift at 1. rewrite Hscan.
  destruct (range_delete_loop request schema (snd projections) s Hacc
              (pending iterator) iterator (doc_write_batch s) eq_refl Hrows)
    as [it' [Hloop Hit']].
  replace (set_batch (doc_write_batch s) s) with s in Hloop
    by (destruct s; reflexivity).
  unfold bind at 1. rewrite Hloop.
  unfold bind at 1. unfold MakeAtLeast_restart, modify. rewrite Hit'.
  unfold ret at 1. unfold modify. reflexivity.
Qed.

(** X27.  An INSERT or UPDATE of scalar values that needs no read: an INSERT
    first writes the liveness column of the row, an UPDATE does not; then
    the value of each column is inserted, in the order of the request,
    and the status of the response is OK. *)
Theorem write_scalar_columns (request : QLWriteRequestPB) (schema : Schema) (db : DB)
    (s : WriteState) (ops : list WriteOp) :
  type request <> QL_STMT_DELETE ->
  if_expr request = None ->
  RequireReadForExpressions request = false ->
  Forall2 (scalar_column_write request schema s) (column_values request) ops ->
  (forall b o, batch_status b o = Ok tt) ->
  Apply request schema db s
  = (Ok tt,
     set_status_OK (set_batch (doc_write_batch s ++ liveness_ops request s ++ ops) s)).
Proof.
  intros Htype Hif Hread Hops Hacc.
  unfold Apply, read_current_row. rewrite Hif, Hread.
  unfold bind at 1. unfold ret at 1.
  assert (Hupsert :
            apply_insert_or_update request schema new_row s
            = (Ok Continue,
               set_batch (doc_write_batch s ++ liveness_ops request s ++ ops) s)).
  { unfold apply_insert_or_update. unfold bind at 1.
    assert (Hlive : write_liveness_column request s
                    = (Ok tt, set_batch (doc_write_batch s ++ liveness_ops request s) s)).
    { unfold write_liveness_column, liveness_ops, bind, get_state.
      destruct (type request); destruct (pk_doc_path_ s) as [p|];
        try (unfold ret; rewrite app_nil_r; destruct s; reflexivity).
      apply QLFacts.write_accepted. apply Hacc. }
    rewrite Hlive.
    assert (Hloop : forall b,
               for_each_until (column_values request)
                 (apply_column_value schema new_row (ttl request)
                    (user_timestamp_of request)) (set_batch b s)
               = (Ok Continue, set_batch (b ++ ops) s)).
    { induction Hops as [|column_value op l ops' Hop Hrest IH]; intros b.
      - cbn. now rewrite app_nil_r.
      - destruct Hop as [id [column [path [value [Hid [Hcol [Hpath [Hsub [Heval
                                                                    [Hinstr ->]]]]]]]]]].
        cbn [for_each_until]. unfold bind at 1.
        unfold apply_column_value at 1. rewrite Hid.
        unfold bind at 1. unfold lift at 1. rewrite Hcol.
        unfold bind at 1. unfold column_doc_key.
        unfold bind at 1. unfold get_state at 1.
        change (hashed_doc_path_ (set_batch b s)) with (hashed_doc_path_ s).
        change (pk_doc_path_ (set_batch b s)) with (pk_doc_path_ s).
        rewrite Hpath. unfold bind at 1. unfold deref, ret at 1. unfold ret at 1.
        unfold bind at 1. unfold lift at 1. rewrite Heval, Hsub, Hinstr.
        cbn [is_nil]. unfold bind at 1.
        rewrite (QLFacts.write_accepted _ _ (Hacc _ _)).
        unfold ret at 1. cbn [doc_write_batch set_batch].
        rewrite QLFacts.set_batch_twice, IH, <- app_assoc. reflexivity. }
    rewrite Hloop, app_assoc. reflexivity. }
  destruct (type request); try congruence; unfold bind at 1; rewrite Hupsert;
    reflexivity.
Qed.

(** X28.  An UPDATE without user timestamp whose first column value sets an
    element of a list, when the write batch refuses the index with a QL
    error: [Apply] returns OK, the response has the status of a usage
    error and the message of the error, nothing is written, the column
    values that follow are not applied, and the status is not set to
    OK. *)
Theorem list_index_out_of_bounds (request : QLWriteRequestPB) (schema : Schema)
    (db : DB) (s : WriteState) (column_value : QLColumnValuePB)
    (rest : list QLColumnValuePB) (id : ColumnId) (column : ColumnSchema)
    (path : DocPath) (value : QLValue) (subscript : QLExpressionPB)
    (subscripts : list QLExpressionPB) :
  type request = QL_STMT_UPDATE ->
  if_expr request = None ->
  RequireReadForExpressions request = false ->
  user_timestamp_usec request = None ->
  column_values request = column_value :: rest ->
  column_id column_value = Some id ->
  column_by_id schema id = Ok column ->
  main_type column = LIST ->
  (if is_static column then hashed_doc_path_ s else pk_doc_path_ s) = Some path ->
  subscript_args column_value = subscript :: subscripts ->
  EvalExpr (expr column_value) new_row null_value = Ok value ->
  batch_status (doc_write_batch s)
    (ReplaceInList
       {| encoded_doc_key := encoded_doc_key path; path_subkeys := [ColumnIdKey id] |}
       [wrap32 (int32_value (match expr_value subscript with
                             | Some v => v
                             | None => null_value
                             end) + 1)]
       [SubDocument_FromQLValuePB value column
          (GetTSWriteInstruction (expr column_value))]
       (default_time_to_live schema) (ttl request))
  = Error QLError ->
  Apply request schema db s
  = (Ok tt,
     set_response {| status := Some YQL_STATUS_USAGE_ERROR;
                     error_message := Some QLError |} s).
Proof.
  intros Htype Hif Hread Htime Hvalues Hid Hcol Hlist Hpath Hsub Heval Hrefused.
  unfold Apply, read_current_row. rewrite Hif, Hread.
  unfold bind at 1. unfold ret at 1. rewrite Htype.
  unfold apply_insert_or_update. unfold bind at 1. unfold bind at 1.
  unfold write_liveness_column, bind, get_state. rewrite Htype.
  unfold ret at 1. rewrite Hvalues. cbn [for_each_until].
  unfold bind at 1. unfold apply_column_value at 1. rewrite Hid.
  unfold bind at 1. unfold lift at 1. rewrite Hcol.
  unfold bind at 1. unfold column_doc_key, bind, get_state.
  rewrite Hpath. unfold deref, ret at 1. unfold ret at 1.
  unfold lift at 1. rewrite Heval, Hsub. cbn [is_nil].
  unfold user_timestamp_of, CheckUserTimestampForCollections. rewrite Htime.
  rewrite Z.eqb_refl. cbn [negb]. unfold lift at 1.
  rewrite Hlist. unfold write. rewrite Hrefused. reflexivity.
Qed.

End WriteFacts.

(** *** Runs on the small table *)

Local Open Scope string_scope.

#[local] Existing Instance simple_types.

Lemma delete_named_columns_witness :
  Apply (St := simple_storage) column_delete simple_schema stored_row
    (initialized column_delete)
  = (Ok tt,
     set_status_OK
       (set_batch
          [DeleteSubDoc {| encoded_doc_key := simple_row_key;
                           path_subkeys := [ColumnIdKey 3] |} 100;
           DeleteSubDoc {| encoded_doc_key := simple_hashed_key;
                           path_subkeys := [ColumnIdKey 2] |} 100]
          (initialized column_delete))).
Proof.
  apply (delete_named_columns (St := simple_storage) column_delete simple_schema stored_row
           (initialized column_delete)
           [DeleteSubDoc {| encoded_doc_key := simple_row_key;
                            path_subkeys := [ColumnIdKey 3] |} 100;
            DeleteSubDoc {| encoded_doc_key := simple_hashed_key;
                            path_subkeys := [ColumnIdKey 2] |} 100]
           eq_refl eq_refl eq_refl).
  - discriminate.
  - constructor; [|constructor; [|constructor]].
    + exists 3, (simple_column "v" false),
        {| encoded_doc_key := simple_row_key; path_subkeys := [] |}.
      repeat split; reflexivity.
    + exists 2, (simple_column "s" true),
        {| encoded_doc_key := simple_hashed_key; path_subkeys := [] |}.
      repeat split; reflexivity.
  - intros b o. reflexivity.
Defined.

Lemma range_delete_matching_rows_witness :
  Apply (St := range_storage) range_delete simple_schema tt (initialized range_delete)
  = (Ok tt,
     set_status_OK
       (set_restart_read_ht (Some 6)
          (set_batch
             [DeleteSubDoc
                (DocPath_of (@Build_DocKey simple_types (Some (0, [Some 1])) [Some 3]))
                kInvalidUserTimestamp]
             (initialized range_delete)))).
Proof.
  apply (range_delete_matching_rows (St := range_storage) range_delete simple_schema tt
           (initialized range_delete)
           (@Build_Schema [] 0 0 None, @Build_Schema [] 0 0 None)
           [Some 1]
           (simple_iterator [keyed_row 2 (Some 5); keyed_row 3 (Some 6)] None)
           eq_refl eq_refl eq_refl eq_refl eq_refl eq_refl eq_refl eq_refl).
  - repeat constructor; eexists; eexists; split; reflexivity.
  - intros b o. reflexivity.
Defined.

Lemma write_scalar_columns_witness :
  Apply (St := simple_storage) scalar_insert simple_schema stored_row
    (initialized scalar_insert)
  = (Ok tt,
     set_status_OK
       (set_batch
          [SetPrimitive {| encoded_doc_key := simple_row_key;
                           path_subkeys := [SystemColumnIdKey kLivenessColumn] |}
             {| value_ttl := None; value_user_timestamp := kInvalidUserTimestamp |};
           InsertSubDocument {| encoded_doc_key := simple_row_key;
                                path_subkeys := [ColumnIdKey 3] |}
             (Some 5) None kInvalidUserTimestamp;
           InsertSubDocument {| encoded_doc_key := simple_hashed_key;
                                path_subkeys := [ColumnIdKey 2] |}
             (Some 4) None kInvalidUserTimestamp]
          (initialized scalar_insert))).
Proof.
  apply (write_scalar_columns (St := simple_storage) scalar_insert simple_schema
           stored_row (initialized scalar_insert)
           [InsertSubDocument {| encoded_doc_key := simple_row_key;
                                 path_subkeys := [ColumnIdKey 3] |}
              (Some 5) None kInvalidUserTimestamp;
            InsertSubDocument {| encoded_doc_key := simple_hashed_key;
                                 path_subkeys := [ColumnIdKey 2] |}
              (Some 4) None kInvalidUserTimestamp]).
  - discriminate.
  - reflexivity.
  - reflexivity.
  - constructor; [|constructor; [|constructor]].
    + exists 3, (simple_column "v" false),
        {| encoded_doc_key := simple_row_key; path_subkeys := [] |}, (Some 5).
      repeat split; reflexivity.
    + exists 2, (simple_column "s" true),
        {| encoded_doc_key := simple_hashed_key; path_subkeys := [] |}, (Some 4).
      repeat split; reflexivity.
  - intros b o. reflexivity.
Defined.

Lemma list_index_out_of_bounds_witness :
  let s := snd (Init list_update list_schema
                  (new_operation [] None)) in
  Apply (St := refusing_storage) list_update list_schema tt s
  = (Ok tt,
     set_response {| status := Some YQL_STATUS_USAGE_ERROR;
                     error_message := Some QLError |} s).
Proof.
  intros s.
  exact (list_index_out_of_bounds (St := refusing_storage) list_update list_schema tt s
           (simple_column_value 4 [Constant kScalarInsert 9] (Constant kScalarInsert 5))
           [simple_column_value 3 [] (Constant kScalarInsert 1)]
           4 {| name := "l"; is_static := false; main_type := LIST |}
           {| encoded_doc_key := simple_row_key; path_subkeys := [] |}
           (Some 5) (Constant kScalarInsert 9) []
           eq_refl eq_refl eq_refl eq_refl eq_refl eq_refl eq_refl eq_refl eq_refl
           eq_refl eq_refl eq_refl).
Defined.

End QLOperationFacts.
